(* ===== verification/_CoqProject ===== *)
-Q . S2P
Prelude.v
Float64.v
GoError.v
GoStr.v
GoTime.v
GoRegexp.v
GoReflect.v
GoJSON.v
Registry.v
Window.v
ResilientConfig.v
Breaker.v
Budget.v
Backoff.v
Bulkhead.v
Client.v
Transport.v
Drain.v
KafkaMessage.v
KafkaConsumer.v
Group.v
KafkaMetrics.v
RdKafka.v
Franz.v
KafkaConfig.v
FranzConfig.v
RdConfig.v
Conformance.v
Pgx.v
Dsn.v
Migrate.v
Domain.v
Database.v
Store.v
Paging.v
Relay.v
Worker.v
Wire.v
Cursor.v
EndToEnd.v
Cache.v
Valkey.v
Health.v
LogLevel.v
RdClient.v
Sampling.v
Logger.v
Problem.v
ClientAddr.v
KafkaClients.v
Middleware.v
Redact.v
Boot.v
Otelx.v
Server.v
Exposed.v
ServiceConfig.v
TasksConfig.v
ConsumerConfig.v
HeartbeatConfig.v
Mains.v
Waits.v
Api.v
Routes.v
Bodies.v
