(* ===== verification/Prelude.v ===== *)
(** * Verification of golang-basics

    The repository is a Go monorepo of shared libraries and four small services.
    This development models the parts that carry its own logic and proves what
    makes them correct. Integers are [Z], with the wrap-around of a width written
    out where the code can reach it; instants and durations are nanoseconds in
    [Z]; what the environment decides (a clock, a random draw, a broker's answer,
    a failing statement) is an argument of the definition that meets it.

    ** The program

    - libs/resilient-http-client: an HTTP client with, per target, a bulkhead, a
      retry budget and a circuit breaker around bounded retries with full jitter,
      and a shutdown that waits for the requests in flight.
    - libs/kafka: producer and consumer over a driver. The consumer polls, hands
      each record to a handler with bounded retries, parks what cannot be handled
      on a dead-letter topic and commits offsets only of finished records, across
      rebalances.
    - libs/valkey: a cache with tombstones and the cache-aside pattern.
    - libs/kafka-rdkafka, libs/kafka-franz: the two drivers.
    - libs/pgx: the PostgreSQL pool, its query metrics, and schema migrations that
      every replica runs when it boots.
    - libs/httpx: the HTTP server side. A chain of middleware around the router
      (request ids, client addresses, deadlines, spans, access lines, metrics,
      recovery), health checks in the background, an admin listener, a log level
      that can be changed for a while, sampling, and a run that binds, serves and
      drains both listeners.
    - services/tasks: a task service. HTTP handlers over a PostgreSQL store (every
      change also writes an event to an outbox table, in one transaction), a read
      cache, and a relay that publishes the outbox to Kafka.
    - services/consumer: applies those events, each once, with a bounded memory of
      the event ids it has applied. services/heartbeat and services/ping are examples.
    - libs/otelx: tracing. Every service boots the same way (flags, layers of
      configuration, a reference of it with the secrets masked), opens what it needs,
      serves, and releases it in reverse.

    ** The files

    - [Prelude]: machine integers, tactics, lemmas on lists shared by all.
    - [Float64]: IEEE double arithmetic, as the breaker and the budget use it.
    - [GoError], [GoStr]: error trees ([errors.Is], [errors.As]); bytes, UTF-8,
      [strings.TrimSpace], [strconv] with their round trips. [GoRegexp]: regular
      expressions by derivatives. [GoReflect]: values as package reflect sees them.
      [GoTime]: the calendar and the RFC 3339 text of an instant. [GoJSON]: the texts of
      encoding/json, written and read back.
    - [Registry]: metric registries as a class, with what the client library documents
      of descriptors that clash.
    - [Window], [Breaker], [Budget], [Bulkhead], [Backoff], [ResilientConfig]: the
      files of the same names of libs/resilient-http-client (and config.go with
      validate.go). The breaker is also a step machine over its atomic operations
      (module [Conc]), the bulkhead one over its channel.
    - [Client]: client.go, [send] with every path of [attempt]; [Drain]: the
      in-flight count and [Shutdown] as a step machine. [Transport]: transport.go,
      metrics.go and [New]: redirects, the pool, the registered families, the targets.
    - [KafkaMessage]: message.go, errors.go, producer.go; [KafkaConsumer]:
      consumer.go; [Group]: histories of the members of one group over the offsets the
      broker keeps; [Conformance]: the scenarios of kafkatest run on the consumer loop;
      [KafkaConfig]: config.go and the sizes of kafka-franz/config.go;
      [KafkaMetrics]: what metrics.go counts and the one linked driver of driver.go;
      [KafkaClients]: building either client over the class [Driver], one attempt of a
      handler, the throttled fetch errors, and the dead-letter producer of the librdkafka
      driver. [FranzConfig]: the options of
      kafka-franz/config.go and the partitions its consumer holds.
    - [RdKafka]: kafka-rdkafka/rdkafka.go: errors and [Send] ([RdSend]), replacing and
      closing the producer ([RdProducer]) and closing the consumer ([RdClose]) as step
      machines, [Poll] and [Commit] ([RdConsumer]). [RdConfig]: its config.go.
      [RdClient]: its client.go. [Franz]: kafka-franz/franz.go and stats.go.
    - [Pgx]: libs/pgx pgx.go, config.go, metrics.go. [Dsn]: the connection string, with
      the escaping and parsing of net/url. [Migrate]: its migrate.go, the
      runs of any number of replicas as a step machine over their transactions.
    - [Domain]: services/tasks/internal/domain. [Database]: the tables of the
      migration, transactions with faults, [Enqueue]. [Store]: the repository's
      operations. [Paging]: [List]. [Relay]: outbox/relay.go and the system of store
      and relay together.
    - [Worker]: the consumer service's LRU and handler. [Wire]: the text of an event from
      the contracts to the worker, over the class [Jsonb] of what the database may do to
      it. [Cursor]: the text of a page's cursor. [EndToEnd]: outbox, broker, group and
      worker together.
    - [Cache]: libs/valkey's commands, [Aside], the tasks cache, and the races of one
      key as a step relation. [Valkey]: its configuration, start and metrics.
    - [Health]: libs/httpx/health.go as a machine over its atomic steps. [LogLevel]:
      loglevel.go, its timers and admin endpoints. [Sampling]: sampling.go. [Logger]:
      logging.go. [ClientAddr]: the address, request id and deadline of a request.
      [Middleware]: the chain of middleware.go around the router. [Server]: config.go,
      admin.go and the run of httpx.go. [Redact]: redact.go. [Boot]: boot.go,
      config_yaml.go and version.go. [Exposed]: [NewServer], GET /admin/config and the
      collectors of every library and service. [Otelx]: libs/otelx.
    - [ServiceConfig], [TasksConfig], [ConsumerConfig], [HeartbeatConfig]: the
      configurations of the services, over the class [Checks] of the libraries'
      validations. [Mains]: their main.go: boot with its releases ([Process]), and
      goroutines that stop together as a step machine ([Mains.Group]). [Waits]: the selects
      of sleeps, probes and bounded waits over the libraries.
    - [Problem]: libs/httpx/problem.go. [Api]: the tasks handlers, proved against the
      classes [TaskStore], [StoreLaws] and [TaskCache], which the store implements.
      [Routes]: http.ServeMux and what the tasks and ping services register on it.
      [Bodies]: the JSON of the requests and responses of the tasks API.

    ** What is shown

    - Tasks and events: the tasks table is the strict replay of the committed
      events; a change and its event commit together or not at all; no committed
      event is lost by the relay and none is made up; without rejections the events of
      one task reach the broker in commit order (those of different tasks need not: the
      outbox is sorted by numbers given at the INSERT); with everything up the outbox
      drains; a rejected row is accounted for and waits at most an hour; repeating a
      create under one key creates once; a conditional change never overwrites another;
      walking the pages sees every task that stays, once.
    - From a change to its effect: across store, relay, broker, a group whose members
      come, go and crash, and the worker that decodes the text of the record, every
      committed event waits in the outbox or in the topic or was applied, nothing else is
      applied, and a worker with room for the ids applies none twice in its life. The
      broker keeps what it acknowledged; the driver keeps the law of [Group] below.
    - Kafka consumer: a commit covers only finished records of owned partitions; whatever
      the members of a group do, every record below a committed offset was finished by one
      of them, and a clean stop commits all that was processed; the loop meets the scenarios
      of the conformance suite; a record is disposed of in bounded steps; dead-letter records
      keep what they were; configurations that pass validation can run. The law of the
      driver behind the group ([Group.polls_in_order], [Group.calm]): it assigns nothing
      while a batch is processed, and its polls return the records of a partition that is
      held from the committed offset on, in order, leaving out only offsets that hold no
      record. The librdkafka driver breaks it for a partition that is revoked and assigned
      again within one poll ([RdKafka.RdConsumer.reassigned_record_never_handled]).
    - Kafka drivers: no call is ever inside a librdkafka client that was destroyed,
      whatever the interleaving of sends, pings, replacements and closing of the producer,
      and, of the consumer, for polls, commits and a close made one after another as the
      loop makes them, with pings at any time; closing ends; extra properties never change
      what a named setting decides, under any name librdkafka has for it; a poll returns the
      records in order; the error counter is the sum of what each broker's count grew;
      folding log lines loses no count; both drivers reject the same errors.
    - Database: whatever number of replicas boot together and whatever fails, the
      migrations executed are a prefix of all, each once, and recorded; what is loaded
      is every .sql file in strict order; a pool that is not returned is closed; every
      query is counted once under a label of a fixed set.
    - Consumer service: the LRU is the recency list cut at its size, so a
      redelivered event is not applied twice within it.
    - Cache: a hit is never older than the newest change whose invalidation
      succeeded, for any number of replicas, as long as a load fills within the life
      of a tombstone.
    - HTTP client: probes and slots are bounded under every interleaving, the
      breaker's changes form a path, windows sum their log, retries stay within the
      budget, every path of [send] gives back what it took, [send] returns and its
      waits are bounded, a shutdown that returns has drained.
    - HTTP server: every request leaves one span, one access line and one count,
      however it ends; a panic becomes a problem and goes no further; a client cannot
      forge the address it is known by; a check is evaluated by one goroutine at a time
      and a pass ends even if no check does; the probe's verdict follows from the
      results; a changed log level ends when it should and no stale timer ends a newer
      change; sampling passes exactly its quota; the admin surface needs a credential with
      the digest of its token; the effects of a run are a life that [Server.live] allows,
      from binding over readiness, delay and drain until everything is down.
    - HTTP: error responses are valid and never carry the cause; one of two changes
      made under one ETag succeeds; a request reaches the handler of its route, another
      method of a known path is refused, and safe methods change nothing.
    - Texts: events, cursors, request bodies, connection strings and instants are read
      back as what was written.
    - Processes: what an operator is shown of a configuration, and so GET /admin/config,
      does not depend on its secrets, which [Redact.Policy] names apart from the code; each
      setting comes from the highest layer that has
      it; a process exits with the status its flags and its configuration call for; a
      configuration a service starts with keeps the libraries within what they need; the
      workers of the tasks service outlive its server unless they fail, and what it opened
      is released in reverse whatever failed; every
      service can register what it exposes, whatever it is configured with; the tracing
      error log is throttled under every interleaving of its callers.
    - Waits: a sleep, a probe or a bounded wait returns by its limit or by the end of its
      context, and reports only what happened.
    - Constructors: a Kafka, cache or database client that is not returned is closed; a
      resilient client knows exactly its configured targets and follows a bounded number
      of redirects that stay on their host.

    Theorems that show where the code and its comments part are stated beside the
    component: [Drain.shutdown_second_caller_stuck],
    [Backoff.parseRetryAfter_accepts_garbage], [Budget.nan_ratio_unlimited],
    [KafkaConfig.franz_fetch_size_wraps], [Domain.c1_controls_accepted],
    [Cache.joined_read_is_stale], [Api.if_match_accepts_other_spellings],
    [Health.replaced_check_result_survives], [Health.unevaluated_check_reported_ok],
    [Sampling.early_record_never_resets], [Middleware.early_hints_recorded_as_status],
    [Middleware.panic_answered_200], [Middleware.unclean_path_redirects_nowhere],
    [Server.negative_health_timeout_outlives_interval], [Server.spaced_token_locks_out],
    [Boot.LoadYAML.load_reads_file], [RdConfig.keepalive_not_owned],
    [RdKafka.RdClose.close_under_poll], [RdKafka.RdClose.commit_after_close],
    [RdKafka.RdConsumer.reassigned_record_never_handled],
    [RdKafka.RdConsumer.revoked_record_returned], [Franz.FranzSend.drivers_differ],
    [Redact.Hidden.secret_durations_shown], [Redact.Hidden.secret_embedded_shown],
    [Redact.Hidden.dsn_like_url_shown], [Redact.Hidden.dsn_spaced_shown].

    ** Fuel and bounds

    Where a loop of the code is not structural the definition has fuel, and what is
    proved does not depend on running out: the string functions recurse on the
    length of their input, each round consuming at least one byte; the retry loops
    of [Client] and [KafkaConsumer] recurse on the configured number of attempts and
    the theorems state that they return; the walk of the pages is proved to end
    within one page more than there are tasks. The loop of [Pgx] that skips comments
    has one round more than the statement has bytes, and [skip_enough] shows that any
    fuel above that gives the same answer. A poll of the librdkafka driver runs on the
    list of the client's answers and says that it is still waiting when they end. The
    JSON reader takes its fuel from the length of the text, [GoJSON.value_fuel] shows that
    more changes nothing, and the round trips are proved for that fuel.

    ** What is not modelled

    The exposition of metrics, histogram buckets and the attributes of spans (what is
    counted, recorded and registered is modelled); the client libraries of Kafka,
    PostgreSQL, Valkey, OpenTelemetry and Prometheus (their answers, faults and callbacks
    included, are inputs, or classes with the laws they document); the parsers of YAML,
    of the environment, of the URLs that are redacted and of addresses, likewise
    parameters; of RFC 3339 the spellings that no instant is written with; what is logged,
    apart from levels, sampling and redaction; of the relay the Stats helper; of
    libs/kafka-franz the flush on Close; of the generated contracts the types of the ping
    API; of libs/kafka/kafkatest the scenarios that are about spans, about the timing of a
    rebalance or about SASL; and the other test kits (libs/testx and the services' own),
    which no service runs. Database transactions are taken one after another in commit
    order; the numbers of the outbox are those their INSERTs took from the sequence, which
    need not be in that order ([Database.allot]), except among the events of one task, whose
    row lock orders the INSERTs too. A pass of the relay is one transaction among them.
    float8 arithmetic of the relay's SQL is exact below its overflow. *)
From Stdlib Require Export ZArith Lia Bool Sorted.
From stdpp Require Export base list gmap strings.

#[global] Open Scope Z_scope.

(** * Durations and machine integers *)

Module Go.

(** An [int64] (a [time.Duration], a Go [int] on 64-bit platforms). *)
Definition int64_min : Z := - 2 ^ 63.
Definition int64_max : Z := 2 ^ 63 - 1.
Definition uint64_max : Z := 2 ^ 64 - 1.

(** Wrap-around of the two's complement conversions and additions. *)
Definition wrap64 (z : Z) : Z := (z + 2 ^ 63) mod 2 ^ 64 - 2 ^ 63.
Definition wrap32 (z : Z) : Z := (z + 2 ^ 31) mod 2 ^ 32 - 2 ^ 31.
Definition wrapu64 (z : Z) : Z := z mod 2 ^ 64.

Definition in_int64 (z : Z) : Prop := int64_min <= z <= int64_max.

(** [time.Time.Sub]: the difference of two instants, saturated at the range of
    a [time.Duration]. *)
Definition time_sub (t u : Z) : Z := Z.max int64_min (Z.min int64_max (t - u)).

Definition nanosecond : Z := 1.
Definition microsecond : Z := 1000.
Definition millisecond : Z := 1000000.
Definition second : Z := 1000000000.
Definition minute : Z := 60 * second.
Definition hour : Z := 60 * minute.

Lemma wrap64_id (z : Z) : in_int64 z -> wrap64 z = z.
Proof.
  unfold in_int64, int64_min, int64_max, wrap64. intros H.
  rewrite Z.mod_small; lia.
Qed.

Lemma wrap64_range (z : Z) : in_int64 (wrap64 z).
Proof.
  unfold in_int64, int64_min, int64_max, wrap64.
  pose proof (Z.mod_pos_bound (z + 2 ^ 63) (2 ^ 64) ltac:(lia)). lia.
Qed.

Lemma wrapu64_id (z : Z) : 0 <= z <= uint64_max -> wrapu64 z = z.
Proof. unfold uint64_max, wrapu64. intros H. apply Z.mod_small. lia. Qed.

Lemma time_sub_exact (t u : Z) : in_int64 (t - u) -> time_sub t u = t - u.
Proof. unfold in_int64, time_sub. lia. Qed.

Lemma time_sub_range (t u : Z) : in_int64 (time_sub t u).
Proof. unfold in_int64, time_sub, int64_min, int64_max. lia. Qed.

End Go.

(** * Automation *)

Create HintDb golib discriminated.
#[export] Hint Resolve Go.wrap64_range Go.time_sub_range : golib.

(** Split every conditional of the goal or of the hypotheses, reflecting the
    comparisons of [Z] and the boolean connectives. *)
Ltac zbool :=
  repeat match goal with
  | H : (_ && _)%bool = true |- _ => apply andb_prop in H; destruct H
  | H : (_ || _)%bool = false |- _ => apply orb_false_elim in H; destruct H
  | H : negb _ = true |- _ => apply negb_true_iff in H
  | H : negb _ = false |- _ => apply negb_false_iff in H
  | H : (_ =? _) = true |- _ => apply Z.eqb_eq in H
  | H : (_ =? _) = false |- _ => apply Z.eqb_neq in H
  | H : (_ <? _) = true |- _ => apply Z.ltb_lt in H
  | H : (_ <? _) = false |- _ => apply Z.ltb_ge in H
  | H : (_ <=? _) = true |- _ => apply Z.leb_le in H
  | H : (_ <=? _) = false |- _ => apply Z.leb_gt in H
  end.

Ltac split_if :=
  match goal with
  | |- context [if ?b then _ else _] => destruct b eqn:?
  | H : context [if ?b then _ else _] |- _ => destruct b eqn:?
  end.

Ltac split_ifs := repeat (split_if; zbool; simplify_eq/=).

(** * Lists *)

Section Lists.
Context {A B : Type}.

(** Sum of a measure over a list. *)
Fixpoint zsum (f : A -> Z) (l : list A) : Z :=
  match l with
  | [] => 0
  | x :: l => f x + zsum f l
  end.

Lemma zsum_cons (f : A -> Z) (x : A) (l : list A) : zsum f (x :: l) = f x + zsum f l.
Proof. done. Qed.

Lemma zsum_app (f : A -> Z) (l k : list A) : zsum f (l ++ k) = zsum f l + zsum f k.
Proof. induction l as [|x l IH]; [done|]. cbn [app]. rewrite !zsum_cons. lia. Qed.

Lemma zsum_ext (f g : A -> Z) (l : list A) :
  (forall x, x ∈ l -> f x = g x) -> zsum f l = zsum g l.
Proof.
  induction l as [|x l IH]; intros H; [done|].
  rewrite !zsum_cons, H, IH; [done|set_solver..].
Qed.

Lemma zsum_nonneg (f : A -> Z) (l : list A) :
  (forall x, x ∈ l -> 0 <= f x) -> 0 <= zsum f l.
Proof.
  induction l as [|x l IH]; intros H; [done|]. rewrite zsum_cons.
  pose proof (H x ltac:(set_solver)). specialize (IH ltac:(set_solver)). lia.
Qed.

Lemma zsum_plus (f g : A -> Z) (l : list A) :
  zsum (fun x => f x + g x) l = zsum f l + zsum g l.
Proof. induction l as [|x l IH]; [done|]. rewrite !zsum_cons. lia. Qed.

Lemma zsum_zero (l : list A) : zsum (fun _ => 0) l = 0.
Proof. induction l as [|x l IH]; [done|]. rewrite zsum_cons. lia. Qed.

End Lists.

Lemma zsum_swap {A B} (f : A -> B -> Z) (l : list A) (k : list B) :
  zsum (fun x => zsum (f x) k) l = zsum (fun y => zsum (fun x => f x y) l) k.
Proof.
  induction l as [|x l IH].
  - symmetry. apply zsum_zero.
  - rewrite zsum_cons, IH, <- zsum_plus. done.
Qed.

Lemma zsum_filter {A} (P : A -> Prop) `{!forall x, Decision (P x)} (f : A -> Z) (l : list A) :
  zsum f (filter P l) = zsum (fun x => if decide (P x) then f x else 0) l.
Proof.
  induction l as [|x l IH]; [done|]. rewrite zsum_cons, filter_cons.
  destruct (decide (P x)); rewrite ?zsum_cons, IH; lia.
Qed.

(** A sum over a list is the sum over its positions. *)
Lemma zsum_positions {A} (f : A -> Z) (l : list A) :
  zsum f l = zsum (fun p => from_option f 0 (l !! p)) (seq 0 (length l)).
Proof.
  induction l as [|x l IH] using rev_ind; [done|].
  rewrite length_app, Nat.add_1_r, seq_S, !zsum_app, IH. cbn [Nat.add].
  f_equal.
  - apply zsum_ext. intros p Hp. apply elem_of_seq in Hp.
    rewrite lookup_app_l by lia. done.
  - rewrite !zsum_cons, lookup_app_r, Nat.sub_diag by lia. done.
Qed.

(** Exactly one position of a range matches. *)
Lemma zsum_indicator (n p : nat) (c : Z) :
  (p < n)%nat -> zsum (fun q => if decide (p = q) then c else 0) (seq 0 n) = c.
Proof.
  induction n as [|n IH]; intros Hp; [lia|].
  rewrite seq_S, zsum_app, zsum_cons. cbn [Nat.add].
  destruct (decide (p = n)) as [->|Hne].
  - rewrite (zsum_ext _ (fun _ => 0)), zsum_zero; [cbn; lia|].
    intros q Hq%elem_of_seq. by rewrite decide_False by lia.
  - rewrite IH by lia. cbn. lia.
Qed.

(** Replacing one element changes a sum by the difference. *)
Lemma zsum_insert {A} (f : A -> Z) (l : list A) (i : nat) (x y : A) :
  l !! i = Some x -> zsum f (<[i := y]> l) = zsum f l - f x + f y.
Proof.
  revert i. induction l as [|z l IH]; intros [|i] H; [done|done| |].
  - injection H as ->. change (<[0%nat:=y]> (x :: l)) with (y :: l). rewrite !zsum_cons. lia.
  - change (<[S i:=y]> (z :: l)) with (z :: <[i:=y]> l). rewrite !zsum_cons, IH by done. lia.
Qed.

Lemma zsum_elem_le {A} (f : A -> Z) (l : list A) (x : A) :
  (forall y, 0 <= f y) -> x ∈ l -> f x <= zsum f l.
Proof.
  intros Hf. induction l as [|z l IH]; intros Hx; [set_solver|]. rewrite zsum_cons.
  pose proof (zsum_nonneg f l ltac:(auto)).
  apply elem_of_cons in Hx as [->|Hx]; [lia|]. specialize (IH Hx). pose proof (Hf z). lia.
Qed.

(** A sorted list with one more element at its end. *)
Lemma sorted_snoc {A} (R : A -> A -> Prop) (l : list A) (x : A) :
  StronglySorted R (l ++ [x]) <-> StronglySorted R l /\ Forall (fun y => R y x) l.
Proof.
  induction l as [|y l IH]; cbn.
  - split; [by repeat constructor|by repeat constructor].
  - split.
    + intros H. inversion_clear H as [|? ? Hs Hf]. apply IH in Hs as [Hs Hl].
      apply Forall_app in Hf as [Hf Hx]. inversion_clear Hx. split; by constructor.
    + intros [Hs Hf]. inversion_clear Hs. inversion_clear Hf.
      constructor; [by apply IH|]. apply Forall_app. split; [done|by constructor].
Qed.

Lemma sorted_const {A} (R : A -> A -> Prop) (l : list A) :
  (forall x y, x ∈ l -> y ∈ l -> R x y) -> StronglySorted R l.
Proof.
  induction l as [|x l IH]; intros H; constructor.
  - apply IH. intros y z Hy Hz. apply H; set_solver.
  - apply Forall_forall. intros y Hy. apply H; set_solver.
Qed.

Lemma filter_id {A} (P : A -> Prop) `{!forall x, Decision (P x)} (l : list A) :
  Forall P l -> filter P l = l.
Proof. induction 1 as [|x l Hx Hl IH]; [done|]. by rewrite filter_cons_True, IH. Qed.

Lemma sublist_fmap {A B} (f : A -> B) (l k : list A) :
  l `sublist_of` k -> f <$> l `sublist_of` f <$> k.
Proof. induction 1; cbn; by constructor. Qed.

Lemma sublist_forall {A} (P : A -> Prop) (l k : list A) : l `sublist_of` k -> Forall P k -> Forall P l.
Proof. induction 1; intros Hk; [done|..]; inversion_clear Hk; auto. Qed.

Lemma sorted_sublist {A} (R : A -> A -> Prop) (l k : list A) :
  l `sublist_of` k -> StronglySorted R k -> StronglySorted R l.
Proof.
  induction 1 as [|x l k Hs IH|x l k Hs IH]; intros Hk; [constructor|..];
    inversion_clear Hk; [constructor|]; eauto using sublist_forall.
Qed.

Lemma sublist_elem {A} (l k : list A) (x : A) : l `sublist_of` k -> x ∈ l -> x ∈ k.
Proof. induction 1; set_solver. Qed.

Lemma filter_ext_in {A} (P Q : A -> Prop) `{!forall x, Decision (P x)} `{!forall x, Decision (Q x)}
    (l : list A) :
  (forall x, x ∈ l -> P x <-> Q x) -> filter P l = filter Q l.
Proof.
  induction l as [|x l IH]; intros He; [done|]. rewrite !filter_cons, IH by set_solver.
  pose proof (He x ltac:(set_solver)). by destruct (decide (P x)), (decide (Q x)); try tauto.
Qed.
