(* ===== verification/Float64.v ===== *)
(** IEEE 754 binary64 arithmetic, as far as the Go code uses it: conversion of
    an integer, addition, multiplication and comparison, rounding to nearest,
    ties to even.  A finite number is an integer multiple of [2 ^ -1074], the
    smallest subnormal; signed zeros are not told apart (the code never divides
    by one and never prints one). *)
From S2P Require Import Prelude.
From Stdlib Require Import Floats.SpecFloat.

Module F64.

Inductive float64 : Type :=
| Fin (u : Z)        (* u * 2^-1074 *)
| Inf (neg : bool)
| NaN.

Definition prec : Z := 53.
Definition scale : Z := 1074.

(** The largest finite number, [(2^53 - 1) * 2^971], in units of [2^-1074]. *)
Definition max_units : Z := (2 ^ 53 - 1) * 2 ^ (971 + 1074).

(** [n / 2^s] rounded to an integer, ties to even, for [0 <= n]. *)
Definition div_rne (n s : Z) : Z :=
  let q := n / 2 ^ s in
  let r := n mod 2 ^ s in
  if 2 * r <? 2 ^ s then q
  else if 2 ^ s <? 2 * r then q + 1
  else if Z.even q then q else q + 1.

(** [n * 2^-k] units rounded to 53 significant bits (or to whole units, in the
    subnormal range), for [0 <= n]. *)
Definition round_pos (n k : Z) : Z :=
  let s := Z.max (Z.log2 n + 1 - prec) k in
  div_rne n s * 2 ^ (s - k).

Definition round (n k : Z) : float64 :=
  let u := Z.sgn n * round_pos (Z.abs n) k in
  if max_units <? u then Inf false
  else if u <? - max_units then Inf true
  else Fin u.

(** [float64(z)] *)
Definition of_Z (z : Z) : float64 := round (z * 2 ^ scale) 0.

Definition add (x y : float64) : float64 :=
  match x, y with
  | NaN, _ | _, NaN => NaN
  | Inf a, Inf b => if Bool.eqb a b then Inf a else NaN
  | Inf a, _ => Inf a
  | _, Inf b => Inf b
  | Fin a, Fin b => round (a + b) 0
  end.

Definition mul (x y : float64) : float64 :=
  match x, y with
  | NaN, _ | _, NaN => NaN
  | Inf a, Inf b => Inf (xorb a b)
  | Inf a, Fin u | Fin u, Inf a => if u =? 0 then NaN else Inf (xorb a (u <? 0))
  | Fin a, Fin b => round (a * b) scale
  end.

(** [x < y], false when either is NaN. *)
Definition ltb (x y : float64) : bool :=
  match x, y with
  | NaN, _ | _, NaN => false
  | Inf a, Inf b => a && negb b
  | Inf a, Fin _ => a
  | Fin _, Inf b => negb b
  | Fin a, Fin b => a <? b
  end.

Definition leb (x y : float64) : bool :=
  match x, y with
  | NaN, _ | _, NaN => false
  | Inf a, Inf b => a || negb b
  | Inf a, Fin _ => a
  | Fin _, Inf b => negb b
  | Fin a, Fin b => a <=? b
  end.

Definition geb (x y : float64) : bool := leb y x.

(** The built-in [min] of two numbers: NaN if either is. *)
Definition fmin (x y : float64) : float64 :=
  match x, y with
  | NaN, _ | _, NaN => NaN
  | _, _ => if leb x y then x else y
  end.

(** [int64(x)] of a number in range: truncation towards zero. *)
Definition to_Z (x : float64) : option Z :=
  match x with
  | Fin u => Some (Z.quot u (2 ^ scale))
  | _ => None
  end.

(** The decimal literal [n / d], correctly rounded, for [0 <= n], [0 < d]:
    how a constant such as [0.5] or [0.2] is compiled. *)
Definition of_ratio (n d : Z) : float64 :=
  let k := 1200 in
  round (n * 2 ^ (scale + k) / d) k.

(** ** Agreement with the Standard Library's reference semantics *)

Definition to_spec (x : float64) : spec_float :=
  match x with
  | NaN => S754_nan
  | Inf b => S754_infinity b
  | Fin u => binary_normalize 53 1024 u (- scale) false
  end.

(** 7, -3 and 0.2 (= 3602879701896397 * 2^-54). *)
Definition samples : list float64 :=
  [of_Z 7; of_Z (-3); Fin (3602879701896397 * 2 ^ (scale - 54)); Inf true; NaN].

Definition agree (f : float64 -> float64 -> float64)
    (g : spec_float -> spec_float -> spec_float) : bool :=
  forallb (fun x => forallb (fun y =>
    match to_spec (f x y), g (to_spec x) (to_spec y) with
    | S754_zero _, S754_zero _ => true
    | S754_nan, S754_nan => true
    | S754_infinity a, S754_infinity b => Bool.eqb a b
    | S754_finite a m e, S754_finite b n d =>
        Bool.eqb a b && Pos.eqb m n && Z.eqb e d
    | _, _ => false
    end) samples) samples.

Example mul_agrees : agree mul (SFmul 53 1024) = true.
Proof. vm_compute. reflexivity. Qed.

Example add_agrees : agree add (SFadd 53 1024) = true.
Proof. vm_compute. reflexivity. Qed.

Example leb_agrees :
  forallb (fun x => forallb (fun y => Bool.eqb (leb x y) (SFleb (to_spec x) (to_spec y)))
    samples) samples = true.
Proof. vm_compute. reflexivity. Qed.

(** ** Rounding never crosses a representable number *)

(** A natural number of at most 53 bits, scaled by a power of two. *)
Definition representable (N : Z) : Prop :=
  exists m e, N = m * 2 ^ e /\ 0 <= e /\ 0 <= m <= 2 ^ 53.

Lemma div_rne_le (n s q : Z) :
  0 <= s -> n <= q * 2 ^ s -> div_rne n s <= q.
Proof.
  intros Hs Hn. unfold div_rne.
  assert (Hp : 0 < 2 ^ s) by (apply Z.pow_pos_nonneg; lia).
  pose proof (Z.div_mod n (2 ^ s) ltac:(lia)) as E.
  pose proof (Z.mod_pos_bound n (2 ^ s) Hp) as R.
  split_ifs; nia.
Qed.

Lemma div_rne_ge (n s q : Z) :
  0 <= s -> q * 2 ^ s <= n -> q <= div_rne n s.
Proof.
  intros Hs Hn. unfold div_rne.
  assert (Hp : 0 < 2 ^ s) by (apply Z.pow_pos_nonneg; lia).
  pose proof (Z.div_mod n (2 ^ s) ltac:(lia)) as E.
  pose proof (Z.mod_pos_bound n (2 ^ s) Hp) as R.
  split_ifs; nia.
Qed.

Lemma representable_aligned (N j s : Z) :
  representable N -> 0 <= j -> 0 <= s -> 2 ^ (s + 52) <= N * 2 ^ j ->
  exists q, N * 2 ^ j = q * 2 ^ s.
Proof.
  intros (m & e & -> & He & Hm) Hj Hs Hle.
  rewrite <- Z.mul_assoc, <- Z.pow_add_r in * by lia.
  destruct (Z_le_gt_dec s (e + j)) as [Hal|Hal].
  - exists (m * 2 ^ (e + j - s)). rewrite <- Z.mul_assoc, <- Z.pow_add_r by lia.
    do 2 f_equal; lia.
  - assert (Hpow : 2 ^ (s + 52) = 2 ^ 53 * 2 ^ (s - 1)).
    { rewrite <- Z.pow_add_r by lia. f_equal; lia. }
    assert (Hbd : 2 ^ (e + j) <= 2 ^ (s - 1)) by (apply Z.pow_le_mono_r; lia).
    exists (2 ^ 52).
    assert (Hs1 : 2 ^ s = 2 * 2 ^ (s - 1)).
    { rewrite <- Z.pow_succ_r by lia. f_equal; lia. }
    assert (0 < 2 ^ (e + j)) by (apply Z.pow_pos_nonneg; lia).
    nia.
Qed.

Lemma round_pos_le (n k N : Z) :
  0 <= n -> 0 <= k -> representable N -> n <= N * 2 ^ k -> round_pos n k <= N.
Proof.
  intros Hn Hk HN Hle. unfold round_pos, prec.
  set (s := Z.max _ _).
  destruct (Z_le_gt_dec (Z.log2 n + 1 - 53) k) as [Hs|Hs].
  - replace s with k by lia. rewrite Z.sub_diag, Z.pow_0_r, Z.mul_1_r.
    by apply div_rne_le.
  - assert (n <> 0) by (intros ->; cbn in Hs; lia).
    pose proof (Z.log2_spec n ltac:(lia)) as [Hlog _].
    assert (Es : s = Z.log2 n + 1 - 53) by lia.
    assert (Hp : 0 < 2 ^ k) by (apply Z.pow_pos_nonneg; lia).
    destruct (representable_aligned N k s HN) as [q Hq]; [lia..| |].
    { replace (s + 52) with (Z.log2 n) by lia. lia. }
    assert (div_rne n s <= q) as Hd by (apply div_rne_le; lia).
    assert (Hps : 0 < 2 ^ (s - k)) by (apply Z.pow_pos_nonneg; lia).
    assert (HN' : N = q * 2 ^ (s - k)).
    { apply (Z.mul_reg_r _ _ (2 ^ k)); [lia|].
      rewrite Hq, <- Z.mul_assoc, <- Z.pow_add_r by lia. do 2 f_equal; lia. }
    rewrite HN'. nia.
Qed.

Lemma round_pos_nonneg (n k : Z) : 0 <= n -> 0 <= k -> 0 <= round_pos n k.
Proof.
  intros Hn Hk. unfold round_pos. set (s := Z.max _ _).
  assert (0 <= div_rne n s) by (apply div_rne_ge; lia).
  assert (0 < 2 ^ (s - k)) by (apply Z.pow_pos_nonneg; lia). nia.
Qed.

Lemma round_pos_exact (N k : Z) :
  representable N -> 0 <= k -> round_pos (N * 2 ^ k) k = N.
Proof.
  intros HN Hk.
  assert (H0 : 0 <= N).
  { destruct HN as (m & e & -> & He & Hm).
    assert (0 < 2 ^ e) by (apply Z.pow_pos_nonneg; lia). nia. }
  assert (Hp : 0 < 2 ^ k) by (apply Z.pow_pos_nonneg; lia).
  assert (0 <= N * 2 ^ k) by nia.
  apply Z.le_antisymm; [by apply round_pos_le|].
  unfold round_pos, prec. set (s := Z.max _ _).
  destruct (Z_le_gt_dec (Z.log2 (N * 2 ^ k) + 1 - 53) k) as [Hs|Hs].
  - replace s with k by lia. rewrite Z.sub_diag, Z.pow_0_r, Z.mul_1_r.
    apply div_rne_ge; lia.
  - assert (N <> 0) by (intros ->; rewrite Z.mul_0_l in Hs; cbn in Hs; lia).
    pose proof (Z.log2_spec (N * 2 ^ k) ltac:(nia)) as [Hlog _].
    destruct (representable_aligned N k s HN) as [q Hq]; [lia..| |].
    { replace (s + 52) with (Z.log2 (N * 2 ^ k)) by lia. done. }
    assert (q <= div_rne (N * 2 ^ k) s) as Hd by (apply div_rne_ge; lia).
    assert (Hps : 0 < 2 ^ (s - k)) by (apply Z.pow_pos_nonneg; lia).
    assert (HN' : N = q * 2 ^ (s - k)).
    { apply (Z.mul_reg_r _ _ (2 ^ k)); [lia|].
      rewrite Hq, <- Z.mul_assoc, <- Z.pow_add_r by lia. do 2 f_equal; lia. }
    rewrite HN' at 1. nia.
Qed.

(** ** Counts as floating-point numbers *)

(** The counts the code converts are far below [2^53], where every integer is
    exact. *)
Definition small (n : Z) : Prop := 0 <= n <= 2 ^ 53.

Definition one_units : Z := 2 ^ scale.

Lemma one_units_pos : 0 < one_units.
Proof. reflexivity. Qed.

Lemma small_fits : 2 ^ 53 * one_units <= max_units.
Proof. vm_compute. discriminate. Qed.

Lemma small_representable (n : Z) : small n -> representable (n * one_units).
Proof. intros H. exists n, scale. split_and!; [done|done|apply H..]. Qed.

Lemma round_le (n k N : Z) :
  0 <= n -> 0 <= k -> small N -> n <= N * one_units * 2 ^ k ->
  exists v, round n k = Fin v /\ 0 <= v <= N * one_units.
Proof.
  intros Hn Hk HN Hle.
  pose proof (round_pos_le n k _ Hn Hk (small_representable N HN) Hle) as Hr.
  pose proof (round_pos_nonneg n k Hn Hk) as H0.
  assert (Hs : Z.sgn n * round_pos (Z.abs n) k = round_pos n k).
  { rewrite Z.abs_eq by done. destruct (Z.eq_dec n 0) as [->|]; [|rewrite Z.sgn_pos; lia].
    unfold round_pos, div_rne. rewrite Z.div_0_l, Z.mod_0_l by (apply Z.pow_nonzero; lia).
    cbn [Z.mul Z.sgn]. split_ifs; lia. }
  exists (round_pos n k). split; [|done]. unfold round. rewrite Hs.
  pose proof small_fits. pose proof one_units_pos. destruct HN.
  assert (N * one_units <= 2 ^ 53 * one_units) by (apply Z.mul_le_mono_nonneg_r; lia).
  split_ifs; [lia..|done].
Qed.

Lemma of_Z_small (n : Z) : small n -> of_Z n = Fin (n * one_units).
Proof.
  intros Hn. pose proof one_units_pos. unfold of_Z. fold one_units.
  assert (0 <= n * one_units) by (destruct Hn; nia).
  destruct (round_le (n * one_units) 0 n) as (v & Hv & _); [done..|lia|].
  rewrite Hv. unfold round in Hv. rewrite Z.abs_eq in Hv by done.
  pose proof (round_pos_exact (n * one_units) 0 (small_representable n Hn) ltac:(lia)) as He.
  rewrite Z.pow_0_r, Z.mul_1_r in He. rewrite He in Hv.
  revert Hv. destruct (Z.eq_dec n 0) as [->|].
  - vm_compute. congruence.
  - rewrite Z.sgn_pos by nia. rewrite Z.mul_1_l. split_ifs; congruence.
Qed.

Lemma mul_count_le (u q N : Z) :
  0 <= u -> small q -> small N -> u * q <= N * one_units ->
  exists v, mul (Fin u) (of_Z q) = Fin v /\ 0 <= v <= N * one_units.
Proof.
  intros Hu Hq HN Hle. rewrite of_Z_small by done. cbn [mul]. fold one_units.
  pose proof one_units_pos. destruct Hq.
  apply round_le; [| done | done |].
  - apply Z.mul_nonneg_nonneg; [done|]. apply Z.mul_nonneg_nonneg; lia.
  - fold one_units. rewrite Z.mul_assoc. apply Z.mul_le_mono_nonneg_r; lia.
Qed.

Lemma add_count_le (a v N : Z) :
  small a -> 0 <= v -> small N -> a * one_units + v <= N * one_units ->
  exists w, add (of_Z a) (Fin v) = Fin w /\ 0 <= w <= N * one_units.
Proof.
  intros Ha Hv HN Hle. rewrite of_Z_small by done. cbn [add].
  pose proof one_units_pos. destruct Ha.
  apply round_le; [|done..|lia].
  apply Z.add_nonneg_nonneg; [apply Z.mul_nonneg_nonneg; lia|done].
Qed.

(** [float64(n) >= float64(a) + r * float64(q)] holds whenever it holds of the
    exact values. *)
Lemma geb_linear (n a q u : Z) :
  0 <= u -> small n -> small a -> small q ->
  a * one_units + u * q <= n * one_units ->
  geb (of_Z n) (add (of_Z a) (mul (Fin u) (of_Z q))) = true.
Proof.
  intros Hu Hn Ha Hq Hle. pose proof one_units_pos.
  assert (0 <= u * q) by (destruct Hq; nia).
  assert (a <= n) by (destruct Ha, Hn; nia).
  destruct (mul_count_le u q (n - a)) as (v & -> & Hv); [done..| |lia|].
  { destruct Ha, Hn. unfold small. lia. }
  destruct (add_count_le a v n) as (w & -> & Hw); [done|lia|done|lia|].
  rewrite of_Z_small by done. apply Z.leb_le. lia.
Qed.

Lemma geb_product (n q u : Z) :
  0 <= u -> small n -> small q -> u * q <= n * one_units ->
  geb (of_Z n) (mul (Fin u) (of_Z q)) = true.
Proof.
  intros Hu Hn Hq Hle.
  destruct (mul_count_le u q n) as (v & -> & Hv); [done..|].
  rewrite of_Z_small by done. apply Z.leb_le. lia.
Qed.

End F64.
