(* ===== verification/GoError.v ===== *)
(** Go errors as trees: a node is one error value, tagged with what a program
    can tell about it ([errors.Is], [errors.As]); its children are what it
    wraps (one for [%w], several for [errors.Join]).  Each component gives its
    own type of tags. *)
From S2P Require Import Prelude.

Module Errors.

Inductive error (T : Type) : Type :=
| Node (tag : T) (causes : list (error T)).
Arguments Node {T} _ _.

Section Trees.
Context {T : Type}.

Definition tag (e : error T) : T := match e with Node t _ => t end.
Definition causes (e : error T) : list (error T) := match e with Node _ l => l end.

(** The first error of the tree, depth first, whose tag satisfies [p]: the
    traversal of [errors.Is] and [errors.As]. *)
Fixpoint find (p : T -> bool) (e : error T) : option T :=
  match e with
  | Node t l =>
      if p t then Some t
      else (fix go (l : list (error T)) : option T :=
              match l with
              | [] => None
              | c :: l => match find p c with Some x => Some x | None => go l end
              end) l
  end.

Definition matches (p : T -> bool) (e : error T) : bool :=
  match find p e with Some _ => true | None => false end.

(** A nil error matches nothing. *)
Definition matches_opt (p : T -> bool) (e : option (error T)) : bool :=
  match e with Some e => matches p e | None => false end.

Lemma find_sound (p : T -> bool) (e : error T) (t : T) : find p e = Some t -> p t = true.
Proof.
  revert e. fix IH 1. intros [x l]. cbn. destruct (p x) eqn:Hp; [congruence|].
  induction l as [|c l IHl]; [discriminate|].
  destruct (find p c) eqn:Hc; [|exact IHl].
  intros [= ->]. by apply (IH c).
Qed.

Lemma matches_node (p : T -> bool) (t : T) (l : list (error T)) :
  matches p (Node t l) = p t || existsb (matches p) l.
Proof.
  unfold matches. cbn. destruct (p t); [done|].
  induction l as [|c l IH]; [done|]. cbn. by destruct (find p c).
Qed.

End Trees.

End Errors.
