(* ===== verification/GoStr.v ===== *)
(** The parts of Go's [unicode/utf8], [strings] and [strconv] packages the
    program uses, on byte strings: UTF-8 decoding in both directions, trimming
    of white space, decimal numbers. *)
From S2P Require Import Prelude.

Module GoStr.

(** ** Bytes *)

(** A Go string is a sequence of bytes: [bytes] and [of_bytes] pass between
    [string] and the list of byte values. *)
Definition bytes (s : string) : list Z :=
  (fun c => Z.of_N (Ascii.N_of_ascii c)) <$> String.list_ascii_of_string s.

Definition of_bytes (l : list Z) : string :=
  String.string_of_list_ascii ((fun z => Ascii.ascii_of_N (Z.to_N z)) <$> l).

Lemma of_bytes_bytes (s : string) : of_bytes (bytes s) = s.
Proof.
  unfold of_bytes, bytes. rewrite <- list_fmap_compose.
  rewrite <- (String.string_of_list_ascii_of_string s) at 2. f_equal.
  induction (String.list_ascii_of_string s) as [|c l IH]; [done|].
  cbn. f_equal; [|done]. by rewrite N2Z.id, Ascii.ascii_N_embedding.
Qed.

Definition is_byte (z : Z) : Prop := 0 <= z < 256.

Lemma bytes_range (s : string) : Forall is_byte (bytes s).
Proof.
  unfold bytes. apply Forall_fmap, Forall_true. intros c. cbn. unfold is_byte.
  pose proof (Ascii.N_ascii_bounded c). lia.
Qed.

Lemma bytes_of_bytes (l : list Z) : Forall is_byte l -> bytes (of_bytes l) = l.
Proof.
  unfold of_bytes, bytes. rewrite String.list_ascii_of_string_of_list_ascii.
  intros H. induction H as [|z l Hz Hl IH]; [done|]. cbn. f_equal; [|done].
  unfold is_byte in Hz. rewrite Ascii.N_ascii_embedding by lia. lia.
Qed.

Lemma bytes_inj (s t : string) : bytes s = bytes t -> s = t.
Proof. intros H. by rewrite <- (of_bytes_bytes s), H, of_bytes_bytes. Qed.

Lemma bytes_app (s t : string) : bytes (s ++ t)%string = bytes s ++ bytes t.
Proof.
  unfold bytes. rewrite <- fmap_app. f_equal.
  induction s as [|c s IH]; [done|]. exact (f_equal (cons c) IH).
Qed.

(** ** UTF-8 *)

Definition RuneError : Z := 0xFFFD.

(** A continuation byte in a range. *)
Definition in_range (b lo hi : Z) : bool := (lo <=? b) && (b <=? hi).
Definition cont (b : Z) : bool := in_range b 0x80 0xBF.

(** Bounds of the second byte after a leading byte of three or four bytes. *)
Definition second_lo (b0 : Z) : Z :=
  if b0 =? 0xE0 then 0xA0 else if b0 =? 0xF0 then 0x90 else 0x80.
Definition second_hi (b0 : Z) : Z :=
  if b0 =? 0xED then 0x9F else if b0 =? 0xF4 then 0x8F else 0xBF.

(** [utf8.DecodeRune]: the rune and its width; an invalid sequence is
    [RuneError] of width 1, the empty string width 0. *)
Definition DecodeRune (p : list Z) : Z * nat :=
  match p with
  | [] => (RuneError, 0%nat)
  | b0 :: p =>
      if b0 <? 0x80 then (b0, 1%nat)
      else if in_range b0 0xC2 0xDF then
        match p with
        | b1 :: _ => if cont b1 then ((b0 - 0xC0) * 64 + (b1 - 0x80), 2%nat) else (RuneError, 1%nat)
        | _ => (RuneError, 1%nat)
        end
      else if in_range b0 0xE0 0xEF then
        match p with
        | b1 :: b2 :: _ =>
            if in_range b1 (second_lo b0) (second_hi b0) && cont b2
            then (((b0 - 0xE0) * 64 + (b1 - 0x80)) * 64 + (b2 - 0x80), 3%nat)
            else (RuneError, 1%nat)
        | _ => (RuneError, 1%nat)
        end
      else if in_range b0 0xF0 0xF4 then
        match p with
        | b1 :: b2 :: b3 :: _ =>
            if in_range b1 (second_lo b0) (second_hi b0) && cont b2 && cont b3
            then ((((b0 - 0xF0) * 64 + (b1 - 0x80)) * 64 + (b2 - 0x80)) * 64 + (b3 - 0x80), 4%nat)
            else (RuneError, 1%nat)
        | _ => (RuneError, 1%nat)
        end
      else (RuneError, 1%nat)
  end.

Definition RuneStart (b : Z) : bool := negb (cont b).

(** How far back from the end the last rune may start: the first of the
    positions 2, 3, 4 bytes before the end that is not a continuation byte
    (never past the start of the string). *)
Definition last_start (p : list Z) : nat :=
  let n := length p in
  let at_back (k : nat) := match p !! (n - k)%nat with Some b => RuneStart b | None => false end in
  if (n <? 2)%nat then n
  else if at_back 2%nat then 2%nat
  else if (n <? 3)%nat then n
  else if at_back 3%nat then 3%nat
  else if (n <? 4)%nat then n
  else if at_back 4%nat then 4%nat
  else Nat.min n 5.

(** [utf8.DecodeLastRune] *)
Definition DecodeLastRune (p : list Z) : Z * nat :=
  match last p with
  | None => (RuneError, 0%nat)
  | Some b =>
      if b <? 0x80 then (b, 1%nat)
      else
        let k := last_start p in
        let '(r, size) := DecodeRune (drop (length p - k) p) in
        if Nat.eqb size k then (r, size) else (RuneError, 1%nat)
  end.

(** [unicode.IsSpace] *)
Definition IsSpace (r : Z) : bool :=
  in_range r 9 13 || (r =? 32) || (r =? 0x85) || (r =? 0xA0) || (r =? 0x1680) ||
  in_range r 0x2000 0x200A || (r =? 0x2028) || (r =? 0x2029) || (r =? 0x202F) ||
  (r =? 0x205F) || (r =? 0x3000).

(** ** strings.TrimSpace *)

Fixpoint trim_left (fuel : nat) (p : list Z) : list Z :=
  match fuel, p with
  | S fuel, _ :: _ =>
      let '(r, size) := DecodeRune p in
      if IsSpace r then trim_left fuel (drop size p) else p
  | _, _ => p
  end.

Fixpoint trim_right (fuel : nat) (p : list Z) : list Z :=
  match fuel, p with
  | S fuel, _ :: _ =>
      let '(r, size) := DecodeLastRune p in
      if IsSpace r then trim_right fuel (take (length p - size) p) else p
  | _, _ => p
  end.

Definition trim_space (p : list Z) : list Z :=
  let q := trim_left (length p) p in trim_right (length q) q.

Definition TrimSpace (s : string) : string := of_bytes (trim_space (bytes s)).

(** The runes of a string with their widths, as [range] and
    [utf8.RuneCountInString] step through it. *)
Fixpoint runes_fuel (fuel : nat) (p : list Z) : list (Z * nat) :=
  match fuel, p with
  | S fuel, _ :: _ =>
      let '(r, size) := DecodeRune p in (r, size) :: runes_fuel fuel (drop size p)
  | _, _ => []
  end.
Definition runes (p : list Z) : list (Z * nat) := runes_fuel (length p) p.

Definition RuneCount (p : list Z) : Z := Z.of_nat (length (runes p)).

(** [utf8.Valid]: no rune is an invalid sequence. *)
Definition Valid (p : list Z) : bool :=
  forallb (fun '(r, size) => negb ((r =? RuneError) && Nat.eqb size 1)) (runes p).

(** ** Lemmas *)

Lemma decode_width (p : list Z) : p <> [] -> (1 <= snd (DecodeRune p) <= 4)%nat.
Proof.
  destruct p as [|b0 p]; [done|]. intros _. unfold DecodeRune.
  repeat (case_match; cbn; try lia).
Qed.

Lemma decode_fits (p : list Z) : (snd (DecodeRune p) <= length p)%nat.
Proof. unfold DecodeRune. repeat (case_match; cbn; try lia). Qed.

(** Decoding a prefix gives the same rune or, when the rune is cut, an error. *)
Lemma decode_prefix (p q : list Z) :
  p <> [] -> DecodeRune p = DecodeRune (p ++ q) \/ DecodeRune p = (RuneError, 1%nat).
Proof.
  destruct p as [|b0 [|b1 [|b2 [|b3 p]]]]; [done|..]; intros _; cbn [app];
    unfold DecodeRune; repeat (case_match; try (by auto)).
Qed.

Lemma error_not_space : IsSpace RuneError = false.
Proof. reflexivity. Qed.

(** *** Trimming *)

(** The first (last) rune is not white space, or there is none. *)
Definition no_lead (p : list Z) : Prop := p = [] \/ IsSpace (fst (DecodeRune p)) = false.
Definition no_trail (p : list Z) : Prop := p = [] \/ IsSpace (fst (DecodeLastRune p)) = false.

Lemma trim_left_no_lead (fuel : nat) (p : list Z) :
  (length p <= fuel)%nat -> no_lead (trim_left fuel p).
Proof.
  revert p. induction fuel as [|fuel IH]; intros [|b p] Hl; cbn [length] in Hl; [by left|lia|by left|].
  cbn [trim_left]. pose proof (decode_width (b :: p) ltac:(done)) as Hw.
  destruct (DecodeRune (b :: p)) as [r size] eqn:E. cbn [snd] in Hw.
  destruct (IsSpace r) eqn:Es; [|right; by rewrite E].
  apply IH. rewrite length_drop. cbn [length]. lia.
Qed.

Lemma trim_left_id (fuel : nat) (p : list Z) : no_lead p -> trim_left fuel p = p.
Proof.
  destruct fuel as [|fuel], p as [|b p]; try done. intros [|H]; [done|]. cbn [trim_left].
  destruct (DecodeRune (b :: p)) as [r size]. cbn in H. by rewrite H.
Qed.

Lemma last_start_range (p : list Z) :
  p <> [] -> (1 <= last_start p <= length p)%nat.
Proof.
  intros Hp. assert (length p <> 0)%nat by (by destruct p). unfold last_start.
  repeat match goal with
  | |- context [Nat.ltb ?a ?b] => destruct (Nat.ltb_spec a b)
  | |- context [if ?c then _ else _] => destruct c
  end; lia.
Qed.

Lemma decode_last_width (p : list Z) :
  p <> [] -> (1 <= snd (DecodeLastRune p) <= length p)%nat.
Proof.
  intros Hp. unfold DecodeLastRune.
  assert (Hlen : (1 <= length p)%nat) by (destruct p; [done|cbn; lia]).
  destruct (last p) as [b|] eqn:El; [|by apply last_None in El].
  destruct (b <? 128); [cbn; lia|].
  pose proof (last_start_range p Hp).
  destruct (DecodeRune _) as [r size]. destruct (Nat.eqb_spec size (last_start p)); cbn; lia.
Qed.

Lemma trim_right_spec (fuel : nat) (p : list Z) :
  (length p <= fuel)%nat ->
  no_trail (trim_right fuel p) /\ exists q, p = trim_right fuel p ++ q.
Proof.
  revert p. induction fuel as [|fuel IH]; intros [|b p] Hl; cbn [length] in Hl; try lia;
    try (split; [by left|by exists []]).
  cbn [trim_right]. pose proof (decode_last_width (b :: p) ltac:(done)) as Hw.
  destruct (DecodeLastRune (b :: p)) as [r size] eqn:E. cbn [snd] in Hw.
  destruct (IsSpace r) eqn:Es.
  - destruct (IH (take (length (b :: p) - size) (b :: p))) as [H1 [q Hq]].
    { rewrite length_take. cbn [length]. lia. }
    split; [done|]. exists (q ++ drop (length (b :: p) - size) (b :: p)).
    rewrite app_assoc, <- Hq. by rewrite take_drop.
  - split; [right; by rewrite E|]. exists []. by rewrite app_nil_r.
Qed.

Lemma trim_right_id (fuel : nat) (p : list Z) : no_trail p -> trim_right fuel p = p.
Proof.
  destruct fuel as [|fuel], p as [|b p]; try done. intros [|H]; [done|]. cbn [trim_right].
  destruct (DecodeLastRune (b :: p)) as [r size]. cbn in H. by rewrite H.
Qed.

Lemma no_lead_prefix (p q : list Z) : no_lead (p ++ q) -> no_lead p.
Proof.
  intros H. destruct p as [|b p]; [by left|]. right.
  destruct (decode_prefix (b :: p) q ltac:(done)) as [E|E]; rewrite E; [|done].
  by destruct H as [|H].
Qed.

Lemma trim_space_trimmed (p : list Z) : no_lead (trim_space p) /\ no_trail (trim_space p).
Proof.
  unfold trim_space. set (q := trim_left (length p) p).
  destruct (trim_right_spec (length q) q ltac:(lia)) as [H1 [r Hr]]. split; [|done].
  apply (no_lead_prefix _ r). rewrite <- Hr. apply trim_left_no_lead. lia.
Qed.

Lemma trim_space_id (p : list Z) : no_lead p -> no_trail p -> trim_space p = p.
Proof.
  intros H1 H2. unfold trim_space. rewrite trim_left_id by done. by apply trim_right_id.
Qed.

Lemma trim_left_suffix (fuel : nat) (p : list Z) : exists q, p = q ++ trim_left fuel p.
Proof.
  revert p. induction fuel as [|fuel IH]; intros [|b p]; cbn [trim_left]; try (by exists []).
  destruct (DecodeRune (b :: p)) as [r size]. destruct (IsSpace r); [|by exists []].
  destruct (IH (drop size (b :: p))) as [q Hq]. exists (take size (b :: p) ++ q).
  rewrite <- app_assoc, <- Hq. by rewrite take_drop.
Qed.

(** Trimming keeps a contiguous part of the string. *)
Lemma trim_space_infix (p : list Z) : exists q r, p = q ++ trim_space p ++ r.
Proof.
  destruct (trim_left_suffix (length p) p) as [q Hq].
  destruct (trim_right_spec (length (trim_left (length p) p)) (trim_left (length p) p) ltac:(lia))
    as [_ [r Hr]].
  exists q, r. unfold trim_space. by rewrite <- Hr.
Qed.

Lemma trim_space_bytes (p : list Z) : Forall is_byte p -> Forall is_byte (trim_space p).
Proof.
  intros H. destruct (trim_space_infix p) as (q & r & E). rewrite E in H.
  apply Forall_app in H as [_ H]. by apply Forall_app in H as [H _].
Qed.

Lemma bytes_TrimSpace (s : string) : bytes (TrimSpace s) = trim_space (bytes s).
Proof. apply bytes_of_bytes, trim_space_bytes, bytes_range. Qed.

Lemma TrimSpace_idem (s : string) : TrimSpace (TrimSpace s) = TrimSpace s.
Proof.
  unfold TrimSpace at 1. rewrite bytes_TrimSpace.
  destruct (trim_space_trimmed (bytes s)). by rewrite trim_space_id.
Qed.

(** ** strconv *)

Inductive num_error := ErrSyntax | ErrRange.

Definition is_digit (c : Z) : bool := in_range c 48 57.

(** [strconv.ParseUint(s, 10, 64)]: the loop stops at the first byte that is
    not a digit, or as soon as the value no longer fits. *)
Fixpoint parse_digits (n : Z) (p : list Z) : Z + num_error :=
  match p with
  | [] => inl n
  | c :: p =>
      if negb (is_digit c) then inr ErrSyntax
      else if Go.uint64_max <? n * 10 + (c - 48) then inr ErrRange
      else parse_digits (n * 10 + (c - 48)) p
  end.

Definition ParseUint (p : list Z) : Z + num_error :=
  match p with
  | [] => inr ErrSyntax
  | _ => parse_digits 0 p
  end.

(** [strconv.ParseInt(s, 10, 64)] *)
Definition ParseInt (p : list Z) : Z + num_error :=
  let '(neg, q) := match p with
    | 43 :: q => (false, q)
    | 45 :: q => (true, q)
    | _ => (false, p)
    end in
  match p with
  | [] => inr ErrSyntax
  | _ =>
      match ParseUint q with
      | inr e => inr e
      | inl n =>
          if neg
          then if 2 ^ 63 <? n then inr ErrRange else inl (- n)
          else if 2 ^ 63 <=? n then inr ErrRange else inl n
      end
  end.

(** Decimal digits of a natural number, most significant first. *)
Fixpoint dec_fuel (fuel : nat) (n : Z) (acc : list Z) : list Z :=
  match fuel with
  | O => acc
  | S fuel =>
      let acc := (48 + n mod 10) :: acc in
      if n <? 10 then acc else dec_fuel fuel (n / 10) acc
  end.
Definition dec (n : Z) : list Z := dec_fuel (S (Z.to_nat (Z.log2 n))) n [].

(** [strconv.FormatInt(z, 10)] *)
Definition FormatInt (z : Z) : list Z := if z <? 0 then 45 :: dec (- z) else dec z.
Definition Itoa (z : Z) : string := of_bytes (FormatInt z).

(** *** Decimal round trip *)

Lemma parse_digits_app (n : Z) (p q : list Z) :
  parse_digits n (p ++ q) =
  match parse_digits n p with inl m => parse_digits m q | inr e => inr e end.
Proof.
  revert n. induction p as [|c p IH]; intros n; cbn; [done|].
  destruct (negb _); [done|]. destruct (_ <? _); [done|]. apply IH.
Qed.

Lemma dec_fuel_acc (fuel : nat) (n : Z) (acc : list Z) :
  dec_fuel fuel n acc = dec_fuel fuel n [] ++ acc.
Proof.
  revert n acc. induction fuel as [|fuel IH]; intros n acc; cbn [dec_fuel]; [done|].
  destruct (n <? 10); [done|]. rewrite IH. rewrite (IH _ [_]). by rewrite <- app_assoc.
Qed.

Lemma digit_ok (d : Z) : 0 <= d < 10 -> is_digit (48 + d) = true.
Proof. intros H. unfold is_digit, in_range. apply andb_true_intro. split; apply Z.leb_le; lia. Qed.

Lemma parse_dec_fuel (fuel : nat) (n : Z) :
  0 <= n < 2 ^ Z.of_nat fuel -> n <= Go.uint64_max ->
  fuel <> O -> parse_digits 0 (dec_fuel fuel n []) = inl n /\ dec_fuel fuel n [] <> [] /\
  Forall (fun c => is_digit c = true) (dec_fuel fuel n []).
Proof.
  revert n. induction fuel as [|fuel IH]; [done|]. intros n Hn Hm _. cbn [dec_fuel].
  pose proof (Z.div_mod n 10 ltac:(lia)) as E. pose proof (Z.mod_pos_bound n 10 ltac:(lia)) as Hd.
  destruct (Z.ltb_spec n 10) as [Hs|Hs].
  - rewrite Z.mod_small by lia. cbn [parse_digits]. rewrite digit_ok by lia. cbn [negb].
    replace (0 * 10 + (48 + n - 48)) with n by lia.
    destruct (Z.ltb_spec Go.uint64_max n); [lia|]. split_and!; [done..|].
    constructor; [apply digit_ok; lia|constructor].
  - rewrite Nat2Z.inj_succ, Z.pow_succ_r in Hn by lia.
    assert (fuel <> O) by (intros ->; cbn in Hn; lia).
    destruct (IH (n / 10)) as (H1 & H2 & H3); [lia|lia|done|].
    rewrite dec_fuel_acc, parse_digits_app, H1. cbn [parse_digits].
    rewrite digit_ok by lia. cbn [negb].
    replace (n / 10 * 10 + (48 + n mod 10 - 48)) with n by lia.
    destruct (Z.ltb_spec Go.uint64_max n); [lia|]. split_and!; [done|by destruct (dec_fuel fuel _ _)|].
    apply Forall_app. split; [done|]. constructor; [apply digit_ok; lia|constructor].
Qed.

Lemma parse_dec (n : Z) :
  0 <= n <= Go.uint64_max ->
  ParseUint (dec n) = inl n /\ dec n <> [] /\ Forall (fun c => is_digit c = true) (dec n).
Proof.
  intros Hn. unfold ParseUint, dec.
  assert (Hb : 0 <= n < 2 ^ Z.of_nat (S (Z.to_nat (Z.log2 n)))).
  { rewrite Nat2Z.inj_succ, Z2Nat.id by apply Z.log2_nonneg.
    destruct (Z.eq_dec n 0) as [->|]; [cbn; lia|]. pose proof (Z.log2_spec n). lia. }
  destruct (parse_dec_fuel (S (Z.to_nat (Z.log2 n))) n Hb) as (H1 & H2 & H3); [lia|done|].
  destruct (dec_fuel _ n []); done.
Qed.

Lemma dec_fuel_length (fuel : nat) (n : Z) (k : nat) :
  0 <= n < 10 ^ Z.of_nat (S k) -> (length (dec_fuel fuel n []) <= S k)%nat.
Proof.
  revert n k. induction fuel as [|fuel IH]; intros n k Hn; cbn [dec_fuel]; [cbn; lia|].
  destruct (Z.ltb_spec n 10) as [Hs|Hs]; [cbn; lia|].
  rewrite dec_fuel_acc, length_app. cbn [length].
  destruct k as [|k]; [cbn in Hn; lia|]. specialize (IH (n / 10) k).
  rewrite (Nat2Z.inj_succ (S k)), Z.pow_succ_r in Hn by lia.
  assert (0 <= n / 10 < 10 ^ Z.of_nat (S k)) by (split; [apply Z.div_pos; lia|apply Z.div_lt_upper_bound; lia]).
  specialize (IH H). lia.
Qed.

Lemma ParseInt_FormatInt (z : Z) : Go.in_int64 z -> ParseInt (FormatInt z) = inl z.
Proof.
  unfold Go.in_int64, Go.int64_min, Go.int64_max. intros Hz. unfold FormatInt.
  destruct (Z.ltb_spec z 0).
  - destruct (parse_dec (- z)) as (H1 & _); [unfold Go.uint64_max; lia|].
    unfold ParseInt. rewrite H1. destruct (Z.ltb_spec (2 ^ 63) (- z)); [lia|]. f_equal; lia.
  - destruct (parse_dec z) as (H1 & H2 & H3); [unfold Go.uint64_max; lia|].
    unfold ParseInt. destruct (dec z) as [|c l]; [done|]. inversion_clear H3 as [|? ? Hc _].
    unfold is_digit, in_range in Hc. zbool.
    assert (Hm : match c :: l with 43 :: q => (false, q) | 45 :: q => (true, q) | _ => (false, c :: l) end
      = (false, c :: l)).
    { destruct c as [|c|c]; try done. do 6 (destruct c as [c|c|]; try done; try lia). }
    rewrite Hm, H1. destruct (Z.leb_spec (2 ^ 63) z); [lia|done].
Qed.

Lemma FormatInt_ascii (z : Z) : Go.in_int64 z -> Forall (fun b => 0 <= b < 0x80) (FormatInt z).
Proof.
  unfold Go.in_int64, Go.int64_min, Go.int64_max. intros Hz.
  assert (Hd : forall n, 0 <= n <= Go.uint64_max -> Forall (fun b => 0 <= b < 0x80) (dec n)).
  { intros n Hn. destruct (parse_dec n Hn) as (_ & _ & H). eapply Forall_impl; [exact H|].
    intros c. unfold is_digit, in_range. intros Hc. zbool. lia. }
  unfold FormatInt, Go.uint64_max in *. destruct (Z.ltb_spec z 0).
  - constructor; [lia|]. apply Hd. lia.
  - apply Hd. lia.
Qed.

Lemma FormatInt_bytes (z : Z) : Go.in_int64 z -> Forall is_byte (FormatInt z).
Proof.
  intros Hz. eapply Forall_impl; [by apply FormatInt_ascii|]. unfold is_byte. cbn. lia.
Qed.

(** ASCII text is valid UTF-8, and each byte is a rune. *)
Lemma runes_ascii (p : list Z) :
  Forall (fun b => 0 <= b < 0x80) p -> runes p = (fun b => (b, 1%nat)) <$> p.
Proof.
  unfold runes. induction 1 as [|b p Hb Hp IH]; [done|].
  cbn [length runes_fuel DecodeRune]. rewrite (proj2 (Z.ltb_lt b 0x80)) by lia.
  cbn [drop fmap list_fmap]. by rewrite drop_0, IH.
Qed.

Lemma Valid_ascii (p : list Z) : Forall (fun b => 0 <= b < 0x80) p -> Valid p = true.
Proof.
  intros H. unfold Valid. rewrite runes_ascii by done. apply forallb_forall.
  intros x Hx. apply list_elem_of_In, list_elem_of_fmap in Hx as (b & -> & Hb).
  rewrite Forall_forall in H. specialize (H b Hb). unfold RuneError.
  rewrite (proj2 (Z.eqb_neq b 0xFFFD)) by lia. done.
Qed.

(** ** Case *)

Definition lower_byte (b : Z) : Z := if in_range b 65 90 then b + 32 else b.

(** [strings.ToLower], exact where the result is ASCII: besides the letters, the
    two other runes whose lower case is ASCII (U+0130 and the Kelvin sign); any
    other byte above 0x7f stays above it. *)
Fixpoint lower (p : list Z) : list Z :=
  match p with
  | [] => []
  | b :: p1 =>
      match p1 with
      | [] => [lower_byte b]
      | c :: p2 =>
          if (b =? 0xC4) && (c =? 0xB0) then 105 :: lower p2
          else match p2 with
               | [] => lower_byte b :: lower p1
               | d :: p3 =>
                   if (b =? 0xE2) && (c =? 0x84) && (d =? 0xAA) then 107 :: lower p3
                   else lower_byte b :: lower p1
               end
      end
  end.
Definition ToLower (s : string) : string := of_bytes (lower (bytes s)).

(** Simple case folding, exact against an ASCII word: the long s folds with s and
    the Kelvin sign with k. *)
Fixpoint fold (p : list Z) : list Z :=
  match p with
  | [] => []
  | b :: p1 =>
      match p1 with
      | [] => [lower_byte b]
      | c :: p2 =>
          if (b =? 0xC5) && (c =? 0xBF) then 115 :: fold p2
          else match p2 with
               | [] => lower_byte b :: fold p1
               | d :: p3 =>
                   if (b =? 0xE2) && (c =? 0x84) && (d =? 0xAA) then 107 :: fold p3
                   else lower_byte b :: fold p1
               end
      end
  end.

(** [strings.EqualFold(s, word)] of an ASCII word. *)
Definition EqualFold (s word : string) : bool := bool_decide (fold (bytes s) = fold (bytes word)).

(** ** Cutting and splitting at a byte *)

(** [strings.Cut]: before, after, found. *)
Fixpoint cut (sep : Z) (p : list Z) : list Z * list Z * bool :=
  match p with
  | [] => ([], [], false)
  | b :: p => if b =? sep then ([], p, true)
              else let '(x, y, f) := cut sep p in (b :: x, y, f)
  end.

(** [strings.Split]. *)
Fixpoint split_at (sep : Z) (p : list Z) : list (list Z) :=
  match p with
  | [] => [[]]
  | b :: p =>
      let r := split_at sep p in
      if b =? sep then [] :: r
      else match r with x :: r => (b :: x) :: r | [] => [[b]] end
  end.

(** [strings.TrimRight(s, "\r\n")] *)
Fixpoint drop_newlines (p : list Z) : list Z :=
  match p with
  | c :: q => if (c =? 13) || (c =? 10) then drop_newlines q else p
  | [] => []
  end.
Definition TrimRight_newlines (s : string) : string := of_bytes (rev (drop_newlines (rev (bytes s)))).

(** [strings.Join]. *)
Fixpoint join (sep : Z) (l : list (list Z)) : list Z :=
  match l with
  | [] => []
  | [x] => x
  | x :: l => x ++ sep :: join sep l
  end.

Lemma split_at_ne (sep : Z) (p : list Z) : split_at sep p <> [].
Proof. destruct p as [|b p]; cbn; [done|]. destruct (b =? sep); [done|]. by destruct (split_at sep p). Qed.

Lemma split_at_app (sep : Z) (p q : list Z) :
  split_at sep (p ++ sep :: q) = split_at sep p ++ split_at sep q.
Proof.
  induction p as [|b p IH]; cbn [app split_at]; [by rewrite Z.eqb_refl|].
  rewrite IH. destruct (b =? sep); [done|].
  pose proof (split_at_ne sep p). by destruct (split_at sep p).
Qed.

Lemma split_at_whole (sep : Z) (p : list Z) : sep ∉ p -> split_at sep p = [p].
Proof.
  induction p as [|b p IH]; intros H; cbn; [done|].
  rewrite (proj2 (Z.eqb_neq b sep)) by set_solver. by rewrite IH by set_solver.
Qed.

(** Splitting what was joined gives the pieces split. *)
Lemma split_join (sep : Z) (l : list (list Z)) : l <> [] -> split_at sep (join sep l) = l ≫= split_at sep.
Proof.
  induction l as [|x l IH]; intros H; [done|]. destruct l as [|y l]; [cbn; by rewrite app_nil_r|].
  change (join sep (x :: y :: l)) with (x ++ sep :: join sep (y :: l)).
  rewrite split_at_app, IH by done. done.
Qed.

End GoStr.
