(* ===== verification/GoTime.v ===== *)
(** Package time: instants as nanoseconds since 1970 in UTC, the calendar, and the RFC 3339
    texts with fractions that [MarshalJSON] and [Format(time.RFC3339Nano)] write and
    [time.Parse] reads. *)
From S2P Require Import Prelude GoStr.

Module GoTime.
Import GoStr.

(** ** The calendar *)

Definition leap (y : Z) : bool := (y mod 4 =? 0) && (negb (y mod 100 =? 0) || (y mod 400 =? 0)).
Definition daysIn (m y : Z) : Z :=
  if m =? 2 then (if leap y then 29 else 28) else if (m =? 4) || (m =? 6) || (m =? 9) || (m =? 11) then 30 else 31.

(** Year, month and day of a day since 1970, and back: eras of 400 years, years that begin
    in March. *)
Definition civil (days : Z) : Z * Z * Z :=
  let z := days + 719468 in
  let era := z / 146097 in
  let doe := z mod 146097 in
  let yoe := (doe - doe / 1460 + doe / 36524 - doe / 146096) / 365 in
  let doy := doe - (365 * yoe + yoe / 4 - yoe / 100) in
  let mp := (5 * doy + 2) / 153 in
  let d := doy - (153 * mp + 2) / 5 + 1 in
  let m := if mp <? 10 then mp + 3 else mp - 9 in
  (yoe + era * 400 + (if m <=? 2 then 1 else 0), m, d).

Definition days_of (y m d : Z) : Z :=
  let y := if m <=? 2 then y - 1 else y in
  let era := y / 400 in
  let yoe := y mod 400 in
  let doy := (153 * (if 2 <? m then m - 3 else m + 9) + 2) / 5 + d - 1 in
  let doe := yoe * 365 + yoe / 4 - yoe / 100 + doy in
  era * 146097 + doe - 719468.

Example epoch : civil 0 = (1970, 1, 1) /\ civil 19844 = (2024, 5, 1) /\ civil (-1) = (1969, 12, 31) /\ civil 11016 = (2000, 2, 29).
Proof. vm_compute. done. Qed.

(** ** Writing *)

(** [appendInt(x, width)], for what a width fits. *)
Definition pad (width : nat) (x : Z) : list Z := let d := dec x in repeat 48 (width - length d) ++ d.

(** The fraction without its trailing zeros, nothing when there is none. *)
Fixpoint trim_zeros (fuel : nat) (n : Z) (width : nat) : list Z :=
  match fuel with
  | O => []
  | S fuel => if n mod 10 =? 0 then trim_zeros fuel (n / 10) (width - 1) else pad width n
  end.
Definition fraction (nsec : Z) : list Z := if nsec =? 0 then [] else 46 :: trim_zeros 9 nsec 9.

Definition FormatNano (t : Z) : list Z :=
  let secs := t / Go.second in
  let '(y, m, d) := civil (secs / 86400) in
  let s := secs mod 86400 in
  pad 4 y ++ [45] ++ pad 2 m ++ [45] ++ pad 2 d ++ [84] ++
  pad 2 (s / 3600) ++ [58] ++ pad 2 (s / 60 mod 60) ++ [58] ++ pad 2 (s mod 60) ++ fraction (t mod Go.second) ++ [90].
Definition rfc3339 (t : Z) : string := of_bytes (FormatNano t).

Example format_1 : rfc3339 1714564800000000000 = "2024-05-01T12:00:00Z" /\ rfc3339 1714564800012340000 = "2024-05-01T12:00:00.01234Z" /\
  rfc3339 (-1) = "1969-12-31T23:59:59.999999999Z".
Proof. vm_compute. done. Qed.

(** ** Reading *)

Fixpoint number (acc : Z) (p : list Z) : option Z :=
  match p with [] => Some acc | c :: p => if is_digit c then number (acc * 10 + (c - 48)) p else None end.
(** [parseUint]. *)
Definition parseUint (p : list Z) (lo hi : Z) : option Z := x ← number 0 p; if (x <? lo) || (hi <? x) then None else Some x.

Fixpoint span_digits (p : list Z) : list Z * list Z :=
  match p with c :: q => if is_digit c then let '(a, b) := span_digits q in (c :: a, b) else ([], p) | [] => ([], []) end.
(** [parseNanoseconds]: nine digits count. *)
Definition parseNanoseconds (ds : list Z) : Z := let ds := take 9 ds in default 0 (number 0 ds) * 10 ^ (9 - Z.of_nat (length ds)).

Definition slice (a b : nat) (p : list Z) : list Z := take (b - a) (drop a p).
Definition at_ (i : nat) (p : list Z) : Z := default 0 (p !! i).

(** [parseRFC3339]. *)
Definition parseRFC3339 (s : list Z) : option Z :=
  if (length s <? 19)%nat then None
  else
    year ← parseUint (slice 0 4 s) 0 9999;
    month ← parseUint (slice 5 7 s) 1 12;
    day ← parseUint (slice 8 10 s) 1 (daysIn month year);
    hour ← parseUint (slice 11 13 s) 0 23;
    min ← parseUint (slice 14 16 s) 0 59;
    sec ← parseUint (slice 17 19 s) 0 59;
    if negb ((at_ 4 s =? 45) && (at_ 7 s =? 45) && (at_ 10 s =? 84) && (at_ 13 s =? 58) && (at_ 16 s =? 58)) then None
    else
      let s := drop 19 s in
      let '(nsec, s) := match s with
        | c :: q => if (c =? 46) && match q with d :: _ => is_digit d | [] => false end
                    then let '(ds, rest) := span_digits q in (parseNanoseconds ds, rest) else (0, s)
        | [] => (0, s)
        end in
      let t := (days_of year month day * 86400 + hour * 3600 + min * 60 + sec) * Go.second + nsec in
      if bool_decide (s = [90]) then Some t
      else if negb (length s =? 6)%nat then None
      else
        hr ← parseUint (slice 1 3 s) 0 23;
        mm ← parseUint (slice 4 6 s) 0 59;
        if negb (((at_ 0 s =? 45) || (at_ 0 s =? 43)) && (at_ 3 s =? 58)) then None
        else let off := (hr * 60 + mm) * 60 in Some (t - (if at_ 0 s =? 45 then - off else off) * Go.second).

Example parse_offset : parseRFC3339 (bytes "2024-05-01T14:30:00.5+02:30") = Some 1714564800500000000 /\ parseRFC3339 (bytes "2023-02-29T00:00:00Z") = None.
Proof. vm_compute. done. Qed.

(** ** The calendar's round trip *)

Lemma era_parts (doe : Z) :
  0 <= doe < 146097 ->
  let yoe := (doe - doe / 1460 + doe / 36524 - doe / 146096) / 365 in
  let doy := doe - (365 * yoe + yoe / 4 - yoe / 100) in
  0 <= yoe <= 399 /\ 0 <= doy <= 365 /\ (doy = 365 -> (yoe + 1) mod 4 = 0 /\ ((yoe + 1) mod 100 <> 0 \/ yoe = 399)).
Proof. intros H. cbv zeta. Z.to_euclidean_division_equations; lia. Qed.

Lemma month_parts (doy : Z) :
  0 <= doy <= 365 ->
  let mp := (5 * doy + 2) / 153 in
  let d := doy - (153 * mp + 2) / 5 + 1 in
  0 <= mp <= 11 /\ 1 <= d /\ (mp = 11 -> d <= 29 /\ (d = 29 -> doy = 365)) /\ (mp = 1 \/ mp = 3 \/ mp = 6 \/ mp = 8 -> d <= 30) /\ d <= 31.
Proof. intros H. cbv zeta. Z.to_euclidean_division_equations; lia. Qed.

Lemma civil_valid (days : Z) :
  let '(y, m, d) := civil days in 1 <= m <= 12 /\ 1 <= d <= daysIn m y /\ days_of y m d = days.
Proof.
  unfold civil. set (z := days + 719468). pose proof (Z.mod_pos_bound z 146097 ltac:(lia)) as Hdoe. pose proof (Z.div_mod z 146097 ltac:(lia)) as Hz.
  set (era := z / 146097) in *. set (doe := z mod 146097) in *. destruct (era_parts doe Hdoe) as (Hy & Hdoy & Hleap). cbv zeta in *.
  set (yoe := (doe - doe / 1460 + doe / 36524 - doe / 146096) / 365) in *. set (doy := doe - (365 * yoe + yoe / 4 - yoe / 100)) in *.
  destruct (month_parts doy Hdoy) as (Hmp & Hd1 & Hfeb & H30 & Hd31). cbv zeta in *. set (mp := (5 * doy + 2) / 153) in *. set (d := doy - (153 * mp + 2) / 5 + 1) in *.
  assert (Hera : forall k, 0 <= k < 400 -> (k + era * 400) / 400 = era /\ (k + era * 400) mod 400 = k).
  { intros k Hk. rewrite Z.div_add, Z.mod_add, Z.div_small, Z.mod_small by lia. lia. }
  destruct (Hera yoe ltac:(lia)) as [He1 He2].
  assert (Hdays : forall m, (if m <=? 2 then m + 9 else m - 3) = mp -> 1 <= m <= 12 ->
    days_of (yoe + era * 400 + (if m <=? 2 then 1 else 0)) m d = days).
  { intros m Hm Hr. unfold days_of. replace (if m <=? 2 then yoe + era * 400 + (if m <=? 2 then 1 else 0) - 1 else yoe + era * 400 + (if m <=? 2 then 1 else 0))
      with (yoe + era * 400) by (destruct (m <=? 2); lia). rewrite He1, He2.
    replace (if 2 <? m then m - 3 else m + 9) with mp by (destruct (Z.leb_spec m 2), (Z.ltb_spec 2 m); lia).
    unfold d, doy. lia. }
  destruct (Z.ltb_spec mp 10) as [Hlt|Hge].
  - split_and!; [lia..|lia| |].
    + unfold daysIn. destruct (Z.eqb_spec (mp + 3) 2); [lia|]. destruct ((mp + 3 =? 4) || (mp + 3 =? 6) || (mp + 3 =? 9) || (mp + 3 =? 11)) eqn:E; [|lia].
      apply H30. rewrite !orb_true_iff, !Z.eqb_eq in E. lia.
    + apply Hdays; [destruct (Z.leb_spec (mp + 3) 2); lia|lia].
  - split_and!; [lia..|lia| |].
    + unfold daysIn. destruct (Z.eqb_spec (mp - 9) 2) as [E|]; [|destruct (_ || _) eqn:E; [rewrite !orb_true_iff, !Z.eqb_eq in E|]; lia].
      destruct (Hfeb ltac:(lia)) as [Hd29 Hlast]. destruct (Z.leb_spec (mp - 9) 2); [|lia]. unfold leap.
      destruct (Z.eq_dec d 29) as [E29|]; [|repeat case_match; lia]. destruct (Hleap (Hlast E29)) as [H4 H100].
      assert (Hm4 : (yoe + era * 400 + 1) mod 4 = 0) by (replace (yoe + era * 400 + 1) with (yoe + 1 + (era * 100) * 4) by lia; by rewrite Z.mod_add by lia).
      assert (Hm100 : (yoe + era * 400 + 1) mod 100 = (yoe + 1) mod 100) by (replace (yoe + era * 400 + 1) with (yoe + 1 + (era * 4) * 100) by lia; by rewrite Z.mod_add by lia).
      assert (Hm400 : (yoe + era * 400 + 1) mod 400 = (yoe + 1) mod 400) by (replace (yoe + era * 400 + 1) with (yoe + 1 + era * 400) by lia; by rewrite Z.mod_add by lia).
      rewrite Hm4, Hm100, Hm400. destruct H100 as [H100|H399]; [apply Z.eqb_neq in H100; rewrite H100; cbn [Z.eqb negb andb orb]; lia|].
      assert (H0 : (yoe + 1) mod 400 = 0) by (rewrite H399; reflexivity). rewrite H0. cbn [Z.eqb andb]. rewrite orb_true_r. lia.
    + apply Hdays; [destruct (Z.leb_spec (mp - 9) 2); lia|lia].
Qed.
(** ** The text's round trip *)

Definition all_digits (p : list Z) : Prop := Forall (fun c => is_digit c = true) p.

Lemma number_app (p q : list Z) (acc x : Z) : number acc p = Some x -> number acc (p ++ q) = number x q.
Proof.
  revert acc. induction p as [|c p IH]; intros acc; cbn; [by intros [= ->]|]. destruct (is_digit c); [apply IH|done].
Qed.

Lemma number_zeros (k : nat) (p : list Z) : number 0 (repeat 48 k ++ p) = number 0 p.
Proof. induction k as [|k IH]; [done|]. cbn. apply IH. Qed.

Lemma number_dec (x : Z) : 0 <= x <= Go.uint64_max -> number 0 (dec x) = Some x /\ all_digits (dec x).
Proof.
  intros Hx. destruct (parse_dec x Hx) as (Hp & Hne & Hd). split; [|done]. unfold ParseUint in Hp.
  assert (Hgen : forall p acc y, all_digits p -> parse_digits acc p = inl y -> number acc p = Some y).
  { induction p as [|c p IH]; intros acc y Ha; cbn; [by intros [= ->]|]. inversion_clear Ha as [|? ? Hc Ha']. rewrite Hc. cbn [negb].
    repeat case_match; try done; by apply IH. }
  destruct (dec x) as [|c l] eqn:E; [done|]. by apply Hgen.
Qed.

Lemma dec_digits (x : Z) (k : nat) : 0 <= x < 10 ^ Z.of_nat (S k) -> (length (dec x) <= S k)%nat.
Proof. apply dec_fuel_length. Qed.

(** A padded number has its width, is digits, and reads back. *)
Lemma pad_reads (w : nat) (x : Z) :
  (1 <= w)%nat -> (w <= 18)%nat -> 0 <= x < 10 ^ Z.of_nat w -> length (pad w x) = w /\ all_digits (pad w x) /\ number 0 (pad w x) = Some x.
Proof.
  intros Hw1 Hw2 Hx. assert (Hmax : x <= Go.uint64_max) by (pose proof (Z.pow_le_mono_r 10 (Z.of_nat w) 18 ltac:(lia) ltac:(lia)); unfold Go.uint64_max; lia).
  destruct (number_dec x ltac:(lia)) as [Hn Hd]. unfold pad. destruct w as [|w]; [lia|]. pose proof (dec_digits x w Hx) as Hl. split_and!.
  - rewrite length_app, repeat_length. lia.
  - apply Forall_app. split; [|done]. apply Forall_forall. intros c Hc%list_elem_of_In%repeat_spec. by subst.
  - by rewrite number_zeros.
Qed.

Lemma pad_2 (x : Z) : 0 <= x < 100 -> exists a b, pad 2 x = [a; b] /\ number 0 [a; b] = Some x.
Proof.
  intros Hx. destruct (pad_reads 2 x ltac:(lia) ltac:(lia) ltac:(cbn; lia)) as (Hl & _ & Hn).
  destruct (pad 2 x) as [|a [|b [|]]]; try done. by exists a, b.
Qed.

Lemma pad_4 (x : Z) : 0 <= x < 10000 -> exists a b c d, pad 4 x = [a; b; c; d] /\ number 0 [a; b; c; d] = Some x.
Proof.
  intros Hx. destruct (pad_reads 4 x ltac:(lia) ltac:(lia) ltac:(cbn; lia)) as (Hl & _ & Hn).
  destruct (pad 4 x) as [|a [|b [|c [|d [|]]]]]; try done. by exists a, b, c, d.
Qed.

(** The digits of a fraction are those of the nanoseconds without the zeros at their end. *)
Lemma trimmed_reads (fuel w : nat) (n : Z) :
  (w <= fuel)%nat -> (w <= 9)%nat -> 0 < n < 10 ^ Z.of_nat w ->
  let ds := trim_zeros fuel n w in
  ds <> [] /\ all_digits ds /\ (length ds <= w)%nat /\ exists x, number 0 ds = Some x /\ x * 10 ^ (Z.of_nat w - Z.of_nat (length ds)) = n.
Proof.
  revert w n. induction fuel as [|fuel IH]; intros w n Hf Hw Hn; [replace w with 0%nat in Hn by lia; cbn in Hn; lia|].
  destruct w as [|w]; [cbn in Hn; lia|]. cbn [trim_zeros]. destruct (Z.eqb_spec (n mod 10) 0) as [E|E].
  - pose proof (Z.div_mod n 10 ltac:(lia)) as Hdm. rewrite Nat2Z.inj_succ, Z.pow_succ_r in Hn by lia.
    specialize (IH w (n / 10) ltac:(lia) ltac:(lia)). replace (S w - 1)%nat with w by lia.
    destruct IH as (H1 & H2 & H3 & x & H4 & H5); [split; [apply Z.div_str_pos; lia|apply Z.div_lt_upper_bound; lia]|].
    split_and!; [done|done|lia|]. exists x. split; [done|].
    replace (Z.of_nat (S w) - Z.of_nat (length (trim_zeros fuel (n / 10) w))) with (Z.succ (Z.of_nat w - Z.of_nat (length (trim_zeros fuel (n / 10) w)))) by lia.
    rewrite Z.pow_succ_r by lia. lia.
  - destruct (pad_reads (S w) n ltac:(lia) ltac:(lia) ltac:(lia)) as (Hl & Hd & Hnum). split_and!.
    + intros H. by rewrite H in Hl.
    + done.
    + lia.
    + exists n. split; [done|]. rewrite Hl, Z.sub_diag. cbn. lia.
Qed.

Lemma span_all (ds q : list Z) : all_digits ds -> match q with c :: _ => is_digit c = false | [] => True end -> span_digits (ds ++ q) = (ds, q).
Proof.
  intros Hd Hq. induction Hd as [|c ds Hc _ IH]; cbn.
  - destruct q as [|c q]; [done|]. cbn. by rewrite Hq.
  - by rewrite Hc, IH.
Qed.

(** The years of the instants a 64-bit count reaches. *)
Lemma civil_year (days : Z) : -200000 <= days <= 200000 -> let '(y, _, _) := civil days in 0 <= y <= 9999.
Proof.
  intros Hd. unfold civil. set (z := days + 719468). pose proof (Z.mod_pos_bound z 146097 ltac:(lia)) as Hdoe. pose proof (Z.div_mod z 146097 ltac:(lia)) as Hz.
  destruct (era_parts _ Hdoe) as (Hy & _). cbv zeta in *. set (yoe := (z mod 146097 - _ + _ - _) / 365) in *. destruct (_ <=? 2); lia.
Qed.

Lemma parseUint_ok (p : list Z) (lo hi x : Z) : number 0 p = Some x -> lo <= x <= hi -> parseUint p lo hi = Some x.
Proof. intros Hn Hx. unfold parseUint. rewrite Hn. cbn. destruct (Z.ltb_spec x lo), (Z.ltb_spec hi x); (lia || done). Qed.

(** The fraction and the zone, as the parser takes them. *)
Lemma fraction_read (nsec : Z) :
  0 <= nsec < Go.second ->
  match fraction nsec ++ [90] with
  | c :: q => if (c =? 46) && match q with d :: _ => is_digit d | [] => false end
              then let '(ds, rest) := span_digits q in (parseNanoseconds ds, rest) else (0, fraction nsec ++ [90])
  | [] => (0, fraction nsec ++ [90])
  end = (nsec, [90]).
Proof.
  intros Hn. unfold fraction. destruct (Z.eqb_spec nsec 0) as [->|Hne]; [done|].
  destruct (trimmed_reads 9 9 nsec ltac:(lia) ltac:(lia) ltac:(unfold Go.second in Hn; cbn; lia)) as (H1 & H2 & H3 & x & H4 & H5).
  set (ds := trim_zeros 9 nsec 9) in *. clearbody ds. cbn [app]. destruct ds as [|c ds]; [done|]. inversion H2 as [|? ? Hc _]; subst. cbn [app].
  rewrite Hc. cbn [Z.eqb Pos.eqb andb]. change (c :: ds ++ [90]) with ((c :: ds) ++ [90]). rewrite span_all by done.
  f_equal. unfold parseNanoseconds. rewrite take_ge by lia. rewrite H4. done.
Qed.

(** The instants of documents and cursors survive: every instant a 64-bit count of
    nanoseconds holds is read back from its RFC 3339 text, to the nanosecond. *)
Theorem rfc3339_parses (t : Z) : Go.in_int64 t -> parseRFC3339 (FormatNano t) = Some t.
Proof.
  unfold Go.in_int64, Go.int64_min, Go.int64_max. intros Ht. unfold FormatNano.
  pose proof (Z.div_mod t Go.second ltac:(unfold Go.second; lia)) as Hns. pose proof (Z.mod_pos_bound t Go.second ltac:(unfold Go.second; lia)) as Hnb.
  set (secs := t / Go.second) in *. set (nsec := t mod Go.second) in *.
  pose proof (Z.div_mod secs 86400 ltac:(lia)) as Hs. pose proof (Z.mod_pos_bound secs 86400 ltac:(lia)) as Hsb.
  set (days := secs / 86400) in *. set (s := secs mod 86400) in *.
  assert (Hdays : -200000 <= days <= 200000) by (unfold Go.second in *; lia).
  pose proof (civil_year days Hdays) as Hy. pose proof (civil_valid days) as Hc. destruct (civil days) as [[y m] d]. destruct Hc as (Hm & Hd & Hdo).
  assert (Hd31 : d <= 31) by (unfold daysIn in Hd; repeat case_match; lia).
  assert (Hh : 0 <= s / 3600 <= 23 /\ 0 <= s / 60 mod 60 <= 59 /\ 0 <= s mod 60 <= 59 /\ s / 3600 * 3600 + s / 60 mod 60 * 60 + s mod 60 = s)
    by (Z.to_euclidean_division_equations; lia).
  destruct Hh as (Hh & Hmi & Hse & Hsum).
  destruct (pad_4 y ltac:(lia)) as (y1 & y2 & y3 & y4 & -> & Hyn). destruct (pad_2 m ltac:(lia)) as (m1 & m2 & -> & Hmn).
  destruct (pad_2 d ltac:(lia)) as (d1 & d2 & -> & Hdn). destruct (pad_2 (s / 3600) ltac:(lia)) as (h1 & h2 & -> & Hhn).
  destruct (pad_2 (s / 60 mod 60) ltac:(lia)) as (i1 & i2 & -> & Hin). destruct (pad_2 (s mod 60) ltac:(lia)) as (s1 & s2 & -> & Hsn).
  cbv iota beta in Hy. pose proof (fraction_read nsec Hnb) as Hf. cbn [app]. set (F := fraction nsec ++ [90]) in *. unfold parseRFC3339.
  change (slice 0 4 _) with [y1; y2; y3; y4]. change (slice 5 7 _) with [m1; m2]. change (slice 8 10 _) with [d1; d2]. change (slice 11 13 _) with [h1; h2].
  change (slice 14 16 _) with [i1; i2]. change (slice 17 19 _) with [s1; s2]. cbn [length Nat.ltb Nat.leb drop].
  rewrite (parseUint_ok _ 0 9999 y) by done. cbn [mbind option_bind]. rewrite (parseUint_ok _ 1 12 m) by done. cbn [mbind option_bind].
  rewrite (parseUint_ok _ 1 (daysIn m y) d) by done. cbn [mbind option_bind]. rewrite (parseUint_ok _ 0 23 (s / 3600)) by done. cbn [mbind option_bind].
  rewrite (parseUint_ok [i1; i2] 0 59 (s / 60 mod 60)) by done. cbn [mbind option_bind]. rewrite (parseUint_ok [s1; s2] 0 59 (s mod 60)) by done. cbn [mbind option_bind].
  unfold at_ at 1 2 3 4 5. cbn [lookup list_lookup default from_option id Z.eqb Pos.eqb andb negb]. rewrite drop_0, Hf, bool_decide_eq_true_2 by done. f_equal. rewrite Hdo. unfold Go.second in *. lia.
Qed.

Lemma format_ascii (t : Z) : Go.in_int64 t -> Forall (fun b => 0 <= b < 0x80) (FormatNano t).
Proof.
  unfold Go.in_int64, Go.int64_min, Go.int64_max. intros Ht. unfold FormatNano.
  assert (Hdig : forall w x, (1 <= w)%nat -> (w <= 18)%nat -> 0 <= x < 10 ^ Z.of_nat w -> Forall (fun b => 0 <= b < 0x80) (pad w x)).
  { intros w x H1 H2 Hx. destruct (pad_reads w x H1 H2 Hx) as (_ & Hd & _). eapply Forall_impl; [exact Hd|]. intros c. unfold is_digit, in_range. intros Hc. zbool. lia. }
  pose proof (Z.mod_pos_bound t Go.second ltac:(unfold Go.second; lia)) as Hnb. set (secs := t / Go.second) in *.
  pose proof (Z.mod_pos_bound secs 86400 ltac:(lia)) as Hsb. set (s := secs mod 86400) in *.
  assert (Hdays : -200000 <= secs / 86400 <= 200000) by (unfold secs, Go.second; Z.to_euclidean_division_equations; lia).
  pose proof (civil_year _ Hdays) as Hy. pose proof (civil_valid (secs / 86400)) as Hc. destruct (civil (secs / 86400)) as [[y m] d]. destruct Hc as (Hm & Hd & _).
  assert (Hd31 : d <= 31) by (unfold daysIn in Hd; repeat case_match; lia).
  assert (Hh : 0 <= s / 3600 <= 23 /\ 0 <= s / 60 mod 60 <= 59 /\ 0 <= s mod 60 <= 59) by (Z.to_euclidean_division_equations; lia).
  assert (Hfr : Forall (fun b => 0 <= b < 0x80) (fraction (t mod Go.second))).
  { unfold fraction. destruct (Z.eqb_spec (t mod Go.second) 0); [constructor|]. constructor; [lia|].
    destruct (trimmed_reads 9 9 (t mod Go.second) ltac:(lia) ltac:(lia) ltac:(unfold Go.second in *; cbn; lia)) as (_ & Hdg & _).
    eapply Forall_impl; [exact Hdg|]. intros c. unfold is_digit, in_range. intros Hc. zbool. lia. }
  rewrite !Forall_app. split_and!; first [exact Hfr|apply Hdig; [lia|lia|cbn; lia]|constructor; [lia|constructor]].
Qed.

Lemma format_bytes (t : Z) : Go.in_int64 t -> Forall is_byte (FormatNano t).
Proof. intros Ht. eapply Forall_impl; [by apply format_ascii|]. unfold is_byte. cbn. lia. Qed.
End GoTime.
