(* ===== verification/GoRegexp.v ===== *)
(** Regular expressions over bytes, as [regexp.MatchString] searches for them: matching
    by derivatives, and its equivalence with the language an expression denotes. *)
From S2P Require Import Prelude GoStr.

Module Regexp.

Inductive re :=
  | Void
  | Eps
  | Class (f : Z -> bool)
  | Alt (a b : re)
  | Cat (a b : re)
  | Star (a : re).

(** The words an expression denotes. *)
Inductive lang : re -> list Z -> Prop :=
  | lang_eps : lang Eps []
  | lang_class f c : f c = true -> lang (Class f) [c]
  | lang_alt_l a b s : lang a s -> lang (Alt a b) s
  | lang_alt_r a b s : lang b s -> lang (Alt a b) s
  | lang_cat a b s t : lang a s -> lang b t -> lang (Cat a b) (s ++ t)
  | lang_star_nil a : lang (Star a) []
  | lang_star_app a s t : lang a s -> lang (Star a) t -> lang (Star a) (s ++ t).

#[export] Hint Constructors lang : regexp.

Fixpoint nullable (r : re) : bool :=
  match r with
  | Void | Class _ => false
  | Eps | Star _ => true
  | Alt a b => nullable a || nullable b
  | Cat a b => nullable a && nullable b
  end.

(** What is left to match after a byte. *)
Fixpoint der (c : Z) (r : re) : re :=
  match r with
  | Void | Eps => Void
  | Class f => if f c then Eps else Void
  | Alt a b => Alt (der c a) (der c b)
  | Cat a b => if nullable a then Alt (Cat (der c a) b) (der c b) else Cat (der c a) b
  | Star a => Cat (der c a) (Star a)
  end.

Fixpoint matches (r : re) (s : list Z) : bool :=
  match s with
  | [] => nullable r
  | c :: s => matches (der c r) s
  end.

(** Some prefix matches; somewhere in the text does one. *)
Fixpoint matches_prefix (r : re) (s : list Z) : bool :=
  nullable r || match s with [] => false | c :: s => matches_prefix (der c r) s end.

Fixpoint search (r : re) (s : list Z) : bool :=
  matches_prefix r s || match s with [] => false | _ :: s => search r s end.

(** ** Writing expressions *)

Definition byte (b : Z) : re := Class (Z.eqb b).
Definition word (s : string) : re := foldr (fun b r => Cat (byte b) r) Eps (GoStr.bytes s).
Definition opt (r : re) : re := Alt r Eps.
Definition one_of (s : string) : re := Class (fun c => bool_decide (c ∈ GoStr.bytes s)).
Definition alts (l : list re) : re := foldr Alt Void l.

(** ** Correctness *)

Lemma nullable_spec (r : re) : nullable r = true <-> lang r [].
Proof.
  induction r as [| |f|a IHa b IHb|a IHa b IHb|a IHa]; cbn.
  - split; [done|inversion 1].
  - split; auto with regexp.
  - split; [done|inversion 1].
  - rewrite orb_true_iff, IHa, IHb. split; [intros [?|?]; auto with regexp|inversion 1; auto].
  - rewrite andb_true_iff, IHa, IHb. split.
    + intros [Ha Hb]. change (@nil Z) with (@nil Z ++ []). auto with regexp.
    + inversion 1 as [| | | |? ? s t Hs Ht E Hn| |]; subst. apply app_nil in Hn as [-> ->]. done.
  - split; auto with regexp.
Qed.

(** A non-empty word of a star starts with a non-empty word of what is repeated. *)
Lemma star_cons (a : re) (c : Z) (w : list Z) :
  lang (Star a) (c :: w) -> exists s t, w = s ++ t /\ lang a (c :: s) /\ lang (Star a) t.
Proof.
  remember (Star a) as r eqn:Hr. remember (c :: w) as u eqn:Hu. intros H. revert Hr w Hu.
  induction H as [| | | | | |a' s t Hs _ Ht IH]; intros Hr w Hu; try discriminate. injection Hr as ->.
  destruct s as [|x s]; [by apply IH|]. injection Hu as -> <-. eauto.
Qed.

Lemma der_spec (c : Z) (r : re) (s : list Z) : lang (der c r) s <-> lang r (c :: s).
Proof.
  revert s. induction r as [| |f|a IHa b IHb|a IHa b IHb|a IHa]; intros s; cbn [der].
  - split; inversion 1.
  - split; inversion 1.
  - destruct (f c) eqn:Hf; split; inversion 1; subst; auto with regexp; congruence.
  - split; inversion 1; subst; constructor; (by apply IHa) || (by apply IHb).
  - assert (Hl : lang (Cat (der c a) b) s <-> exists u v, s = u ++ v /\ lang a (c :: u) /\ lang b v).
    { split; [inversion 1; subst; eexists _, _; split_and!; [done|by apply IHa|done]|].
      intros (u & v & -> & Hu & Hv). constructor; [by apply IHa|done]. }
    assert (Hr : lang (Cat a b) (c :: s) <-> (exists u v, s = u ++ v /\ lang a (c :: u) /\ lang b v) \/ (lang a [] /\ lang b (c :: s))).
    { split.
      - inversion 1 as [| | | |? ? u v Hu Hv E Hn| |]; subst. destruct u as [|x u]; [right; cbn in Hn; subst; done|].
        left. injection Hn as -> <-. eauto.
      - intros [(u & v & -> & Hu & Hv)|[Hn Hb]].
        + change (c :: u ++ v) with ((c :: u) ++ v). auto with regexp.
        + change (c :: s) with ([] ++ c :: s). auto with regexp. }
    destruct (nullable a) eqn:Hn.
    + apply nullable_spec in Hn. rewrite Hr. split.
      * inversion 1; subst; [left; by apply Hl|right; split; [done|by apply IHb]].
      * intros [Hx|[_ Hb]]; [apply lang_alt_l; by apply Hl|apply lang_alt_r; by apply IHb].
    + rewrite Hl, Hr. split; [by left|]. intros [?|[Hx _]]; [done|]. apply nullable_spec in Hx. congruence.
  - split.
    + inversion 1 as [| | | |? ? u v Hu Hv| |]; subst. change (c :: u ++ v) with ((c :: u) ++ v). constructor; [by apply IHa|done].
    + intros (u & v & -> & Hu & Hv)%star_cons. constructor; [by apply IHa|done].
Qed.

Lemma matches_spec (r : re) (s : list Z) : matches r s = true <-> lang r s.
Proof. revert r. induction s as [|c s IH]; intros r; cbn; [apply nullable_spec|by rewrite IH, der_spec]. Qed.

Lemma matches_prefix_spec (r : re) (s : list Z) : matches_prefix r s = true <-> exists u v, s = u ++ v /\ lang r u.
Proof.
  revert r. induction s as [|c s IH]; intros r; cbn; rewrite orb_true_iff, nullable_spec.
  - split; [intros [?|?]; [by exists [], []|done]|]. intros (u & v & [-> ->]%eq_sym%app_nil & H). by left.
  - rewrite IH. split.
    + intros [H|(u & v & -> & H%der_spec)]; [by exists [], (c :: s)|]. by exists (c :: u), v.
    + intros ([|x u] & v & E & H); [by left|]. right. injection E as -> ->. exists u, v. split; [done|by apply der_spec].
Qed.

(** Searching finds exactly the texts that contain a word of the language. *)
Theorem search_spec (r : re) (s : list Z) : search r s = true <-> exists u v w, s = u ++ v ++ w /\ lang r v.
Proof.
  induction s as [|c s IH]; cbn [search]; rewrite orb_true_iff, matches_prefix_spec.
  - split.
    + intros [(v & w & E & H)|?]; [|done]. by exists [], v, w.
    + intros ([|? ?] & v & w & E & H); [|done]. left. by exists v, w.
  - rewrite IH. split.
    + intros [(v & w & E & H)|(u & v & w & -> & H)]; [by exists [], v, w|by exists (c :: u), v, w].
    + intros ([|x u] & v & w & E & H); [left; by exists v, w|]. right. injection E as -> ->. by exists u, v, w.
Qed.

(** A literal matches itself. *)
Lemma lang_word (w : string) (s : list Z) : lang (word w) s <-> s = GoStr.bytes w.
Proof.
  unfold word. revert s. induction (GoStr.bytes w) as [|b l IH]; intros s; cbn [foldr].
  - split; [by inversion 1|intros ->; constructor].
  - split.
    + intros H. inversion H as [| | | |a' b' x y Hx Hy| |]; subst. inversion Hx as [|f c Hc| | | | |]; subst.
      apply Z.eqb_eq in Hc. subst. apply IH in Hy. by subst.
    + intros ->. apply (lang_cat _ _ [b] l); [constructor; apply Z.eqb_refl|by apply IH].
Qed.
End Regexp.
