(* ===== verification/GoReflect.v ===== *)
(** Values as package reflect shows them: a configuration struct with its field tags.
    Shared by the redaction, the reference and the loading of configurations. *)
From S2P Require Import Prelude GoStr.

Module Reflect.

Record field := {
  f_Name : string;
  f_exported : bool;
  f_Anonymous : bool;
  tag_yaml : string;
  tag_json : string;
  tag_secret : string;
  tag_env : string;
  tag_envPrefix : string
}.

#[export] Instance field_eq_dec : EqDecision field.
Proof. solve_decision. Defined.

Inductive nil_kind := NilPointer | NilSlice | NilMap.

(** [VPtr]: a pointer or interface that is not nil; [VNum]: a number or a boolean, zero
    when [n] is. *)
Inductive value :=
  | VNil (k : nil_kind)
  | VPtr (v : value)
  | VTime (t : Z)
  | VStruct (fs : list (field * value))
  | VSeq (l : list value)
  | VBytes (b : string)
  | VMap (m : list (string * value))
  | VStr (s : string)
  | VDur (d : Z)
  | VNum (n : Z).

(** Induction through the lists. *)
Section Induction.
Context (P : value -> Prop).
Context (Hnil : forall k, P (VNil k)) (Hptr : forall v, P v -> P (VPtr v)) (Htime : forall t, P (VTime t)).
Context (Hstruct : forall fs, Forall (fun fv => P fv.2) fs -> P (VStruct fs)).
Context (Hseq : forall l, Forall P l -> P (VSeq l)).
Context (Hbytes : forall b, P (VBytes b)).
Context (Hmap : forall m, Forall (fun kv => P kv.2) m -> P (VMap m)).
Context (Hstr : forall s, P (VStr s)) (Hdur : forall d, P (VDur d)) (Hnum : forall n, P (VNum n)).

Fixpoint value_induction (v : value) : P v :=
  match v with
  | VNil k => Hnil k
  | VPtr v => Hptr v (value_induction v)
  | VTime t => Htime t
  | VStruct fs =>
      Hstruct fs ((fix go fs : Forall (fun fv => P fv.2) fs :=
        match fs with
        | [] => Forall_nil_2 _
        | fv :: fs => Forall_cons_2 _ fv fs (value_induction fv.2) (go fs)
        end) fs)
  | VSeq l =>
      Hseq l ((fix go l : Forall P l :=
        match l with [] => Forall_nil_2 _ | v :: l => Forall_cons_2 _ v l (value_induction v) (go l) end) l)
  | VBytes b => Hbytes b
  | VMap m =>
      Hmap m ((fix go m : Forall (fun kv => P kv.2) m :=
        match m with [] => Forall_nil_2 _ | kv :: m => Forall_cons_2 _ kv m (value_induction kv.2) (go m) end) m)
  | VStr s => Hstr s
  | VDur d => Hdur d
  | VNum n => Hnum n
  end.
End Induction.

(** [strings.Cut(tag, ",")]: what is before the comma. *)
Definition tag_name (tag : string) : string := GoStr.of_bytes (GoStr.cut 44 (GoStr.bytes tag)).1.1.

Definition is_struct (v : value) : bool := match v with VStruct _ | VTime _ => true | _ => false end.

End Reflect.
