(* ===== verification/GoJSON.v ===== *)
(** JSON texts as encoding/json writes and reads them: the escapes of [Marshal] (HTML
    characters, control characters, the line separators, invalid UTF-8), the grammar
    [Unmarshal] accepts with its nesting bound, and what reading gives back. *)
From S2P Require Import Prelude GoStr.

Module GoJSON.
Import GoStr.

(** A document; a number is kept as its text, strings and names as bytes. *)
Inductive json :=
  | JNull
  | JBool (b : bool)
  | JNum (text : list Z)
  | JStr (s : list Z)
  | JArr (l : list json)
  | JObj (l : list (list Z * json)).

Section Induction.
Context (P : json -> Prop) (Hnull : P JNull) (Hbool : forall b, P (JBool b)) (Hnum : forall t, P (JNum t)) (Hstr : forall s, P (JStr s)).
Context (Harr : forall l, Forall P l -> P (JArr l)) (Hobj : forall l, Forall (fun kv => P kv.2) l -> P (JObj l)).

Fixpoint json_induction (v : json) : P v :=
  match v with
  | JNull => Hnull
  | JBool b => Hbool b
  | JNum t => Hnum t
  | JStr s => Hstr s
  | JArr l => Harr l ((fix go (l : list json) : Forall P l :=
                        match l with [] => Forall_nil_2 P | v :: l => Forall_cons_2 P v l (json_induction v) (go l) end) l)
  | JObj l => Hobj l ((fix go (l : list (list Z * json)) : Forall (fun kv => P kv.2) l :=
                        match l with [] => Forall_nil_2 _ | kv :: l => Forall_cons_2 _ kv l (json_induction kv.2) (go l) end) l)
  end.
End Induction.

(** ** Writing *)

Definition hex (d : Z) : Z := if d <? 10 then 48 + d else 87 + d.

(** [htmlSafeSet] *)
Definition safe (b : Z) : bool := (32 <=? b) && negb (bool_decide (b ∈ [34; 38; 60; 62; 92])).

(** One byte below 128. *)
Definition escape (b : Z) : list Z :=
  if safe b then [b]
  else if (b =? 34) || (b =? 92) then [92; b]
  else if b =? 8 then [92; 98]
  else if b =? 12 then [92; 102]
  else if b =? 10 then [92; 110]
  else if b =? 13 then [92; 114]
  else if b =? 9 then [92; 116]
  else [92; 117; 48; 48; hex (b / 16); hex (b mod 16)].

(** The body of a string literal; an invalid byte becomes the replacement character. *)
Fixpoint quote (fuel : nat) (p : list Z) : list Z :=
  match fuel, p with
  | S fuel, b :: q =>
      if b <? 128 then escape b ++ quote fuel q
      else
        let '(r, n) := DecodeRune p in
        if (r =? RuneError) && Nat.eqb n 1 then [92; 117; 102; 102; 102; 100] ++ quote fuel q
        else if (r =? 0x2028) || (r =? 0x2029) then [92; 117; 50; 48; 50; hex (r mod 16)] ++ quote fuel (drop n p)
        else take n p ++ quote fuel (drop n p)
  | _, _ => []
  end.
Definition literal (p : list Z) : list Z := 34 :: quote (length p) p ++ [34].

Fixpoint Marshal (v : json) : list Z :=
  match v with
  | JNull => bytes "null"
  | JBool true => bytes "true"
  | JBool false => bytes "false"
  | JNum t => t
  | JStr s => literal s
  | JArr l => [91] ++ join 44 (List.map Marshal l) ++ [93]
  | JObj l => [123] ++ join 44 (List.map (fun kv => literal kv.1 ++ [58] ++ Marshal kv.2) l) ++ [125]
  end.

(** ** Reading *)

Definition eat (c : Z) (p : list Z) : option (list Z) := match p with b :: q => if b =? c then Some q else None | [] => None end.
Fixpoint lit (w p : list Z) : option (list Z) := match w with [] => Some p | c :: w => match eat c p with Some q => lit w q | None => None end end.
Definition space (c : Z) : bool := (c =? 32) || (c =? 9) || (c =? 10) || (c =? 13).
Fixpoint skip (p : list Z) : list Z := match p with c :: q => if space c then skip q else p | [] => [] end.

Definition unhex (c : Z) : option Z :=
  if in_range c 48 57 then Some (c - 48) else if in_range c 97 102 then Some (c - 87) else if in_range c 65 70 then Some (c - 55) else None.
Definition hex4 (p : list Z) : option (Z * list Z) :=
  match p with
  | a :: b :: c :: d :: q =>
      match unhex a, unhex b, unhex c, unhex d with
      | Some a, Some b, Some c, Some d => Some (((a * 16 + b) * 16 + c) * 16 + d, q)
      | _, _, _, _ => None
      end
  | _ => None
  end.

(** [utf8.EncodeRune] of a rune that is not a surrogate. *)
Definition EncodeRune (r : Z) : list Z :=
  if r <? 0x80 then [r]
  else if r <? 0x800 then [0xC0 + r / 64; 0x80 + r mod 64]
  else if r <? 0x10000 then [0xE0 + r / 4096; 0x80 + r / 64 mod 64; 0x80 + r mod 64]
  else [0xF0 + r / 262144; 0x80 + r / 4096 mod 64; 0x80 + r / 64 mod 64; 0x80 + r mod 64].

Definition surrogate (r : Z) : bool := in_range r 0xD800 0xDFFF.
(** [utf16.DecodeRune] *)
Definition surrogates (r s : Z) : option Z :=
  if in_range r 0xD800 0xDBFF && in_range s 0xDC00 0xDFFF then Some ((r - 0xD800) * 1024 + (s - 0xDC00) + 0x10000) else None.

(** The bytes after a backslash that stand for one. *)
Definition unescape (e : Z) : option Z :=
  if (e =? 34) || (e =? 92) || (e =? 47) then Some e
  else if e =? 98 then Some 8 else if e =? 102 then Some 12 else if e =? 110 then Some 10 else if e =? 114 then Some 13
  else if e =? 116 then Some 9 else None.

Definition emit (s : list Z) (o : option (list Z * list Z)) : option (list Z * list Z) := match o with Some (t, r) => Some (s ++ t, r) | None => None end.

(** A string after its opening quote: its value and what follows the closing one. *)
Fixpoint unquote (fuel : nat) (p : list Z) : option (list Z * list Z) :=
  match fuel, p with
  | S fuel, c :: q =>
      if c =? 34 then Some ([], q)
      else if c =? 92 then
        match q with
        | [] => None
        | e :: q =>
            if e =? 117 then
              match hex4 q with
              | None => None
              | Some (r, q) =>
                  if surrogate r then
                    match lit [92; 117] q ≫= hex4 with
                    | Some (s, q') =>
                        match surrogates r s with
                        | Some rr => emit (EncodeRune rr) (unquote fuel q')
                        | None => emit (EncodeRune RuneError) (unquote fuel q)
                        end
                    | None => emit (EncodeRune RuneError) (unquote fuel q)
                    end
                  else emit (EncodeRune r) (unquote fuel q)
              end
            else match unescape e with Some b => emit [b] (unquote fuel q) | None => None end
        end
      else if c <? 32 then None
      else if c <? 128 then emit [c] (unquote fuel q)
      else
        let '(r, n) := DecodeRune p in
        if (r =? RuneError) && Nat.eqb n 1 then emit (EncodeRune RuneError) (unquote fuel q)
        else emit (take n p) (unquote fuel (drop n p))
  | _, _ => None
  end.

Fixpoint digits (p : list Z) : list Z * list Z :=
  match p with
  | c :: q => if is_digit c then let '(ds, r) := digits q in (c :: ds, r) else ([], p)
  | [] => ([], [])
  end.
(** One digit or more. *)
Definition digits1 (p : list Z) : option (list Z * list Z) := let '(ds, r) := digits p in match ds with [] => None | _ => Some (ds, r) end.

Definition integer (p : list Z) : option (list Z * list Z) :=
  match eat 48 p with Some q => Some ([48], q) | None => digits1 p end.
Definition fraction (p : list Z) : option (list Z * list Z) := match eat 46 p with Some q => emit [46] (digits1 q) | None => Some ([], p) end.
Definition exponent (p : list Z) : option (list Z * list Z) :=
  match p with
  | c :: q =>
      if (c =? 101) || (c =? 69) then
        match q with
        | s :: q' => if (s =? 43) || (s =? 45) then emit [c; s] (digits1 q') else emit [c] (digits1 q)
        | [] => None
        end
      else Some ([], p)
  | [] => Some ([], [])
  end.
Definition number (p : list Z) : option (list Z * list Z) :=
  let '(sign, p) := match eat 45 p with Some q => ([45], q) | None => ([], p) end in
  '(i, p) ← integer p; '(f, p) ← fraction p; '(e, p) ← exponent p; Some (sign ++ i ++ f ++ e, p).

(** [depth]: how many arrays and objects may still be opened. *)
Fixpoint value (fuel : nat) (depth : Z) (p : list Z) : option (json * list Z) :=
  match fuel with
  | O => None
  | S fuel =>
      match skip p with
      | [] => None
      | c :: q =>
          if c =? 34 then '(s, r) ← unquote (S (length q)) q; Some (JStr s, r)
          else if c =? 123 then
            if depth <=? 0 then None
            else match eat 125 (skip q) with
                 | Some r => Some (JObj [], r)
                 | None => '(l, r) ← members fuel (depth - 1) q; Some (JObj l, r)
                 end
          else if c =? 91 then
            if depth <=? 0 then None
            else match eat 93 (skip q) with
                 | Some r => Some (JArr [], r)
                 | None => '(l, r) ← elements fuel (depth - 1) q; Some (JArr l, r)
                 end
          else if c =? 116 then r ← lit (bytes "rue") q; Some (JBool true, r)
          else if c =? 102 then r ← lit (bytes "alse") q; Some (JBool false, r)
          else if c =? 110 then r ← lit (bytes "ull") q; Some (JNull, r)
          else '(t, r) ← number (c :: q); Some (JNum t, r)
      end
  end
with elements (fuel : nat) (depth : Z) (p : list Z) : option (list json * list Z) :=
  match fuel with
  | O => None
  | S fuel =>
      '(v, r) ← value fuel depth p;
      match skip r with
      | [] => None
      | c :: r => if c =? 93 then Some ([v], r) else if c =? 44 then '(l, r) ← elements fuel depth r; Some (v :: l, r) else None
      end
  end
with members (fuel : nat) (depth : Z) (p : list Z) : option (list (list Z * json) * list Z) :=
  match fuel with
  | O => None
  | S fuel =>
      q ← eat 34 (skip p);
      '(k, r) ← unquote (S (length q)) q;
      r ← eat 58 (skip r);
      '(v, r) ← value fuel depth r;
      match skip r with
      | [] => None
      | c :: r => if c =? 125 then Some ([(k, v)], r) else if c =? 44 then '(l, r) ← members fuel depth r; Some ((k, v) :: l, r) else None
      end
  end.

Definition maxNestingDepth : Z := 10000.

(** A text that is one document, with space around it. Every call of the parser has read
    a byte by its second step, so twice the length is enough (lemma [value_fuel]). *)
Definition Parse (p : list Z) : option json :=
  '(v, r) ← value (2 * length p + 2) maxNestingDepth p; match skip r with [] => Some v | _ => None end.

(** ** Strings are read back *)

Lemma hex_unhex (d : Z) : 0 <= d < 16 -> unhex (hex d) = Some d.
Proof.
  intros H. unfold hex. destruct (Z.ltb_spec d 10).
  - unfold unhex, in_range. rewrite (proj2 (Z.leb_le 48 (48 + d))), (proj2 (Z.leb_le (48 + d) 57)) by lia. cbn [andb]. f_equal. lia.
  - unfold unhex, in_range. rewrite (proj2 (Z.leb_gt (87 + d) 57)), andb_false_r by lia.
    rewrite (proj2 (Z.leb_le 97 (87 + d))), (proj2 (Z.leb_le (87 + d) 102)) by lia. cbn [andb]. f_equal. lia.
Qed.

(** A rune that decodes does so alone, too. *)
Lemma decode_take (p q : list Z) (r : Z) (n : nat) :
  p <> [] -> DecodeRune p = (r, n) -> (r =? RuneError) && Nat.eqb n 1 = false -> DecodeRune (take n p ++ q) = (r, n).
Proof.
  destruct p as [|b0 [|b1 [|b2 [|b3 p]]]]; [done|..]; intros _; unfold DecodeRune;
    repeat (case_match; try (intros [= <- <-]; try done; cbn [take app] in *; repeat (case_match; try done; try congruence))).
Qed.

Lemma decode_head (p : list Z) (b : Z) : 128 <= b -> (DecodeRune (b :: p)).1 = RuneError \/ 128 <= (DecodeRune (b :: p)).1.
Proof.
  intros Hb. unfold DecodeRune. rewrite (proj2 (Z.ltb_ge b 128)) by lia.
  unfold second_lo, second_hi, cont, in_range. repeat (case_match; cbn [fst]; try (by left)); right; zbool; lia.
Qed.

Lemma decode_separator (p : list Z) (b r : Z) (n : nat) :
  128 <= b -> DecodeRune (b :: p) = (r, n) -> (r =? 0x2028) || (r =? 0x2029) = true -> take n (b :: p) = [226; 128; r - 0x2028 + 168].
Proof.
  intros Hb. unfold DecodeRune. rewrite (proj2 (Z.ltb_ge b 128)) by lia. unfold second_lo, second_hi, cont, in_range.
  intros E Hr. repeat (case_match; simplify_eq; try done); zbool; cbn [take]; try (exfalso; lia);
    repeat f_equal; lia.
Qed.

Lemma runes_fuel_enough (n m : nat) (p : list Z) : (length p <= n)%nat -> (length p <= m)%nat -> runes_fuel n p = runes_fuel m p.
Proof.
  revert m p. induction n as [|n IH]; intros [|m] [|b p] Hn Hm; try done; cbn [length] in *; try lia. cbn [runes_fuel].
  pose proof (decode_width (b :: p) ltac:(done)) as Hw. destruct (DecodeRune (b :: p)) as [r k]. cbn [snd] in Hw. f_equal.
  apply IH; rewrite length_drop; cbn [length]; lia.
Qed.

Lemma Valid_cons (b : Z) (p : list Z) :
  Valid (b :: p) = let '(r, n) := DecodeRune (b :: p) in negb ((r =? RuneError) && Nat.eqb n 1) && Valid (drop n (b :: p)).
Proof.
  unfold Valid, runes. cbn [length runes_fuel]. pose proof (decode_width (b :: p) ltac:(done)) as Hw.
  destruct (DecodeRune (b :: p)) as [r k]. cbn [snd forallb] in *. f_equal. f_equal.
  apply runes_fuel_enough; rewrite length_drop; cbn [length]; lia.
Qed.

Lemma Valid_low (b : Z) (p : list Z) : b < 128 -> Valid (b :: p) = true -> Valid p = true.
Proof.
  intros Hb. rewrite Valid_cons. cbn [DecodeRune]. rewrite (proj2 (Z.ltb_lt b 128)) by done. cbn [drop]. intros H. by zbool.
Qed.

Lemma emit_some (s t r : list Z) (o : option (list Z * list Z)) : o = Some (t, r) -> emit s o = Some (s ++ t, r).
Proof. by intros ->. Qed.

Lemma unquote_u (n : nat) (p q : list Z) (r : Z) :
  hex4 p = Some (r, q) -> surrogate r = false -> unquote (S n) (92 :: 117 :: p) = emit (EncodeRune r) (unquote n q).
Proof. intros H Hs. cbn [unquote]. change (92 =? 34) with false. cbv iota. change (92 =? 92) with true. change (117 =? 117) with true. cbv iota. by rewrite H, Hs. Qed.

(** One step over what one byte is written as. *)
Lemma unquote_escape (b : Z) (n : nat) (p : list Z) : 0 <= b < 128 -> unquote (S n) (escape b ++ p) = emit [b] (unquote n p).
Proof.
  intros Hb. unfold escape. destruct (safe b) eqn:Hs.
  - unfold safe in Hs. apply andb_true_iff in Hs as [H1%Z.leb_le H2]. rewrite negb_true_iff in H2. apply bool_decide_eq_false in H2. cbn [app unquote].
    rewrite (proj2 (Z.eqb_neq b 34)), (proj2 (Z.eqb_neq b 92)) by set_solver.
    by rewrite (proj2 (Z.ltb_ge b 32)), (proj2 (Z.ltb_lt b 128)) by lia.
  - destruct (Z.eqb_spec b 34) as [->|]; [done|]. destruct (Z.eqb_spec b 92) as [->|]; [done|]. cbn [orb].
    destruct (Z.eqb_spec b 8) as [->|]; [done|]. destruct (Z.eqb_spec b 12) as [->|]; [done|].
    destruct (Z.eqb_spec b 10) as [->|]; [done|]. destruct (Z.eqb_spec b 13) as [->|]; [done|]. destruct (Z.eqb_spec b 9) as [->|]; [done|].
    cbn [app]. rewrite (unquote_u n _ p b).
    + unfold EncodeRune. by rewrite (proj2 (Z.ltb_lt b 0x80)) by lia.
    + cbn [hex4]. rewrite !hex_unhex by (split; [apply Z.div_pos; lia|apply Z.div_lt_upper_bound; lia] || apply Z.mod_pos_bound; lia).
      change (unhex 48) with (Some 0). cbv iota. do 2 f_equal. pose proof (Z.div_mod b 16). lia.
    + unfold surrogate, in_range. by rewrite (proj2 (Z.leb_gt 0xD800 b)) by lia.
Qed.

Lemma unquote_quote (n m : nat) (p q : list Z) :
  Forall is_byte p -> Valid p = true -> (length p <= n)%nat -> (length p < m)%nat -> unquote m (quote n p ++ 34 :: q) = Some (p, q).
Proof.
  revert m p. induction n as [|n IH]; intros [|m] [|b p] Hb Hv Hn Hm; cbn [length] in *; try lia; [done|done|].
  inversion_clear Hb as [|? ? Hb0 Hbp]. cbn [quote]. destruct (Z.ltb_spec b 128) as [Hlow|Hhigh].
  - rewrite <- app_assoc, unquote_escape by (unfold is_byte in Hb0; lia).
    rewrite (emit_some _ p q); [done|]. apply IH; [done|by eapply Valid_low|lia|lia].
  - rewrite Valid_cons in Hv. pose proof (decode_width (b :: p) ltac:(done)) as Hw. pose proof (decode_fits (b :: p)) as Hf.
    destruct (DecodeRune (b :: p)) as [r k] eqn:E. cbn [snd] in *. apply andb_true_iff in Hv as [Hne Hv]. apply negb_true_iff in Hne. rewrite Hne.
    assert (Hrest : unquote m (quote n (drop k (b :: p)) ++ 34 :: q) = Some (drop k (b :: p), q)).
    { apply IH; [by apply Forall_drop; constructor|done|rewrite length_drop; cbn [length]; lia|rewrite length_drop; cbn [length]; lia]. }
    destruct ((r =? 0x2028) || (r =? 0x2029)) eqn:Hsep.
    + pose proof (decode_separator p b r k Hhigh E Hsep) as Ht. rewrite <- app_assoc. cbn [app].
      assert (Hr : r = 0x2028 \/ r = 0x2029) by (apply orb_true_iff in Hsep as [?%Z.eqb_eq|?%Z.eqb_eq]; auto).
      rewrite (unquote_u m _ (quote n (drop k (b :: p)) ++ 34 :: q) r) by (by destruct Hr as [-> | ->]).
      rewrite (emit_some _ _ _ _ Hrest). f_equal. f_equal. rewrite <- (take_drop k (b :: p)) at 2. rewrite Ht.
      by destruct Hr as [-> | ->].
    + rewrite <- app_assoc. pose proof (decode_take (b :: p) (quote n (drop k (b :: p)) ++ 34 :: q) r k ltac:(done) E Hne) as Hd.
      destruct k as [|k]; [lia|]. cbn [take app] in Hd |- *. cbn [unquote].
      rewrite (proj2 (Z.eqb_neq b 34)), (proj2 (Z.eqb_neq b 92)), (proj2 (Z.ltb_ge b 32)), (proj2 (Z.ltb_ge b 128)) by lia.
      rewrite Hd, Hne. change (b :: take k p ++ quote n (drop (S k) (b :: p)) ++ 34 :: q) with (take (S k) (b :: p) ++ quote n (drop (S k) (b :: p)) ++ 34 :: q).
      rewrite drop_app_length', take_app_length' by (rewrite length_take; cbn [length] in *; lia).
      rewrite (emit_some _ _ _ _ Hrest). by rewrite take_drop.
Qed.

Lemma escape_length (b : Z) : (1 <= length (escape b))%nat.
Proof. unfold escape. repeat (case_match; cbn; try lia). Qed.

Lemma quote_length (n : nat) (p : list Z) : (length p <= n)%nat -> (length p <= length (quote n p))%nat.
Proof.
  revert p. induction n as [|n IH]; intros [|b p] Hn; cbn [length] in *; try lia. cbn [quote].
  pose proof (escape_length b) as He. pose proof (decode_width (b :: p) ltac:(done)) as Hw. pose proof (decode_fits (b :: p)) as Hf.
  destruct (b <? 128); [specialize (IH p ltac:(lia)); rewrite length_app; lia|].
  destruct (DecodeRune (b :: p)) as [r k]. cbn [snd length] in *.
  specialize (IH (drop k (b :: p))) as IHd. rewrite length_drop in IHd. cbn [length] in IHd. specialize (IHd ltac:(lia)).
  destruct ((r =? RuneError) && _); [specialize (IH p ltac:(lia)); cbn [app length]; lia|].
  destruct (_ || _) eqn:Hs.
  - destruct k as [|[|[|[|k]]]]; cbn [app length]; try lia.
  - rewrite length_app, length_take. cbn [length]. lia.
Qed.

(** A literal of valid UTF-8 is read back. *)
Lemma literal_read (p q : list Z) :
  Forall is_byte p -> Valid p = true ->
  eat 34 (literal p ++ q) = Some (quote (length p) p ++ 34 :: q) /\
  unquote (S (length (quote (length p) p ++ 34 :: q))) (quote (length p) p ++ 34 :: q) = Some (p, q).
Proof.
  intros Hb Hv. unfold literal. split; [cbn; by rewrite <- app_assoc|].
  apply unquote_quote; [done|done|lia|]. rewrite length_app. cbn [length]. pose proof (quote_length (length p) p ltac:(lia)). lia.
Qed.

(** ** Numbers are read back *)

(** What follows a value inside a document. *)
Definition stop (q : list Z) : Prop := match q with [] => True | c :: _ => c = 44 \/ c = 93 \/ c = 125 end.

Lemma digits_app (ds q : list Z) : Forall (fun c => is_digit c = true) ds -> stop q -> digits (ds ++ q) = (ds, q).
Proof.
  intros Hd Hq. induction Hd as [|c ds Hc _ IH]; cbn.
  - destruct q as [|c q]; [done|]. cbn. by destruct Hq as [->|[->| ->]].
  - by rewrite Hc, IH.
Qed.

Lemma dec_head (fuel : nat) (n : Z) : 0 < n < 2 ^ Z.of_nat fuel -> exists c l, dec_fuel fuel n [] = c :: l /\ c <> 48.
Proof.
  revert n. induction fuel as [|fuel IH]; intros n Hn; [cbn in Hn; lia|]. cbn [dec_fuel]. destruct (Z.ltb_spec n 10).
  - eexists _, []. split; [done|]. rewrite Z.mod_small by lia. lia.
  - rewrite Nat2Z.inj_succ, Z.pow_succ_r in Hn by lia. rewrite dec_fuel_acc.
    destruct (IH (n / 10)) as (c & l & -> & Hc); [split; [apply Z.div_str_pos; lia|apply Z.div_lt_upper_bound; lia]|]. by exists c, (l ++ [48 + n mod 10]).
Qed.

Lemma integer_dec (n : Z) (q : list Z) : 0 <= n <= Go.uint64_max -> stop q -> integer (dec n ++ q) = Some (dec n, q).
Proof.
  intros Hn Hq. destruct (parse_dec n Hn) as (_ & Hne & Hd). destruct (Z.eq_dec n 0) as [->|Hz]; [done|].
  destruct (dec_head (S (Z.to_nat (Z.log2 n))) n) as (c & l & E & Hc).
  { rewrite Nat2Z.inj_succ, Z2Nat.id by apply Z.log2_nonneg. pose proof (Z.log2_spec n). lia. }
  unfold integer, digits1. fold (dec n) in E. rewrite digits_app by done. rewrite E. cbn. by rewrite (proj2 (Z.eqb_neq c 48)).
Qed.

Lemma no_fraction (q : list Z) : stop q -> fraction q = Some ([], q) /\ exponent q = Some ([], q).
Proof. destruct q as [|c q]; [done|]. by intros [->|[->| ->]]. Qed.

Lemma dec_first (n : Z) : 0 <= n <= Go.uint64_max -> exists c l, dec n = c :: l /\ 48 <= c <= 57.
Proof.
  intros Hn. destruct (parse_dec n Hn) as (_ & Hne & Hd). destruct (dec n) as [|c l]; [done|]. exists c, l. split; [done|].
  inversion_clear Hd as [|? ? Hc _]. unfold is_digit, in_range in Hc. by zbool.
Qed.

Lemma number_int (z : Z) (q : list Z) : Go.in_int64 z -> stop q -> number (FormatInt z ++ q) = Some (FormatInt z, q).
Proof.
  unfold Go.in_int64, Go.int64_min, Go.int64_max. intros Hz Hq. destruct (no_fraction q Hq) as [Hf He].
  unfold number, FormatInt. destruct (Z.ltb_spec z 0).
  - cbn [app eat]. change (45 =? 45) with true. cbv iota. rewrite integer_dec by (done || unfold Go.uint64_max; lia).
    cbn [mbind option_bind]. rewrite Hf. cbn [mbind option_bind]. rewrite He. cbn [mbind option_bind]. by rewrite !app_nil_r.
  - destruct (dec_first z ltac:(unfold Go.uint64_max; lia)) as (c & l & E & Hc).
    assert (Heat : eat 45 (dec z ++ q) = None) by (rewrite E; cbn; by rewrite (proj2 (Z.eqb_neq c 45)) by lia). rewrite Heat.
    rewrite integer_dec by (done || unfold Go.uint64_max; lia).
    cbn [mbind option_bind]. rewrite Hf. cbn [mbind option_bind]. rewrite He. cbn [mbind option_bind]. by rewrite !app_nil_r.
Qed.

(** ** Documents are read back *)

(** Strings of valid UTF-8 and numbers that are integers of 64 bits. *)
Definition good_string (s : list Z) : Prop := Forall is_byte s /\ Valid s = true.
Fixpoint good (v : json) : Prop :=
  match v with
  | JNull | JBool _ => True
  | JNum t => exists z, Go.in_int64 z /\ t = FormatInt z
  | JStr s => good_string s
  | JArr l => (fix go (l : list json) := match l with [] => True | v :: l => good v /\ go l end) l
  | JObj l => (fix go (l : list (list Z * json)) := match l with [] => True | (k, v) :: l => good_string k /\ good v /\ go l end) l
  end.

Fixpoint depth (v : json) : Z :=
  match v with
  | JArr l => 1 + (fix go (l : list json) := match l with [] => 0 | v :: l => Z.max (depth v) (go l) end) l
  | JObj l => 1 + (fix go (l : list (list Z * json)) := match l with [] => 0 | (_, v) :: l => Z.max (depth v) (go l) end) l
  | _ => 0
  end.

(** How a document begins. *)
Lemma marshal_head (v : json) : good v -> exists c t, Marshal v = c :: t /\ space c = false /\ c <> 93 /\ c <> 125.
Proof.
  destruct v as [|[]|t|s|l|l]; cbn; intros Hg; try (eexists _, _; split_and!; done || lia).
  destruct Hg as (z & Hz & ->). unfold FormatInt. unfold Go.in_int64, Go.int64_min, Go.int64_max in Hz. destruct (Z.ltb_spec z 0).
  - by eexists _, _.
  - destruct (dec_first z ltac:(unfold Go.uint64_max; lia)) as (c & l & -> & Hc). exists c, l. unfold space.
    split_and!; [done| |lia|lia]. repeat rewrite (proj2 (Z.eqb_neq c _)) by lia. done.
Qed.

Definition reads_back (v : json) : Prop :=
  forall (n : nat) (d : Z) (q : list Z), good v -> depth v <= d -> stop q -> (2 * length (Marshal v ++ q) < n)%nat ->
  value n d (Marshal v ++ q) = Some (v, q).

Lemma skip_head (c : Z) (p : list Z) : space c = false -> skip (c :: p) = c :: p.
Proof. intros H. cbn. by rewrite H. Qed.

Lemma join_cons (x y : list Z) (l : list (list Z)) : join 44 (x :: y :: l) = x ++ 44 :: join 44 (y :: l).
Proof. reflexivity. Qed.

(** The end of an array or object, or the next of its members. *)
Lemma elements_read (l : list json) (n : nat) (d : Z) (q : list Z) :
  Forall reads_back l -> l <> [] -> Forall good l -> Forall (fun v => depth v <= d) l ->
  (2 * length (join 44 (List.map Marshal l) ++ 93 :: q)%Z + 1 < n)%nat ->
  elements n d (join 44 (List.map Marshal l) ++ 93 :: q) = Some (l, q).
Proof.
  intros Hr. revert n. induction Hr as [|v l Hv Hr IH]; intros n Hne Hg Hd Hn; [done|].
  inversion_clear Hg as [|? ? Hgv Hgl]. inversion_clear Hd as [|? ? Hdv Hdl]. destruct n as [|n]; [lia|]. cbn [elements List.map] in *.
  destruct l as [|w l]; cbn [List.map] in *; [cbn [join] in *|rewrite join_cons in *].
  - rewrite (Hv n d (93 :: q)); [|done|done|by cbn; auto|lia]. reflexivity.
  - rewrite <- app_assoc in *. cbn [app] in *.
    rewrite (Hv n d); [|done|done|by cbn; auto|lia].
    cbn [mbind option_bind]. rewrite skip_head by done. change (44 =? 93) with false. change (44 =? 44) with true. cbv iota.
    rewrite length_app in Hn. cbn [length] in Hn. rewrite (IH n); [done|done|done|done|lia].
Qed.

Definition member (kv : list Z * json) : list Z := literal kv.1 ++ [58] ++ Marshal kv.2.

Lemma members_read (l : list (list Z * json)) (n : nat) (d : Z) (q : list Z) :
  Forall (fun kv => reads_back kv.2) l -> l <> [] -> Forall (fun kv => good_string kv.1 /\ good kv.2 /\ depth kv.2 <= d) l ->
  (2 * length (join 44 (List.map member l) ++ 125 :: q)%Z + 1 < n)%nat ->
  members n d (join 44 (List.map member l) ++ 125 :: q) = Some (l, q).
Proof.
  intros Hr. revert n. induction Hr as [|[k v] l Hv Hr IH]; intros n Hne Hg Hn; [done|].
  apply Forall_cons in Hg as [[[Hkb Hkv] [Hgv Hdv]] Hgl]. cbn [fst snd] in *. destruct n as [|n]; [lia|].
  assert (Hkey : forall rest, members (S n) d (member (k, v) ++ rest) =
    '(v, r) ← value n d (Marshal v ++ rest);
    match skip r with
    | [] => None
    | c :: r => if c =? 125 then Some ([(k, v)], r) else if c =? 44 then '(l, r) ← members n d r; Some ((k, v) :: l, r) else None
    end).
  { intros rest. unfold member. cbn [members fst snd]. rewrite <- !app_assoc.
    destruct (literal_read k ([58] ++ Marshal v ++ rest) Hkb Hkv) as [He Hu].
    assert (Hs : skip (literal k ++ [58] ++ Marshal v ++ rest) = literal k ++ [58] ++ Marshal v ++ rest) by done.
    rewrite Hs, He. cbn [mbind option_bind]. rewrite Hu. cbn [mbind option_bind app]. rewrite skip_head by done. cbn [eat].
    change (58 =? 58) with true. cbv iota. done. }
  assert (Hlen : forall rest, (length (Marshal v ++ rest) <= length (member (k, v) ++ rest))%nat).
  { intros rest. unfold member. cbn [fst snd]. rewrite !length_app. cbn. lia. }
  cbn [List.map] in *. destruct l as [|w l]; cbn [List.map] in *; [cbn [join] in *|rewrite join_cons in *].
  - rewrite Hkey. specialize (Hlen (125 :: q)). rewrite (Hv n d (125 :: q)); [|done|done|by cbn; auto|lia]. reflexivity.
  - rewrite <- app_assoc in *. cbn [app] in *. rewrite Hkey.
    specialize (Hlen (44 :: join 44 (member w :: List.map member l) ++ 125 :: q)).
    rewrite (Hv n d); [|done|done|by cbn; auto|lia].
    cbn [mbind option_bind]. rewrite skip_head by done. change (44 =? 125) with false. change (44 =? 44) with true. cbv iota.
    rewrite length_app in Hn. cbn [length] in Hn. rewrite (IH n); [done|done|done|lia].
Qed.

Lemma good_arr (l : list json) (d : Z) :
  good (JArr l) -> depth (JArr l) <= d -> 1 <= d /\ Forall good l /\ Forall (fun v => depth v <= d - 1) l.
Proof.
  cbn. intros Hg Hd.
  assert (H0 : forall l : list json, 0 <= (fix go (l : list json) := match l with [] => 0 | v :: l => Z.max (depth v) (go l) end) l).
  { clear. induction l; lia. }
  pose proof (H0 l). split; [lia|]. clear H. induction l as [|v l IH]; [by split|]. destruct Hg as [Hv Hl]. specialize (H0 l).
  destruct (IH Hl) as [? ?]; [lia|]. split; constructor; done || lia.
Qed.

Lemma good_obj (l : list (list Z * json)) (d : Z) :
  good (JObj l) -> depth (JObj l) <= d -> 1 <= d /\ Forall (fun kv => good_string kv.1 /\ good kv.2 /\ depth kv.2 <= d - 1) l.
Proof.
  cbn. intros Hg Hd.
  assert (H0 : forall l : list (list Z * json), 0 <= (fix go (l : list (list Z * json)) := match l with [] => 0 | (_, v) :: l => Z.max (depth v) (go l) end) l).
  { clear. induction l as [|[k v] l]; lia. }
  pose proof (H0 l). split; [lia|]. clear H. induction l as [|[k v] l IH]; [constructor|]. destruct Hg as (Hk & Hv & Hl). specialize (H0 l).
  constructor; [cbn; split_and!; done || lia|]. apply IH; [done|lia].
Qed.

Lemma all_read_back (v : json) : reads_back v.
Proof.
  induction v as [|b|t|s|l IH|l IH] using json_induction; intros n d q Hg Hd Hq Hn; (destruct n as [|n]; [lia|]).
  - reflexivity.
  - by destruct b.
  - destruct (marshal_head (JNum t) Hg) as (c & t' & E & Hs & _). destruct Hg as (z & Hz & ->). cbn [Marshal] in *.
    pose proof (number_int z q Hz Hq) as Hnum. 
    assert (Hc : c = 45 \/ 48 <= c <= 57).
    { revert E. unfold FormatInt, Go.in_int64, Go.int64_min, Go.int64_max in *. destruct (Z.ltb_spec z 0); [intros [= <- _]; by left|].
      destruct (dec_first z ltac:(unfold Go.uint64_max; lia)) as (c' & l & -> & Hc). intros [= <- _]. by right. }
    rewrite E in *. cbn [app value]. rewrite skip_head by done. repeat rewrite (proj2 (Z.eqb_neq c _)) by lia. cbn [app] in Hnum. by rewrite Hnum.
  - destruct Hg as [Hb Hv]. destruct (literal_read s q Hb Hv) as [_ Hu]. cbn [Marshal]. unfold literal. cbn [app value]. rewrite skip_head by done.
    change (34 =? 34) with true. cbv iota. rewrite <- app_assoc. cbn [app]. by rewrite Hu.
  - destruct (good_arr l d Hg Hd) as (H1 & Hgl & Hdl). cbn [Marshal] in *. rewrite <- !app_assoc in *. cbn [app value] in *. rewrite skip_head by done.
    change (91 =? 34) with false. change (91 =? 123) with false. change (91 =? 91) with true. cbv iota. rewrite (proj2 (Z.leb_gt d 0)) by lia.
    destruct l as [|v l]; [done|].
    assert (He : eat 93 (skip (join 44 (List.map Marshal (v :: l)) ++ 93 :: q)) = None).
    { inversion_clear Hgl as [|? ? Hv _]. destruct (marshal_head v Hv) as (c & t & E & Hs & Hne & _).
      assert (E2 : exists t', join 44 (List.map Marshal (v :: l)) = c :: t') by (cbn; rewrite E; destruct (List.map Marshal l); by eexists).
      destruct E2 as [t' ->]. cbn [app]. rewrite skip_head by done. cbn. by rewrite (proj2 (Z.eqb_neq c 93)). }
    rewrite He, elements_read; [done|done|done|done|done|cbn [length] in Hn; lia].
  - destruct (good_obj l d Hg Hd) as (H1 & Hgl). cbn [Marshal] in *. change (fun kv : list Z * json => literal kv.1 ++ [58] ++ Marshal kv.2) with member in *.
    rewrite <- !app_assoc in *. cbn [app value] in *. rewrite skip_head by done.
    change (123 =? 34) with false. change (123 =? 123) with true. cbv iota. rewrite (proj2 (Z.leb_gt d 0)) by lia.
    destruct l as [|[k v] l]; [done|].
    assert (He : eat 125 (skip (join 44 (List.map member ((k, v) :: l)) ++ 125 :: q)) = None).
    { assert (E2 : exists t', join 44 (List.map member ((k, v) :: l)) = 34 :: t') by (cbn; destruct (List.map member l); by eexists).
      by destruct E2 as [t' ->]. }
    rewrite He, members_read; [done|done|done|done|cbn [length] in Hn; lia].
Qed.

(** What [Marshal] writes, [Parse] reads back. *)
Lemma parse_marshal (v : json) : good v -> depth v <= maxNestingDepth -> Parse (Marshal v) = Some v.
Proof.
  intros Hg Hd. unfold Parse. rewrite <- (app_nil_r (Marshal v)) at 2. rewrite all_read_back; [done|done|done|done|]. rewrite app_nil_r. lia.
Qed.

(** ** Texts are bytes *)

Lemma hex_byte (d : Z) : 0 <= d < 16 -> is_byte (hex d).
Proof. unfold hex, is_byte. destruct (Z.ltb_spec d 10); lia. Qed.

Lemma escape_bytes (b : Z) : 0 <= b < 128 -> Forall is_byte (escape b).
Proof.
  intros Hb. unfold escape. repeat case_match; repeat constructor; unfold is_byte; try lia;
    (apply hex_byte; (split; [apply Z.div_pos; lia|apply Z.div_lt_upper_bound; lia]) || apply Z.mod_pos_bound; lia).
Qed.

Lemma quote_bytes (n : nat) (p : list Z) : Forall is_byte p -> Forall is_byte (quote n p).
Proof.
  revert p. induction n as [|n IH]; intros [|b p] Hp; cbn [quote]; try constructor. pose proof Hp as Hp0. apply Forall_cons in Hp0 as [Hb Hq].
  unfold is_byte in Hb. destruct (Z.ltb_spec b 128); [apply Forall_app; split; [apply escape_bytes; lia|by apply IH]|].
  destruct (DecodeRune (b :: p)) as [r k]. destruct (_ && _); [|destruct (_ || _)]; apply Forall_app; split.
  - repeat constructor; unfold is_byte; lia.
  - by apply IH.
  - repeat constructor; unfold is_byte; try lia; apply hex_byte, Z.mod_pos_bound; lia.
  - by apply IH, Forall_drop.
  - by apply Forall_take.
  - by apply IH, Forall_drop.
Qed.

Lemma literal_bytes (p : list Z) : Forall is_byte p -> Forall is_byte (literal p).
Proof. intros H. unfold literal. constructor; [unfold is_byte; lia|]. apply Forall_app. split; [by apply quote_bytes|]. repeat constructor; unfold is_byte; lia. Qed.

Lemma join_bytes (l : list (list Z)) : Forall (Forall is_byte) l -> Forall is_byte (join 44 l).
Proof.
  induction 1 as [|x l Hx Hl IH]; [constructor|]. destruct l as [|y l]; [done|]. rewrite join_cons. apply Forall_app. split; [done|].
  constructor; [unfold is_byte; lia|done].
Qed.

Lemma marshal_bytes (v : json) : good v -> Forall is_byte (Marshal v).
Proof.
  assert (Hone : forall c, is_byte c -> Forall is_byte [c]) by (intros; by constructor).
  induction v as [|b|t|s|l IH|l IH] using json_induction; intros Hg.
  - apply bytes_range.
  - destruct b; apply bytes_range.
  - destruct Hg as (z & Hz & ->). by apply FormatInt_bytes.
  - apply literal_bytes, Hg.
  - destruct (good_arr l (depth (JArr l)) Hg ltac:(lia)) as (_ & Hgl & _). cbn [Marshal].
    repeat (apply Forall_app; split); try (apply Hone; unfold is_byte; lia). apply join_bytes, Forall_fmap. unfold compose.
    eapply Forall_impl; [apply Forall_and; split; [exact IH|exact Hgl]|]. intros v [Hv Hgv]. by apply Hv.
  - destruct (good_obj l (depth (JObj l)) Hg ltac:(lia)) as (_ & Hgl). cbn [Marshal].
    repeat (apply Forall_app; split); try (apply Hone; unfold is_byte; lia). apply join_bytes, Forall_fmap. unfold compose.
    eapply Forall_impl; [apply Forall_and; split; [exact IH|exact Hgl]|]. intros [k v] (Hv & Hk & Hgv & _).
    cbn [fst snd] in *. repeat (apply Forall_app; split); [apply literal_bytes, Hk|apply Hone; unfold is_byte; lia|by apply Hv].
Qed.

(** ** The fuel is enough *)

Lemma eat_length (c : Z) (p q : list Z) : eat c p = Some q -> length p = S (length q).
Proof. destruct p as [|b p]; cbn; [done|]. destruct (b =? c); [|done]. by intros [= ->]. Qed.

Lemma skip_length (p : list Z) : (length (skip p) <= length p)%nat.
Proof. induction p as [|c p IH]; cbn; [lia|]. destruct (space c); cbn; lia. Qed.

Lemma lit_length (w p q : list Z) : lit w p = Some q -> (length q <= length p)%nat.
Proof.
  revert p. induction w as [|c w IH]; intros p; cbn; [intros [= ->]; lia|]. destruct (eat c p) as [p'|] eqn:E; [|done].
  intros H%IH. apply eat_length in E. lia.
Qed.

Lemma hex4_length (p q : list Z) (r : Z) : hex4 p = Some (r, q) -> (length q < length p)%nat.
Proof.
  destruct p as [|a [|b [|c [|d p]]]]; cbn; try done. destruct (unhex a), (unhex b), (unhex c), (unhex d); try done. intros [= _ <-]. lia.
Qed.

Lemma emit_inv (s t r : list Z) (o : option (list Z * list Z)) : emit s o = Some (t, r) -> exists t', o = Some (t', r).
Proof. destruct o as [[t' r']|]; cbn; [|done]. intros [= _ ->]. eauto. Qed.

Lemma unquote_length (n : nat) (p s r : list Z) : unquote n p = Some (s, r) -> (length r < length p)%nat.
Proof.
  revert p s r. induction n as [|n IH]; intros [|c p] s r; cbn [unquote]; try done. cbn [length].
  assert (Hgo : forall pre q, (length q <= length p)%nat -> emit pre (unquote n q) = Some (s, r) -> (length r < S (length p))%nat).
  { intros pre q Hq H%emit_inv. destruct H as [t' H%IH]. lia. }
  destruct (c =? 34); [intros [= _ <-]; lia|]. destruct (c =? 92).
  - destruct p as [|e q]; [done|]. cbn [length] in *. destruct (e =? 117).
    + destruct (hex4 q) as [[u q1]|] eqn:E1; [|done]. apply hex4_length in E1.
      destruct (surrogate u); [|apply Hgo; lia]. destruct (lit [92; 117] q1 ≫= hex4) as [[u2 q2]|] eqn:E2; [|apply Hgo; lia].
      destruct (surrogates u u2); [|apply Hgo; lia]. apply Hgo. apply bind_Some in E2 as (q3 & E3 & E4).
      apply lit_length in E3. apply hex4_length in E4. lia.
    + destruct (unescape e); [|done]. apply Hgo. lia.
  - destruct (c <? 32); [done|]. destruct (c <? 128); [apply Hgo; lia|].
    pose proof (decode_width (c :: p) ltac:(done)) as Hw. destruct (DecodeRune (c :: p)) as [u k]. cbn [snd] in Hw.
    destruct (_ && _); [apply Hgo; lia|]. apply Hgo. rewrite length_drop. cbn [length]. lia.
Qed.

Lemma digits_length (p : list Z) : let '(ds, r) := digits p in (length r + length ds = length p)%nat.
Proof. induction p as [|c p IH]; cbn; [done|]. destruct (is_digit c); [|done]. destruct (digits p). cbn. lia. Qed.

Lemma digits1_length (p ds r : list Z) : digits1 p = Some (ds, r) -> (length r < length p)%nat.
Proof.
  unfold digits1. pose proof (digits_length p) as H. destruct (digits p) as [[|c ds'] r']; [done|]. intros [= _ <-]. cbn in H. lia.
Qed.

Lemma emit_digits1_length (pre p t r : list Z) : emit pre (digits1 p) = Some (t, r) -> (length r < length p)%nat.
Proof. intros [t' H]%emit_inv. by eapply digits1_length. Qed.

Lemma integer_length (p t r : list Z) : integer p = Some (t, r) -> (length r < length p)%nat.
Proof. unfold integer. destruct (eat 48 p) as [q|] eqn:E; [|apply digits1_length]. apply eat_length in E. intros [= _ <-]. lia. Qed.

Lemma fraction_length (p t r : list Z) : fraction p = Some (t, r) -> (length r <= length p)%nat.
Proof.
  unfold fraction. destruct (eat 46 p) as [q|] eqn:E; [|by intros [= _ <-]]. apply eat_length in E. intros H%emit_digits1_length. lia.
Qed.

Lemma exponent_length (p t r : list Z) : exponent p = Some (t, r) -> (length r <= length p)%nat.
Proof.
  destruct p as [|c p]; cbn; [by intros [= _ <-]|]. destruct (_ || _); [|by intros [= _ <-]]. destruct p as [|x p]; [done|].
  destruct (_ || _); intros H%emit_digits1_length; cbn [length] in *; lia.
Qed.

Lemma number_length (p t r : list Z) : number p = Some (t, r) -> (length r < length p)%nat.
Proof.
  unfold number. assert (Hgo : forall sign q, (length q <= length p)%nat ->
    ('(i, p) ← integer q; '(f, p) ← fraction p; '(e, p) ← exponent p; Some (sign ++ i ++ f ++ e, p)) = Some (t, r) -> (length r < length p)%nat).
  { intros sign q Hq H. apply bind_Some in H as ([i r1] & Hi%integer_length & H). apply bind_Some in H as ([f r2] & Hf%fraction_length & H).
    apply bind_Some in H as ([e r3] & He%exponent_length & [= _ <-]). lia. }
  destruct (eat 45 p) as [q|] eqn:E; [apply eat_length in E|]; apply Hgo; lia.
Qed.

(** A document takes at least a byte, and the answer does not depend on the fuel once it
    is twice the length. *)
Lemma value_shorter (n : nat) :
  (forall d p v r, value n d p = Some (v, r) -> (length r < length p)%nat) /\
  (forall d p l r, elements n d p = Some (l, r) -> (length r < length p)%nat) /\
  (forall d p l r, members n d p = Some (l, r) -> (length r < length p)%nat).
Proof.
  induction n as [|n (IHv & IHe & IHm)]; [done|]. split_and!; intros d p.
  - intros v r. cbn [value]. pose proof (skip_length p) as Hs. destruct (skip p) as [|c q]; [done|]. cbn [length] in Hs.
    destruct (c =? 34); [intros ([s r'] & H%unquote_length & [= _ <-])%bind_Some; lia|].
    destruct (c =? 123); [|destruct (c =? 91)].
    + destruct (d <=? 0); [done|]. destruct (eat 125 (skip q)) as [q'|] eqn:E; [|intros ([l r'] & H%IHm & [= _ <-])%bind_Some; lia].
      apply eat_length in E. pose proof (skip_length q). intros [= _ <-]. lia.
    + destruct (d <=? 0); [done|]. destruct (eat 93 (skip q)) as [q'|] eqn:E; [|intros ([l r'] & H%IHe & [= _ <-])%bind_Some; lia].
      apply eat_length in E. pose proof (skip_length q). intros [= _ <-]. lia.
    + destruct (c =? 116); [intros (r' & H%lit_length & [= _ <-])%bind_Some; lia|].
      destruct (c =? 102); [intros (r' & H%lit_length & [= _ <-])%bind_Some; lia|].
      destruct (c =? 110); [intros (r' & H%lit_length & [= _ <-])%bind_Some; lia|].
      intros ([t r'] & H%number_length & [= _ <-])%bind_Some. cbn [length] in H. lia.
  - intros l r. cbn [elements]. intros ([v r1] & H1%IHv & H)%bind_Some. pose proof (skip_length r1). destruct (skip r1) as [|c r2]; [done|].
    cbn [length] in *. destruct (c =? 93); [injection H as _ <-; lia|]. destruct (c =? 44); [|done].
    apply bind_Some in H as ([l' r3] & H2%IHe & [= _ <-]). lia.
  - intros l r. cbn [members]. intros (q & H1%eat_length & H)%bind_Some. pose proof (skip_length p) as K1.
    apply bind_Some in H as ([k r1] & H2%unquote_length & H). apply bind_Some in H as (r2 & H3%eat_length & H). pose proof (skip_length r1) as K2.
    apply bind_Some in H as ([v r3] & H4%IHv & H). pose proof (skip_length r3) as K3. destruct (skip r3) as [|c r4]; [done|].
    cbn [length] in *. destruct (c =? 125); [injection H as _ <-; lia|]. destruct (c =? 44); [|done].
    apply bind_Some in H as ([l' r5] & H5%IHm & [= _ <-]). lia.
Qed.

Lemma value_fuel (n : nat) : forall m,
  (forall d p, (2 * length p < n)%nat -> (2 * length p < m)%nat -> value n d p = value m d p) /\
  (forall d p, (2 * length p + 1 < n)%nat -> (2 * length p + 1 < m)%nat -> elements n d p = elements m d p) /\
  (forall d p, (2 * length p + 1 < n)%nat -> (2 * length p + 1 < m)%nat -> members n d p = members m d p).
Proof.
  induction n as [|n IH]; intros [|m]; [split_and!; intros; lia..|]. destruct (IH m) as (IHv & IHe & IHm). split_and!; intros d p Hn Hm.
  - cbn [value]. pose proof (skip_length p) as Hs. destruct (skip p) as [|c q]; [done|]. cbn [length] in Hs.
    rewrite (IHm (d - 1) q), (IHe (d - 1) q) by lia. done.
  - cbn [elements]. rewrite (IHv d p) by lia. destruct (value m d p) as [[v r]|] eqn:E; [|done].
    apply (proj1 (value_shorter m)) in E. cbn [mbind option_bind]. pose proof (skip_length r). destruct (skip r) as [|c r']; [done|].
    cbn [length] in *. by rewrite (IHe d r') by lia.
  - cbn [members]. pose proof (skip_length p). destruct (eat 34 (skip p)) as [q|] eqn:E1; [|done]. apply eat_length in E1. cbn [mbind option_bind].
    destruct (unquote (S (length q)) q) as [[k r]|] eqn:E2; [|done]. apply unquote_length in E2. cbn [mbind option_bind].
    pose proof (skip_length r). destruct (eat 58 (skip r)) as [r1|] eqn:E3; [|done]. apply eat_length in E3. cbn [mbind option_bind].
    rewrite (IHv d r1) by lia. destruct (value m d r1) as [[v r2]|] eqn:E4; [|done].
    apply (proj1 (value_shorter m)) in E4. cbn [mbind option_bind]. pose proof (skip_length r2). destruct (skip r2) as [|c r3]; [done|].
    cbn [length] in *. by rewrite (IHm d r3) by lia.
Qed.
End GoJSON.
