(* ===== verification/Registry.v ===== *)
(** Metric registries: what the libraries and the services rely on when they register a
    collector (prometheus.Registerer), as an interface, with the rules the client library
    documents for descriptors. *)
From S2P Require Import Prelude.

(** * Descriptors *)

(** A family's name, help and variable labels, and the constant labels in name order. *)
Record Desc := { d_name : string; d_help : string; d_const : list (string * string); d_labels : list string }.

Module Registry.

(** Two descriptors of one name clash unless their help and label names agree and the
    values of their constant labels differ. *)
Definition clash (a b : Desc) : bool :=
  String.eqb (d_name a) (d_name b) &&
  negb (String.eqb (d_help a) (d_help b) && bool_decide (d_labels a = d_labels b) && bool_decide ((d_const a).*1 = (d_const b).*1) &&
        negb (bool_decide ((d_const a).*2 = (d_const b).*2))).

Definition fits (held new : list Desc) : bool := forallb (fun a => forallb (fun b => negb (clash a b)) new) held.

Fixpoint consistent (l : list Desc) : bool :=
  match l with
  | [] => true
  | a :: l => forallb (fun b => negb (clash a b)) l && consistent l
  end.

Lemma fits_spec (held new : list Desc) : fits held new = true <-> forall a b, a ∈ held -> b ∈ new -> clash a b = false.
Proof.
  unfold fits. rewrite forallb_forall. setoid_rewrite forallb_forall. setoid_rewrite negb_true_iff. setoid_rewrite list_elem_of_In. naive_solver.
Qed.

Lemma consistent_app (l k : list Desc) : consistent (l ++ k) = consistent l && consistent k && fits l k.
Proof.
  induction l as [|a l IH]; cbn; [by rewrite andb_true_r|]. rewrite IH, forallb_app. unfold fits. cbn.
  destruct (forallb _ l), (forallb _ k), (consistent l), (consistent k); cbn; try done; by rewrite ?andb_false_r.
Qed.

(** Families of different names do not clash. *)
Lemma fits_names (held new : list Desc) (p : string -> bool) :
  (forall d, d ∈ held -> p (d_name d) = true) -> (forall d, d ∈ new -> p (d_name d) = false) -> fits held new = true.
Proof.
  intros Hh Hn. apply fits_spec. intros a b Ha Hb. unfold clash. destruct (String.eqb_spec (d_name a) (d_name b)) as [E|]; [|done].
  specialize (Hh a Ha). specialize (Hn b Hb). by rewrite E, Hn in Hh.
Qed.
End Registry.

(** * Registries *)

(** A registry takes a collector's descriptors when they are consistent with each other and
    with what it holds, refuses them when one of them clashes with what it holds, and a
    refusal leaves it as it was. *)
Class Registerer (R : Type) := {
  held : R -> list Desc;
  Register : list Desc -> R -> R * option string;
  Register_takes r ds : Registry.consistent ds = true -> Registry.fits (held r) ds = true ->
    (Register ds r).2 = None /\ held (Register ds r).1 = held r ++ ds;
  Register_refuses r ds : Registry.fits (held r) ds = false -> (Register ds r).2 <> None;
  Register_keeps r ds : (Register ds r).2 <> None -> (Register ds r).1 = r
}.

Module Registering.
Import Registry.

(** A registry that is the list of what it holds. *)
#[export] Instance list_registerer : Registerer (list Desc).
Proof.
  refine {| held := fun r => r;
            Register ds r := if consistent ds && fits r ds then (r ++ ds, None) else (r, Some "duplicate metrics collector registration attempted") |}.
  - intros r ds -> ->. done.
  - intros r ds ->. by rewrite andb_false_r.
  - intros r ds. by destruct (_ && _).
Defined.

Section Use.
Context {R : Type} `{!Registerer R}.

(** One collector after the other, up to the first that is refused. *)
Fixpoint register (cs : list (list Desc)) (r : R) : R * option string :=
  match cs with
  | [] => (r, None)
  | c :: cs => match Register c r with
               | (r, Some err) => (r, Some err)
               | (r, None) => register cs r
               end
  end.

(** [MustRegister]: none is a panic. *)
Definition MustRegister (cs : list (list Desc)) (r : R) : option R :=
  match register cs r with (r, None) => Some r | _ => None end.

Lemma register_takes (cs : list (list Desc)) (r : R) :
  consistent (concat cs) = true -> fits (held r) (concat cs) = true ->
  (register cs r).2 = None /\ held (register cs r).1 = held r ++ concat cs.
Proof.
  revert r. induction cs as [|c cs IH]; intros r Hc Hf; cbn; [by rewrite app_nil_r|].
  cbn in Hc, Hf. rewrite consistent_app in Hc. apply andb_true_iff in Hc as [[Hc1 Hc2]%andb_true_iff Hc3].
  rewrite fits_spec in Hf, Hc3. destruct (Register_takes r c Hc1) as [H1 H2]; [apply fits_spec; set_solver|].
  destruct (Register c r) as [r1 [err|]]; [done|]. cbn in H2. destruct (IH r1 Hc2) as [IH1 IH2].
  { apply fits_spec. rewrite H2. set_solver. }
  by rewrite IH1, IH2, H2, app_assoc.
Qed.

Lemma MustRegister_takes (cs : list (list Desc)) (r : R) :
  consistent (concat cs) = true -> fits (held r) (concat cs) = true ->
  exists r', MustRegister cs r = Some r' /\ held r' = held r ++ concat cs.
Proof.
  intros Hc Hf. unfold MustRegister. destruct (register_takes cs r Hc Hf) as [H1 H2].
  destruct (register cs r) as [r' [err|]]; [done|]. by exists r'.
Qed.

Lemma MustRegister_app (cs ds : list (list Desc)) (r : R) : MustRegister (cs ++ ds) r = MustRegister cs r ≫= MustRegister ds.
Proof.
  unfold MustRegister. revert r. induction cs as [|c cs IH]; intros r; [done|]. cbn.
  destruct (Register c r) as [r1 [err|]]; [done|]. apply IH.
Qed.

(** A collector that clashes with what is there is refused, and so are those after it. *)
Lemma register_refuses (c : list Desc) (cs : list (list Desc)) (r : R) :
  fits (held r) c = false -> (register (c :: cs) r).2 <> None /\ (register (c :: cs) r).1 = r.
Proof.
  intros Hf. pose proof (Register_refuses r c Hf) as H. pose proof (Register_keeps r c H) as Hk.
  cbn. destruct (Register c r) as [r1 [err|]]; [|done]. by split.
Qed.
End Use.
End Registering.
