(* ===== verification/Window.v ===== *)
(** The sliding time window of the resilient HTTP client (window.go): two
    counters over ten slots of time, shared by the circuit breaker and the
    retry budget.  Instants are nanoseconds since the Unix epoch. *)
From S2P Require Import Prelude.

Module Window.

Definition windowSlots : Z := 10.

Record windowSlot := { idx : Z; a : Z; b : Z }.
Definition emptySlot : windowSlot := {| idx := 0; a := 0; b := 0 |}.

Record window := { slot : Z; slots : list windowSlot }.

Definition newWindow (length : Z) : window :=
  {| slot := Z.max (Z.quot length windowSlots) 1;
     slots := replicate (Z.to_nat windowSlots) emptySlot |}.

(** The slot of time an instant falls in; Go's [/] and [%] truncate. *)
Definition idx_of (w : window) (now : Z) : Z := Z.quot now (slot w).
Definition pos_of (i : Z) : nat := Z.to_nat (Z.rem i windowSlots).

Definition add (w : window) (now da db : Z) : window :=
  let i := idx_of w now in
  {| slot := slot w;
     slots := alter (fun s =>
       let s := if negb (idx s =? i) then {| idx := i; a := 0; b := 0 |} else s in
       {| idx := idx s; a := a s + da; b := b s + db |}) (pos_of i) (slots w) |}.

Definition sum (w : window) (now : Z) : Z * Z :=
  let i := idx_of w now in
  foldl (fun '(ta, tb) s =>
    if i - idx s <? windowSlots then (ta + a s, tb + b s) else (ta, tb))
    (0, 0) (slots w).

Definition reset (w : window) : window :=
  {| slot := slot w; slots := replicate (Z.to_nat windowSlots) emptySlot |}.

(** ** Reference: a log of everything counted *)

Record event := { at_ : Z; ea : Z; eb : Z }.

Definition run (w : window) (log : list event) : window :=
  foldl (fun w e => add w (at_ e) (ea e) (eb e)) w log.

(** The slots of time an instant and a slot length are inside the window
    ending at [now]. *)
Definition inside (sl now t : Z) : bool := Z.quot now sl - Z.quot t sl <? windowSlots.

Definition ref_sum (sl now : Z) (log : list event) : Z * Z :=
  let l := filter (fun e => inside sl now (at_ e) = true) log in
  (zsum ea l, zsum eb l).

(** Instants of the log do not go back, and are not before the epoch. *)
Definition monotone (log : list event) : Prop :=
  StronglySorted Z.le (0 :: (at_ <$> log)).

(** ** Well-formed windows *)

Definition wf (w : window) : Prop :=
  1 <= slot w /\ length (slots w) = Z.to_nat windowSlots.

Lemma newWindow_wf (len : Z) : wf (newWindow len).
Proof. split; [cbn; lia|done]. Qed.

Lemma reset_wf (w : window) : wf w -> wf (reset w).
Proof. intros [H _]. by split. Qed.

Lemma add_wf (w : window) (now x y : Z) : wf w -> wf (add w now x y).
Proof. intros [H1 H2]. split; [done|]. cbn. by rewrite length_alter. Qed.

Lemma run_app (w : window) (l k : list event) : run w (l ++ k) = run (run w l) k.
Proof. apply foldl_app. Qed.

Lemma run_snoc (w : window) (l : list event) (e : event) :
  run w (l ++ [e]) = add (run w l) (at_ e) (ea e) (eb e).
Proof. by rewrite run_app. Qed.

Lemma run_slot (w : window) (l : list event) : slot (run w l) = slot w.
Proof. induction l as [|e l IH] using rev_ind; [done|]. by rewrite run_snoc. Qed.

#[export] Hint Resolve newWindow_wf reset_wf add_wf : golib.

(** ** Arithmetic of slots *)

Lemma pos_of_lt (i : Z) : 0 <= i -> (pos_of i < 10)%nat.
Proof.
  intros H. unfold pos_of, windowSlots. pose proof (Z.rem_bound_pos i 10 H). lia.
Qed.

Lemma pos_of_inj (i j : Z) :
  0 <= i -> 0 <= j -> pos_of i = pos_of j -> j <= i -> i - j < windowSlots -> i = j.
Proof.
  unfold pos_of, windowSlots. intros Hi Hj E Hle Hlt.
  pose proof (Z.rem_bound_pos i 10 Hi). pose proof (Z.rem_bound_pos j 10 Hj).
  assert (Z.rem i 10 = Z.rem j 10) as E' by lia.
  rewrite !Z.rem_mod_nonneg in E' by lia.
  pose proof (Z.div_mod i 10). pose proof (Z.div_mod j 10). lia.
Qed.

Lemma quot_mono (t u sl : Z) : 1 <= sl -> 0 <= t <= u -> 0 <= Z.quot t sl <= Z.quot u sl.
Proof.
  intros Hs [H1 H2]. split; [apply Z.quot_pos; lia|apply Z.quot_le_mono; lia].
Qed.

(** ** What the slots hold *)

(** The events of slot of time [i]. *)
Definition in_slot (sl i : Z) (log : list event) : list event :=
  filter (fun e => Z.quot (at_ e) sl = i) log.

(** Slot number [p] holds the totals of one slot of time, no older than any
    event that maps to [p]. *)
Record slot_inv (sl last : Z) (log : list event) (p : nat) (s : windowSlot) : Prop := {
  si_le : 0 <= idx s <= Z.quot last sl;
  si_new : forall e, e ∈ log -> pos_of (Z.quot (at_ e) sl) = p -> Z.quot (at_ e) sl <= idx s;
  si_sum : (pos_of (idx s) = p /\ a s = zsum ea (in_slot sl (idx s) log) /\
              b s = zsum eb (in_slot sl (idx s) log)) \/
           (idx s = 0 /\ a s = 0 /\ b s = 0 /\
              forall e, e ∈ log -> pos_of (Z.quot (at_ e) sl) <> p)
}.

Definition log_inv (w : window) (last : Z) (log : list event) : Prop :=
  wf w /\ (forall e, e ∈ log -> 0 <= at_ e <= last) /\
  forall p s, slots w !! p = Some s -> slot_inv (slot w) last log p s.

Lemma in_slot_snoc_same (sl : Z) (log : list event) (e : event) :
  in_slot sl (Z.quot (at_ e) sl) (log ++ [e]) = in_slot sl (Z.quot (at_ e) sl) log ++ [e].
Proof.
  unfold in_slot. rewrite filter_app. cbn. by rewrite decide_True.
Qed.

Lemma in_slot_snoc_other (sl i : Z) (log : list event) (e : event) :
  Z.quot (at_ e) sl <> i -> in_slot sl i (log ++ [e]) = in_slot sl i log.
Proof.
  intros H. unfold in_slot. rewrite filter_app. cbn.
  by rewrite decide_False, app_nil_r.
Qed.

Lemma in_slot_none (sl i : Z) (log : list event) :
  (forall e, e ∈ log -> Z.quot (at_ e) sl <> i) -> in_slot sl i log = [].
Proof.
  intros H. unfold in_slot. induction log as [|e log IH]; [done|].
  cbn. rewrite decide_False by (apply H; set_solver). apply IH. set_solver.
Qed.

Lemma new_log_inv (len : Z) : log_inv (newWindow len) 0 [].
Proof.
  split; [apply newWindow_wf|]. split; [set_solver|].
  intros p s Hs. cbn in Hs. apply lookup_replicate in Hs as [-> Hp].
  split; cbn.
  - pose proof (quot_mono 0 0 (Z.max (Z.quot len windowSlots) 1)). lia.
  - set_solver.
  - right. split_and!; [done..|set_solver].
Qed.

(** Adding to the slot of time a slot number already counts, or starting a
    newer one there. *)
Lemma add_slot_hit (sl last : Z) (log : list event) (e : event) (s : windowSlot) :
  1 <= sl -> 0 <= last <= at_ e ->
  slot_inv sl last log (pos_of (Z.quot (at_ e) sl)) s ->
  slot_inv sl (at_ e) (log ++ [e]) (pos_of (Z.quot (at_ e) sl))
    (let s := if negb (idx s =? Z.quot (at_ e) sl)
              then {| idx := Z.quot (at_ e) sl; a := 0; b := 0 |} else s in
     {| idx := idx s; a := a s + ea e; b := b s + eb e |}).
Proof.
  intros Hsl Hle [Hidx Hnew Hsum].
  pose proof (quot_mono last (at_ e) sl Hsl Hle) as Hq.
  destruct (Z.eqb_spec (idx s) (Z.quot (at_ e) sl)) as [E|E]; cbn.
  - assert (Hin : a s = zsum ea (in_slot sl (idx s) log) /\
                  b s = zsum eb (in_slot sl (idx s) log)).
    { destruct Hsum as [(_ & ? & ?)|(H0 & -> & -> & Hno)]; [done|].
      rewrite in_slot_none; [done|]. intros e' He' Hx. apply (Hno e' He'). congruence. }
    split; cbn; [lia| |left].
    + intros e' He' Hp. apply elem_of_app in He' as [He'| ->%list_elem_of_singleton]; [|lia].
      by apply Hnew.
    + rewrite E, in_slot_snoc_same, !zsum_app, <- E. cbn. destruct Hin. split_and!; [done|lia..].
  - split; cbn; [lia| |left].
    + intros e' He' Hp. apply elem_of_app in He' as [He'| ->%list_elem_of_singleton]; [|lia].
      specialize (Hnew e' He' Hp). lia.
    + rewrite in_slot_snoc_same, !zsum_app, in_slot_none; [by split_and!; cbn; lia|].
      intros e' He' Hx. specialize (Hnew e' He'). rewrite Hx in Hnew. specialize (Hnew eq_refl). lia.
Qed.

Lemma add_slot_miss (sl last : Z) (log : list event) (e : event) (p : nat) (s : windowSlot) :
  1 <= sl -> 0 <= last <= at_ e -> p <> pos_of (Z.quot (at_ e) sl) ->
  slot_inv sl last log p s -> slot_inv sl (at_ e) (log ++ [e]) p s.
Proof.
  intros Hsl Hle Hp [Hidx Hnew Hsum].
  pose proof (quot_mono last (at_ e) sl Hsl Hle) as Hq.
  split; [lia| |].
  - intros e' He' Hp'. apply elem_of_app in He' as [He'| ->%list_elem_of_singleton]; [by apply Hnew|].
    congruence.
  - destruct Hsum as [(Hpos & Ha & Hb)|(H0 & Ha & Hb & Hno)]; [left|right].
    + rewrite in_slot_snoc_other by congruence. done.
    + split_and!; [done..|]. intros e' He'.
      apply elem_of_app in He' as [He'| ->%list_elem_of_singleton]; [by apply Hno|congruence].
Qed.

Lemma add_log_inv (w : window) (last : Z) (log : list event) (e : event) :
  log_inv w last log -> 0 <= last <= at_ e ->
  log_inv (add w (at_ e) (ea e) (eb e)) (at_ e) (log ++ [e]).
Proof.
  intros (Hwf & Hrange & Hinv) Hle.
  split; [by apply add_wf|]. split.
  { intros e' He'. apply elem_of_app in He' as [He'| ->%list_elem_of_singleton]; [|lia].
    specialize (Hrange e' He'). lia. }
  intros p s' Hs'. cbn in *. unfold idx_of in Hs'.
  destruct (decide (p = pos_of (Z.quot (at_ e) (slot w)))) as [->|Hp].
  - rewrite list_lookup_alter_eq in Hs'. apply fmap_Some in Hs' as (s & Hs & ->).
    destruct Hwf. eapply add_slot_hit; eauto.
  - rewrite list_lookup_alter_ne in Hs' by done.
    destruct Hwf. eapply add_slot_miss; eauto.
Qed.

(** The instant of the last event of a log, the epoch when it is empty. *)
Definition last_at (log : list event) : Z := default 0 (at_ <$> last log).

Lemma monotone_snoc (log : list event) (e : event) :
  monotone (log ++ [e]) -> monotone log /\ 0 <= last_at log <= at_ e.
Proof.
  unfold monotone, last_at. rewrite fmap_app. cbn [fmap list_fmap].
  rewrite app_comm_cons, sorted_snoc. intros [Hs Hf]. split; [done|].
  destruct log as [|e' log] using rev_ind; cbn; [inversion_clear Hf; lia|].
  rewrite last_snoc. cbn.
  rewrite fmap_app in *. cbn in *. inversion_clear Hf as [|? ? H0 Hf'].
  apply Forall_app in Hf' as [_ Hf']. inversion_clear Hf' as [|? ? Hle _].
  inversion_clear Hs as [|? ? _ Hf0]. apply Forall_app in Hf0 as [_ Hf0].
  inversion_clear Hf0. lia.
Qed.

Lemma run_log_inv (len : Z) (log : list event) :
  monotone log -> log_inv (run (newWindow len) log) (last_at log) log.
Proof.
  induction log as [|e log IH] using rev_ind; intros Hm; [apply new_log_inv|].
  apply monotone_snoc in Hm as [Hm Hle]. rewrite run_snoc.
  unfold last_at at 1. rewrite last_snoc. cbn. apply (add_log_inv _ (last_at log)); auto.
Qed.

(** ** Summing *)

Definition counted (w : window) (now : Z) (f : windowSlot -> Z) : Z :=
  zsum (fun s => if idx_of w now - idx s <? windowSlots then f s else 0) (slots w).

Lemma sum_counted (w : window) (now : Z) :
  sum w now = (counted w now a, counted w now b).
Proof.
  unfold sum, counted. generalize (idx_of w now) as i. intros i.
  assert (H : forall l x y,
    foldl (fun '(ta, tb) s =>
      if i - idx s <? windowSlots then (ta + a s, tb + b s) else (ta, tb)) (x, y) l =
    (x + zsum (fun s => if i - idx s <? windowSlots then a s else 0) l,
     y + zsum (fun s => if i - idx s <? windowSlots then b s else 0) l)).
  { induction l as [|s l IH]; intros x y; cbn [foldl]; [cbn; f_equal; lia|].
    rewrite !zsum_cons. destruct (i - idx s <? windowSlots); rewrite IH; f_equal; lia. }
  rewrite H. f_equal; lia.
Qed.

Section Totals.
Context (f : windowSlot -> Z) (g : event -> Z).
Context (Hfg : (f = a /\ g = ea) \/ (f = b /\ g = eb)).

Lemma slot_total (sl last now : Z) (log : list event) (p : nat) (s : windowSlot) :
  slot_inv sl last log p s -> 1 <= sl -> 0 <= last <= now ->
  (forall e, e ∈ log -> 0 <= at_ e) ->
  (if Z.quot now sl - idx s <? windowSlots then f s else 0) =
  zsum (fun e => if decide (pos_of (Z.quot (at_ e) sl) = p)
                 then if inside sl now (at_ e) then g e else 0 else 0) log.
Proof.
  intros [Hidx Hnew Hsum] Hsl Hle Hpos.
  pose proof (quot_mono last now sl Hsl Hle) as Hq.
  assert (Hs : f s = zsum (fun e => if decide (pos_of (Z.quot (at_ e) sl) = p)
                 then if decide (Z.quot (at_ e) sl = idx s) then g e else 0 else 0) log).
  { assert (Hf : f s = (if decide (pos_of (idx s) = p) then zsum g (in_slot sl (idx s) log) else 0)).
    { destruct Hsum as [(Hp & Ha & Hb)|(H0 & Ha & Hb & Hno)].
      - rewrite decide_True by done. destruct Hfg as [[-> ->]|[-> ->]]; done.
      - assert (f s = 0) as -> by (destruct Hfg as [[-> _]|[-> _]]; done).
        destruct (decide _) as [Hp|]; [|done].
        rewrite in_slot_none; [done|]. intros e He Hx. apply (Hno e He). congruence. }
    rewrite Hf. unfold in_slot. rewrite zsum_filter. case_decide as Hp.
    - apply zsum_ext. intros e _. repeat case_decide; congruence.
    - rewrite (zsum_ext _ (fun _ => 0)), zsum_zero; [done|].
      intros e _. repeat case_decide; congruence. }
  destruct (Z.ltb_spec (Z.quot now sl - idx s) windowSlots) as [Hin|Hout].
  - rewrite Hs. apply zsum_ext. intros e He. specialize (Hnew e He).
    pose proof (quot_mono 0 (at_ e) sl Hsl ltac:(specialize (Hpos e He); lia)).
    case_decide as Hp; [|done]. specialize (Hnew Hp). unfold inside.
    case_decide as Hx; [rewrite Hx; split_ifs; (done || lia)|].
    destruct (Z.ltb_spec (Z.quot now sl - Z.quot (at_ e) sl) windowSlots) as [Hw|]; [|done].
    destruct Hsum as [(Hp' & _)|(H0 & _ & _ & Hno)]; [|by destruct (Hno e He)].
    exfalso. apply Hx. symmetry. apply pos_of_inj; (congruence || lia).
  - symmetry. rewrite (zsum_ext _ (fun _ => 0)), zsum_zero; [done|].
    intros e He. case_decide as Hp; [|done]. specialize (Hnew e He Hp). unfold inside.
    split_ifs; [lia|done].
Qed.

Lemma counted_total (w : window) (last now : Z) (log : list event) :
  log_inv w last log -> 0 <= last <= now ->
  counted w now f = zsum (fun e => if inside (slot w) now (at_ e) then g e else 0) log.
Proof.
  intros ([Hsl Hlen] & Hrange & Hinv) Hle. unfold counted, idx_of.
  rewrite zsum_positions, Hlen.
  rewrite (zsum_ext _ (fun p => zsum (fun e => if decide (pos_of (Z.quot (at_ e) (slot w)) = p)
     then if inside (slot w) now (at_ e) then g e else 0 else 0) log)).
  2:{ intros p Hp%elem_of_seq.
      destruct (lookup_lt_is_Some_2 (slots w) p ltac:(lia)) as [s Hs]. rewrite Hs. cbn.
      apply (slot_total _ last); [by apply Hinv|done|done|].
      intros e He. specialize (Hrange e He). lia. }
  rewrite zsum_swap. apply zsum_ext. intros e He. specialize (Hrange e He).
  apply zsum_indicator. apply pos_of_lt.
  pose proof (quot_mono 0 (at_ e) (slot w)). lia.
Qed.

End Totals.

(** Under a clock that does not go back, the two totals are those of the log of
    everything counted, over the slots of time inside the window. *)
Lemma sum_run (len now : Z) (log : list event) :
  monotone log -> last_at log <= now ->
  sum (run (newWindow len) log) now = ref_sum (slot (newWindow len)) now log.
Proof.
  intros Hm Hnow.
  pose proof (run_log_inv len log Hm) as Hinv.
  assert (0 <= last_at log).
  { destruct log as [|e log] using rev_ind; [done|]. unfold last_at. rewrite last_snoc. cbn.
    apply monotone_snoc in Hm as [_ ?]. lia. }
  rewrite sum_counted. unfold ref_sum. rewrite !zsum_filter.
  assert (E : forall g, zsum (fun e => if decide (inside (slot (newWindow len)) now (at_ e) = true)
      then g e else 0) log =
    zsum (fun e => if inside (slot (newWindow len)) now (at_ e) then g e else 0) log).
  { intros g. apply zsum_ext. intros e _. destruct (inside _ _ _); by case_decide. }
  rewrite !E. f_equal.
  - rewrite (counted_total a ea (or_introl (conj eq_refl eq_refl)) _ _ _ _ Hinv) by lia.
    by rewrite run_slot.
  - rewrite (counted_total b eb (or_intror (conj eq_refl eq_refl)) _ _ _ _ Hinv) by lia.
    by rewrite run_slot.
Qed.

(** What is inside: everything of the last nine slots of time, nothing as old
    as the whole window. *)
Lemma inside_recent (len now t : Z) :
  0 <= t <= now -> now - t <= 9 * slot (newWindow len) ->
  inside (slot (newWindow len)) now t = true.
Proof.
  unfold inside, windowSlots. cbn [slot newWindow]. set (sl := Z.max _ _). intros Ht Hr.
  apply Z.ltb_lt. assert (1 <= sl) by lia. clearbody sl.
  rewrite !Z.quot_div_nonneg by lia.
  pose proof (Z.div_mod now sl ltac:(lia)). pose proof (Z.mod_pos_bound now sl ltac:(lia)).
  pose proof (Z.div_mod t sl ltac:(lia)). pose proof (Z.mod_pos_bound t sl ltac:(lia)). nia.
Qed.

Lemma inside_old (len now t : Z) :
  10 <= len -> 0 <= t <= now -> len <= now - t ->
  inside (slot (newWindow len)) now t = false.
Proof.
  unfold inside, windowSlots. cbn [slot newWindow]. set (sl := Z.max _ _). intros Hl Ht Hr.
  assert (1 <= sl /\ 10 * sl <= len) as [H1 H2].
  { subst sl. pose proof (Z.quot_pos len windowSlots). unfold windowSlots in *.
    pose proof (Z.quot_rem len 10 ltac:(lia)). pose proof (Z.rem_bound_pos len 10). lia. }
  clearbody sl. apply Z.ltb_ge. rewrite !Z.quot_div_nonneg by lia.
  pose proof (Z.div_mod now sl ltac:(lia)). pose proof (Z.mod_pos_bound now sl ltac:(lia)).
  pose proof (Z.div_mod t sl ltac:(lia)). pose proof (Z.mod_pos_bound t sl ltac:(lia)). nia.
Qed.

(** With a clock that does not go back, the sums a window returns are those
    of the whole log of what was added, restricted to the slots of time inside
    the window: everything added in the last 9/10 of the length is counted and
    nothing as old as the length is. *)
Theorem window_sums_log (len now : Z) (log : list event) :
  10 <= len -> monotone log -> last_at log <= now ->
  sum (run (newWindow len) log) now = ref_sum (slot (newWindow len)) now log /\
  (forall t, 0 <= t <= now -> now - t <= 9 * (len / 10) -> inside (slot (newWindow len)) now t = true) /\
  (forall t, 0 <= t <= now -> len <= now - t -> inside (slot (newWindow len)) now t = false).
Proof.
  intros Hlen Hm Hl. split_and!; [by apply sum_run| |].
  - intros t Ht Hr. apply inside_recent; [done|].
    assert (slot (newWindow len) = len / 10) as ->; [|done].
    cbn. unfold windowSlots. rewrite Z.quot_div_nonneg by lia.
    pose proof (Z.div_le_lower_bound len 10 1). lia.
  - intros t Ht Hr. by apply inside_old.
Qed.

Lemma window_sums_log_witness :
  sum (run (newWindow 100) [{| at_ := 5; ea := 1; eb := 1 |}; {| at_ := 95; ea := 1; eb := 0 |}]) 110
  = (1, 0).
Proof.
  refine (proj1 (window_sums_log 100 110
    [{| at_ := 5; ea := 1; eb := 1 |}; {| at_ := 95; ea := 1; eb := 0 |}] _ _ _)).
  - lia.
  - unfold monotone. cbn. repeat first [apply SSorted_nil|apply SSorted_cons|apply Forall_nil_2|
      apply Forall_cons_2]; lia.
  - cbn. lia.
Defined.

End Window.
