(* ===== verification/ResilientConfig.v ===== *)
(** The configuration of the resilient HTTP client (config.go, validate.go):
    its data, defaults and validation. *)
From S2P Require Import Prelude Float64.

Module ResilientConfig.
Import F64.

Record TargetConfig := {
  Name : string;
  Timeout : Z;
  RateLimit : float64;
  RateBurst : Z;
  MaxConcurrent : Z;
  MaxConcurrentWait : Z;
  BreakerFailureRatio : float64;
  BreakerMinRequests : Z;
  BreakerWindow : Z;
  BreakerOpenTimeout : Z;
  BreakerHalfOpenProbes : Z;
  RetryMaxAttempts : Z;
  RetryBaseDelay : Z;
  RetryMaxDelay : Z;
  RetryBudgetRatio : float64;
  RetryBudgetMinRetries : Z;
  RetryBudgetWindow : Z
}.

Record Config := {
  MaxIdleConns : Z;
  MaxIdleConnsPerHost : Z;
  MaxConnsPerHost : Z;
  IdleConnTimeout : Z;
  ResponseHeaderTimeout : Z;
  HTTP2PingInterval : Z;
  HTTP2PingTimeout : Z;
  MaxRedirects : Z;
  AllowCrossHostRedirects : bool;
  UserAgent : string;
  Targets : list TargetConfig
}.

Definition DefaultTarget (name : string) : TargetConfig := {|
  Name := name;
  Timeout := 5 * Go.second;
  RateLimit := Fin 0;
  RateBurst := 0;
  MaxConcurrent := 0;
  MaxConcurrentWait := 0;
  BreakerFailureRatio := of_ratio 1 2;
  BreakerMinRequests := 20;
  BreakerWindow := 10 * Go.second;
  BreakerOpenTimeout := 30 * Go.second;
  BreakerHalfOpenProbes := 1;
  RetryMaxAttempts := 3;
  RetryBaseDelay := 100 * Go.millisecond;
  RetryMaxDelay := 5 * Go.second;
  RetryBudgetRatio := of_ratio 1 5;
  RetryBudgetMinRetries := 10;
  RetryBudgetWindow := 10 * Go.second
|}.

Definition DefaultConfig (targets : list string) : Config := {|
  MaxIdleConns := 100;
  MaxIdleConnsPerHost := 32;
  MaxConnsPerHost := 0;
  IdleConnTimeout := 90 * Go.second;
  ResponseHeaderTimeout := 0;
  HTTP2PingInterval := 30 * Go.second;
  HTTP2PingTimeout := 15 * Go.second;
  MaxRedirects := 10;
  AllowCrossHostRedirects := false;
  UserAgent := "";
  Targets := DefaultTarget <$> targets
|}.

(** A problem [Validate] reports. *)
Inductive problem : Type :=
| PoolSizes
| TransportTimeouts
| NegativeRedirects
| EmptyName (i : nat)
| DeclaredTwice (name : string)
| InTarget (name msg : string).

(** [bad(...)] guarded by a condition. *)
Definition bad {A} (c : bool) (x : A) : list A := if c then [x] else [].

Definition fzero : float64 := Fin 0.
Definition fone : float64 := of_Z 1.

Definition validate (t : TargetConfig) : list string :=
  bad ((Timeout t <? 0) || (MaxConcurrentWait t <? 0))
      "timeouts must not be negative" ++
  bad (ltb (RateLimit t) fzero || (RateBurst t <? 0))
      "rate_limit and rate_burst must not be negative" ++
  bad (MaxConcurrent t <? 0) "max_concurrent must not be negative" ++
  (if ltb (BreakerFailureRatio t) fzero || ltb fone (BreakerFailureRatio t)
   then ["breaker_failure_ratio must be in [0, 1]"]
   else if ltb fzero (BreakerFailureRatio t) then
     bad (BreakerMinRequests t <? 1) "breaker_min_requests must be ≥ 1" ++
     bad ((BreakerWindow t <=? 0) || (BreakerOpenTimeout t <=? 0))
         "breaker_window and breaker_open_timeout must be > 0" ++
     bad (BreakerHalfOpenProbes t <? 1) "breaker_half_open_probes must be ≥ 1"
   else []) ++
  bad (RetryMaxAttempts t <? 0) "retry_max_attempts must not be negative" ++
  bad ((RetryBaseDelay t <? 0) || (RetryMaxDelay t <? RetryBaseDelay t))
      "retry delays must satisfy 0 ≤ retry_base_delay ≤ retry_max_delay" ++
  bad (ltb (RetryBudgetRatio t) fzero || ltb fone (RetryBudgetRatio t))
      "retry_budget_ratio must be in [0, 1]" ++
  bad ((RetryBudgetMinRetries t <? 0) || (RetryBudgetWindow t <? 0))
      "retry budget values must not be negative".

(** The loop over the targets: [i] is the index, [seen] the names so far. *)
Fixpoint validate_targets (i : nat) (seen : gset string) (ts : list TargetConfig) : list problem :=
  match ts with
  | [] => []
  | t :: ts =>
      (if String.eqb (Name t) "" then [EmptyName i]
       else bad (bool_decide (Name t ∈ seen)) (DeclaredTwice (Name t))) ++
      (InTarget (Name t) <$> validate t) ++
      validate_targets (S i) ({[Name t]} ∪ seen) ts
  end.

(** [Validate]: nil is the empty list. *)
Definition Validate (c : Config) : list problem :=
  bad ((MaxIdleConns c <? 0) || (MaxIdleConnsPerHost c <? 0) || (MaxConnsPerHost c <? 0))
      PoolSizes ++
  bad ((IdleConnTimeout c <? 0) || (ResponseHeaderTimeout c <? 0) ||
       (HTTP2PingInterval c <? 0) || (HTTP2PingTimeout c <? 0)) TransportTimeouts ++
  bad (MaxRedirects c <? 0) NegativeRedirects ++
  validate_targets 0 ∅ (Targets c).

(** [LoadConfig]: [decoded] is what the strict YAML decoder made of the bytes
    over [DefaultConfig()] (nil and an EOF error both keep going). *)
Inductive load_error := ParseError (msg : string) | Invalid (ps : list problem).

Section Load.
(** [strictDecode data c]: the third-party decoder's result on [c]; an error,
    if any, is an end of file ([true]) or another one. *)
Context (strictDecode : string -> Config -> Config * option (bool * string)).

Definition LoadConfig (data : string) : Config + load_error :=
  let c := DefaultConfig [] in
  let '(c, err) := strictDecode data c in
  match err with
  | Some (false, msg) => inr (ParseError msg)
  | _ => match Validate c with
         | [] => inl c
         | ps => inr (Invalid ps)
         end
  end.
End Load.

(** ** What a valid configuration promises *)

(** A number that is not NaN and lies in [[0, 1]]. *)
Definition unit_ratio (x : float64) : Prop :=
  exists u, x = Fin u /\ 0 <= u <= one_units.

Record valid_target (t : TargetConfig) : Prop := {
  v_timeout : 0 <= Timeout t;
  v_wait : 0 <= MaxConcurrentWait t;
  v_rate : ltb (RateLimit t) fzero = false;
  v_burst : 0 <= RateBurst t;
  v_conc : 0 <= MaxConcurrent t;
  v_ratio : BreakerFailureRatio t <> NaN -> unit_ratio (BreakerFailureRatio t);
  v_breaker : ltb fzero (BreakerFailureRatio t) = true ->
    1 <= BreakerMinRequests t /\ 0 < BreakerWindow t /\ 0 < BreakerOpenTimeout t /\
    1 <= BreakerHalfOpenProbes t;
  v_attempts : 0 <= RetryMaxAttempts t;
  v_delays : 0 <= RetryBaseDelay t <= RetryMaxDelay t;
  v_bratio : RetryBudgetRatio t <> NaN -> unit_ratio (RetryBudgetRatio t);
  v_bmin : 0 <= RetryBudgetMinRetries t;
  v_bwin : 0 <= RetryBudgetWindow t
}.

Lemma bad_nil {A} (c : bool) (x : A) : bad c x = [] <-> c = false.
Proof. by destruct c. Qed.

Lemma fone_units : fone = Fin one_units.
Proof. vm_compute. reflexivity. Qed.

Lemma in_unit (x : float64) :
  ltb x fzero || ltb fone x = false -> x <> NaN -> unit_ratio x.
Proof.
  rewrite fone_units. destruct x as [u|[]|]; cbn -[one_units]; [|done..].
  intros H _. zbool. exists u. by split.
Qed.

Lemma unit_in (x : float64) :
  (x <> NaN -> unit_ratio x) -> ltb x fzero || ltb fone x = false.
Proof.
  rewrite fone_units. destruct x as [u|b|]; intros H; [| |done].
  - destruct (H ltac:(done)) as (v & [= ->] & Hv). cbn -[one_units].
    apply orb_false_intro; apply Z.ltb_ge; apply Hv.
  - by destruct (H ltac:(done)) as (v & Hv & _).
Qed.

Lemma validate_valid (t : TargetConfig) : validate t = [] <-> valid_target t.
Proof.
  unfold validate. rewrite !app_nil, !bad_nil. split.
  - intros (H1 & H2 & H3 & H4 & H5 & H6 & H7 & H8).
    destruct (ltb (BreakerFailureRatio t) fzero || ltb fone (BreakerFailureRatio t)) eqn:Hr;
      [discriminate|].
    apply orb_false_elim in H2 as [Hrl H2].
    split; try done; try (by apply in_unit); try (zbool; lia).
    intros Hp. rewrite Hp in H4. rewrite !app_nil, !bad_nil in H4.
    destruct H4 as (Ha & Hb & Hc). zbool. lia.
  - intros [].
    rewrite (unit_in _ v_ratio0), (unit_in _ v_bratio0), v_rate0.
    split_and!; try (apply orb_false_intro); try (apply Z.ltb_ge; lia); try done.
    destruct (ltb fzero (BreakerFailureRatio t)); [|done].
    destruct (v_breaker0 eq_refl) as (? & ? & ? & ?).
    rewrite !app_nil, !bad_nil. split_and!; [apply Z.ltb_ge; lia| |apply Z.ltb_ge; lia].
    apply orb_false_intro; apply Z.leb_gt; lia.
Qed.

Lemma validate_targets_nil (i : nat) (seen : gset string) (ts : list TargetConfig) :
  validate_targets i seen ts = [] <->
  Forall (fun t => Name t <> "" /\ (Name t ∉ seen) /\ valid_target t) ts /\ NoDup (Name <$> ts).
Proof.
  revert i seen. induction ts as [|t ts IH]; intros i seen; cbn [validate_targets].
  { split; [intros _; split; constructor|done]. }
  assert (Hm : InTarget (Name t) <$> validate t = [] <-> validate t = []).
  { split; [apply fmap_nil_inv|by intros ->]. }
  rewrite !app_nil, Hm, validate_valid, IH, Forall_cons, fmap_cons, NoDup_cons.
  destruct (String.eqb_spec (Name t) "") as [He|He].
  { split; [intros [? _]; discriminate|intros [[[? _] _] _]; done]. }
  rewrite bad_nil, bool_decide_eq_false.
  split.
  - intros (Hs & Hv & Hf & Hn). split_and!; try done.
    + eapply Forall_impl; [done|]. set_solver.
    + intros (u & E & Hu)%list_elem_of_fmap. rewrite Forall_forall in Hf.
      specialize (Hf u Hu). set_solver.
  - intros [[(_ & Hs & Hv) Hf] [Hx Hn]]. split_and!; try done.
    rewrite Forall_forall in *. intros u Hu. specialize (Hf u Hu). split_and!; try apply Hf.
    apply not_elem_of_union. split; [|apply Hf].
    intros E%elem_of_singleton. apply Hx. rewrite <- E. by apply list_elem_of_fmap_2.
Qed.

(** A configuration is accepted exactly when the pool sizes, timeouts and
    redirect count are not negative, the target names are non-empty and
    distinct, and every target satisfies its documented constraints (a ratio
    that is not NaN lies in [0, 1]; with a breaker, its window, timeout, minimum
    and probe count are positive; 0 <= base delay <= maximum delay). *)
Theorem Validate_exact (c : Config) :
  Validate c = [] <->
  0 <= MaxIdleConns c /\ 0 <= MaxIdleConnsPerHost c /\ 0 <= MaxConnsPerHost c /\
  0 <= IdleConnTimeout c /\ 0 <= ResponseHeaderTimeout c /\
  0 <= HTTP2PingInterval c /\ 0 <= HTTP2PingTimeout c /\ 0 <= MaxRedirects c /\
  Forall (fun t => Name t <> "" /\ valid_target t) (Targets c) /\ NoDup (Name <$> Targets c).
Proof.
  unfold Validate. rewrite !app_nil, !bad_nil, validate_targets_nil. split.
  - intros (H1 & H2 & H3 & Hf & Hn). zbool. split_and!; try lia; try done.
    eapply Forall_impl; [exact Hf|]. naive_solver.
  - intros (? & ? & ? & ? & ? & ? & ? & ? & Hf & Hn).
    split_and!; try done; repeat apply orb_false_intro; try (apply Z.ltb_ge; lia).
    eapply Forall_impl; [exact Hf|]. set_solver.
Qed.

Lemma default_target_valid (name : string) : valid_target (DefaultTarget name).
Proof. apply validate_valid. vm_compute. reflexivity. Qed.

(** The documented defaults pass validation for any list of distinct,
    non-empty target names, and only then; and a document that decodes without
    error to an accepted configuration is returned as decoded. *)
Theorem defaults_valid (names : list string)
    (strictDecode : string -> Config -> Config * option (bool * string)) (data : string) :
  (Validate (DefaultConfig names) = [] <-> ("" ∉ names) /\ NoDup names) /\
  (strictDecode data (DefaultConfig []) = (DefaultConfig names, None) ->
   ("" ∉ names) -> NoDup names ->
   LoadConfig strictDecode data = inl (DefaultConfig names)).
Proof.
  assert (H : Validate (DefaultConfig names) = [] <-> ("" ∉ names) /\ NoDup names).
  { unfold Validate. rewrite !app_nil, validate_targets_nil. cbn [Targets DefaultConfig].
    rewrite Forall_fmap, <- list_fmap_compose.
    replace ((Name ∘ DefaultTarget) <$> names) with names by (symmetry; apply list_fmap_id).
    rewrite Forall_forall. split.
    - intros (_ & _ & _ & Hf & Hn). split; [|done]. intros He. by destruct (Hf "" He).
    - intros [He Hn]. split; [reflexivity|]. split; [reflexivity|]. split; [reflexivity|].
      split; [|exact Hn]. intros x Hx. unfold compose. cbn [Name DefaultTarget].
      split; [by intros ->|]. split; [apply not_elem_of_empty|apply default_target_valid]. }
  split; [done|]. intros Hd He Hn. unfold LoadConfig. rewrite Hd.
  destruct H as [_ H]. by rewrite H.
Qed.

End ResilientConfig.
