(* ===== verification/Breaker.v ===== *)
(** The circuit breaker of the resilient HTTP client (breaker.go): its state is
    one immutable snapshot behind an atomic pointer, replaced by
    compare-and-swap; the window of the closed state is behind a mutex.

    [allow], [record] and [recordProbe] are the methods run without
    interference; the module [Conc] runs any number of them interleaved at the
    granularity of their atomic steps. *)
From S2P Require Import Prelude Float64 Window ResilientConfig.

Module Breaker.
Import F64.

Inductive BreakerState := StateClosed | StateOpen | StateHalfOpen.

#[export] Instance BreakerState_eq_dec : EqDecision BreakerState.
Proof. solve_decision. Defined.

Definition String (s : BreakerState) : string :=
  match s with
  | StateClosed => "closed"
  | StateOpen => "open"
  | StateHalfOpen => "half_open"
  end.

Inductive outcome := outcomeSuccess | outcomeFailure | outcomeIgnored.

#[export] Instance outcome_eq_dec : EqDecision outcome.
Proof. solve_decision. Defined.

Record ticket := { t_gen : Z; t_probe : bool }.

Record snapshot := {
  st : BreakerState;
  gen : Z;
  probes : Z;
  successes : Z;
  openedAt : Z
}.

(** [&snapshot{state: s, gen: g}], with a probe count and an open time. *)
Definition fresh_snapshot (s : BreakerState) (g p o : Z) : snapshot :=
  {| st := s; gen := g; probes := p; successes := 0; openedAt := o |}.

(** A pointer to a snapshot: an address and what it points to, which never
    changes once published. *)
Record ptr := { addr : nat; val : snapshot }.

Record params := {
  ratio : float64;
  minRequests : Z;
  openTimeout : Z;
  maxProbes : Z
}.

Record breaker := {
  cur : ptr;
  next_addr : nat;       (* the allocator: no address is handed out twice *)
  win : Window.window;
  winGen : Z;
  prm : params;
  changes : list (BreakerState * BreakerState)  (* calls of onChange, latest first *)
}.

Definition newBreaker (cfg : ResilientConfig.TargetConfig) : option breaker :=
  if leb (ResilientConfig.BreakerFailureRatio cfg) (Fin 0) then None
  else Some {|
    cur := {| addr := 0; val := fresh_snapshot StateClosed 0 0 0 |};
    next_addr := 1;
    win := Window.newWindow (ResilientConfig.BreakerWindow cfg);
    winGen := 0;
    prm := {| ratio := ResilientConfig.BreakerFailureRatio cfg;
              minRequests := ResilientConfig.BreakerMinRequests cfg;
              openTimeout := ResilientConfig.BreakerOpenTimeout cfg;
              maxProbes := ResilientConfig.BreakerHalfOpenProbes cfg |};
    changes := []
  |}.

Definition state (b : option breaker) : BreakerState :=
  match b with
  | None => StateClosed
  | Some b => st (val (cur b))
  end.

Definition next_gen (g : Z) : Z := Go.wrapu64 (g + 1).

(** ** Compare-and-swap *)

(** [b.cur.CompareAndSwap(s, &next)] *)
Definition CompareAndSwap (b : breaker) (s : ptr) (next : snapshot) : breaker * bool :=
  if Nat.eqb (addr (cur b)) (addr s)
  then ({| cur := {| addr := next_addr b; val := next |}; next_addr := S (next_addr b);
           win := win b; winGen := winGen b; prm := prm b; changes := changes b |}, true)
  else (b, false).

(** A transition: the CAS, and [onChange] when it wins. *)
Definition swap (b : breaker) (s : ptr) (next : snapshot) : breaker * bool :=
  let '(b', won) := CompareAndSwap b s next in
  if won
  then ({| cur := cur b'; next_addr := next_addr b'; win := win b'; winGen := winGen b';
           prm := prm b'; changes := (st (val s), st next) :: changes b' |}, true)
  else (b', false).

(** ** allow *)

(** One iteration of the loop after the load of [s]: an answer, or a CAS to try
    with the ticket it gives; the flag says whether it is a [swap]. *)
Inductive decision :=
| Answer (t : ticket) (ok : bool)
| TryCAS (notify : bool) (next : snapshot) (t : ticket).

Definition no_ticket : ticket := {| t_gen := 0; t_probe := false |}.

Definition allow_step (p : params) (s : snapshot) (now : Z) : decision :=
  match st s with
  | StateClosed => Answer {| t_gen := gen s; t_probe := false |} true
  | StateOpen =>
      if Go.time_sub now (openedAt s) <? openTimeout p then Answer no_ticket false
      else let next := fresh_snapshot StateHalfOpen (next_gen (gen s)) 1 0 in
           TryCAS true next {| t_gen := gen next; t_probe := true |}
  | StateHalfOpen =>
      if maxProbes p <=? probes s then Answer no_ticket false
      else TryCAS false
             {| st := st s; gen := gen s; probes := probes s + 1;
                successes := successes s; openedAt := openedAt s |}
             {| t_gen := gen s; t_probe := true |}
  end.

Definition try_cas (b : breaker) (notify : bool) (s : ptr) (next : snapshot) : breaker * bool :=
  if notify then swap b s next else CompareAndSwap b s next.

(** The retry loop; [fuel] bounds the iterations. *)
Fixpoint allow_loop (fuel : nat) (b : breaker) (now : Z) : option (breaker * (ticket * bool)) :=
  match fuel with
  | O => None
  | S fuel =>
      let s := cur b in
      match allow_step (prm b) (val s) now with
      | Answer t ok => Some (b, (t, ok))
      | TryCAS notify next t =>
          let '(b, won) := try_cas b notify s next in
          if won then Some (b, (t, true)) else allow_loop fuel b now
      end
  end.

Definition allow (b : option breaker) (now : Z) : option (option breaker * (ticket * bool)) :=
  match b with
  | None => Some (None, (no_ticket, true))
  | Some b => '(b, r) ← allow_loop 1 b now; Some (Some b, r)
  end.

(** ** record *)

(** The window's critical section: count one request of generation [g]. *)
Definition count_locked (b : breaker) (g now failed : Z) : breaker * (Z * Z) :=
  let '(w, wg) := if negb (winGen b =? g) then (Window.reset (win b), g) else (win b, winGen b) in
  let w := Window.add w now 1 failed in
  ({| cur := cur b; next_addr := next_addr b; win := w; winGen := wg;
      prm := prm b; changes := changes b |}, Window.sum w now).

(** The condition that trips the breaker. *)
Definition trips (p : params) (failed requests failures : Z) : bool :=
  (failed =? 1) && (minRequests p <=? requests) &&
  geb (of_Z failures) (mul (ratio p) (of_Z requests)).

Definition failed_of (o : outcome) : Z :=
  match o with outcomeFailure => 1 | _ => 0 end.

(** The body of [recordProbe]'s loop after the load of [s]. *)
Definition probe_next (p : params) (s : snapshot) (o : outcome) (now : Z) : snapshot :=
  match o with
  | outcomeIgnored =>
      {| st := st s; gen := gen s; probes := probes s - 1;
         successes := successes s; openedAt := openedAt s |}
  | outcomeFailure => fresh_snapshot StateOpen (next_gen (gen s)) 0 now
  | outcomeSuccess =>
      if maxProbes p <=? successes s + 1
      then fresh_snapshot StateClosed (next_gen (gen s)) 0 0
      else {| st := st s; gen := gen s; probes := probes s;
              successes := successes s + 1; openedAt := openedAt s |}
  end.

Definition probe_stale (s : snapshot) (t : ticket) : bool :=
  negb (bool_decide (st s = StateHalfOpen)) || negb (gen s =? t_gen t).

Fixpoint recordProbe_loop (fuel : nat) (b : breaker) (t : ticket) (o : outcome) (now : Z) : option breaker :=
  match fuel with
  | O => None
  | S fuel =>
      let s := cur b in
      if probe_stale (val s) t then Some b
      else
        let next := probe_next (prm b) (val s) o now in
        let '(b, won) := try_cas b (negb (bool_decide (st next = st (val s)))) s next in
        if won then Some b else recordProbe_loop fuel b t o now
  end.

Definition recordProbe (b : breaker) (t : ticket) (o : outcome) (now : Z) : option breaker :=
  recordProbe_loop 1 b t o now.

Definition record_stale (s : snapshot) (t : ticket) : bool :=
  negb (bool_decide (st s = StateClosed)) || negb (gen s =? t_gen t).

Definition record (b : option breaker) (t : ticket) (o : outcome) (now : Z) : option (option breaker) :=
  match b with
  | None => Some None
  | Some b =>
      if t_probe t then b ← recordProbe b t o now; Some (Some b)
      else if bool_decide (o = outcomeIgnored) then Some (Some b)
      else
        let s := cur b in
        if record_stale (val s) t then Some (Some b)
        else
          let failed := failed_of o in
          let '(b, (requests, failures)) := count_locked b (gen (val s)) now failed in
          if trips (prm b) failed requests failures
          then Some (Some (fst (swap b s (fresh_snapshot StateOpen (next_gen (gen (val s))) 0 now))))
          else Some (Some b)
  end.

(** ** Sequential behaviour *)

Lemma cas_current (b : breaker) (n : snapshot) :
  CompareAndSwap b (cur b) n =
  ({| cur := {| addr := next_addr b; val := n |}; next_addr := S (next_addr b);
      win := win b; winGen := winGen b; prm := prm b; changes := changes b |}, true).
Proof. unfold CompareAndSwap. by rewrite Nat.eqb_refl. Qed.

Lemma try_cas_current (b : breaker) (notify : bool) (n : snapshot) :
  exists b', try_cas b notify (cur b) n = (b', true) /\ val (cur b') = n /\
    win b' = win b /\ winGen b' = winGen b /\ prm b' = prm b /\
    changes b' = (if notify then [(st (val (cur b)), st n)] else []) ++ changes b.
Proof.
  unfold try_cas, swap. rewrite cas_current. destruct notify; eexists; done.
Qed.

(** What a state machine reading of the source says [allow] does. *)
Definition allow_spec (p : params) (s : snapshot) (now : Z) : snapshot * (ticket * bool) :=
  match allow_step p s now with
  | Answer t ok => (s, (t, ok))
  | TryCAS _ next t => (next, (t, true))
  end.

Lemma allow_total (b : breaker) (now : Z) :
  exists b' r, allow (Some b) now = Some (Some b', r) /\
    (val (cur b'), r) = allow_spec (prm b) (val (cur b)) now /\
    win b' = win b /\ winGen b' = winGen b /\ prm b' = prm b.
Proof.
  unfold allow, allow_loop, allow_spec.
  destruct (allow_step (prm b) (val (cur b)) now) as [t ok|notify next t]; cbn.
  - by eexists _, _.
  - destruct (try_cas_current b notify next) as (b' & -> & E & ? & ? & ? & _). cbn.
    eexists _, _. split; [done|]. by rewrite E.
Qed.

Lemma record_total (b : breaker) (t : ticket) (o : outcome) (now : Z) :
  exists b', record (Some b) t o now = Some (Some b').
Proof.
  unfold record, recordProbe, recordProbe_loop. destruct (t_probe t); cbn.
  - destruct (probe_stale _ _); cbn; [by eexists|].
    destruct (try_cas_current b (negb (bool_decide (st (probe_next (prm b) (val (cur b)) o now) =
      st (val (cur b))))) (probe_next (prm b) (val (cur b)) o now)) as (b' & -> & _).
    by eexists.
  - case_bool_decide; [by eexists|]. destruct (record_stale _ _); [by eexists|].
    destruct (count_locked _ _ _ _) as [b' [x y]]. destruct (trips _ _ _ _); by eexists.
Qed.

(** ** Interleavings *)

Module Conc.

(** Where a goroutine is: outside, inside [allow], between [allow] and
    [record] with its ticket, or inside [record] or [recordProbe].  Each
    constructor is one point between two atomic steps. *)
Inductive pc :=
| Idle
| AllowLoad
| AllowCAS (s : ptr) (notify : bool) (next : snapshot) (t : ticket)
| Holding (t : ticket)
| RecLoad (t : ticket) (o : outcome)
| RecLock (t : ticket) (s : ptr) (failed now : Z)
| RecTrip (s : ptr) (now : Z)
| ProbeLoad (t : ticket) (o : outcome)
| ProbeCAS (t : ticket) (o : outcome) (s : ptr) (next : snapshot).

Record sys := { shared : breaker; threads : list pc }.

Definition set_pc (y : sys) (b : breaker) (i : nat) (c : pc) : sys :=
  {| shared := b; threads := <[i := c]> (threads y) |}.

(** The next atomic step of a goroutine: [now] is what the clock says if it is
    read, [o] how the request ended if it is about to report. *)
Definition next_step (b : breaker) (c : pc) (now : Z) (o : outcome) : breaker * pc :=
  match c with
  | Idle => (b, AllowLoad)
  | AllowLoad =>
      match allow_step (prm b) (val (cur b)) now with
      | Answer t true => (b, Holding t)
      | Answer _ false => (b, Idle)
      | TryCAS notify next t => (b, AllowCAS (cur b) notify next t)
      end
  | AllowCAS s notify next t =>
      let '(b', won) := try_cas b notify s next in
      (b', if won then Holding t else AllowLoad)
  | Holding t =>
      if t_probe t then (b, ProbeLoad t o)
      else if bool_decide (o = outcomeIgnored) then (b, Idle)
      else (b, RecLoad t o)
  | RecLoad t o =>
      if record_stale (val (cur b)) t then (b, Idle)
      else (b, RecLock t (cur b) (failed_of o) now)
  | RecLock t s failed now =>
      let '(b', (requests, failures)) := count_locked b (gen (val s)) now failed in
      (b', if trips (prm b') failed requests failures then RecTrip s now else Idle)
  | RecTrip s now =>
      (fst (swap b s (fresh_snapshot StateOpen (next_gen (gen (val s))) 0 now)), Idle)
  | ProbeLoad t o =>
      if probe_stale (val (cur b)) t then (b, Idle)
      else (b, ProbeCAS t o (cur b) (probe_next (prm b) (val (cur b)) o now))
  | ProbeCAS t o s next =>
      let '(b', won) := try_cas b (negb (bool_decide (st next = st (val s)))) s next in
      (b', if won then Idle else ProbeLoad t o)
  end.

Inductive step : sys -> sys -> Prop :=
| Step (y : sys) (i : nat) (c c' : pc) (b' : breaker) (now : Z) (o : outcome) :
    threads y !! i = Some c ->
    next_step (shared y) c now o = (b', c') ->
    step y (set_pc y b' i c').

(** [reach b n k y]: [y] is reached from breaker [b] and [n] idle goroutines in
    [k] steps. *)
Inductive reach (b : breaker) (n : nat) : nat -> sys -> Prop :=
| Reach0 : reach b n 0 {| shared := b; threads := replicate n Idle |}
| ReachS (k : nat) (y z : sys) : reach b n k y -> step y z -> reach b n (S k) z.

(** The ticket a goroutine has and has not yet given back. *)
Definition held (c : pc) : option ticket :=
  match c with
  | Holding t | RecLoad t _ | RecLock t _ _ _ | ProbeLoad t _ | ProbeCAS t _ _ _ => Some t
  | _ => None
  end.

(** Does [c] hold a probe slot of generation [g]? *)
Definition is_probe (g : Z) (c : pc) : bool :=
  match held c with
  | Some t => t_probe t && (t_gen t =? g)
  | None => false
  end.

Definition probing (g : Z) (l : list pc) : Z := zsum (fun c => if is_probe g c then 1 else 0) l.

(** The pointer a goroutine compares with, if it is about to. *)
Definition loaded (c : pc) : option ptr :=
  match c with
  | AllowCAS s _ _ _ | RecLock _ s _ _ | RecTrip s _ | ProbeCAS _ _ s _ => Some s
  | _ => None
  end.

(** The edges of the state machine. *)
Definition legal (e : BreakerState * BreakerState) : bool :=
  match e with
  | (StateClosed, StateOpen) | (StateOpen, StateHalfOpen)
  | (StateHalfOpen, StateClosed) | (StateHalfOpen, StateOpen) => true
  | _ => false
  end.

(** The changes, latest first, are a path of legal edges from closed to [s]. *)
Fixpoint path_to (s : BreakerState) (l : list (BreakerState * BreakerState)) : Prop :=
  match l with
  | [] => s = StateClosed
  | (f, t) :: l => t = s /\ legal (f, t) = true /\ path_to f l
  end.

(** *** The invariant *)

(** What a goroutine at [c] knows. *)
Definition pc_fact (p : params) (c : pc) : Prop :=
  match c with
  | AllowCAS s notify next t => exists now, allow_step p (val s) now = TryCAS notify next t
  | RecLoad t _ => t_probe t = false
  | RecLock t s _ _ => t_probe t = false /\ st (val s) = StateClosed
  | RecTrip s _ => st (val s) = StateClosed
  | ProbeLoad t _ => t_probe t = true
  | ProbeCAS t o s next => t_probe t = true /\ probe_stale (val s) t = false /\
      exists now, next = probe_next p (val s) o now
  | _ => True
  end.

Record pc_ok (b : breaker) (c : pc) : Prop := {
  ok_held : forall t, held c = Some t -> t_gen t <= gen (val (cur b));
  ok_loaded : forall s, loaded c = Some s ->
    (addr s < next_addr b)%nat /\ (addr s = addr (cur b) -> s = cur b);
  ok_fact : pc_fact (prm b) c
}.

(** Probe accounting: [n] goroutines hold a slot of the current generation. *)
Definition accounted (p : params) (s : snapshot) (n : Z) : Prop :=
  match st s with
  | StateHalfOpen => successes s + n = probes s /\ probes s <= maxProbes p /\ 0 <= successes s
  | _ => n = 0
  end.

Record inv (p : params) (k : nat) (y : sys) : Prop := {
  inv_prm : prm (shared y) = p;
  inv_gen : gen (val (cur (shared y))) = Z.of_nat (length (changes (shared y)));
  inv_len : (length (changes (shared y)) <= k)%nat;
  inv_addr : (addr (cur (shared y)) < next_addr (shared y))%nat;
  inv_path : path_to (st (val (cur (shared y)))) (changes (shared y));
  inv_pcs : Forall (pc_ok (shared y)) (threads y);
  inv_acc : accounted p (val (cur (shared y)))
              (probing (gen (val (cur (shared y)))) (threads y))
}.

(** A step that leaves the snapshot alone. *)
Definition same_core (b b' : breaker) : Prop :=
  cur b' = cur b /\ next_addr b' = next_addr b /\ prm b' = prm b /\ changes b' = changes b.

(** A successful CAS to [next]. *)
Definition advanced (b b' : breaker) (notify : bool) (next : snapshot) : Prop :=
  cur b' = {| addr := next_addr b; val := next |} /\ next_addr b' = S (next_addr b) /\
  prm b' = prm b /\
  changes b' = (if notify then [(st (val (cur b)), st next)] else []) ++ changes b.

Lemma same_core_refl (b : breaker) : same_core b b.
Proof. done. Qed.

Lemma pc_ok_same (b b' : breaker) (c : pc) : same_core b b' -> pc_ok b c -> pc_ok b' c.
Proof.
  intros (E1 & E2 & E3 & _) [H1 H2 H3]. split; rewrite ?E1, ?E2, ?E3; auto.
Qed.

Lemma pc_ok_advanced (b b' : breaker) (notify : bool) (next : snapshot) (c : pc) :
  advanced b b' notify next -> gen (val (cur b)) <= gen next -> pc_ok b c -> pc_ok b' c.
Proof.
  intros (E1 & E2 & E3 & _) Hg [H1 H2 H3].
  split; rewrite ?E1, ?E2, ?E3; cbn; [| |done].
  - intros t Ht. specialize (H1 t Ht). lia.
  - intros s Hs. specialize (H2 s Hs) as [? _]. split; [lia|]. intros ?. lia.
Qed.

(** A CAS either loses and changes nothing, or had the current snapshot. *)
Lemma try_cas_cases (b : breaker) (notify : bool) (s : ptr) (next : snapshot) :
  (addr s = addr (cur b) -> s = cur b) ->
  (exists b', try_cas b notify s next = (b', false) /\ same_core b b') \/
  (s = cur b /\ exists b', try_cas b notify s next = (b', true) /\ advanced b b' notify next).
Proof.
  intros Hs. unfold try_cas, swap, CompareAndSwap.
  destruct (Nat.eqb_spec (addr (cur b)) (addr s)) as [E|E].
  - right. assert (s = cur b) as -> by auto. split; [done|].
    destruct notify; eexists; done.
  - left. destruct notify; eexists; done.
Qed.

Lemma probing_future (b : breaker) (l : list pc) (g : Z) :
  Forall (pc_ok b) l -> gen (val (cur b)) < g -> probing g l = 0.
Proof.
  intros Hl Hg. unfold probing. rewrite (zsum_ext _ (fun _ => 0)), zsum_zero; [done|].
  intros c Hc. rewrite Forall_forall in Hl. destruct (Hl c Hc) as [Hh _ _].
  unfold is_probe. destruct (held c) as [t|]; [|done]. specialize (Hh t eq_refl).
  destruct (Z.eqb_spec (t_gen t) g); [lia|]. by rewrite andb_false_r.
Qed.

Lemma probing_set (l : list pc) (i : nat) (c c' : pc) (g : Z) :
  l !! i = Some c ->
  probing g (<[i := c']> l) =
    probing g l - (if is_probe g c then 1 else 0) + (if is_probe g c' then 1 else 0).
Proof. intros H. unfold probing. by rewrite (zsum_insert _ _ _ c) by done. Qed.

(** Steps that keep the snapshot keep the invariant if they keep the probe. *)
Lemma inv_same (p : params) (k : nat) (y : sys) (b' : breaker) (i : nat) (c c' : pc) :
  inv p k y -> threads y !! i = Some c -> same_core (shared y) b' ->
  pc_ok b' c' -> is_probe (gen (val (cur b'))) c' = is_probe (gen (val (cur b'))) c ->
  inv p (S k) (set_pc y b' i c').
Proof.
  intros [] Hi Hb Hc Hp. pose proof Hb as (E1 & E2 & E3 & E4).
  split; cbn [shared threads set_pc]; rewrite ?E1, ?E2, ?E3, ?E4 in *; try done; [lia| |].
  - apply Forall_insert; [|done].
    eapply Forall_impl; [done|]. intros x. by apply pc_ok_same.
  - rewrite (probing_set _ _ c) by done. rewrite Hp.
    replace (_ - _ + _) with (probing (gen (val (cur (shared y)))) (threads y)) by lia. done.
Qed.

(** Steps that install a snapshot of the same generation (half-open). *)
Lemma inv_advance_same (p : params) (k : nat) (y : sys) (b' : breaker) (next : snapshot)
    (i : nat) (c c' : pc) :
  inv p k y -> threads y !! i = Some c -> advanced (shared y) b' false next ->
  st next = st (val (cur (shared y))) -> gen next = gen (val (cur (shared y))) ->
  pc_ok b' c' ->
  accounted p next (probing (gen next) (<[i := c']> (threads y))) ->
  inv p (S k) (set_pc y b' i c').
Proof.
  intros [] Hi Hb Hst Hg Hc Ha. pose proof Hb as (E1 & E2 & E3 & E4).
  split; cbn [shared threads set_pc]; rewrite ?E1, ?E2, ?E3, ?E4; cbn [addr val app]; rewrite ?Hst, ?Hg in *; try done; [lia|lia|].
  apply Forall_insert; [|done]. eapply Forall_impl; [done|]. intros x.
  eapply pc_ok_advanced; [done|lia].
Qed.

(** Steps that move to a new generation. *)
Lemma inv_advance_new (p : params) (k : nat) (y : sys) (b' : breaker) (next : snapshot)
    (i : nat) (c c' : pc) :
  inv p k y -> Z.of_nat k < Go.uint64_max ->
  threads y !! i = Some c -> advanced (shared y) b' true next ->
  legal (st (val (cur (shared y))), st next) = true ->
  gen next = next_gen (gen (val (cur (shared y)))) ->
  pc_ok b' c' ->
  accounted p next (if is_probe (gen next) c' then 1 else 0) ->
  inv p (S k) (set_pc y b' i c').
Proof.
  intros [] Hk Hi Hb Hl Hg Hc Ha. pose proof Hb as (E1 & E2 & E3 & E4).
  assert (Hn : gen next = gen (val (cur (shared y))) + 1).
  { rewrite Hg. unfold next_gen. apply Go.wrapu64_id. lia. }
  split; cbn [shared threads set_pc]; rewrite ?E1, ?E2, ?E3, ?E4; cbn [addr val app length path_to].
  - done.
  - lia.
  - lia.
  - lia.
  - done.
  - apply Forall_insert; [|done]. eapply Forall_impl; [done|]. intros x.
    eapply pc_ok_advanced; [done|lia].
  - rewrite (probing_set _ _ c) by done.
    rewrite (probing_future (shared y)) by (done || lia).
    assert (is_probe (gen next) c = false) as ->.
    { rewrite Forall_lookup in inv_pcs0. destruct (inv_pcs0 i c Hi) as [Hh _ _].
      unfold is_probe. destruct (held c) as [t|]; [|done]. specialize (Hh t eq_refl).
      destruct (Z.eqb_spec (t_gen t) (gen next)); [lia|]. by rewrite andb_false_r. }
    by rewrite Z.sub_diag.
Qed.

Section Steps.
Context (p : params) (k : nat) (y : sys) (i : nat).
Context (Hmax : 1 <= maxProbes p) (Hk : Z.of_nat k < Go.uint64_max) (Hinv : inv p k y).

Local Notation b := (shared y).

Lemma thread_ok (c : pc) : threads y !! i = Some c -> pc_ok b c.
Proof. intros Hi. pose proof (inv_pcs _ _ _ Hinv) as H. rewrite Forall_lookup in H. eauto. Qed.

Lemma acc_closed (c : pc) :
  threads y !! i = Some c -> st (val (cur b)) <> StateHalfOpen ->
  is_probe (gen (val (cur b))) c = false.
Proof.
  intros Hi Hs. pose proof (inv_acc _ _ _ Hinv) as Ha. unfold accounted in Ha.
  assert (H0 : probing (gen (val (cur b))) (threads y) = 0).
  { destruct (st (val (cur b))); done. }
  pose proof (zsum_elem_le (fun c => if is_probe (gen (val (cur b))) c then 1 else 0)
    (threads y) c) as Hle. cbn in Hle. unfold probing in H0.
  destruct (is_probe _ c); [|done].
  assert (1 <= 0); [|lia]. rewrite <- H0. apply Hle; [intros z; destruct (is_probe _ z); lia|].
  by eapply list_elem_of_lookup_2.
Qed.

Lemma step_allow_load (now : Z) (b' : breaker) (c' : pc) (o : outcome) :
  threads y !! i = Some AllowLoad -> next_step b AllowLoad now o = (b', c') ->
  inv p (S k) (set_pc y b' i c').
Proof.
  intros Hi Hn. cbn in Hn. pose proof (inv_addr _ _ _ Hinv) as Had.
  destruct (allow_step (prm b) (val (cur b)) now) as [t []|notify next t] eqn:E; simplify_eq.
  - assert (t = {| t_gen := gen (val (cur b)); t_probe := false |}) as ->.
    { unfold allow_step in E. destruct (st (val (cur b))); split_ifs; congruence. }
    eapply inv_same; [done|done|done| |done]. split; cbn; [|done|done]. intros ? [= <-]. cbn. lia.
  - eapply inv_same; [done..| |done]. by split.
  - eapply inv_same; [done..| |done]. split; cbn; [done| |by exists now].
    intros ? [= <-]. done.
Qed.

Lemma step_allow_cas (s : ptr) (notify : bool) (next : snapshot) (t : ticket)
    (now : Z) (b' : breaker) (c' : pc) (o : outcome) :
  threads y !! i = Some (AllowCAS s notify next t) ->
  next_step b (AllowCAS s notify next t) now o = (b', c') ->
  inv p (S k) (set_pc y b' i c').
Proof.
  intros Hi Hn. destruct (thread_ok _ Hi) as [_ Hl (now' & Hf)].
  destruct (Hl s eq_refl) as [_ Hs]. cbn in Hn.
  destruct (try_cas_cases b notify s next Hs) as [(b1 & E & Hb)|(-> & b1 & E & Hb)];
    rewrite E in Hn; simplify_eq.
  { eapply inv_same; [done..| |done]. by split. }
  pose proof (inv_acc _ _ _ Hinv) as Ha. unfold accounted in Ha.
  pose proof (inv_prm _ _ _ Hinv) as Hp.
  unfold allow_step in Hf. destruct (st (val (cur b))) eqn:Es; [congruence|..];
    split_ifs; try congruence.
  - eapply (inv_advance_new _ _ _ _ (fresh_snapshot StateHalfOpen (next_gen (gen (val (cur b)))) 1 0));
      try done.
    + by rewrite Es.
    + destruct Hb as (E1 & E2 & E3 & _).
      split; rewrite ?E1; cbn; [intros ? [= <-]; cbn; lia|done..].
    + cbn. rewrite Z.eqb_refl. unfold accounted. cbn. lia.
  - eapply (inv_advance_same _ _ _ _ {| st := StateHalfOpen; gen := gen (val (cur b));
      probes := probes (val (cur b)) + 1; successes := successes (val (cur b));
      openedAt := openedAt (val (cur b)) |}); try done.
    + destruct Hb as (E1 & E2 & E3 & _).
      split; rewrite ?E1; cbn; [intros ? [= <-]; cbn; lia|done..].
    + rewrite (probing_set _ _ _ _ _ Hi). cbn [gen]. unfold accounted. cbn [is_probe held].
      cbn. rewrite Z.eqb_refl. cbn. lia.
Qed.

Lemma step_record (c : pc) (now : Z) (b' : breaker) (c' : pc) (o : outcome) :
  (exists t, c = Holding t) \/ (exists t o', c = RecLoad t o') \/
  (exists t s f n, c = RecLock t s f n) \/ (exists s n, c = RecTrip s n) ->
  threads y !! i = Some c -> next_step b c now o = (b', c') ->
  inv p (S k) (set_pc y b' i c').
Proof.
  intros Hcs Hi Hn. pose proof (thread_ok _ Hi) as [Hh Hl Hf].
  pose proof (inv_addr _ _ _ Hinv) as Had.
  destruct Hcs as [(t & ->)|[(t & o' & ->)|[(t & s & f & n & ->)|(s & n & ->)]]]; cbn in *.
  - specialize (Hh t eq_refl). destruct (t_probe t) eqn:Ht; [|case_bool_decide];
      simplify_eq; (eapply inv_same; [done..| |]).
    + split; cbn; [intros ? [= <-]|..]; done.
    + done.
    + by split.
    + unfold is_probe. cbn. by rewrite Ht.
    + split; cbn; [intros ? [= <-]|..]; done.
    + done.
  - specialize (Hh t eq_refl). destruct (record_stale (val (cur b)) t) eqn:Hst; simplify_eq;
      (eapply inv_same; [done..| |]).
    + by split.
    + unfold is_probe. cbn. by rewrite Hf.
    + unfold record_stale in Hst. zbool. apply bool_decide_eq_true in H.
      split; cbn; [intros ? [= <-]; done|intros ? [= <-]; done|done].
    + done.
  - specialize (Hh t eq_refl). destruct (Hl s eq_refl) as [Hlt Hs].
    destruct (count_locked b (gen (val s)) n f) as [b1 [x z]] eqn:Ec.
    assert (Hsame : same_core b b1).
    { unfold count_locked in Ec. destruct (negb _); by simplify_eq. }
    pose proof Hsame as (E1 & E2 & E3 & _). destruct (trips _ _ _ _); simplify_eq;
      (eapply inv_same; [done..| |]).
    + split; rewrite ?E1, ?E2; cbn; [done| |by apply Hf]. intros ? [= <-]. done.
    + unfold is_probe. cbn. by destruct Hf as [-> _].
    + by split.
    + unfold is_probe. cbn. by destruct Hf as [-> _].
  - destruct (Hl s eq_refl) as [Hlt Hs]. injection Hn as <- <-.
    destruct (try_cas_cases b true s (fresh_snapshot StateOpen (next_gen (gen (val s))) 0 n) Hs)
      as [(b1 & E & Hb)|(-> & b1 & E & Hb)]; unfold try_cas in E; rewrite E; cbn [fst].
    + eapply inv_same; [done..| |done]. by split.
    + eapply (inv_advance_new _ _ _ _ _ _ _ _ Hinv Hk Hi Hb); cbn; [by rewrite Hf|done| |done].
      by split.
Qed.

Lemma step_probe_load (t : ticket) (o' : outcome) (now : Z) (b' : breaker) (c' : pc) (o : outcome) :
  threads y !! i = Some (ProbeLoad t o') -> next_step b (ProbeLoad t o') now o = (b', c') ->
  inv p (S k) (set_pc y b' i c').
Proof.
  intros Hi Hn. pose proof (thread_ok _ Hi) as [Hh _ Hf]. cbn in *. specialize (Hh t eq_refl).
  pose proof (inv_addr _ _ _ Hinv) as Had.
  destruct (probe_stale (val (cur b)) t) eqn:Hst; simplify_eq; (eapply inv_same; [done..| |]).
  - by split.
  - destruct (decide (st (val (cur b)) = StateHalfOpen)) as [Hs|Hs].
    + unfold probe_stale in Hst. rewrite bool_decide_eq_true_2 in Hst by done. cbn in Hst. zbool.
      unfold is_probe. cbn. rewrite Hf. cbn. symmetry. apply Z.eqb_neq. congruence.
    + symmetry. by apply acc_closed.
  - split; cbn; [intros ? [= <-]; done|intros ? [= <-]; done|]. split_and!; [done..|by eexists].
  - done.
Qed.

Lemma step_probe_cas (t : ticket) (o' : outcome) (s : ptr) (next : snapshot)
    (now : Z) (b' : breaker) (c' : pc) (o : outcome) :
  threads y !! i = Some (ProbeCAS t o' s next) ->
  next_step b (ProbeCAS t o' s next) now o = (b', c') ->
  inv p (S k) (set_pc y b' i c').
Proof.
  intros Hi Hn. pose proof (thread_ok _ Hi) as [Hh Hl (Htp & Hst & now' & Hnext)].
  destruct (Hl s eq_refl) as [_ Hs]. cbn in Hn. specialize (Hh t eq_refl).
  destruct (try_cas_cases b (negb (bool_decide (st next = st (val s)))) s next Hs)
    as [(b1 & E & Hb)|(-> & b1 & E & Hb)]; rewrite E in Hn; injection Hn as <- <-.
  { eapply inv_same; [done..| |done]. destruct Hb as (E1 & _). split; cbn; [|done|done].
    intros ? [= <-]. by rewrite E1. }
  pose proof (inv_acc _ _ _ Hinv) as Ha. pose proof (inv_prm _ _ _ Hinv) as Hp.
  unfold probe_stale in Hst. zbool. apply bool_decide_eq_true in H.
  unfold accounted in Ha. rewrite H in *. rewrite Hp in Hnext.
  assert (Hme : is_probe (gen (val (cur b))) (ProbeCAS t o' (cur b) next) = true).
  { unfold is_probe. cbn. rewrite Htp. by apply Z.eqb_eq. }
  assert (Hacc : forall n, successes n + probing (gen (val (cur b))) (threads y) - 1 = probes n ->
     probes n <= maxProbes p -> 0 <= successes n -> st n = StateHalfOpen -> gen n = gen (val (cur b)) ->
     accounted p n (probing (gen n) (<[i := Idle]> (threads y)))).
  { intros n H1 H2 H3 H4 H5. unfold accounted. rewrite H4, H5, (probing_set _ _ _ _ _ Hi), Hme.
    cbn. lia. }
  assert (Hid : pc_ok b1 Idle) by by split.
  unfold probe_next in Hnext. destruct o'; [destruct (maxProbes p <=? _) eqn:Hm|..]; subst next;
    cbn [st fresh_snapshot] in *; rewrite ?H in Hb; cbn in Hb.
  - eapply (inv_advance_new _ _ _ _ _ _ _ _ Hinv Hk Hi Hb); cbn; [by rewrite H|done..].
  - eapply (inv_advance_same _ _ _ _ _ _ _ _ Hinv Hi Hb); [done..|].
    apply Hacc; cbn; try done; lia.
  - eapply (inv_advance_new _ _ _ _ _ _ _ _ Hinv Hk Hi Hb); cbn; [by rewrite H|done..].
  - eapply (inv_advance_same _ _ _ _ _ _ _ _ Hinv Hi Hb); [done..|].
    apply Hacc; cbn; try done; lia.
Qed.

End Steps.

Lemma inv_step (p : params) (k : nat) (y z : sys) :
  1 <= maxProbes p -> Z.of_nat k < Go.uint64_max -> inv p k y -> step y z -> inv p (S k) z.
Proof.
  intros Hmax Hk Hinv Hs. destruct Hs as [y i c c' b' now o Hi Hn].
  destruct c; [| | | | | | | |].
  - cbn in Hn. injection Hn as <- <-. eapply inv_same; [done..| |done]. by split.
  - exact (step_allow_load _ _ _ _ Hinv _ _ _ _ Hi Hn).
  - eapply step_allow_cas; eauto.
  - refine (step_record _ _ _ _ Hk Hinv _ _ _ _ _ _ Hi Hn); naive_solver.
  - refine (step_record _ _ _ _ Hk Hinv _ _ _ _ _ _ Hi Hn); naive_solver.
  - refine (step_record _ _ _ _ Hk Hinv _ _ _ _ _ _ Hi Hn); naive_solver.
  - refine (step_record _ _ _ _ Hk Hinv _ _ _ _ _ _ Hi Hn); naive_solver.
  - eapply step_probe_load; eauto.
  - eapply step_probe_cas; eauto.
Qed.

(** A breaker as [newBreaker] makes it. *)
Definition initial (b : breaker) : Prop :=
  val (cur b) = fresh_snapshot StateClosed 0 0 0 /\ changes b = [] /\
  (addr (cur b) < next_addr b)%nat.

Lemma newBreaker_initial (cfg : ResilientConfig.TargetConfig) (b : breaker) :
  newBreaker cfg = Some b -> initial b /\ maxProbes (prm b) = ResilientConfig.BreakerHalfOpenProbes cfg.
Proof.
  unfold newBreaker. split_ifs; intros; simplify_eq. split; [|done]. split_and!; [done..|cbn; lia].
Qed.

Lemma conc_reach_inv (b : breaker) (n k : nat) (y : sys) :
  initial b -> 1 <= maxProbes (prm b) -> Z.of_nat k <= Go.uint64_max ->
  reach b n k y -> inv (prm b) k y.
Proof.
  intros (Hv & Hc & Ha) Hm Hk Hr. induction Hr as [|k y z Hr IH Hs].
  - split; cbn [shared threads]; rewrite ?Hv, ?Hc; try done.
    + apply Forall_replicate. by split.
    + unfold accounted. cbn. unfold probing. rewrite (zsum_ext _ (fun _ => 0)), zsum_zero; [done|].
      intros c Hx. apply elem_of_replicate in Hx as [-> _]. done.
  - apply (inv_step _ _ y); [done|lia|apply IH; lia|done].
Qed.

(** A schedule: which goroutine steps, what its clock says, how its request
    ended. *)
Fixpoint run_sched (y : sys) (l : list (nat * Z * outcome)) : option sys :=
  match l with
  | [] => Some y
  | (i, now, o) :: l =>
      c ← threads y !! i;
      let '(b', c') := next_step (shared y) c now o in
      run_sched (set_pc y b' i c') l
  end.

Lemma run_sched_reach (b : breaker) (n k : nat) (y z : sys) (l : list (nat * Z * outcome)) :
  reach b n k y -> run_sched y l = Some z -> reach b n (k + length l) z.
Proof.
  revert k y. induction l as [|[[i now] o] l IH]; intros k y Hr Hl; simplify_eq/=.
  - by rewrite Nat.add_0_r.
  - apply bind_Some in Hl as (c & Hc & Hl).
    destruct (next_step (shared y) c now o) as [b' c'] eqn:E.
    rewrite Nat.add_succ_r, <- Nat.add_succ_l. eapply IH; [|exact Hl].
    eapply ReachS; [done|]. by eapply Step.
Qed.

End Conc.

(** ** Theorems *)

(** C6: whatever the interleaving of concurrent [allow] and [record] calls, the
    requests holding a half-open probe slot of the current generation never
    exceed the configured number of probes, and together with the probes that
    succeeded they are exactly the slots the snapshot counts.  Outside
    half-open no request holds a slot of the current generation.  (The bound on
    the number of steps is that of a [uint64] generation.) *)
Theorem probe_slots_bounded (cfg : ResilientConfig.TargetConfig) (b : breaker) (n k : nat) (y : Conc.sys) :
  newBreaker cfg = Some b -> 1 <= ResilientConfig.BreakerHalfOpenProbes cfg ->
  Z.of_nat k <= Go.uint64_max -> Conc.reach b n k y ->
  let s := val (cur (Conc.shared y)) in
  let inflight := Conc.probing (gen s) (Conc.threads y) in
  inflight <= ResilientConfig.BreakerHalfOpenProbes cfg /\
  match st s with
  | StateHalfOpen => successes s + inflight = probes s /\
      probes s <= ResilientConfig.BreakerHalfOpenProbes cfg
  | _ => inflight = 0
  end.
Proof.
  intros Hnew Hmax Hk Hr s inflight. apply Conc.newBreaker_initial in Hnew as [Hi Hm].
  pose proof (Conc.conc_reach_inv b n k y Hi ltac:(lia) Hk Hr) as Hinv.
  pose proof (Conc.inv_acc _ _ _ Hinv) as Ha. unfold Conc.accounted in Ha.
  subst s inflight. rewrite Hm in Ha. destruct (st (val (cur (Conc.shared y)))); lia.
Qed.

(** *** A concrete run *)

(** A breaker that trips on the first failure and admits one probe. *)
Definition demo_cfg : ResilientConfig.TargetConfig := {|
  ResilientConfig.Name := "billing"; ResilientConfig.Timeout := 0;
  ResilientConfig.RateLimit := Fin 0; ResilientConfig.RateBurst := 0;
  ResilientConfig.MaxConcurrent := 0; ResilientConfig.MaxConcurrentWait := 0;
  ResilientConfig.BreakerFailureRatio := Fin (2 ^ 1073);
  ResilientConfig.BreakerMinRequests := 1;
  ResilientConfig.BreakerWindow := 1000;
  ResilientConfig.BreakerOpenTimeout := 50;
  ResilientConfig.BreakerHalfOpenProbes := 1;
  ResilientConfig.RetryMaxAttempts := 3; ResilientConfig.RetryBaseDelay := 0;
  ResilientConfig.RetryMaxDelay := 0; ResilientConfig.RetryBudgetRatio := Fin 0;
  ResilientConfig.RetryBudgetMinRetries := 0; ResilientConfig.RetryBudgetWindow := 0 |}.

Definition demo_breaker : breaker := {|
  cur := {| addr := 0; val := fresh_snapshot StateClosed 0 0 0 |};
  next_addr := 1; win := Window.newWindow 1000; winGen := 0;
  prm := {| ratio := Fin (2 ^ 1073); minRequests := 1; openTimeout := 50; maxProbes := 1 |};
  changes := [] |}.

(** Goroutine 0 fails and trips the breaker; after the open timeout both
    goroutines race for the probe and goroutine 1 wins it. *)
Definition demo_sched : list (nat * Z * outcome) :=
  (fun i => (i, 100, outcomeFailure)) <$> [0; 0; 0; 0; 0; 0]%nat ++ [].
Definition demo_race : list (nat * Z * outcome) :=
  (fun i => (i, 200, outcomeSuccess)) <$> [0; 1; 0; 1; 1; 0; 0]%nat.

Definition demo_state : Conc.sys :=
  default {| Conc.shared := demo_breaker; Conc.threads := [] |}
    (Conc.run_sched {| Conc.shared := demo_breaker; Conc.threads := replicate 2 Conc.Idle |}
       (demo_sched ++ demo_race)).

Lemma demo_reach : Conc.reach demo_breaker 2 13 demo_state.
Proof.
  apply (Conc.run_sched_reach demo_breaker 2 0 _ _ (demo_sched ++ demo_race) (Conc.Reach0 _ _)).
  vm_compute. reflexivity.
Qed.

Lemma demo_new : newBreaker demo_cfg = Some demo_breaker.
Proof. vm_compute. reflexivity. Qed.

Lemma demo_probes : 1 <= ResilientConfig.BreakerHalfOpenProbes demo_cfg.
Proof. vm_compute. discriminate. Qed.

Lemma demo_steps : Z.of_nat 13 <= Go.uint64_max.
Proof. vm_compute. discriminate. Qed.

Lemma probe_slots_bounded_witness :
  st (val (cur (Conc.shared demo_state))) = StateHalfOpen /\
  Conc.probing (gen (val (cur (Conc.shared demo_state)))) (Conc.threads demo_state) = 1 /\
  Conc.probing (gen (val (cur (Conc.shared demo_state)))) (Conc.threads demo_state)
    <= ResilientConfig.BreakerHalfOpenProbes demo_cfg.
Proof.
  split; [vm_compute; reflexivity|]. split; [vm_compute; reflexivity|].
  pose proof (probe_slots_bounded demo_cfg demo_breaker 2 13 demo_state
    demo_new demo_probes demo_steps demo_reach) as H.
  cbv zeta in H. destruct H as [H _]. exact H.
Defined.

(** The state changes of the breaker, in the order the snapshots were
    installed, form a path from closed along the edges closed-open,
    open-half-open, half-open-closed and half-open-open only, ending in the
    current state, and the generation counts them: no change is lost, merged or
    notified twice, whatever the interleaving. *)
Theorem transitions_form_path (cfg : ResilientConfig.TargetConfig) (b : breaker) (n k : nat) (y : Conc.sys) :
  newBreaker cfg = Some b -> 1 <= ResilientConfig.BreakerHalfOpenProbes cfg ->
  Z.of_nat k <= Go.uint64_max -> Conc.reach b n k y ->
  let s := val (cur (Conc.shared y)) in
  Conc.path_to (st s) (changes (Conc.shared y)) /\
  gen s = Z.of_nat (length (changes (Conc.shared y))) /\
  (forall c t, c ∈ Conc.threads y -> Conc.held c = Some t -> t_gen t <= gen s).
Proof.
  intros Hnew Hmax Hk Hr s. apply Conc.newBreaker_initial in Hnew as [Hi Hm].
  pose proof (Conc.conc_reach_inv b n k y Hi ltac:(lia) Hk Hr) as [].
  split_and!; [done..|]. intros c t Hc Ht. rewrite Forall_forall in inv_pcs.
  by apply (Conc.ok_held _ _ (inv_pcs c Hc)).
Qed.

Lemma transitions_form_path_witness :
  Conc.path_to (st (val (cur (Conc.shared demo_state)))) (changes (Conc.shared demo_state)) /\
  changes (Conc.shared demo_state) = [(StateOpen, StateHalfOpen); (StateClosed, StateOpen)].
Proof.
  split; [|vm_compute; reflexivity].
  pose proof (transitions_form_path demo_cfg demo_breaker 2 13 demo_state
    demo_new demo_probes demo_steps demo_reach) as H.
  cbv zeta in H. destruct H as [H _]. exact H.
Defined.

(** [allow] run alone returns at once and does what the state says: closed
    admits without touching the snapshot; open rejects strictly before the open
    timeout and at its end moves to half-open, taking the first probe slot; half-open
    hands out one more slot while fewer than the maximum are out and rejects
    otherwise.  Only the open-half-open change is notified, and the counting
    window is never touched. *)
Theorem allow_by_state (b : breaker) (now : Z) :
  let s := val (cur b) in
  exists b' t ok, allow (Some b) now = Some (Some b', (t, ok)) /\
    win b' = win b /\ winGen b' = winGen b /\ prm b' = prm b /\
    match st s with
    | StateClosed => b' = b /\ ok = true /\ t = {| t_gen := gen s; t_probe := false |}
    | StateOpen =>
        if Go.time_sub now (openedAt s) <? openTimeout (prm b)
        then b' = b /\ ok = false
        else ok = true /\ t = {| t_gen := next_gen (gen s); t_probe := true |} /\
             val (cur b') = fresh_snapshot StateHalfOpen (next_gen (gen s)) 1 0 /\
             changes b' = (StateOpen, StateHalfOpen) :: changes b
    | StateHalfOpen =>
        if maxProbes (prm b) <=? probes s
        then b' = b /\ ok = false
        else ok = true /\ t = {| t_gen := gen s; t_probe := true |} /\
             probes (val (cur b')) = probes s + 1 /\
             successes (val (cur b')) = successes s /\ gen (val (cur b')) = gen s /\
             st (val (cur b')) = StateHalfOpen /\ changes b' = changes b
    end.
Proof.
  cbv zeta. unfold allow, allow_loop, allow_step.
  destruct (st (val (cur b))) eqn:Es.
  - by eexists _, _, _.
  - destruct (_ <? _); [by eexists _, _, _|].
    edestruct (try_cas_current b true) as (b' & E & ? & ? & ? & ? & Hc). rewrite E. cbn.
    rewrite Es in Hc. by eexists _, _, _.
  - destruct (_ <=? _); [by eexists _, _, _|].
    edestruct (try_cas_current b false) as (b' & E & Hv & ? & ? & ? & Hc). rewrite E. cbn.
    eexists _, _, _. split_and!; try done; rewrite Hv; done.
Qed.

(** A result of an older generation, or of a request admitted in another
    state, changes nothing: reporting it leaves the whole breaker as it was. *)
Theorem stale_result_ignored (b : breaker) (t : ticket) (o : outcome) (now : Z) :
  (gen (val (cur b)) <> t_gen t \/
   st (val (cur b)) <> (if t_probe t then StateHalfOpen else StateClosed)) ->
  record (Some b) t o now = Some (Some b).
Proof.
  intros H. unfold record, recordProbe, recordProbe_loop.
  assert (Hs : forall x, (gen (val (cur b)) <> t_gen t \/ st (val (cur b)) <> x) ->
     negb (bool_decide (st (val (cur b)) = x)) || negb (gen (val (cur b)) =? t_gen t) = true).
  { intros x [Hg|Hx]; apply orb_true_iff.
    - right. apply negb_true_iff. by apply Z.eqb_neq.
    - left. apply negb_true_iff. by apply bool_decide_eq_false. }
  destruct (t_probe t).
  - unfold probe_stale. by rewrite Hs.
  - case_bool_decide; [done|]. unfold record_stale. by rewrite Hs.
Qed.

Lemma stale_result_ignored_witness :
  record (Some demo_breaker) {| t_gen := 7; t_probe := false |} outcomeFailure 5 =
    Some (Some demo_breaker).
Proof. apply stale_result_ignored. left. vm_compute. discriminate. Defined.

Lemma run_counts (b : breaker) (len now f : Z) (log : list Window.event) :
  win b = Window.run (Window.newWindow len) log -> winGen b = gen (val (cur b)) ->
  Window.monotone (log ++ [{| Window.at_ := now; Window.ea := 1; Window.eb := f |}]) ->
  count_locked b (gen (val (cur b))) now f =
  let log' := log ++ [{| Window.at_ := now; Window.ea := 1; Window.eb := f |}] in
  ({| cur := cur b; next_addr := next_addr b; win := Window.run (Window.newWindow len) log';
      winGen := winGen b; prm := prm b; changes := changes b |},
   Window.ref_sum (Window.slot (Window.newWindow len)) now log').
Proof.
  intros Hw Hg Hm. unfold count_locked. rewrite Hg, Z.eqb_refl. cbn [negb].
  assert (E : Window.add (win b) now 1 f = Window.run (Window.newWindow len)
    (log ++ [{| Window.at_ := now; Window.ea := 1; Window.eb := f |}])).
  { rewrite Window.run_snoc. cbn. by rewrite Hw. }
  rewrite E, Window.sum_run; [done|done|]. unfold Window.last_at. by rewrite last_snoc.
Qed.

(** In the closed state, with a clock that does not go back, the failure of
    a request of the current generation opens the breaker exactly when, over
    the log of the results of this generation inside the window, the requests
    reach the minimum and the floating-point comparison of the failures with
    ratio times requests holds; and it always opens when the exact ratio is
    reached, rounding notwithstanding.  Opening starts a new generation, records
    the time and notifies once. *)
Theorem failure_trips_exactly (b : breaker) (len now u : Z) (log : list Window.event) :
  let e := {| Window.at_ := now; Window.ea := 1; Window.eb := 1 |} in
  let '(requests, failures) :=
    Window.ref_sum (Window.slot (Window.newWindow len)) now (log ++ [e]) in
  st (val (cur b)) = StateClosed -> winGen b = gen (val (cur b)) ->
  win b = Window.run (Window.newWindow len) log -> Window.monotone (log ++ [e]) ->
  ratio (prm b) = Fin u -> 0 <= u -> small requests -> small failures ->
  exists b', record (Some b) {| t_gen := gen (val (cur b)); t_probe := false |} outcomeFailure now
      = Some (Some b') /\
    (if (minRequests (prm b) <=? requests) && geb (of_Z failures) (mul (Fin u) (of_Z requests))
     then val (cur b') = fresh_snapshot StateOpen (next_gen (gen (val (cur b)))) 0 now /\
          changes b' = (StateClosed, StateOpen) :: changes b
     else cur b' = cur b /\ changes b' = changes b) /\
    (minRequests (prm b) <= requests -> u * requests <= failures * one_units ->
     st (val (cur b')) = StateOpen).
Proof.
  cbv zeta. set (e := {| Window.at_ := now; Window.ea := 1; Window.eb := 1 |}).
  destruct (Window.ref_sum _ now (log ++ [e])) as [requests failures] eqn:Er.
  intros Hst Hwg Hw Hm Hu Hu0 Hsr Hsf.
  pose proof (run_counts b len now 1 log Hw Hwg Hm) as Hc. cbv zeta in Hc. fold e in Hc.
  rewrite Er in Hc. unfold record. cbn [t_probe].
  rewrite bool_decide_eq_false_2 by done. unfold record_stale. cbn [t_gen].
  rewrite bool_decide_eq_true_2, Z.eqb_refl by done. cbn [negb orb failed_of]. rewrite Hc.
  unfold trips. cbn [prm]. rewrite Hu. cbn [Z.eqb Pos.eqb andb].
  destruct ((minRequests (prm b) <=? requests) && geb (of_Z failures) (mul (Fin u) (of_Z requests)))
    eqn:Et.
  - unfold swap, CompareAndSwap. cbn [cur]. rewrite Nat.eqb_refl. cbn [fst].
    eexists. split; [done|]. cbn. rewrite Hst. done.
  - eexists. split; [done|]. split; [done|]. intros H1 H2. exfalso.
    apply andb_false_iff in Et as [Et|Et]; [zbool; lia|].
    rewrite geb_product in Et by done. done.
Qed.

Lemma failure_trips_exactly_witness :
  exists b', record (Some demo_breaker) {| t_gen := 0; t_probe := false |} outcomeFailure 100
      = Some (Some b') /\ st (val (cur b')) = StateOpen.
Proof.
  pose proof (failure_trips_exactly demo_breaker 1000 100 (2 ^ 1073) []) as H.
  cbv zeta in H. destruct (Window.ref_sum _ _ _) as [r f] eqn:E.
  vm_compute in E. injection E as <- <-.
  destruct H as (b' & H1 & _ & H3); try (vm_compute; reflexivity).
  - constructor; [|constructor; [cbn; lia|constructor]].
    constructor; constructor.
  - vm_compute. discriminate.
  - vm_compute. split; discriminate.
  - vm_compute. split; discriminate.
  - exists b'. split; [exact H1|]. apply H3; vm_compute; discriminate.
Defined.

End Breaker.
