(* ===== verification/Budget.v ===== *)
(** The retry budget of the resilient HTTP client (budget.go): retries over a
    sliding window are bounded by a minimum plus a fraction of the requests. *)
From S2P Require Import Prelude Float64 Window ResilientConfig.

Module Budget.
Import F64.

Record retryBudget := {
  w : Window.window;          (* a = requests, b = retries *)
  ratio : float64;
  minRetries : Z
}.

Definition newRetryBudget (cfg : ResilientConfig.TargetConfig) : option retryBudget :=
  if ResilientConfig.RetryBudgetWindow cfg <=? 0 then None
  else Some {| w := Window.newWindow (ResilientConfig.RetryBudgetWindow cfg);
               ratio := ResilientConfig.RetryBudgetRatio cfg;
               minRetries := ResilientConfig.RetryBudgetMinRetries cfg |}.

Definition set_w (b : retryBudget) (x : Window.window) : retryBudget :=
  {| w := x; ratio := ratio b; minRetries := minRetries b |}.

(** [request]: count one logical request. *)
Definition request (b : option retryBudget) (now : Z) : option retryBudget :=
  match b with
  | None => None
  | Some b => Some (set_w b (Window.add (w b) now 1 0))
  end.

(** [tryRetry]: spend one retry if there is one left. *)
Definition tryRetry (b : option retryBudget) (now : Z) : option retryBudget * bool :=
  match b with
  | None => (None, true)
  | Some b =>
      let '(requests, retries) := Window.sum (w b) now in
      if geb (of_Z retries) (add (of_Z (minRetries b)) (mul (ratio b) (of_Z requests)))
      then (Some b, false)
      else (Some (set_w b (Window.add (w b) now 0 1)), true)
  end.

(** ** A history of calls *)

Inductive call := Request (now : Z) | TryRetry (now : Z).

Definition at_call (c : call) : Z := match c with Request t | TryRetry t => t end.

(** One call on the budget and on the log of what it counted. *)
Definition step (b : retryBudget) (log : list Window.event) (c : call) :
    retryBudget * list Window.event :=
  match c with
  | Request t =>
      (default b (request (Some b) t), log ++ [{| Window.at_ := t; Window.ea := 1; Window.eb := 0 |}])
  | TryRetry t =>
      let '(b', ok) := tryRetry (Some b) t in
      (default b b', if ok then log ++ [{| Window.at_ := t; Window.ea := 0; Window.eb := 1 |}] else log)
  end.

Definition run (b : retryBudget) (cs : list call) : retryBudget * list Window.event :=
  foldl (fun '(b, log) c => step b log c) (b, []) cs.

Definition clock_ok (cs : list call) : Prop := StronglySorted Z.le (0 :: (at_call <$> cs)).

Lemma budget_run_snoc (b : retryBudget) (cs : list call) (c : call) :
  run b (cs ++ [c]) = let '(b', log) := run b cs in step b' log c.
Proof. unfold run. rewrite foldl_app. cbn. by destruct (foldl _ _ cs). Qed.

Lemma step_cases (b : retryBudget) (log : list Window.event) (c : call) :
  step b log c = (b, log) \/
  exists x y, step b log c =
    (set_w b (Window.add (w b) (at_call c) x y),
     log ++ [{| Window.at_ := at_call c; Window.ea := x; Window.eb := y |}]) /\
    ((x = 1 /\ y = 0) \/ (x = 0 /\ y = 1)).
Proof.
  destruct c as [t|t]; cbn; [right; eauto 6|].
  destruct (Window.sum (w b) t) as [q r]. destruct (geb _ _); [by left|right; eauto 6].
Qed.

(** The log is no later than the calls, so the clock's monotonicity carries
    over, and the window is the log's. *)
Record tracks (len : Z) (b0 b : retryBudget) (log : list Window.event) (last : Z) : Prop := {
  tr_w : w b = Window.run (Window.newWindow len) log;
  tr_ratio : ratio b = ratio b0;
  tr_min : minRetries b = minRetries b0;
  tr_mono : Window.monotone log;
  tr_last : Forall (fun e => Window.at_ e <= last) log
}.

Lemma monotone_snoc_intro (log : list Window.event) (e : Window.event) :
  Window.monotone log -> Forall (fun x => Window.at_ x <= Window.at_ e) log -> 0 <= Window.at_ e ->
  Window.monotone (log ++ [e]).
Proof.
  unfold Window.monotone. rewrite fmap_app. cbn [fmap list_fmap].
  rewrite app_comm_cons, sorted_snoc. intros Hs Hf H0. split; [done|].
  constructor; [done|]. by apply Forall_fmap.
Qed.

Lemma clock_ok_snoc (cs : list call) (c : call) :
  clock_ok (cs ++ [c]) ->
  clock_ok cs /\ Forall (fun x => at_call x <= at_call c) cs /\ 0 <= at_call c.
Proof.
  unfold clock_ok. rewrite fmap_app. cbn [fmap list_fmap].
  rewrite app_comm_cons, sorted_snoc. intros [Hs Hf]. inversion_clear Hf as [|? ? H0 Hf'].
  split_and!; [done| |done]. rewrite Forall_fmap in Hf'. exact Hf'.
Qed.

Lemma run_tracks (len : Z) (b : retryBudget) (cs : list call) :
  w b = Window.newWindow len -> clock_ok cs ->
  let '(b', log) := run b cs in
  forall last, Forall (fun c => at_call c <= last) cs -> tracks len b b' log last.
Proof.
  intros Hw. induction cs as [|c cs IH] using rev_ind; intros Hc.
  - cbn. intros last _. split; cbn; try done.
  - apply clock_ok_snoc in Hc as (Hc & Hle & H0). specialize (IH Hc).
    rewrite budget_run_snoc. destruct (run b cs) as [b' log].
    specialize (IH (at_call c) Hle) as [T1 T2 T3 T4 T5].
    assert (Hstep : forall last, at_call c <= last -> Forall (fun e => Window.at_ e <= last) log).
    { intros last Hl. eapply Forall_impl; [done|]. cbn. lia. }
    destruct (step_cases b' log c) as [E|(x & y & E & _)]; rewrite E;
      intros last Hl; apply Forall_app in Hl as [_ Hl]; inversion_clear Hl as [|? ? Hl' _].
    + split; auto.
    + split; cbn; try done.
      * rewrite T1, Window.run_snoc. done.
      * by apply monotone_snoc_intro.
      * apply Forall_app. split; [auto|]. by repeat constructor.
Qed.

Lemma last_at_le (log : list Window.event) (now : Z) :
  Forall (fun e => Window.at_ e <= now) log -> 0 <= now -> Window.last_at log <= now.
Proof.
  intros Hf H0. unfold Window.last_at. destruct log as [|e log _] using rev_ind; [done|].
  rewrite last_snoc. cbn. apply Forall_app in Hf as [_ Hf]. by inversion_clear Hf.
Qed.

(** C28: after any history of calls under a clock that does not go back, a retry
    is granted only while the retries inside the window are below minRetries +
    ratio * requests, compared as exact numbers (the floating-point comparison
    never errs on the generous side); a refusal changes nothing and means that
    the floating-point bound was reached. *)
Theorem retries_within_budget (cfg : ResilientConfig.TargetConfig) (b0 : retryBudget)
    (cs : list call) (now u : Z) :
  newRetryBudget cfg = Some b0 -> clock_ok (cs ++ [TryRetry now]) ->
  ResilientConfig.RetryBudgetRatio cfg = Fin u -> 0 <= u ->
  let len := ResilientConfig.RetryBudgetWindow cfg in
  let m := ResilientConfig.RetryBudgetMinRetries cfg in
  let '(b, log) := run b0 cs in
  let '(requests, retries) := Window.ref_sum (Window.slot (Window.newWindow len)) now log in
  small m -> small requests -> small retries ->
  let '(b', granted) := tryRetry (Some b) now in
  if granted
  then retries * one_units < m * one_units + u * requests /\
       b' = Some (set_w b (Window.add (w b) now 0 1))
  else b' = Some b /\ geb (of_Z retries) (add (of_Z m) (mul (Fin u) (of_Z requests))) = true.
Proof.
  intros Hn Hc Hu Hu0 len m. apply clock_ok_snoc in Hc as (Hc & Hle & H0). cbn in Hle, H0.
  unfold newRetryBudget in Hn. destruct (_ <=? 0); [done|]. injection Hn as Hb0.
  assert (Hw : w b0 = Window.newWindow len) by by rewrite <- Hb0.
  pose proof (run_tracks len b0 cs Hw Hc) as Ht.
  destruct (run b0 cs) as [b log]. destruct (Ht now Hle) as [T1 T2 T3 T4 T5].
  assert (Hs : Window.sum (w b) now = Window.ref_sum (Window.slot (Window.newWindow len)) now log).
  { rewrite T1. apply Window.sum_run; [done|]. by apply last_at_le. }
  destruct (Window.ref_sum _ now log) as [requests retries]. intros Hm Hq Hr.
  unfold tryRetry. rewrite Hs, T2, T3, <- Hb0. cbn [ratio minRetries]. rewrite Hu. fold m.
  destruct (geb _ _) eqn:E; [done|]. split; [|done].
  destruct (Z_lt_le_dec (retries * one_units) (m * one_units + u * requests)) as [|Hge]; [done|].
  by rewrite geb_linear in E.
Qed.

(** A budget of one retry and no ratio, after one request. *)
Definition demo_cfg : ResilientConfig.TargetConfig := {|
  ResilientConfig.Name := "billing"; ResilientConfig.Timeout := 0;
  ResilientConfig.RateLimit := Fin 0; ResilientConfig.RateBurst := 0;
  ResilientConfig.MaxConcurrent := 0; ResilientConfig.MaxConcurrentWait := 0;
  ResilientConfig.BreakerFailureRatio := Fin 0; ResilientConfig.BreakerMinRequests := 0;
  ResilientConfig.BreakerWindow := 0; ResilientConfig.BreakerOpenTimeout := 0;
  ResilientConfig.BreakerHalfOpenProbes := 0; ResilientConfig.RetryMaxAttempts := 3;
  ResilientConfig.RetryBaseDelay := 0; ResilientConfig.RetryMaxDelay := 0;
  ResilientConfig.RetryBudgetRatio := Fin 0; ResilientConfig.RetryBudgetMinRetries := 1;
  ResilientConfig.RetryBudgetWindow := 10 * Go.second |}.

Definition demo_budget : retryBudget := {|
  w := Window.newWindow (10 * Go.second); ratio := Fin 0; minRetries := 1 |}.

Lemma demo_clock : clock_ok ([Request 5000] ++ [TryRetry 5000]).
Proof.
  unfold clock_ok. constructor; [apply sorted_const|apply Forall_forall]; intros *;
    rewrite !list_elem_of_In; cbn; intuition lia.
Qed.

Lemma retries_within_budget_witness :
  snd (tryRetry (Some (fst (run demo_budget [Request 5000]))) 5000) = true /\
  0 * one_units < 1 * one_units + 0 * 1.
Proof.
  pose proof (retries_within_budget demo_cfg demo_budget [Request 5000] 5000 0
    ltac:(vm_compute; reflexivity) demo_clock ltac:(vm_compute; reflexivity)
    ltac:(vm_compute; discriminate)) as H.
  assert (Hg : snd (tryRetry (Some (fst (run demo_budget [Request 5000]))) 5000) = true)
    by (vm_compute; reflexivity).
  assert (Eq : Window.ref_sum (Window.slot (Window.newWindow
    (ResilientConfig.RetryBudgetWindow demo_cfg))) 5000 (snd (run demo_budget [Request 5000]))
    = (1, 0)) by (vm_compute; reflexivity).
  cbv zeta in H. destruct (run demo_budget [Request 5000]) as [b log]. cbn [fst snd] in *.
  rewrite Eq in H.
  specialize (H ltac:(vm_compute; split; discriminate) ltac:(vm_compute; split; discriminate)
    ltac:(vm_compute; split; discriminate)).
  split; [exact Hg|].
  destruct (tryRetry (Some b) 5000) as [b' g]. cbn [snd] in Hg. subst g.
  destruct H as [H _]. exact H.
Defined.

(** Validation does not see a NaN: a target whose budget ratio is NaN is
    accepted when everything else is in order, and its retry budget never
    refuses a retry, whatever was spent. *)
Theorem nan_ratio_unlimited (cfg : ResilientConfig.TargetConfig) (b : retryBudget) (now : Z) :
  ResilientConfig.RetryBudgetRatio cfg = NaN -> newRetryBudget cfg = Some b ->
  snd (tryRetry (Some b) now) = true /\
  ltb (ResilientConfig.RetryBudgetRatio cfg) ResilientConfig.fzero
    || ltb ResilientConfig.fone (ResilientConfig.RetryBudgetRatio cfg) = false.
Proof.
  intros Hn Hb. rewrite Hn. split; [|reflexivity].
  unfold newRetryBudget in Hb. destruct (_ <=? 0); [done|]. injection Hb as <-.
  unfold tryRetry. cbn [w ratio minRetries]. rewrite Hn. destruct (Window.sum _ now) as [q r].
  destruct (of_Z (ResilientConfig.RetryBudgetMinRetries cfg)), (of_Z r); done.
Qed.

Definition nan_cfg : ResilientConfig.TargetConfig := {|
  ResilientConfig.Name := "billing"; ResilientConfig.Timeout := 0;
  ResilientConfig.RateLimit := Fin 0; ResilientConfig.RateBurst := 0;
  ResilientConfig.MaxConcurrent := 0; ResilientConfig.MaxConcurrentWait := 0;
  ResilientConfig.BreakerFailureRatio := Fin 0; ResilientConfig.BreakerMinRequests := 0;
  ResilientConfig.BreakerWindow := 0; ResilientConfig.BreakerOpenTimeout := 0;
  ResilientConfig.BreakerHalfOpenProbes := 0; ResilientConfig.RetryMaxAttempts := 3;
  ResilientConfig.RetryBaseDelay := 0; ResilientConfig.RetryMaxDelay := 0;
  ResilientConfig.RetryBudgetRatio := NaN; ResilientConfig.RetryBudgetMinRetries := 0;
  ResilientConfig.RetryBudgetWindow := 100 |}.

Lemma nan_ratio_unlimited_witness :
  ResilientConfig.validate nan_cfg = [] /\
  snd (tryRetry (Some {| w := Window.newWindow 100; ratio := NaN; minRetries := 0 |}) 5) = true.
Proof.
  split; [vm_compute; reflexivity|].
  exact (proj1 (nan_ratio_unlimited nan_cfg {| w := Window.newWindow 100; ratio := NaN; minRetries := 0 |}
    5 eq_refl eq_refl)).
Defined.

End Budget.
