(* ===== verification/Backoff.v ===== *)
(** Retry delays and retry decisions of the resilient HTTP client (backoff.go,
    errors.go). *)
From S2P Require Import Prelude Float64 GoStr.

Module Backoff.
Import F64 GoStr.

(** ** fullJitter *)

Section Jitter.
(** [rand.Int64N n], uniform in [[0, n)]; it panics when [n <= 0]. *)
Context (Int64N : Z -> Z).

(** [None] is a panic: the conversion is out of range of [int64], or [Int64N]
    is called with a non-positive bound. *)
Definition fullJitter (retry base capDelay : Z) : option Z :=
  if retry <=? 0 then Some 0
  else
    let ceiling := fmin (mul (of_Z base) (of_Z (Z.shiftl 1 (Z.min retry 62)))) (of_Z capDelay) in
    if ltb ceiling (of_Z 1) then Some 0
    else
      c ← to_Z ceiling;
      let n := Go.wrap64 (Go.wrap64 c + 1) in
      if n <=? 0 then None else Some (Int64N n).
End Jitter.

(** ** parseRetryAfter *)

Definition maxRetryAfter : Z := 24 * Go.hour.

Section RetryAfter.
(** [http.ParseTime] on a trimmed value: an instant, or an error. *)
Context (ParseTime : string -> option Z).

Definition parseRetryAfter (v : string) (now : Z) : Z * bool :=
  let v := TrimSpace v in
  match bytes v with
  | [] => (0, false)
  | c :: _ =>
      if is_digit c then
        match ParseUint (bytes v) with
        | inr ErrRange => (maxRetryAfter, true)
        | inr ErrSyntax => (0, false)
        | inl secs =>
            if maxRetryAfter / Go.second <=? secs then (maxRetryAfter, true)
            else (Go.wrap64 (secs * Go.second), true)
        end
      else
        match ParseTime v with
        | None => (0, false)
        | Some t => (Z.min (Z.max (Go.time_sub t now) 0) maxRetryAfter, true)
        end
  end.
End RetryAfter.

(** ** Which requests and failures are retried *)

(** [Kind] of errors.go. *)
Inductive Kind :=
| KindTimeout | KindConnection | KindStatus | KindCircuitOpen | KindRateLimited
| KindBulkheadFull | KindShutdown | KindCanceled | KindRedirect | KindInvalid.

#[export] Instance Kind_eq_dec : EqDecision Kind.
Proof. solve_decision. Defined.

(** [kindNames] and [Kind.String] *)
Definition kind_String (k : Kind) : string :=
  match k with
  | KindTimeout => "timeout"
  | KindConnection => "connection"
  | KindStatus => "status"
  | KindCircuitOpen => "circuit_open"
  | KindRateLimited => "rate_limited"
  | KindBulkheadFull => "bulkhead_full"
  | KindShutdown => "shutdown"
  | KindCanceled => "canceled"
  | KindRedirect => "redirect"
  | KindInvalid => "invalid"
  end.

(** [method] is [req.Method]; [idemKey] is the Idempotency-Key header. *)
Definition idempotent (method idemKey : string) : bool :=
  existsb (String.eqb method) [""; "GET"; "HEAD"; "OPTIONS"; "PUT"; "DELETE"]
  || negb (String.eqb idemKey "").

Definition retryableStatus (code : Z) : bool :=
  if (code =? 408) || (code =? 425) || (code =? 429) then true
  else if (code =? 501) || (code =? 505) then false
  else (500 <=? code) && (code <=? 599).

Definition retryable (kind : Kind) (statusCode : Z) : bool :=
  match kind with
  | KindTimeout | KindConnection => true
  | KindStatus => retryableStatus statusCode
  | _ => false
  end.

(** ** Lemmas *)

Lemma shiftl_one (k : Z) : 0 <= k -> Z.shiftl 1 k = 2 ^ k.
Proof. intros H. rewrite Z.shiftl_mul_pow2 by done. lia. Qed.

Lemma representable_scaled (n k : Z) :
  0 <= n <= 2 ^ 53 -> 0 <= k -> representable (n * 2 ^ k * one_units).
Proof.
  intros Hn Hk. exists n, (k + scale). unfold one_units, scale.
  rewrite Z.pow_add_r by lia. split_and!; [lia|lia|lia..].
Qed.

(** A scaled 53-bit integer below [2^120] converts and multiplies exactly. *)
Lemma round_scaled (n k j : Z) :
  0 <= n <= 2 ^ 53 -> 0 <= k <= 62 -> 0 <= j ->
  round (n * 2 ^ k * one_units * 2 ^ j) j = Fin (n * 2 ^ k * one_units).
Proof.
  intros Hn Hk Hj. unfold round. pose proof one_units_pos as H1.
  assert (Hp : 0 < 2 ^ k) by (apply Z.pow_pos_nonneg; lia).
  assert (Hpj : 0 < 2 ^ j) by (apply Z.pow_pos_nonneg; lia).
  assert (H0 : 0 <= n * 2 ^ k * one_units) by (apply Z.mul_nonneg_nonneg; nia).
  rewrite Z.abs_eq by (apply Z.mul_nonneg_nonneg; lia).
  rewrite round_pos_exact by (try apply representable_scaled; lia).
  assert (Hs : Z.sgn (n * 2 ^ k * one_units * 2 ^ j) * (n * 2 ^ k * one_units) = n * 2 ^ k * one_units).
  { destruct (Z.eq_dec (n * 2 ^ k * one_units) 0) as [->|]; [lia|].
    rewrite Z.sgn_pos; [lia|]. apply Z.mul_pos_pos; lia. }
  rewrite Hs.
  assert (Hle : n * 2 ^ k * one_units <= 2 ^ 53 * 2 ^ 62 * one_units).
  { apply Z.mul_le_mono_nonneg_r; [lia|]. apply Z.mul_le_mono_nonneg; try lia.
    apply Z.pow_le_mono_r; lia. }
  assert (Hm : 2 ^ 53 * 2 ^ 62 * one_units <= max_units) by (vm_compute; discriminate).
  assert (0 <= max_units) by (vm_compute; discriminate).
  destruct (Z.ltb_spec max_units (n * 2 ^ k * one_units)); [lia|].
  destruct (Z.ltb_spec (n * 2 ^ k * one_units) (- max_units)); [lia|done].
Qed.

Lemma of_Z_pow (k : Z) : 0 <= k <= 62 -> of_Z (2 ^ k) = Fin (2 ^ k * one_units).
Proof.
  intros Hk. pose proof (round_scaled 1 k 0 ltac:(lia) Hk ltac:(lia)) as H.
  rewrite Z.mul_1_l, Z.pow_0_r, Z.mul_1_r in H. done.
Qed.

Lemma mul_pow_exact (n k : Z) :
  small n -> 0 <= k <= 62 -> mul (of_Z n) (of_Z (2 ^ k)) = Fin (n * 2 ^ k * one_units).
Proof.
  intros Hn Hk. rewrite of_Z_small, of_Z_pow by done. cbn [mul].
  replace (n * one_units * (2 ^ k * one_units)) with (n * 2 ^ k * one_units * 2 ^ scale).
  - by apply round_scaled.
  - fold one_units. lia.
Qed.

Lemma fin_leb (x y : Z) : leb (Fin (x * one_units)) (Fin (y * one_units)) = (x <=? y).
Proof.
  pose proof one_units_pos. cbn [leb]. apply eq_true_iff_eq. rewrite !Z.leb_le.
  symmetry. apply Z.mul_le_mono_pos_r. done.
Qed.

Lemma fin_ltb (x y : Z) : ltb (Fin (x * one_units)) (Fin (y * one_units)) = (x <? y).
Proof.
  pose proof one_units_pos. cbn [ltb]. apply eq_true_iff_eq. rewrite !Z.ltb_lt.
  symmetry. apply Z.mul_lt_mono_pos_r. done.
Qed.

(** What the delay is, in integers: the floating-point ceiling is exact. *)
Lemma fullJitter_exact (Int64N : Z -> Z) (retry base capDelay : Z) :
  small base -> small capDelay ->
  fullJitter Int64N retry base capDelay =
  let ceiling := Z.min (base * 2 ^ Z.min retry 62) capDelay in
  Some (if (retry <=? 0) || (ceiling <? 1) then 0 else Int64N (ceiling + 1)).
Proof.
  intros Hb Hc. unfold fullJitter. destruct (Z.leb_spec retry 0) as [Hr|Hr]; [done|].
  cbn [orb]. cbv zeta.
  rewrite shiftl_one, mul_pow_exact, (of_Z_small capDelay) by (done || lia).
  set (x := base * 2 ^ Z.min retry 62).
  assert (E : fmin (Fin (x * one_units)) (Fin (capDelay * one_units)) =
              Fin (Z.min x capDelay * one_units)).
  { unfold fmin. rewrite fin_leb. destruct (Z.leb_spec x capDelay);
      [rewrite Z.min_l by done|rewrite Z.min_r by lia]; done. }
  assert (H0 : 0 <= Z.min x capDelay <= 2 ^ 53).
  { destruct Hb, Hc. assert (0 < 2 ^ Z.min retry 62) by (apply Z.pow_pos_nonneg; lia).
    assert (0 <= x) by (subst x; nia). lia. }
  assert (E1 : of_Z 1 = Fin (1 * one_units)) by (apply of_Z_small; unfold small; lia).
  rewrite E, E1, fin_ltb. destruct (Z.ltb_spec (Z.min x capDelay) 1); [done|].
  unfold to_Z. cbn [mbind option_bind]. fold one_units.
  rewrite Z.quot_mul by (pose proof one_units_pos; lia).
  rewrite (Go.wrap64_id (Z.min _ _)) by (unfold Go.in_int64, Go.int64_min, Go.int64_max; lia).
  rewrite (Go.wrap64_id (_ + 1)) by (unfold Go.in_int64, Go.int64_min, Go.int64_max; lia).
  by destruct (Z.leb_spec (Z.min x capDelay + 1) 0); [lia|].
Qed.

Lemma fullJitter_range_aux (Int64N : Z -> Z) (retry base capDelay : Z) :
  (forall n, 0 < n -> 0 <= Int64N n < n) ->
  small base -> small capDelay ->
  exists d, fullJitter Int64N retry base capDelay = Some d /\
    0 <= d <= Z.min capDelay (base * 2 ^ Z.min (Z.max retry 0) 62) /\
    (retry <= 0 \/ base = 0 \/ capDelay = 0 -> d = 0) /\
    (0 < retry -> forall v, 0 <= v <= Z.min capDelay (base * 2 ^ Z.min retry 62) ->
       exists src : Z -> Z, (forall n, 0 < n -> 0 <= src n < n) /\
         fullJitter src retry base capDelay = Some v).
Proof.
  intros Hr Hb Hc. rewrite fullJitter_exact by done. cbv zeta.
  eexists. split; [done|].
  assert (Hp : 0 < 2 ^ Z.min (Z.max retry 0) 62) by (apply Z.pow_pos_nonneg; lia).
  split; [|split].
  - destruct (Z.leb_spec retry 0) as [H|H]; cbn [orb];
      [rewrite Z.max_r by lia; destruct Hb, Hc; cbn; lia|].
    rewrite (Z.max_l retry 0) in * by lia.
    destruct (Z.ltb_spec (Z.min (base * 2 ^ Z.min retry 62) capDelay) 1);
      [destruct Hb, Hc; assert (0 <= base * 2 ^ Z.min retry 62) by nia; lia|].
    pose proof (Hr (Z.min (base * 2 ^ Z.min retry 62) capDelay + 1)). lia.
  - intros H. destruct (Z.leb_spec retry 0); [done|]. cbn [orb].
    destruct (Z.ltb_spec (Z.min (base * 2 ^ Z.min retry 62) capDelay) 1); [done|]. lia.
  - intros Hpos v Hv. exists (fun n => if (0 <=? v) && (v <? n) then v else 0). split.
    + intros n Hn. split_ifs; lia.
    + rewrite fullJitter_exact by done. cbv zeta. f_equal.
      destruct (Z.leb_spec retry 0); [lia|]. cbn [orb].
      destruct (Z.ltb_spec (Z.min (base * 2 ^ Z.min retry 62) capDelay) 1); [lia|].
      split_ifs; [done|]. apply andb_false_iff in Heqb as [Hx|Hx]; zbool; lia.
Qed.

(** For a base and cap below 2^53 ns (104 days) the retry delay never
    panics and never overflows, lies between 0 and min(cap, base * 2^retry)
    inclusive, and is 0 when the retry number, the base or the cap is not
    positive; every delay of that range is one the random source can give. *)
Theorem fullJitter_range (Int64N : Z -> Z) (retry base capDelay : Z) :
  (forall n, 0 < n -> 0 <= Int64N n < n) ->
  small base -> small capDelay ->
  exists d, fullJitter Int64N retry base capDelay = Some d /\
    0 <= d <= Z.min capDelay (base * 2 ^ Z.min (Z.max retry 0) 62) /\
    (retry <= 0 \/ base = 0 \/ capDelay = 0 -> d = 0) /\
    (0 < retry -> forall v, 0 <= v <= Z.min capDelay (base * 2 ^ Z.min retry 62) ->
       exists src : Z -> Z, (forall n, 0 < n -> 0 <= src n < n) /\
         fullJitter src retry base capDelay = Some v).
Proof. apply fullJitter_range_aux. Qed.

Lemma fullJitter_range_witness :
  exists d, fullJitter (fun n => n - 1) 3 (100 * Go.millisecond) (5 * Go.second) = Some d /\
    d = 800 * Go.millisecond /\ 0 <= d <= 5 * Go.second.
Proof.
  destruct (fullJitter_range (fun n => n - 1) 3 (100 * Go.millisecond) (5 * Go.second))
    as (d & H1 & H2 & _ & _).
  - lia.
  - vm_compute. split; discriminate.
  - vm_compute. split; discriminate.
  - exists d. split; [exact H1|]. split.
    + assert (Some d = Some (800 * Go.millisecond)) by (rewrite <- H1; vm_compute; reflexivity).
      congruence.
    + clear H1. cbn in *. lia.
Defined.

Lemma parse_digits_nonneg (p : list Z) (n m : Z) :
  0 <= n -> parse_digits n p = inl m -> 0 <= m.
Proof.
  revert n. induction p as [|c p IH]; intros n Hn; cbn; [congruence|].
  destruct (is_digit c) eqn:Hc; cbn [negb]; [|done].
  unfold is_digit, in_range in Hc. zbool. destruct (_ <? _); [done|]. apply IH. lia.
Qed.

Lemma second_value : Go.second = 1000000000.
Proof. reflexivity. Qed.

Lemma max_value : maxRetryAfter = 86400 * 1000000000.
Proof. reflexivity. Qed.

Lemma max_seconds : maxRetryAfter / Go.second = 86400.
Proof. reflexivity. Qed.

Lemma parseRetryAfter_range_aux (ParseTime : string -> option Z) (v : string) (now : Z) :
  (let '(d, ok) := parseRetryAfter ParseTime v now in
   0 <= d <= maxRetryAfter /\ (ok = false -> d = 0)) /\
  (forall n, 0 <= n <= Go.uint64_max -> bytes (TrimSpace v) = dec n ->
     parseRetryAfter ParseTime v now = (Z.min (n * Go.second) maxRetryAfter, true)).
Proof.
  assert (Hw : forall s, 0 <= s -> s < maxRetryAfter / Go.second ->
    Go.wrap64 (s * Go.second) = s * Go.second /\ s * Go.second < maxRetryAfter).
  { rewrite max_seconds, max_value, second_value. intros s H0 H1.
    split; [apply Go.wrap64_id; unfold Go.in_int64, Go.int64_min, Go.int64_max; lia|lia]. }
  assert (Hm : 0 <= maxRetryAfter) by (vm_compute; discriminate).
  split.
  - unfold parseRetryAfter. destruct (bytes (TrimSpace v)) as [|c l] eqn:E; [cbn; lia|].
    destruct (is_digit c).
    + destruct (ParseUint (c :: l)) as [secs|[]] eqn:Ep; [|by split; [split|]..].
      assert (0 <= secs) by (by apply (parse_digits_nonneg (c :: l) 0)).
      destruct (Z.leb_spec (maxRetryAfter / Go.second) secs); [by split; [split|]|].
      destruct (Hw secs) as [-> ?]; [done..|]. rewrite second_value in *. split; [lia|done].
    + destruct (ParseTime _); [split; [lia|done]|by split; [split|]].
  - intros n Hn E. destruct (parse_dec n Hn) as (H1 & H2 & H3). unfold parseRetryAfter.
    rewrite E. destruct (dec n) as [|c l]; [done|]. inversion_clear H3 as [|? ? Hc _].
    rewrite Hc, H1. destruct (Z.leb_spec (maxRetryAfter / Go.second) n) as [Hl|Hl].
    + rewrite Z.min_r; [done|]. revert Hl. rewrite max_seconds, max_value, second_value. lia.
    + destruct (Hw n ltac:(lia) Hl) as [-> ?]. rewrite Z.min_l by lia. done.
Qed.

(** Whatever the header holds, a parsed Retry-After is between 0 and 24
    hours, so no arithmetic on it overflows; a plain number of seconds, white
    space around it ignored, is that many seconds, cut at 24 hours. *)
Theorem parseRetryAfter_range (ParseTime : string -> option Z) (v : string) (now : Z) :
  (let '(d, ok) := parseRetryAfter ParseTime v now in
   0 <= d <= maxRetryAfter /\ (ok = false -> d = 0)) /\
  (forall n, 0 <= n <= Go.uint64_max -> bytes (TrimSpace v) = dec n ->
     parseRetryAfter ParseTime v now = (Z.min (n * Go.second) maxRetryAfter, true)).
Proof. apply parseRetryAfter_range_aux. Qed.

(** A value that is neither a number of seconds nor a date is accepted as
    24 hours when it starts with a number too large for 64 bits: the range
    error comes before the rest of the value is looked at. *)
Theorem parseRetryAfter_accepts_garbage (ParseTime : string -> option Z) (now : Z) :
  parseRetryAfter ParseTime "99999999999999999999 parsecs" now = (maxRetryAfter, true).
Proof. vm_compute. reflexivity. Qed.

End Backoff.
