(* ===== verification/Bulkhead.v ===== *)
(** The bulkhead of the resilient HTTP client (bulkhead.go): a buffered channel
    used as a semaphore, with a bounded wait. *)
From S2P Require Import Prelude ResilientConfig.

Module Bulkhead.

(** [used] is the number of elements in the channel's buffer. *)
Record bulkhead := { cap : Z; used : Z; wait : Z }.

Definition newBulkhead (cfg : ResilientConfig.TargetConfig) : option bulkhead :=
  if ResilientConfig.MaxConcurrent cfg <=? 0 then None
  else Some {| cap := ResilientConfig.MaxConcurrent cfg; used := 0;
               wait := ResilientConfig.MaxConcurrentWait cfg |}.

Definition set_used (b : bulkhead) (n : Z) : bulkhead :=
  {| cap := cap b; used := n; wait := wait b |}.

(** A non-blocking send on the channel: [None] when the buffer is full. *)
Definition try_send (b : bulkhead) : option bulkhead :=
  if used b <? cap b then Some (set_used b (used b + 1)) else None.

(** A receive: [None] is a goroutine blocked for good on an empty channel. *)
Definition receive (b : bulkhead) : option bulkhead :=
  if 0 <? used b then Some (set_used b (used b - 1)) else None.

(** Which case of the second, blocking [select] is chosen. *)
Inductive woken := SlotFree | TimerFired | CtxDone.

(** [acquire] seen by the goroutine that runs it: [b] is the channel at the
    first [select], [ctxErr] says whether [ctx.Err() != nil] then, [b'] is the
    channel when the second [select] chooses [w]. *)
Definition acquire (b : option bulkhead) (ctxErr : bool) (b' : bulkhead) (w : woken) :
    option bulkhead * bool :=
  match b with
  | None => (None, true)
  | Some b =>
      match try_send b with
      | Some b => (Some b, true)
      | None =>
          if (wait b <=? 0) || ctxErr then (Some b, false)
          else match w with
               | SlotFree =>
                   match try_send b' with Some b' => (Some b', true) | None => (Some b', false) end
               | TimerFired | CtxDone => (Some b', false)
               end
      end
  end.

Definition release (b : option bulkhead) : option (option bulkhead) :=
  match b with
  | None => Some None
  | Some b => b ← receive b; Some (Some b)
  end.

(** ** Any number of goroutines *)

(** A goroutine is outside, waiting in the second [select], or holds a slot. *)
Inductive pc := Outside | Waiting | Inside.

Record sys := { chan : bulkhead; procs : list pc }.

Inductive step : sys -> sys -> Prop :=
| FastPath (y : sys) (i : nat) (b : bulkhead) :
    procs y !! i = Some Outside -> try_send (chan y) = Some b ->
    step y {| chan := b; procs := <[i := Inside]> (procs y) |}
| Refused (y : sys) (i : nat) (ctxErr : bool) :
    procs y !! i = Some Outside -> try_send (chan y) = None ->
    (wait (chan y) <=? 0) || ctxErr = true -> step y y
| StartWait (y : sys) (i : nat) :
    procs y !! i = Some Outside -> try_send (chan y) = None -> 0 < wait (chan y) ->
    step y {| chan := chan y; procs := <[i := Waiting]> (procs y) |}
| GotSlot (y : sys) (i : nat) (b : bulkhead) :
    procs y !! i = Some Waiting -> try_send (chan y) = Some b ->
    step y {| chan := b; procs := <[i := Inside]> (procs y) |}
| GaveUp (y : sys) (i : nat) :
    procs y !! i = Some Waiting ->
    step y {| chan := chan y; procs := <[i := Outside]> (procs y) |}
| Release (y : sys) (i : nat) (b : bulkhead) :
    procs y !! i = Some Inside -> receive (chan y) = Some b ->
    step y {| chan := b; procs := <[i := Outside]> (procs y) |}.

Inductive reach (b : bulkhead) (n : nat) : sys -> Prop :=
| Reach0 : reach b n {| chan := b; procs := replicate n Outside |}
| ReachS (y z : sys) : reach b n y -> step y z -> reach b n z.

Definition inside (c : pc) : Z := match c with Inside => 1 | _ => 0 end.

Record inv (b0 : bulkhead) (y : sys) : Prop := {
  inv_cap : cap (chan y) = cap b0;
  inv_used : used (chan y) = zsum inside (procs y);
  inv_le : used (chan y) <= cap b0
}.

Lemma try_send_some (b b' : bulkhead) :
  try_send b = Some b' -> used b < cap b /\ b' = set_used b (used b + 1).
Proof. unfold try_send. split_ifs; [|done]. intros [= <-]. done. Qed.

Lemma receive_some (b b' : bulkhead) :
  receive b = Some b' -> 0 < used b /\ b' = set_used b (used b - 1).
Proof. unfold receive. split_ifs; [|done]. intros [= <-]. done. Qed.

Lemma bulkhead_step_inv (b0 : bulkhead) (y z : sys) : inv b0 y -> step y z -> inv b0 z.
Proof.
  intros [H1 H2 H3] Hs. destruct Hs as [y i b Hi Hb|y i e Hi Hb _|y i Hi Hb _|y i b Hi Hb|y i Hi|y i b Hi Hb];
    try apply try_send_some in Hb as [? ->]; try apply receive_some in Hb as [? ->];
    try done; split; cbn [chan procs cap used set_used] in *;
    rewrite ?(zsum_insert _ _ _ _ _ Hi); cbn [inside]; try done; try lia.
Qed.

Lemma bulkhead_reach_inv (cfg : ResilientConfig.TargetConfig) (b : bulkhead) (n : nat) (y : sys) :
  newBulkhead cfg = Some b -> reach b n y -> inv b y.
Proof.
  intros Hb Hr. unfold newBulkhead in Hb. split_ifs. induction Hr as [|y z _ IH Hs].
  - split; cbn [cap used chan procs]; [done| |lia]. induction n as [|n IH]; [done|].
    cbn [replicate]. rewrite zsum_cons, <- IH. done.
  - by apply (bulkhead_step_inv _ y).
Qed.

(** However acquires, waits, time-outs and releases interleave, the
    requests holding a slot are exactly the elements of the channel and never
    exceed max_concurrent; a request that holds a slot can always give it back
    without blocking, and a request is turned away on arrival only when all the
    slots are taken. *)
Theorem bulkhead_capacity (cfg : ResilientConfig.TargetConfig) (b : bulkhead) (n : nat) (y : sys) :
  newBulkhead cfg = Some b -> reach b n y ->
  zsum inside (procs y) = used (chan y) /\
  zsum inside (procs y) <= ResilientConfig.MaxConcurrent cfg /\
  (forall i, procs y !! i = Some Inside -> exists b', release (Some (chan y)) = Some (Some b')) /\
  (try_send (chan y) = None -> zsum inside (procs y) = ResilientConfig.MaxConcurrent cfg).
Proof.
  intros Hb Hr. pose proof (bulkhead_reach_inv cfg b n y Hb Hr) as [H1 H2 H3].
  assert (Hcap : cap b = ResilientConfig.MaxConcurrent cfg).
  { unfold newBulkhead in Hb. by split_ifs. }
  split_and!; [done|lia| |].
  - intros i Hi. unfold release, receive.
    pose proof (zsum_elem_le inside (procs y) Inside) as Hle. cbn in Hle.
    destruct (Z.ltb_spec 0 (used (chan y))) as [|Hz]; [by eexists|].
    assert (1 <= zsum inside (procs y)); [|lia]. apply Hle; [by intros []|].
    by eapply list_elem_of_lookup_2.
  - unfold try_send. split_ifs; [done|]. intros _. lia.
Qed.

Definition demo_cfg : ResilientConfig.TargetConfig := {|
  ResilientConfig.Name := "billing"; ResilientConfig.Timeout := 0;
  ResilientConfig.RateLimit := Float64.F64.Fin 0; ResilientConfig.RateBurst := 0;
  ResilientConfig.MaxConcurrent := 1; ResilientConfig.MaxConcurrentWait := 5;
  ResilientConfig.BreakerFailureRatio := Float64.F64.Fin 0;
  ResilientConfig.BreakerMinRequests := 0; ResilientConfig.BreakerWindow := 0;
  ResilientConfig.BreakerOpenTimeout := 0; ResilientConfig.BreakerHalfOpenProbes := 0;
  ResilientConfig.RetryMaxAttempts := 1; ResilientConfig.RetryBaseDelay := 0;
  ResilientConfig.RetryMaxDelay := 0; ResilientConfig.RetryBudgetRatio := Float64.F64.Fin 0;
  ResilientConfig.RetryBudgetMinRetries := 0; ResilientConfig.RetryBudgetWindow := 0 |}.

(** Two goroutines, one slot: the second waits. *)
Lemma bulkhead_capacity_witness :
  zsum inside [Inside; Waiting] <= 1 /\ zsum inside [Inside; Waiting] = 1.
Proof.
  assert (Hr : reach {| cap := 1; used := 0; wait := 5 |} 2
    {| chan := {| cap := 1; used := 1; wait := 5 |}; procs := [Inside; Waiting] |}).
  { eapply ReachS; [eapply ReachS; [apply Reach0|]|].
    - apply (FastPath _ 0 {| cap := 1; used := 1; wait := 5 |}); reflexivity.
    - apply (StartWait {| chan := {| cap := 1; used := 1; wait := 5 |};
                         procs := [Inside; Outside] |} 1); reflexivity. }
  destruct (bulkhead_capacity demo_cfg {| cap := 1; used := 0; wait := 5 |} 2 _ eq_refl Hr)
    as (H1 & H2 & _ & H4).
  split; [exact H2|]. apply H4. reflexivity.
Defined.

End Bulkhead.
