(* ===== verification/Client.v ===== *)
(** Sending a request under a target's policy (client.go, errors.go,
    transport.go, metrics.go of the resilient HTTP client).

    [attempt] and [send] are functions of the answers their environment gives:
    the breaker's [allow], the limiter, the bulkhead, the transport, the
    context and the clock, all of which other goroutines share.  They emit, in
    order, the calls they make.  The order of the calls is the protocol the
    shared components rely on (see the modules Breaker.Conc and Bulkhead). *)
From S2P Require Import Prelude Float64 GoError GoStr ResilientConfig Breaker Backoff.

Module Client.
Import Backoff Breaker.

(** ** Requests, responses, errors *)

Inductive body := NilBody | NoBody | StreamBody.

#[export] Instance body_eq_dec : EqDecision body.
Proof. solve_decision. Defined.

Record url := { Scheme : string; Host : string; Path : string }.

Record request := {
  Method : string;
  URL : option url;
  IdempotencyKey : string;      (* header Idempotency-Key *)
  UserAgent : string;           (* header User-Agent *)
  Body : body;
  GetBody : bool                (* GetBody != nil *)
}.

Record response := {
  StatusCode : Z;
  RetryAfterHeader : string;
  RespBody : string
}.

(** What the code asks of a transport error. *)
Inductive ttag := TRedirect | TDeadline | TNet (timeout : bool) | TOther (msg : string).
Definition terror := Errors.error ttag.

Definition isRedirectError (e : terror) : bool :=
  Errors.matches (fun t => match t with TRedirect => true | _ => false end) e.
Definition isDeadline (e : terror) : bool :=
  Errors.matches (fun t => match t with TDeadline => true | _ => false end) e.
(** [errors.As(err, &ne) && ne.Timeout()]: the first [net.Error] of the tree;
    the context's deadline error is one, and it is a timeout. *)
Definition netTimeout (e : terror) : bool :=
  match Errors.find (fun t => match t with TNet _ | TDeadline => true | _ => false end) e with
  | Some (TNet b) => b
  | Some TDeadline => true
  | _ => false
  end.

(** The cause of an [OutboundError]. *)
Inductive cause :=
| NoCause | UnknownTarget | BadURL | CtxErr (msg : string) | LimiterErr (msg : string)
| ReplayErr (msg : string) | TransportErr (e : terror).

Record OutboundError := {
  oe_Kind : Kind;
  oe_Target : string;
  oe_StatusCode : Z;
  oe_RetryAfter : Z;
  oe_Body : string;
  oe_Err : cause
}.

Definition mkError (k : Kind) (target : string) (c : cause) : OutboundError :=
  {| oe_Kind := k; oe_Target := target; oe_StatusCode := 0; oe_RetryAfter := 0;
     oe_Body := ""; oe_Err := c |}.

Definition oe_retryable (e : OutboundError) : bool := retryable (oe_Kind e) (oe_StatusCode e).

(** ** Metric labels *)

Definition methodLabel (m : string) : string :=
  if String.eqb m "" then "GET"
  else if existsb (String.eqb m)
    ["GET"; "HEAD"; "POST"; "PUT"; "PATCH"; "DELETE"; "OPTIONS"; "CONNECT"; "TRACE"] then m
  else "_OTHER".

Definition statusOutcome (code : Z) : string :=
  if 500 <=? code then "5xx" else if 400 <=? code then "4xx"
  else if 300 <=? code then "3xx" else "2xx".

(** ** classify *)

(** [parentErr] is [parent.Err() != nil]; [attemptDeadline] is
    [errors.Is(attempt.Err(), context.DeadlineExceeded)]. *)
Definition classify (parentErr attemptDeadline : bool) (err : terror) : Kind * outcome :=
  if isRedirectError err then (KindRedirect, outcomeSuccess)
  else if parentErr then (KindCanceled, outcomeIgnored)
  else if attemptDeadline || isDeadline err || netTimeout err then (KindTimeout, outcomeFailure)
  else (KindConnection, outcomeFailure).

(** ** Calls *)

Inductive event :=
| Count (method outcome : string)
| BudgetRequest
| TryRetry (granted : bool)
| BudgetExhausted
| Allow (t : ticket) (ok : bool)
| Record_ (t : ticket) (o : outcome)
| Acquire
| Release
| BulkheadReject
| Cancel                        (* the attempt context's cancel func *)
| Do (n : Z) (r : request)
| CloseErrorBody
| Sleep (d : Z)
| Retried
| Enter (ok : bool)
| Leave.

(** The environment's answers to one attempt. *)
Record att_in := {
  in_allow : ticket * bool;
  in_limiter : option string;        (* error of limiter.Wait *)
  in_ctx_limiter : option string;    (* ctx.Err() after it *)
  in_acquired : bool;
  in_ctx_bulkhead : option string;
  in_getBody : option string;
  in_do : response + terror;
  in_parentErr : bool;
  in_attemptDeadline : bool;
  in_now : Z                         (* the clock when Retry-After is read *)
}.

(** The parts of a target's policy [attempt] branches on. *)
Record policy := {
  p_name : string;
  p_cfg : ResilientConfig.TargetConfig;
  p_limiter : bool;                  (* limiter != nil *)
  p_bulkhead : bool                  (* bulkhead != nil *)
}.

Definition newPolicy (tc : ResilientConfig.TargetConfig) : policy := {|
  p_name := ResilientConfig.Name tc;
  p_cfg := tc;
  p_limiter := F64.ltb (F64.Fin 0) (ResilientConfig.RateLimit tc);
  p_bulkhead := negb (ResilientConfig.MaxConcurrent tc <=? 0)
|}.

Definition errBodyKeep : nat := 4 * 1024.

(** [io.LimitReader] of a body. *)
Definition limit_body (n : nat) (s : string) : string := String.substring 0 n s.

(** The outcome of [attempt]: a response whose release func the caller must
    run, or an error with everything released. *)
Definition att_res : Type := response + OutboundError.

Section Attempt.
Context (ParseTime : string -> option Z) (userAgent : string).

Definition fail (p : policy) (method : string) (k : Kind) (c : cause) : list event * att_res :=
  ([Cancel; Count method (kind_String k)], inr (mkError k (p_name p) c)).

(** The release func: the bulkhead slot, then the attempt's timeout. *)
Definition release_events (p : policy) : list event :=
  (if p_bulkhead p then [Release] else []) ++ [Cancel].

(** The request as it goes out on attempt [n]. *)
Definition outgoing (req : request) : request :=
  {| Method := Method req; URL := URL req; IdempotencyKey := IdempotencyKey req;
     UserAgent := if negb (String.eqb userAgent "") && String.eqb (UserAgent req) ""
                  then userAgent else UserAgent req;
     Body := Body req; GetBody := GetBody req |}.

(** After the response or the transport error. *)
Definition finish (p : policy) (method : string) (tk : ticket) (i : att_in) : list event * att_res :=
  match in_do i with
  | inr err =>
      let '(kind, o) := classify (in_parentErr i) (in_attemptDeadline i) err in
      (release_events p ++ [Record_ tk o; Count method (kind_String kind)],
       inr (mkError kind (p_name p) (TransportErr err)))
  | inl resp =>
      let code := StatusCode resp in
      let o := if 500 <=? code then outcomeFailure else outcomeSuccess in
      let evs := [Record_ tk o; Count method (statusOutcome code)] in
      if code <? 400 then (evs, inl resp)
      else
        let '(d, ok) := parseRetryAfter ParseTime (RetryAfterHeader resp) (in_now i) in
        (evs ++ [CloseErrorBody] ++ release_events p,
         inr {| oe_Kind := KindStatus; oe_Target := p_name p; oe_StatusCode := code;
                oe_RetryAfter := if ok then d else 0;
                oe_Body := limit_body errBodyKeep (RespBody resp); oe_Err := NoCause |})
  end.

(** Once the bulkhead admitted the attempt. *)
Definition admitted (p : policy) (req : request) (n : Z) (method : string) (tk : ticket) (i : att_in) :
    list event * att_res :=
  let acquired := if p_bulkhead p then [Acquire] else [] in
  let go := let '(evs, r) := finish p method tk i in (acquired ++ Do n (outgoing req) :: evs, r) in
  if (1 <? n) && GetBody req then
    match in_getBody i with
    | Some err =>
        (acquired ++ release_events p ++ [Record_ tk outcomeIgnored; Count method (kind_String KindInvalid)],
         inr (mkError KindInvalid (p_name p) (ReplayErr err)))
    | None => go
    end
  else go.

Definition attempt (p : policy) (req : request) (n : Z) (method : string) (i : att_in) :
    list event * att_res :=
  let '(tk, ok) := in_allow i in
  if negb ok then
    let '(evs, r) := fail p method KindCircuitOpen NoCause in (Allow tk false :: evs, r)
  else
    let '(evs, r) :=
      match (if p_limiter p then in_limiter i else None) with
      | Some err =>
          let '(evs, r) := match in_ctx_limiter i with
            | Some e => fail p method KindCanceled (CtxErr e)
            | None => fail p method KindRateLimited (LimiterErr err)
            end in
          (Record_ tk outcomeIgnored :: evs, r)
      | None =>
          if p_bulkhead p && negb (in_acquired i) then
            match in_ctx_bulkhead i with
            | Some e => let '(evs, r) := fail p method KindCanceled (CtxErr e) in
                        (Record_ tk outcomeIgnored :: evs, r)
            | None => let '(evs, r) := fail p method KindBulkheadFull NoCause in
                      (Record_ tk outcomeIgnored :: BulkheadReject :: evs, r)
            end
          else admitted p req n method tk i
      end in
    (Allow tk true :: evs, r).

End Attempt.

(** ** send *)

(** The environment's answers to one [send]; functions of the attempt number. *)
Record send_in := {
  in_enter : bool;
  in_ctxErr : Z -> option string;      (* ctx.Err() before attempt n *)
  in_att : Z -> att_in;
  in_rand : Z -> Z -> Z;               (* rand.Int64N after attempt n *)
  in_until : Z -> option Z;            (* time.Until(deadline), if there is one *)
  in_tryRetry : Z -> bool;
  in_slept : Z -> bool;                (* sleep's answer *)
  in_sleepErr : Z -> string            (* ctx.Err() when it was cut short *)
}.

Inductive send_res :=
| Sent (resp : response)               (* its body holds the slot and the in-flight count *)
| Failed (e : OutboundError)
| Panicked                             (* the jitter's random source was given a bad bound *)
| OutOfFuel.

Section Send.
Context (ParseTime : string -> option Z) (userAgent : string).

Definition bad_url (u : option url) : bool :=
  match u with
  | None => true
  | Some u => negb (String.eqb (Scheme u) "http") && negb (String.eqb (Scheme u) "https")
              || String.eqb (Host u) ""
  end.

(** How many attempts the request may take. *)
Definition attempts_of (p : policy) (req : request) (retry : bool) : Z :=
  if retry && (1 <? ResilientConfig.RetryMaxAttempts (p_cfg p))
     && idempotent (Method req) (IdempotencyKey req)
     && (bool_decide (Body req = NilBody) || bool_decide (Body req = NoBody) || GetBody req)
  then ResilientConfig.RetryMaxAttempts (p_cfg p) else 1.

(** The loop, at attempt [n]. *)
Fixpoint send_loop (fuel : nat) (p : policy) (target : string) (req : request) (method : string)
    (attempts : Z) (i : send_in) (n : Z) : list event * send_res :=
  match fuel with
  | O => ([], OutOfFuel)
  | S fuel =>
      match in_ctxErr i n with
      | Some err =>
          ([Count method (kind_String KindCanceled)],
           Failed (mkError KindCanceled target (CtxErr err)))
      | None =>
          let '(evs, r) := attempt ParseTime userAgent p req n method (in_att i n) in
          match r with
          | inl resp => (evs, Sent resp)
          | inr oe =>
              if (attempts <=? n) || negb (oe_retryable oe) then (evs, Failed oe)
              else
                match fullJitter (in_rand i n) n (ResilientConfig.RetryBaseDelay (p_cfg p))
                        (ResilientConfig.RetryMaxDelay (p_cfg p)) with
                | None => (evs, Panicked)
                | Some j =>
                    let delay := Z.max j (oe_RetryAfter oe) in
                    if ResilientConfig.RetryMaxDelay (p_cfg p) <? oe_RetryAfter oe
                    then (evs, Failed oe)
                    else if match in_until i n with Some u => u <=? delay | None => false end
                    then (evs, Failed oe)
                    else if negb (in_tryRetry i n)
                    then (evs ++ [TryRetry false; BudgetExhausted], Failed oe)
                    else if negb (in_slept i n)
                    then (evs ++ [TryRetry true; Sleep delay; Count method (kind_String KindCanceled)],
                          Failed (mkError KindCanceled target (CtxErr (in_sleepErr i n))))
                    else
                      let '(evs', r) := send_loop fuel p target req method attempts i (n + 1) in
                      (evs ++ [TryRetry true; Sleep delay; Retried] ++ evs', r)
                end
          end
      end
  end.

(** [send]: [fuel] iterations are enough when they are as many as the attempts
    allowed (theorem send_attempts_bounded). *)
Definition send (targets : gmap string policy) (target : string) (req : request) (retry : bool)
    (i : send_in) : list event * send_res :=
  match targets !! target with
  | None => ([], Failed (mkError KindInvalid target UnknownTarget))
  | Some p =>
      let method := methodLabel (Method req) in
      if bad_url (URL req) then
        ([Count method (kind_String KindInvalid)], Failed (mkError KindInvalid target BadURL))
      else if negb (in_enter i) then
        ([Enter false; Count method (kind_String KindShutdown)],
         Failed (mkError KindShutdown target NoCause))
      else
        let attempts := attempts_of p req retry in
        let '(evs, r) := send_loop (Z.to_nat attempts) p target req method attempts i 1 in
        let last := match r with Sent _ => [] | _ => [Leave] end in
        (Enter true :: BudgetRequest :: evs ++ last, r)
  end.

End Send.

(** [releaseBody]: the first [Close] runs the release func and leaves. *)
Record releaseBody := { rb_done : bool }.

Definition Close (p : policy) (b : releaseBody) : list event * releaseBody :=
  if rb_done b then ([], b) else (release_events p ++ [Leave], {| rb_done := true |}).

(** ** The protocol of the calls *)

(** What a request holds: a place in the in-flight count, a breaker ticket not
    yet recorded, a bulkhead slot, the attempt's context. *)
Record holds := { h_in : bool; h_ticket : option ticket; h_slot : bool; h_ctx : bool }.

Definition holds_nothing : holds := {| h_in := false; h_ticket := None; h_slot := false; h_ctx := false |}.
Definition in_flight (slot ctx : bool) : holds :=
  {| h_in := true; h_ticket := None; h_slot := slot; h_ctx := ctx |}.

Definition ticket_eqb (t u : ticket) : bool :=
  (t_gen t =? t_gen u) && Bool.eqb (t_probe t) (t_probe u).

Lemma ticket_eqb_refl (t : ticket) : ticket_eqb t t = true.
Proof. unfold ticket_eqb. rewrite Z.eqb_refl. by destruct (t_probe t). Qed.

(** One call: [None] is a call out of order.  [bulk] says whether the target
    has a bulkhead. *)
Definition proto (bulk : bool) (h : holds) (e : event) : option holds :=
  match e, h with
  | Enter true, {| h_in := false; h_ticket := None; h_slot := false; h_ctx := false |} =>
      Some (in_flight false false)
  | Enter false, {| h_in := false; h_ticket := None; h_slot := false; h_ctx := false |} => Some h
  | Allow t ok, {| h_in := true; h_ticket := None; h_slot := false; h_ctx := false |} =>
      Some {| h_in := true; h_ticket := if ok then Some t else None; h_slot := false; h_ctx := true |}
  | Acquire, {| h_in := true; h_ticket := Some t; h_slot := false; h_ctx := true |} =>
      Some {| h_in := true; h_ticket := Some t; h_slot := true; h_ctx := true |}
  | Do _ _, {| h_in := true; h_ticket := Some t; h_slot := sl; h_ctx := true |} =>
      if Bool.eqb sl bulk then Some h else None
  | Record_ t _, {| h_in := true; h_ticket := Some t'; h_slot := sl; h_ctx := c |} =>
      if ticket_eqb t t' then Some (in_flight sl c) else None
  | Release, {| h_in := true; h_ticket := tk; h_slot := true; h_ctx := c |} =>
      Some {| h_in := true; h_ticket := tk; h_slot := false; h_ctx := c |}
  | Cancel, {| h_in := true; h_ticket := tk; h_slot := sl; h_ctx := true |} =>
      Some {| h_in := true; h_ticket := tk; h_slot := sl; h_ctx := false |}
  | (Sleep _ | TryRetry _ | Retried), {| h_in := true; h_ticket := None; h_slot := false; h_ctx := false |} =>
      Some h
  | Leave, {| h_in := true; h_ticket := None; h_slot := false; h_ctx := false |} => Some holds_nothing
  | (Count _ _ | BudgetRequest | BudgetExhausted | BulkheadReject | CloseErrorBody), _ => Some h
  | _, _ => None
  end.

Fixpoint follows (bulk : bool) (h : holds) (l : list event) : option holds :=
  match l with
  | [] => Some h
  | e :: l => h ← proto bulk h e; follows bulk h l
  end.

Lemma follows_app (bulk : bool) (h : holds) (l k : list event) :
  follows bulk h (l ++ k) = h' ← follows bulk h l; follows bulk h' k.
Proof.
  revert h. induction l as [|e l IH]; intros h; cbn; [done|]. destruct (proto bulk h e); cbn; [apply IH|done].
Qed.

(** ** Counting *)

Definition count_ev (f : event -> bool) (l : list event) : Z :=
  zsum (fun e => if f e then 1 else 0) l.
Definition is_do (e : event) : bool := match e with Do _ _ => true | _ => false end.
Definition is_granted (e : event) : bool := match e with TryRetry true => true | _ => false end.

Lemma count_app (f : event -> bool) (l k : list event) :
  count_ev f (l ++ k) = count_ev f l + count_ev f k.
Proof. apply zsum_app. Qed.

Lemma count_cons (f : event -> bool) (e : event) (l : list event) :
  count_ev f (e :: l) = (if f e then 1 else 0) + count_ev f l.
Proof. apply zsum_cons. Qed.

Lemma count_nil (f : event -> bool) : count_ev f [] = 0.
Proof. done. Qed.

Lemma count_nonneg (f : event -> bool) (l : list event) : 0 <= count_ev f l.
Proof. apply zsum_nonneg. intros e _. destruct (f e); lia. Qed.

Section Theorems.
Context (ParseTime : string -> option Z) (userAgent : string).

(** *** One attempt *)

Lemma attempt_follows (p : policy) (req : request) (n : Z) (method : string) (i : att_in) :
  let '(evs, r) := attempt ParseTime userAgent p req n method i in
  follows (p_bulkhead p) (in_flight false false) evs =
    Some (match r with inl _ => in_flight (p_bulkhead p) true | inr _ => in_flight false false end).
Proof.
  unfold attempt, admitted, finish, fail, release_events.
  destruct (in_allow i) as [tk []]; cbn [negb]; [|done].
  repeat case_match; simplify_eq; cbn; rewrite ?ticket_eqb_refl; cbn; try done;
    try (by destruct (p_bulkhead p)).
Qed.

Lemma attempt_counts (p : policy) (req : request) (n : Z) (method : string) (i : att_in) :
  let '(evs, r) := attempt ParseTime userAgent p req n method i in
  count_ev is_do evs <= 1 /\ count_ev is_granted evs = 0 /\
  (forall d, Sleep d ∉ evs) /\
  match r with
  | inl resp => count_ev is_do evs = 1 /\ in_do i = inl resp /\ StatusCode resp < 400
  | inr oe => 0 <= oe_RetryAfter oe
  end.
Proof.
  pose proof (fun v => proj1 (parseRetryAfter_range_aux ParseTime v (in_now i))) as Hra.
  unfold attempt, admitted, finish, fail, release_events.
  destruct (in_allow i) as [tk []]; cbn [negb].
  2:{ cbn. split_and!; try lia. intros d. set_solver. }
  repeat case_match; simplify_eq; rewrite ?count_app, ?count_cons; cbn;
    (split; [lia|split; [lia|split; [intros d; set_solver|]]]); zbool; try lia; try done.
  all: match goal with H : parseRetryAfter _ ?v _ = _ |- _ =>
    specialize (Hra v); rewrite H in Hra; lia end.
Qed.

(** *** The loop *)

Definition ended (bulk : bool) (r : send_res) : holds :=
  match r with Sent _ => in_flight bulk true | _ => in_flight false false end.

Lemma loop_follows (fuel : nat) (p : policy) (target : string) (req : request) (method : string)
    (attempts : Z) (i : send_in) (n : Z) :
  let '(evs, r) := send_loop ParseTime userAgent fuel p target req method attempts i n in
  follows (p_bulkhead p) (in_flight false false) evs = Some (ended (p_bulkhead p) r).
Proof.
  revert n. induction fuel as [|fuel IH]; intros n; [done|]. cbn [send_loop].
  destruct (in_ctxErr i n); [done|].
  pose proof (attempt_follows p req n method (in_att i n)) as Ha.
  destruct (attempt _ _ p req n method (in_att i n)) as [evs [resp|oe]]; [done|].
  destruct (_ || _); [done|]. destruct (fullJitter _ _ _ _) as [j|]; [|done].
  destruct (_ <? _); [done|].
  destruct (match in_until i n with Some _ => _ | None => _ end); [done|].
  destruct (in_tryRetry i n); cbn [negb]; [|by rewrite follows_app, Ha].
  destruct (in_slept i n); cbn [negb]; [|by rewrite follows_app, Ha].
  specialize (IH (n + 1)). destruct (send_loop _ _ fuel p target req method attempts i (n + 1)) as [evs' r].
  rewrite follows_app, Ha. exact IH.
Qed.

Record loop_ok (p : policy) (attempts n : Z) (evs : list event) (r : send_res) : Prop := {
  lo_fuel : r <> OutOfFuel;
  lo_do : count_ev is_do evs <= attempts - n + 1;
  lo_granted : count_ev is_do evs <= count_ev is_granted evs + 1;
  lo_sent : forall resp, r = Sent resp -> StatusCode resp < 400 /\ 1 <= count_ev is_do evs
}.

Lemma loop_bounds (fuel : nat) (p : policy) (target : string) (req : request) (method : string)
    (attempts : Z) (i : send_in) (n : Z) :
  n <= attempts -> attempts - n < Z.of_nat fuel ->
  let '(evs, r) := send_loop ParseTime userAgent fuel p target req method attempts i n in
  loop_ok p attempts n evs r.
Proof.
  revert n. induction fuel as [|fuel IH]; intros n Hn Hf; [lia|]. cbn [send_loop].
  destruct (in_ctxErr i n); [by split; cbn; lia || done|].
  pose proof (attempt_counts p req n method (in_att i n)) as Ha.
  destruct (attempt _ _ p req n method (in_att i n)) as [evs [resp|oe]];
    destruct Ha as (Hdo & Hg & _ & Hr).
  { destruct Hr as (H1 & _ & H3). split; [done|lia|lia|]. intros ? [= <-]. lia. }
  assert (Hstop : forall k r, count_ev is_do k = 0 -> 0 <= count_ev is_granted k -> r <> OutOfFuel ->
    (forall x, r <> Sent x) -> loop_ok p attempts n (evs ++ k) r).
  { intros k r Hk Hk' H1 H2. split; rewrite ?count_app; [done|lia|lia|].
    intros resp Hr'. by destruct (H2 resp). }
  assert (Hstop0 : forall r, r <> OutOfFuel -> (forall x, r <> Sent x) -> loop_ok p attempts n evs r).
  { intros r H1 H2. rewrite <- (app_nil_r evs). by apply Hstop. }
  destruct (Z.leb_spec attempts n); cbn [orb]; [by apply Hstop0|].
  destruct (negb (oe_retryable oe)); [by apply Hstop0|].
  destruct (fullJitter _ _ _ _) as [j|]; [|by apply Hstop0].
  destruct (_ <? _); [by apply Hstop0|].
  destruct (match in_until i n with Some _ => _ | None => _ end); [by apply Hstop0|].
  destruct (in_tryRetry i n); cbn [negb]; [|by apply Hstop].
  destruct (in_slept i n); cbn [negb]; [|by apply Hstop].
  specialize (IH (n + 1) ltac:(lia) ltac:(lia)).
  destruct (send_loop _ _ fuel p target req method attempts i (n + 1)) as [evs' r].
  destruct IH as [I1 I2 I3 I4]. split; rewrite ?count_app, ?count_cons, ?count_nil; cbn -[count_ev]; [done|lia|lia|].
  intros resp Hs. specialize (I4 resp Hs). pose proof (count_nonneg is_do evs). lia.
Qed.

Lemma loop_sleeps (fuel : nat) (p : policy) (target : string) (req : request) (method : string)
    (attempts : Z) (i : send_in) (n d : Z) :
  (forall k m, 0 < m -> 0 <= in_rand i k m < m) ->
  F64.small (ResilientConfig.RetryBaseDelay (p_cfg p)) ->
  F64.small (ResilientConfig.RetryMaxDelay (p_cfg p)) ->
  let '(evs, r) := send_loop ParseTime userAgent fuel p target req method attempts i n in
  r <> Panicked /\ (Sleep d ∈ evs -> 0 <= d <= ResilientConfig.RetryMaxDelay (p_cfg p)).
Proof.
  intros Hrand Hb Hm. revert n. induction fuel as [|fuel IH]; intros n; [split; [done|set_solver]|].
  cbn [send_loop]. destruct (in_ctxErr i n); [split; [done|set_solver]|].
  pose proof (attempt_counts p req n method (in_att i n)) as Ha.
  destruct (attempt _ _ p req n method (in_att i n)) as [evs [resp|oe]];
    destruct Ha as (_ & _ & Hns & Hr); specialize (Hns d); [done|].
  destruct (_ || _); [done|].
  destruct (fullJitter_range_aux (in_rand i n) n (ResilientConfig.RetryBaseDelay (p_cfg p))
    (ResilientConfig.RetryMaxDelay (p_cfg p)) (Hrand n) Hb Hm) as (j & -> & Hj & _).
  destruct (Z.ltb_spec (ResilientConfig.RetryMaxDelay (p_cfg p)) (oe_RetryAfter oe)) as [|Hra]; [done|].
  destruct (match in_until i n with Some _ => _ | None => _ end); [done|].
  destruct (in_tryRetry i n); cbn [negb]; [|split; [done|set_solver]].
  assert (Hd : 0 <= Z.max j (oe_RetryAfter oe) <= ResilientConfig.RetryMaxDelay (p_cfg p)) by lia.
  destruct (in_slept i n); cbn [negb].
  2:{ split; [done|]. rewrite elem_of_app, !elem_of_cons.
      intros [?|[?|[[= ->]|[?|?%not_elem_of_nil]]]]; done. }
  specialize (IH (n + 1)). destruct (send_loop _ _ fuel p target req method attempts i (n + 1)) as [evs' r].
  destruct IH as [I1 I2]. split; [done|]. rewrite !elem_of_app, !elem_of_cons.
  intros [?|[[?|[[= ->]|[?|?%not_elem_of_nil]]]|?]]; try done. by apply I2.
Qed.

End Theorems.

(** *** Properties of send *)

(** C5: the calls [send] makes follow the protocol of the shared components on
    every path: each breaker ticket is recorded exactly once, each bulkhead
    slot released exactly once, each attempt's context cancelled, nothing is
    held while the request waits for a retry, the request leaves the in-flight
    count exactly once.  A failed request holds nothing when it returns; a
    successful one holds its slot, its context and its place in flight until the
    first Close of the body, and a second Close does nothing. *)
Theorem send_protocol (ParseTime : string -> option Z) (userAgent : string)
    (targets : gmap string policy) (target : string) (p : policy) (req : request) (retry : bool)
    (i : send_in) :
  targets !! target = Some p ->
  let '(evs, r) := send ParseTime userAgent targets target req retry i in
  follows (p_bulkhead p) holds_nothing evs =
    Some (match r with Sent _ => in_flight (p_bulkhead p) true | _ => holds_nothing end) /\
  (forall resp, r = Sent resp ->
     let '(evs1, b1) := Close p {| rb_done := false |} in
     let '(evs2, b2) := Close p b1 in
     follows (p_bulkhead p) (in_flight (p_bulkhead p) true) evs1 = Some holds_nothing /\ evs2 = []).
Proof.
  intros Hp. unfold send. rewrite Hp.
  destruct (bad_url (URL req)); [done|]. destruct (in_enter i); cbn [negb]; [|done].
  pose proof (loop_follows ParseTime userAgent (Z.to_nat (attempts_of p req retry)) p target req
    (methodLabel (Method req)) (attempts_of p req retry) i 1) as H.
  destruct (send_loop _ _ _ _ _ _ _ _ _ _) as [evs r]. split.
  - cbn [follows proto holds_nothing mbind option_bind].
    change {| h_in := true; h_ticket := None; h_slot := false; h_ctx := false |}
      with (in_flight false false).
    rewrite follows_app, H. by destruct r.
  - intros resp _. unfold Close, release_events. cbn. by destruct (p_bulkhead p).
Qed.

(** C29: [send] always returns within the allowed attempts; the request goes out
    at most retry_max_attempts times, and at most once when retries were not
    asked for, the request is not idempotent or its body cannot be replayed;
    every transmission after the first was granted by the retry budget; a
    response is returned only with a status below 400. *)
Theorem send_attempts_bounded (ParseTime : string -> option Z) (userAgent : string)
    (targets : gmap string policy) (target : string) (p : policy) (req : request) (retry : bool)
    (i : send_in) :
  targets !! target = Some p ->
  let '(evs, r) := send ParseTime userAgent targets target req retry i in
  r <> OutOfFuel /\
  count_ev is_do evs <= Z.max 1 (ResilientConfig.RetryMaxAttempts (p_cfg p)) /\
  (retry = false \/ idempotent (Method req) (IdempotencyKey req) = false \/
   (Body req = StreamBody /\ GetBody req = false) -> count_ev is_do evs <= 1) /\
  count_ev is_do evs <= count_ev is_granted evs + 1 /\
  (forall resp, r = Sent resp -> StatusCode resp < 400 /\ 1 <= count_ev is_do evs).
Proof.
  intros Hp. unfold send. rewrite Hp.
  destruct (bad_url (URL req)); [cbn; split_and!; (done || lia)|].
  destruct (in_enter i); cbn [negb]; [|cbn; split_and!; (done || lia)].
  assert (Ha : 1 <= attempts_of p req retry <=
    Z.max 1 (ResilientConfig.RetryMaxAttempts (p_cfg p))) by (unfold attempts_of; split_ifs; lia).
  assert (H1 : retry = false \/ idempotent (Method req) (IdempotencyKey req) = false \/
    (Body req = StreamBody /\ GetBody req = false) -> attempts_of p req retry = 1).
  { unfold attempts_of. by intros [->|[->|[-> ->]]]; rewrite ?andb_false_r. }
  pose proof (loop_bounds ParseTime userAgent (Z.to_nat (attempts_of p req retry)) p target req
    (methodLabel (Method req)) (attempts_of p req retry) i 1 ltac:(lia) ltac:(lia)) as H.
  destruct (send_loop _ _ _ _ _ _ _ _ _ _) as [evs r]. destruct H as [L1 L2 L3 L4].
  rewrite !count_cons, !count_app. cbn [is_do is_granted].
  assert (E : forall f, f Leave = false -> count_ev f (match r with Sent _ => [] | _ => [Leave] end) = 0).
  { intros f Hf. destruct r; cbn; rewrite ?Hf; done. }
  rewrite !E by done. split_and!; [done|lia|intros Hx; specialize (H1 Hx); lia|lia|].
  intros resp Hr. specialize (L4 resp Hr). lia.
Qed.

(** With retry delays below 104 days and a random source that keeps its
    contract, [send] never panics and every wait before a retry is between 0
    and retry_max_delay, a Retry-After of the response included. *)
Theorem send_waits_bounded (ParseTime : string -> option Z) (userAgent : string)
    (targets : gmap string policy) (target : string) (p : policy) (req : request) (retry : bool)
    (i : send_in) (d : Z) :
  targets !! target = Some p ->
  (forall k m, 0 < m -> 0 <= in_rand i k m < m) ->
  F64.small (ResilientConfig.RetryBaseDelay (p_cfg p)) ->
  F64.small (ResilientConfig.RetryMaxDelay (p_cfg p)) ->
  let '(evs, r) := send ParseTime userAgent targets target req retry i in
  r <> Panicked /\ (Sleep d ∈ evs -> 0 <= d <= ResilientConfig.RetryMaxDelay (p_cfg p)).
Proof.
  intros Hp Hr Hb Hm. unfold send. rewrite Hp.
  destruct (bad_url (URL req)); [split; [done|set_solver]|].
  destruct (in_enter i); cbn [negb]; [|split; [done|set_solver]].
  pose proof (loop_sleeps ParseTime userAgent (Z.to_nat (attempts_of p req retry)) p target req
    (methodLabel (Method req)) (attempts_of p req retry) i 1 d Hr Hb Hm) as H.
  destruct (send_loop _ _ _ _ _ _ _ _ _ _) as [evs r]. destruct H as [L1 L2]. split; [done|].
  rewrite !elem_of_cons, elem_of_app. intros [?|[?|[?|Hx]]]; [done..|by apply L2|].
  destruct r; set_solver.
Qed.

(** *** A run: a 503, a wait, then a 200 *)

Definition demo_policy : policy := newPolicy (ResilientConfig.DefaultTarget "billing").
Definition demo_targets : gmap string policy := {["billing" := demo_policy]}.
Definition demo_req : request :=
  {| Method := "GET"; URL := Some {| Scheme := "https"; Host := "billing"; Path := "/" |};
     IdempotencyKey := ""; UserAgent := ""; Body := NilBody; GetBody := false |}.
Definition demo_att (code : Z) : att_in := {|
  in_allow := ({| t_gen := 0; t_probe := false |}, true); in_limiter := None;
  in_ctx_limiter := None; in_acquired := true; in_ctx_bulkhead := None; in_getBody := None;
  in_do := inl {| StatusCode := code; RetryAfterHeader := "1"; RespBody := "" |};
  in_parentErr := false; in_attemptDeadline := false; in_now := 0 |}.
Definition demo_in : send_in := {|
  in_enter := true; in_ctxErr := fun _ => None;
  in_att := fun n => if n =? 1 then demo_att 503 else demo_att 200;
  in_rand := fun _ n => n - 1; in_until := fun _ => None; in_tryRetry := fun _ => true;
  in_slept := fun _ => true; in_sleepErr := fun _ => "" |}.

Definition demo_send : list event * send_res :=
  send (fun _ => None) "probe/1" demo_targets "billing" demo_req true demo_in.

Lemma send_protocol_witness :
  follows false holds_nothing (fst demo_send) = Some (in_flight false true).
Proof.
  pose proof (send_protocol (fun _ => None) "probe/1" demo_targets "billing" demo_policy demo_req true
    demo_in ltac:(vm_compute; reflexivity)) as H.
  assert (E : demo_send = send (fun _ => None) "probe/1" demo_targets "billing" demo_req true demo_in)
    by reflexivity.
  assert (Hr : match snd demo_send with Sent _ => true | _ => false end = true)
    by (vm_compute; reflexivity).
  rewrite <- E in H. destruct demo_send as [evs r]. cbn [fst snd] in *.
  assert (Eb : p_bulkhead demo_policy = false) by (vm_compute; reflexivity).
  rewrite Eb in H. destruct H as [H _]. destruct r; [exact H|discriminate Hr..].
Defined.

Lemma send_attempts_bounded_witness : count_ev is_do (fst demo_send) <= 3.
Proof.
  pose proof (send_attempts_bounded (fun _ => None) "probe/1" demo_targets "billing" demo_policy
    demo_req true demo_in ltac:(vm_compute; reflexivity)) as H.
  assert (E : demo_send = send (fun _ => None) "probe/1" demo_targets "billing" demo_req true demo_in)
    by reflexivity.
  rewrite <- E in H. destruct demo_send as [evs r]. destruct H as (_ & H & _). exact H.
Defined.

Lemma send_waits_bounded_witness :
  Sleep (1 * Go.second) ∈ fst demo_send /\ 0 <= 1 * Go.second <= 5 * Go.second.
Proof.
  pose proof (send_waits_bounded (fun _ => None) "probe/1" demo_targets "billing" demo_policy demo_req
    true demo_in (1 * Go.second) ltac:(vm_compute; reflexivity) ltac:(cbn; intros; lia)
    ltac:(vm_compute; split; discriminate) ltac:(vm_compute; split; discriminate)) as H.
  assert (E : demo_send = send (fun _ => None) "probe/1" demo_targets "billing" demo_req true demo_in)
    by reflexivity.
  assert (Hin : Sleep (1 * Go.second) ∈ fst demo_send).
  { apply list_elem_of_In. vm_compute. repeat (first [left; reflexivity|right]). }
  rewrite <- E in H. destruct demo_send as [evs r]. destruct H as [_ H]. split; [exact Hin|].
  exact (H Hin).
Defined.

End Client.
