(* ===== verification/Transport.v ===== *)
(** The transport of the resilient HTTP client (transport.go) and how a client is put
    together (client.go, metrics.go): which redirects are followed, what a log line keeps
    of an address, and what [New] needs. *)
From S2P Require Import Prelude GoStr Registry ResilientConfig Breaker Backoff Client.

Module Transport.
Import Registry Registering Backoff ResilientConfig.

Record URL := { Scheme : string; User : string; Host : string; EscapedPath : string; RawQuery : string; Fragment : string }.

(** [logURL] keeps neither user info nor query nor fragment. *)
Definition logURL (u : URL) : string := (Scheme u ++ "://" ++ Host u ++ EscapedPath u)%string.

Lemma logURL_hides (u v : URL) : Scheme u = Scheme v -> Host u = Host v -> EscapedPath u = EscapedPath v -> logURL u = logURL v.
Proof. unfold logURL. by intros -> -> ->. Qed.

(** ** Redirects *)

Inductive verdict := Follow | UseLastResponse | TooMany | CrossHost (host : string) | Downgrade | ByCaller (err : string).

Section Redirects.
(** [strings.EqualFold], and the caller's own [CheckRedirect]. *)
Context (EqualFold : string -> string -> bool) (next : option (URL -> list URL -> option string)).
Context (maxRedirects : Z) (crossHost : bool).

(** [via]: the requests made so far, oldest first; there is at least the original. *)
Definition redirectPolicy (req : URL) (via : list URL) : verdict :=
  if maxRedirects =? 0 then UseLastResponse
  else if maxRedirects <? Z.of_nat (length via) then TooMany
  else
    let orig := default req (head via) in
    if negb crossHost && negb (EqualFold (Host req) (Host orig)) then CrossHost (Host req)
    else if negb crossHost && String.eqb (Scheme orig) "https" && negb (String.eqb (Scheme req) "https") then Downgrade
    else match next with
         | Some f => match f req via with Some err => ByCaller err | None => Follow end
         | None => Follow
         end.

(** [http.Client] asks before each redirect; [hops] is where the servers point. *)
Fixpoint follow (via hops : list URL) : list URL * verdict :=
  match hops with
  | [] => (via, Follow)
  | u :: hops =>
      match redirectPolicy u via with
      | Follow => follow (via ++ [u]) hops
      | v => (via, v)
      end
  end.

Definition keeps_to (orig u : URL) : Prop :=
  crossHost = true \/ (EqualFold (Host u) (Host orig) = true /\ (Scheme orig = "https" -> Scheme u = "https")).

Lemma policy_follows (req orig : URL) (rest : list URL) :
  redirectPolicy req (orig :: rest) = Follow ->
  maxRedirects <> 0 /\ Z.of_nat (length (orig :: rest)) <= maxRedirects /\ keeps_to orig req.
Proof.
  unfold redirectPolicy, keeps_to. cbn [head default]. destruct (Z.eqb_spec maxRedirects 0); [done|].
  destruct (Z.ltb_spec maxRedirects (Z.of_nat (length (orig :: rest)))); [done|]. intros Hf. split_and!; [done|lia|].
  destruct crossHost; [by left|]. right. cbn [negb andb] in Hf. destruct (EqualFold _ _); [|done]. split; [done|]. cbn [negb] in Hf.
  intros Hs. change (id orig) with orig in Hf. rewrite Hs in Hf. cbn in Hf. by destruct (String.eqb_spec (Scheme req) "https").
Qed.

(** A request visits at most [max_redirects] addresses besides its own, all on its host
    and none over plain HTTP if it started over TLS, unless other hosts are allowed. *)
Lemma redirects_bounded (orig : URL) (hops : list URL) :
  0 <= maxRedirects ->
  exists more, (follow [orig] hops).1 = orig :: more /\ Z.of_nat (length more) <= maxRedirects /\ Forall (keeps_to orig) more.
Proof.
  intros Hmax. cut (forall more, Z.of_nat (length more) <= maxRedirects -> Forall (keeps_to orig) more ->
    exists more', (follow (orig :: more) hops).1 = orig :: more' /\ Z.of_nat (length more') <= maxRedirects /\ Forall (keeps_to orig) more').
  { intros H. by apply (H []). }
  induction hops as [|u hops IH]; intros more Hl Hf; [by exists more|]. cbn [follow].
  destruct (redirectPolicy u (orig :: more)) eqn:E; try by exists more.
  apply policy_follows in E as (_ & Hlen & Hk). apply (IH (more ++ [u])).
  - rewrite length_app. cbn in *. lia.
  - apply Forall_app. split; [done|by constructor].
Qed.
End Redirects.

(** ** The pool *)

Record http_transport := {
  t_MaxIdleConns : Z; t_MaxIdleConnsPerHost : Z; t_MaxConnsPerHost : Z; t_IdleConnTimeout : Z; t_ResponseHeaderTimeout : Z;
  t_HTTP2 : option (Z * Z); t_Proxy : string
}.

(** The default transport with the pool's settings; the ping is left as it is when off. *)
Definition newTransport (base : http_transport) (c : Config) : http_transport :=
  {| t_MaxIdleConns := MaxIdleConns c; t_MaxIdleConnsPerHost := MaxIdleConnsPerHost c; t_MaxConnsPerHost := MaxConnsPerHost c;
     t_IdleConnTimeout := IdleConnTimeout c; t_ResponseHeaderTimeout := ResponseHeaderTimeout c;
     t_HTTP2 := if 0 <? HTTP2PingInterval c then Some (HTTP2PingInterval c, HTTP2PingTimeout c) else t_HTTP2 base;
     t_Proxy := t_Proxy base |}.

(** The name of an attempt's span. *)
Definition span_name (method : string) (target : option string) : string := (method ++ " " ++ default "" target)%string.

(** ** Registration *)

Definition family (name help : string) (labels : list string) : list Desc := [{| d_name := name; d_help := help; d_const := []; d_labels := labels |}].

(** The collectors, in the order they are registered. *)
Definition metric_families : list (list Desc) :=
  [family "http_client_requests_total" "Outbound HTTP attempts by target, method and outcome." ["target"; "method"; "outcome"];
   family "http_client_request_duration_seconds" "Duration of outbound HTTP attempts that reached the network, until response headers." ["target"; "method"];
   family "http_client_retries_total" "Retries sent (attempts after the first)." ["target"];
   family "http_client_retry_budget_exhausted_total" "Retries not sent because the target's retry budget was spent." ["target"];
   family "http_client_circuit_breaker_state" "Circuit breaker state: 0 closed, 1 open, 2 half-open." ["target"];
   family "http_client_circuit_breaker_transitions_total" "Circuit breaker state transitions." ["target"; "from"; "to"];
   family "http_client_bulkhead_in_flight" "Requests holding a bulkhead slot." ["target"];
   family "http_client_bulkhead_rejected_total" "Requests rejected because the bulkhead stayed full." ["target"]].

Section Registration.
Context {R : Type} `{!Registerer R}.

(** [newMetrics]: the registry after it, and why a collector was refused. *)
Definition newMetrics (reg : R) : R * option string := register metric_families reg.

Lemma metric_families_consistent : consistent (concat metric_families) = true.
Proof. vm_compute. reflexivity. Qed.

(** Two clients do not share a registry: the second is refused, and adds nothing. *)
Lemma one_client_per_registry (reg : R) :
  fits (held reg) (concat metric_families) = true ->
  (newMetrics reg).2 = None /\ (newMetrics (newMetrics reg).1).2 <> None /\ (newMetrics (newMetrics reg).1).1 = (newMetrics reg).1.
Proof.
  intros Hf. unfold newMetrics. destruct (register_takes metric_families reg metric_families_consistent Hf) as [H1 H2].
  split; [done|]. apply register_refuses. rewrite H2. apply not_true_is_false. rewrite fits_spec. intros H.
  pose (d := {| d_name := "http_client_requests_total"; d_help := "Outbound HTTP attempts by target, method and outcome."; d_const := [];
                d_labels := ["target"; "method"; "outcome"] |}).
  specialize (H d d). assert (Hd : clash d d = true) by (vm_compute; reflexivity). rewrite Hd in H. discriminate H.
  - apply elem_of_app. right. by left.
  - by left.
Qed.
End Registration.

(** ** New *)

Inductive new_error := InvalidConfig (ps : list problem) | RegisterMetrics (err : string).

(** What the client uses of an [http.Client]: its transport (nil: the default one) and
    its own redirect check. *)
Record http_client := { hc_Transport : option http_transport; hc_CheckRedirect : option (URL -> list URL -> option string) }.

(** The options: the caller's client and its registry (none: a private one). *)
Record options (R : Type) := { o_hc : option http_client; o_reg : option R }.
Arguments o_hc {R}. Arguments o_reg {R}.

Record client (R : Type) := {
  cl_transport : http_transport;
  cl_check : URL -> list URL -> verdict;
  cl_closeIdle : bool;                (* Shutdown closes the idle connections *)
  cl_userAgent : string;
  cl_private : bool;                  (* Registry() is not nil *)
  cl_registry : R;
  cl_targets : gmap string Client.policy
}.
Arguments cl_transport {R}. Arguments cl_check {R}. Arguments cl_closeIdle {R}. Arguments cl_userAgent {R}.
Arguments cl_private {R}. Arguments cl_registry {R}. Arguments cl_targets {R}.

Section New.
(** [NewRegistry] holds nothing. *)
Context {R : Type} `{!Registerer R} (NewRegistry : R) (EqualFold : string -> string -> bool) (DefaultTransport : http_transport).

(** [instrument] wraps the default transport when there is none. *)
Definition instrument (rt : option http_transport) : http_transport := default DefaultTransport rt.

(** [c.targets[Name] = newPolicy(...)] for each target, in order. *)
Definition add_targets (ts : list TargetConfig) (m : gmap string Client.policy) : gmap string Client.policy :=
  foldl (fun m tc => <[Name tc := Client.newPolicy tc]> m) m ts.

Definition New (o : options R) (c : Config) : new_error + client R :=
  match Validate c with
  | [] =>
      let '(reg, taken) := newMetrics (default NewRegistry (o_reg o)) in
      match taken with
      | Some n => inl (RegisterMetrics n)
      | None =>
          let hc := default {| hc_Transport := Some (newTransport DefaultTransport c); hc_CheckRedirect := None |} (o_hc o) in
          inr {| cl_transport := instrument (hc_Transport hc);
                 cl_check := redirectPolicy EqualFold (hc_CheckRedirect hc) (MaxRedirects c) (AllowCrossHostRedirects c);
                 cl_closeIdle := negb (bool_decide (is_Some (o_hc o)));
                 cl_userAgent := UserAgent c;
                 cl_private := negb (bool_decide (is_Some (o_reg o)));
                 cl_registry := reg;
                 cl_targets := add_targets (Targets c) ∅ |}
      end
  | ps => inl (InvalidConfig ps)
  end.

Lemma add_targets_cons (t : TargetConfig) (ts : list TargetConfig) (m : gmap string Client.policy) :
  add_targets (t :: ts) m = add_targets ts (<[Name t := Client.newPolicy t]> m).
Proof. reflexivity. Qed.

Lemma add_targets_other (ts : list TargetConfig) (m : gmap string Client.policy) (name : string) :
  name ∉ Name <$> ts -> add_targets ts m !! name = m !! name.
Proof.
  revert m. induction ts as [|t ts IH]; intros m H; [done|]. cbn [fmap list_fmap] in H. apply not_elem_of_cons in H as [Hne H].
  rewrite add_targets_cons, IH by done. by apply lookup_insert_ne.
Qed.

Lemma add_targets_in (ts : list TargetConfig) (m : gmap string Client.policy) (tc : TargetConfig) :
  NoDup (Name <$> ts) -> tc ∈ ts -> add_targets ts m !! Name tc = Some (Client.newPolicy tc).
Proof.
  revert m. induction ts as [|t ts IH]; intros m Hn Hin; [by apply not_elem_of_nil in Hin|].
  cbn in Hn. apply NoDup_cons in Hn as [Hx Hn]. apply elem_of_cons in Hin as [->|Hin].
  - rewrite add_targets_cons, add_targets_other by done. apply lookup_insert_eq.
  - by apply IH.
Qed.

(** A client that was built knows exactly the targets of its configuration, each under its
    own policy, follows a bounded number of redirects, and closes a pool only if it made it. *)
Lemma new_client (o : options R) (c : Config) (cl : client R) :
  fits (held (default NewRegistry (o_reg o))) (concat metric_families) = true -> New o c = inr cl ->
  (forall tc, tc ∈ Targets c -> cl_targets cl !! Name tc = Some (Client.newPolicy tc)) /\
  (forall name, name ∉ Name <$> Targets c -> cl_targets cl !! name = None) /\
  0 <= MaxRedirects c /\ (cl_closeIdle cl = true <-> o_hc o = None) /\
  held (cl_registry cl) = held (default NewRegistry (o_reg o)) ++ concat metric_families.
Proof.
  intros Hfit. unfold New. destruct (Validate c) eqn:E; [|done]. apply Validate_exact in E as (_ & _ & _ & _ & _ & _ & _ & Hr & _ & Hn).
  destruct (newMetrics (default NewRegistry (o_reg o))) as [reg [n|]] eqn:Em; [done|]. intros [= <-]. cbn. split_and!.
  - intros tc Hin. by apply add_targets_in.
  - intros name Hx. rewrite add_targets_other by done. apply lookup_empty.
  - done.
  - destruct (o_hc o); cbn; split; try done.
  - destruct (register_takes metric_families _ metric_families_consistent Hfit) as [_ H]. unfold newMetrics in Em. by rewrite Em in H.
Qed.

(** [BreakerState] of a client whose breakers are [breakers] *)
Definition BreakerState (cl : client R) (breakers : string -> option Breaker.breaker) (target : string) : Client.OutboundError + Breaker.BreakerState :=
  match cl_targets cl !! target with
  | None => inl (Client.mkError KindInvalid target Client.UnknownTarget)
  | Some p => inr (Breaker.state (breakers (Client.p_name p)))
  end.
End New.

(** ** The error of a send *)

Section ErrorText.
(** The text of an underlying error. *)
Context (text : Client.cause -> string).

Definition OutboundError_Error (e : Client.OutboundError) : string :=
  ("resilient: " ++ Client.oe_Target e ++ ": " ++ kind_String (Client.oe_Kind e)
   ++ (if (Client.oe_StatusCode e =? 0)%Z then "" else " " ++ GoStr.Itoa (Client.oe_StatusCode e))
   ++ match Client.oe_Err e with Client.NoCause => "" | c => ": " ++ text c end)%string.

(** The body of a response is for diagnostics: it is not part of the text. *)
Lemma error_text_hides_body (e : Client.OutboundError) (b : string) :
  OutboundError_Error {| Client.oe_Kind := Client.oe_Kind e; Client.oe_Target := Client.oe_Target e; Client.oe_StatusCode := Client.oe_StatusCode e;
    Client.oe_RetryAfter := Client.oe_RetryAfter e; Client.oe_Body := b; Client.oe_Err := Client.oe_Err e |} = OutboundError_Error e.
Proof. reflexivity. Qed.
End ErrorText.
End Transport.
