(* ===== verification/Drain.v ===== *)
(** Graceful shutdown of the resilient HTTP client (enter, leave and Shutdown
    of client.go): an in-flight counter, a closing flag and a channel with room
    for one signal, used by any number of goroutines. *)
From S2P Require Import Prelude.

Module Drain.

(** A request, between its atomic steps. *)
Inductive rpc :=
| ROut          (* not sent, refused or done *)
| REntered      (* inFlight.Add(1) done, closing not yet read *)
| RInside       (* admitted *)
| RLeaving      (* about to inFlight.Add(-1) *)
| RZero.        (* Add(-1) gave 0, closing not yet read *)

(** A caller of [Shutdown]. *)
Inductive spc :=
| SNew          (* not called *)
| SLoad         (* closing stored; about to read inFlight *)
| SWait (n : Z) (* read n <> 0; in the select *)
| SDone         (* returned nil *)
| SExpired (n : Z).  (* returned the context's error *)

Record sys := {
  inFlight : Z;
  closing : bool;
  idle : bool;            (* a signal is in the channel *)
  reqs : list rpc;
  shuts : list spc
}.

Definition with_req (y : sys) (i : nat) (c : rpc) (n : Z) (sig : bool) : sys :=
  {| inFlight := n; closing := closing y; idle := sig; reqs := <[i := c]> (reqs y); shuts := shuts y |}.

Definition with_shut (y : sys) (j : nat) (c : spc) (cl sig : bool) : sys :=
  {| inFlight := inFlight y; closing := cl; idle := sig; reqs := reqs y; shuts := <[j := c]> (shuts y) |}.

(** [enter] *)
Inductive enter_step (y : sys) (i : nat) : sys -> Prop :=
| EnterAdd : reqs y !! i = Some ROut ->
    enter_step y i (with_req y i REntered (inFlight y + 1) (idle y))
| EnterCheck : reqs y !! i = Some REntered ->
    enter_step y i (with_req y i (if closing y then RLeaving else RInside) (inFlight y) (idle y)).

(** [leave], called by a refused or by a finished request; a full channel
    keeps its one signal. *)
Inductive leave_step (y : sys) (i : nat) : sys -> Prop :=
| LeaveStart : reqs y !! i = Some RInside ->
    leave_step y i (with_req y i RLeaving (inFlight y) (idle y))
| LeaveAdd : reqs y !! i = Some RLeaving ->
    leave_step y i (with_req y i (if inFlight y - 1 =? 0 then RZero else ROut)
                      (inFlight y - 1) (idle y))
| LeaveSignal : reqs y !! i = Some RZero ->
    leave_step y i (with_req y i ROut (inFlight y) (closing y || idle y)).

(** [Shutdown] *)
Inductive shutdown_step (y : sys) (j : nat) : sys -> Prop :=
| ShutStore : shuts y !! j = Some SNew ->
    shutdown_step y j (with_shut y j SLoad true (idle y))
| ShutLoad : shuts y !! j = Some SLoad ->
    shutdown_step y j (with_shut y j (if inFlight y =? 0 then SDone else SWait (inFlight y))
                         (closing y) (idle y))
| ShutWake (n : Z) : shuts y !! j = Some (SWait n) -> idle y = true ->
    shutdown_step y j (with_shut y j SLoad (closing y) false)
| ShutExpire (n : Z) : shuts y !! j = Some (SWait n) ->
    shutdown_step y j (with_shut y j (SExpired n) (closing y) (idle y)).

Inductive step : sys -> sys -> Prop :=
| StepEnter (y z : sys) (i : nat) : enter_step y i z -> step y z
| StepLeave (y z : sys) (i : nat) : leave_step y i z -> step y z
| StepShut (y z : sys) (j : nat) : shutdown_step y j z -> step y z.

(** [n] requests, [m] callers of Shutdown. *)
Definition init (n m : nat) : sys :=
  {| inFlight := 0; closing := false; idle := false;
     reqs := replicate n ROut; shuts := replicate m SNew |}.

Inductive reach (n m : nat) : sys -> Prop :=
| Reach0 : reach n m (init n m)
| ReachS (y z : sys) : reach n m y -> step y z -> reach n m z.

(** ** Invariants *)

Definition counted (c : rpc) : Z :=
  match c with REntered | RInside | RLeaving => 1 | _ => 0 end.

Definition started (c : spc) : Prop := c <> SNew.

(** Someone will still signal: a request not yet done leaving. *)
Definition busy (c : rpc) : Prop := c <> ROut.

Record inv (m : nat) (y : sys) : Prop := {
  inv_count : inFlight y = zsum counted (reqs y);
  inv_closing : forall j c, shuts y !! j = Some c -> started c -> closing y = true;
  inv_done : forall j, shuts y !! j = Some SDone -> forall i, reqs y !! i <> Some RInside;
  inv_len : length (shuts y) = m
}.

Lemma counted_pos (y : sys) (i : nat) (c : rpc) :
  reqs y !! i = Some c -> counted c <= zsum counted (reqs y).
Proof.
  intros Hi. apply zsum_elem_le; [by intros []|]. by eapply list_elem_of_lookup_2.
Qed.

Lemma insert_same_inv {A} (l : list A) (i j : nat) (x y : A) :
  <[i := x]> l !! j = Some y -> (i = j /\ x = y) \/ l !! j = Some y.
Proof.
  intros H. apply list_lookup_insert_Some in H as [(-> & -> & _)|[_ H]]; [by left|by right].
Qed.

(** A request step keeps the invariant if it counts right and enters only
    while closing is unset. *)
Lemma req_inv (m : nat) (y : sys) (i : nat) (c c' : rpc) (n : Z) (sig : bool) :
  inv m y -> reqs y !! i = Some c -> n = inFlight y - counted c + counted c' ->
  (c' = RInside -> closing y = false) -> inv m (with_req y i c' n sig).
Proof.
  intros [H1 H2 H3 H4] Hi Hn Hc. split; cbn; [|done| |done].
  - rewrite (zsum_insert _ _ _ _ _ Hi). lia.
  - intros j Hj k Hk. apply insert_same_inv in Hk as [[-> ->]|Hk]; [|by apply (H3 j Hj k)].
    specialize (Hc eq_refl). specialize (H2 j SDone Hj ltac:(done)). congruence.
Qed.

Lemma shut_inv (m : nat) (y : sys) (j : nat) (c c' : spc) (cl sig : bool) :
  inv m y -> shuts y !! j = Some c -> cl = true ->
  (c' = SDone -> inFlight y = 0) -> inv m (with_shut y j c' cl sig).
Proof.
  intros [H1 H2 H3 H4] Hj Hcl Hd. split; cbn; [done|done| |by rewrite length_insert].
  intros k Hk. apply insert_same_inv in Hk as [[-> E]|Hk]; [|by apply (H3 k)].
  specialize (Hd E). intros i Hi. apply counted_pos in Hi. cbn in Hi. lia.
Qed.

Lemma drain_step_inv (m : nat) (y z : sys) : inv m y -> step y z -> inv m z.
Proof.
  intros Hinv Hs. pose proof Hinv as [H1 H2 H3 H4].
  destruct Hs as [y z i H|y z i H|y z j H]; destruct H.
  - eapply req_inv; [done|done|cbn; lia|done].
  - eapply req_inv; [done|done| |]; destruct (closing y); cbn; (lia || done).
  - eapply req_inv; [done|done|cbn; lia|done].
  - eapply req_inv; [done|done| |]; destruct (_ =? 0); cbn; (lia || done).
  - eapply req_inv; [done|done|cbn; lia|done].
  - eapply shut_inv; eauto; done.
  - eapply shut_inv; [done|done|by eapply H2|]. destruct (Z.eqb_spec (inFlight y) 0); done.
  - eapply shut_inv; [done|done|by eapply H2|done].
  - eapply shut_inv; [done|done|by eapply H2|done].
Qed.

Lemma drain_reach_inv (n m : nat) (y : sys) : reach n m y -> inv m y.
Proof.
  induction 1 as [|y z _ IH Hs]; [|by apply (drain_step_inv _ y)].
  split; cbn; [|intros j c Hj%lookup_replicate Hc|intros j Hj%lookup_replicate|].
  - induction n; [done|]. cbn [replicate]. rewrite zsum_cons. done.
  - by destruct Hj as [-> _].
  - by destruct Hj.
  - by rewrite length_replicate.
Qed.

(** With a single caller of Shutdown no wake-up is lost. *)
Definition woken (y : sys) : Prop :=
  forall n, shuts y !! 0%nat = Some (SWait n) -> idle y = true \/ exists i c, reqs y !! i = Some c /\ busy c.

Lemma counted_busy (l : list rpc) :
  0 < zsum counted l -> exists k c, l !! k = Some c /\ busy c.
Proof.
  induction l as [|c l IH]; [cbn; lia|]. rewrite zsum_cons. intros Hp.
  destruct (decide (counted c = 1)) as [Hc|Hc].
  - exists 0%nat, c. split; [done|]. by intros ->.
  - destruct IH as (k & c' & Hk & Hb); [destruct c; cbn in *; lia|]. by exists (S k), c'.
Qed.

Lemma step_woken (y z : sys) : inv 1 y -> woken y -> step y z -> woken z.
Proof.
  intros Hinv Hw Hs. pose proof Hinv as [H1 H2 _ H4]. intros n Hn.
  destruct Hs as [y z i H|y z i H|y z j H].
  - right. destruct H as [Hi|Hi]; cbn; eexists i, _;
      (rewrite list_lookup_insert_eq by (by eapply lookup_lt_Some)); split; try done.
    by destruct (closing y).
  - destruct H as [Hi|Hi|Hi].
    + right. cbn. eexists i, _. by rewrite list_lookup_insert_eq by (by eapply lookup_lt_Some).
    + right. cbn. destruct (Z.eqb_spec (inFlight y - 1) 0) as [E|E].
      * eexists i, _. by rewrite list_lookup_insert_eq by (by eapply lookup_lt_Some).
      * apply counted_busy. rewrite (zsum_insert _ _ _ _ _ Hi).
        apply counted_pos in Hi. cbn in *. lia.
    + left. cbn in *. rewrite (H2 0%nat _ Hn) by done. done.
  - assert (Hj : forall c, shuts y !! j = Some c -> j = 0%nat).
    { intros c Hc. apply lookup_lt_Some in Hc. lia. }
    destruct H as [Hi|Hi|n' Hi Hid|n' Hi]; pose proof (Hj _ Hi) as ->; cbn in Hn;
      rewrite list_lookup_insert_eq in Hn by lia; simplify_eq.
    right. cbn. apply counted_busy.
    destruct (Z.eqb_spec (inFlight y) 0) as [E|E]; [done|].
    pose proof (zsum_nonneg counted (reqs y) ltac:(by intros [])). lia.
Qed.

Lemma reach_woken (n : nat) (y : sys) : reach n 1 y -> woken y.
Proof.
  induction 1 as [|y z Hr IH Hs]; [by intros k Hk|].
  apply (step_woken y); [by apply (drain_reach_inv n)|done..].
Qed.

(** ** Theorems *)

(** C12: once any call of Shutdown has returned nil, no admitted request is in
    flight and none is admitted afterwards, whatever the interleaving; and a
    request that entered is in the count until it has left. *)
Theorem shutdown_drains (n m : nat) (y : sys) (j : nat) :
  reach n m y -> shuts y !! j = Some SDone ->
  closing y = true /\ (forall i, reqs y !! i <> Some RInside) /\
  (forall z, step y z -> shuts z !! j = Some SDone /\ forall i, reqs z !! i <> Some RInside).
Proof.
  intros Hr Hj. pose proof (drain_reach_inv n m y Hr) as [H1 H2 H3 H4].
  split; [by eapply H2|]. split; [by apply (H3 j)|]. intros z Hs.
  assert (Hz : shuts z !! j = Some SDone).
  { destruct Hs as [y z i H|y z i H|y z k H]; destruct H; cbn; try done;
      (rewrite list_lookup_insert_ne; [done|congruence]). }
  split; [done|]. apply (inv_done m z) with j; [|done].
  apply (drain_step_inv m y); [by split|done].
Qed.

Definition drained_example : sys :=
  {| inFlight := 0; closing := true; idle := false; reqs := [ROut]; shuts := [SDone] |}.

Lemma shutdown_drains_witness : closing drained_example = true.
Proof.
  assert (Hr : reach 1 1 drained_example).
  { eapply ReachS; [eapply ReachS; [apply Reach0|]|].
    - apply (StepShut _ _ 0), ShutStore. reflexivity.
    - apply (StepShut _ _ 0). apply (ShutLoad
        {| inFlight := 0; closing := true; idle := false; reqs := [ROut]; shuts := [SLoad] |} 0).
      reflexivity. }
  exact (proj1 (shutdown_drains 1 1 drained_example 0 Hr eq_refl)).
Defined.

(** With one caller of Shutdown the wake-up is never lost: when it is
    blocked in its select and every request has left, the signal is in the
    channel, so it reads the counter again, finds 0 and returns nil. *)
Theorem shutdown_never_stuck (n : nat) (y : sys) (k : Z) :
  reach n 1 y -> shuts y !! 0%nat = Some (SWait k) ->
  (forall i c, reqs y !! i = Some c -> c = ROut) ->
  idle y = true /\ exists z z', step y z /\ step z z' /\ shuts z' !! 0%nat = Some SDone.
Proof.
  intros Hr Hj Hout.
  assert (Hid : idle y = true).
  { destruct (reach_woken n y Hr k Hj) as [|(i & c & Hi & Hb)]; [done|].
    by destruct Hb; apply (Hout i). }
  split; [done|]. pose proof (drain_reach_inv n 1 y Hr) as [H1 _ _ H4].
  assert (H0 : inFlight y = 0).
  { rewrite H1. rewrite (zsum_ext _ (fun _ => 0)), zsum_zero; [done|].
    intros c Hc. apply list_elem_of_lookup_1 in Hc as [i Hi]. by rewrite (Hout i c Hi). }
  eexists _, _. split; [eapply (StepShut _ _ 0), ShutWake; eauto|].
  split; [eapply (StepShut _ _ 0), ShutLoad; cbn; apply list_lookup_insert_eq; lia|].
  cbn. rewrite H0, Z.eqb_refl, list_insert_insert_eq. apply list_lookup_insert_eq. lia.
Qed.

(** One request, one Shutdown: the caller reads 1, the request leaves, the
    signal wakes it. *)
Definition waiting_example : sys :=
  {| inFlight := 0; closing := true; idle := true; reqs := [ROut]; shuts := [SWait 1] |}.

Definition mk (n : Z) (cl sig : bool) (r : rpc) (l : list spc) : sys :=
  {| inFlight := n; closing := cl; idle := sig; reqs := [r]; shuts := l |}.

Lemma waiting_reach : reach 1 1 waiting_example.
Proof.
  eapply (ReachS _ _ (mk 0 true false RZero [SWait 1])); [|apply (StepLeave _ _ 0), LeaveSignal; done].
  eapply (ReachS _ _ (mk 1 true false RLeaving [SWait 1])); [|by apply (StepLeave _ _ 0), LeaveAdd].
  eapply (ReachS _ _ (mk 1 true false RInside [SWait 1])); [|by apply (StepLeave _ _ 0), LeaveStart].
  eapply (ReachS _ _ (mk 1 true false RInside [SLoad])); [|by apply (StepShut _ _ 0), ShutLoad].
  eapply (ReachS _ _ (mk 1 false false RInside [SNew])); [|by apply (StepShut _ _ 0), ShutStore].
  eapply (ReachS _ _ (mk 1 false false REntered [SNew])); [|by apply (StepEnter _ _ 0), EnterCheck].
  eapply (ReachS _ _ (mk 0 false false ROut [SNew])); [apply Reach0|by apply (StepEnter _ _ 0), EnterAdd].
Qed.

Lemma shutdown_never_stuck_witness : idle waiting_example = true.
Proof.
  refine (proj1 (shutdown_never_stuck 1 waiting_example 1 waiting_reach eq_refl _)).
  intros [|[|i]] c; cbn; congruence.
Defined.

(** Two concurrent callers of Shutdown share the channel's single signal:
    one takes it and returns nil, the other stays in its select although no
    request is left, and can only return when its own context ends. *)
Theorem shutdown_second_caller_stuck :
  exists y, reach 1 2 y /\ inFlight y = 0 /\ reqs y = [ROut] /\
    shuts y = [SDone; SWait 1] /\ idle y = false /\
    (forall z, shutdown_step y 1 z -> z = with_shut y 1 (SExpired 1) true false).
Proof.
  exists (mk 0 true false ROut [SDone; SWait 1]). split; [|split_and!; try done].
  - eapply (ReachS _ _ (mk 0 true false ROut [SLoad; SWait 1])); [|by apply (StepShut _ _ 0), ShutLoad].
    eapply (ReachS _ _ (mk 0 true true ROut [SWait 1; SWait 1]));
      [|by apply (StepShut _ _ 0), (ShutWake (mk 0 true true ROut [SWait 1; SWait 1]) 0 1)].
    eapply (ReachS _ _ (mk 0 true false RZero [SWait 1; SWait 1])); [|by apply (StepLeave _ _ 0), LeaveSignal].
    eapply (ReachS _ _ (mk 1 true false RLeaving [SWait 1; SWait 1])); [|by apply (StepLeave _ _ 0), LeaveAdd].
    eapply (ReachS _ _ (mk 1 true false RInside [SWait 1; SWait 1])); [|by apply (StepLeave _ _ 0), LeaveStart].
    eapply (ReachS _ _ (mk 1 true false RInside [SWait 1; SLoad])); [|by apply (StepShut _ _ 1), ShutLoad].
    eapply (ReachS _ _ (mk 1 true false RInside [SLoad; SLoad])); [|by apply (StepShut _ _ 0), ShutLoad].
    eapply (ReachS _ _ (mk 1 true false RInside [SLoad; SNew])); [|by apply (StepShut _ _ 1), ShutStore].
    eapply (ReachS _ _ (mk 1 false false RInside [SNew; SNew])); [|by apply (StepShut _ _ 0), ShutStore].
    eapply (ReachS _ _ (mk 1 false false REntered [SNew; SNew])); [|by apply (StepEnter _ _ 0), EnterCheck].
    eapply (ReachS _ _ (mk 0 false false ROut [SNew; SNew])); [apply Reach0|by apply (StepEnter _ _ 0), EnterAdd].
  - intros z H. inversion H as [Hi|Hi|n Hi Hid|n Hi]; simplify_eq/=; done.
Qed.

End Drain.
