(* ===== verification/KafkaMessage.v ===== *)
(** Records, headers, errors and retry delays of libs/kafka (message.go,
    errors.go), and the producing side (producer.go). *)
From S2P Require Import Prelude GoError GoStr.

Module KafkaMessage.
Import GoStr.

(** ** Records *)

Record Header := { Key : string; Value : string }.

Definition HeaderEventID : string := "event_id".
Definition HeaderEventType : string := "event_type".
Definition HeaderContentType : string := "content_type".
Definition HeaderTraceparent : string := "traceparent".
Definition HeaderDLQReason : string := "dlq_reason".
Definition HeaderDLQError : string := "dlq_error".
Definition HeaderDLQSourceTopic : string := "dlq_source_topic".
Definition HeaderDLQSourcePartition : string := "dlq_source_partition".
Definition HeaderDLQSourceOffset : string := "dlq_source_offset".
Definition HeaderDLQAttempts : string := "dlq_attempts".

Record Message := {
  Topic : string;
  MKey : option string;       (* nil or bytes *)
  MValue : string;
  Partition : Z;
  Offset : Z;
  Headers : list Header;
  Timestamp : Z;
  Attempt : Z
}.

(** The first header named [key]. *)
Fixpoint headerValue (hs : list Header) (key : string) : option string :=
  match hs with
  | [] => None
  | h :: hs => if String.eqb (Key h) key then Some (Value h) else headerValue hs key
  end.

Definition Message_Header (m : Message) (key : string) : option string := headerValue (Headers m) key.

(** ** Errors *)

(** What the library can tell about an error: marked permanent, a spent or a
    cancelled context, a send error with its kind and code, the client closed or
    failed for good, a drain, or just a text. *)
Inductive ktag :=
| TPermanent
| TDeadlineExceeded
| TCanceled
| TSendError (kind : string) (retryable : bool) (code : Z)
| TClientClosed
| TClientFailed
| TDraining
| TText (s : string).

Definition error := Errors.error ktag.

Definition KindQueueFull : string := "queue_full".
Definition KindUnavailable : string := "unavailable".
Definition KindNotProvisioned : string := "not_provisioned".
Definition KindFatal : string := "fatal".
Definition KindRejected : string := "rejected".
Definition KindUnknown : string := "unknown".

Definition Permanent (err : option error) : option error :=
  match err with
  | None => None
  | Some e => Some (Errors.Node TPermanent [e])
  end.

Definition IsPermanent (err : error) : bool :=
  Errors.matches (fun t => match t with TPermanent => true | _ => false end) err.

Definition is_ctx_error (err : error) : bool :=
  Errors.matches (fun t => match t with TDeadlineExceeded => true | _ => false end) err
  || Errors.matches (fun t => match t with TCanceled => true | _ => false end) err.

Definition NewSendError (kind : string) (code : Z) (err : error) : error :=
  let kind := if is_ctx_error err then KindUnavailable else kind in
  Errors.Node (TSendError kind (negb (String.eqb kind KindRejected)) code) [err].

(** [errors.As(err, &se)] *)
Definition as_send_error (err : error) : option ktag :=
  Errors.find (fun t => match t with TSendError _ _ _ => true | _ => false end) err.

Definition Rejected (err : error) : bool :=
  match as_send_error err with
  | Some (TSendError _ retryable _) => negb retryable
  | _ => false
  end.

(** ** backoff *)

Section Backoff.
(** [rand.N n], uniform in [[0, n)]. *)
Context (N : Z -> Z).

(** The doubling loop: [i] counts down the iterations left. *)
Fixpoint double (i : nat) (d maxDelay : Z) : Z :=
  match i with
  | O => d
  | S i => if d <? maxDelay then double i (Go.wrap64 (d * 2)) maxDelay else d
  end.

Definition backoff (n : Z) (initial maxDelay : Z) : Z :=
  let d := Z.min (double (Z.to_nat n) initial maxDelay) maxDelay in
  let half := Z.quot d 2 in
  if half <=? 0 then d else half + N (half + 1).
End Backoff.

(** ** Sending *)

(** [headerCarrier.Set]: replace the first header of that key, or append. *)
Fixpoint carrier_Set (hs : list Header) (key value : string) : list Header :=
  match hs with
  | [] => [{| Key := key; Value := value |}]
  | h :: hs =>
      if String.eqb (Key h) key then {| Key := Key h; Value := value |} :: hs
      else h :: carrier_Set hs key value
  end.

Definition carrier_Get (hs : list Header) (key : string) : string := default "" (headerValue hs key).
Definition carrier_Keys (hs : list Header) : list string := Key <$> hs.

Definition with_headers (m : Message) (hs : list Header) : Message :=
  {| Topic := Topic m; MKey := MKey m; MValue := MValue m; Partition := Partition m;
     Offset := Offset m; Headers := hs; Timestamp := Timestamp m; Attempt := Attempt m |}.

Section Send.
(** The propagator: the trace context it extracts from a stored traceparent (or
    takes from the caller's span when there is none) and the headers it sets. *)
Context {Ctx : Type} (Extract : Ctx -> list Header -> Ctx) (Inject : Ctx -> list (string * string)).
(** The client's [Send] on the record as it leaves. *)
Context (clSend : Ctx -> Message -> option error).

Definition inject (ctx : Ctx) (hs : list Header) : list Header :=
  foldl (fun hs kv => carrier_Set hs (fst kv) (snd kv)) hs (Inject ctx).

(** [send]: the record that leaves, and the error. *)
Definition send (ctx : Ctx) (msg : Message) : Message * option error :=
  let parent := match headerValue (Headers msg) HeaderTraceparent with
                | Some _ => Extract ctx (Headers msg)
                | None => ctx
                end in
  let msg := with_headers msg (inject parent (Headers msg)) in
  (msg, match clSend parent msg with
        | None => None
        | Some err =>
            match as_send_error err with
            | Some _ => Some err
            | None => Some (NewSendError KindUnknown 0 err)
            end
        end).

(** [Producer.Send]: the configured topic when the message names none. *)
Definition Producer_Send (defaultTopic : string) (ctx : Ctx) (msg : Message) : Message * option error :=
  let msg := if String.eqb (Topic msg) ""
             then {| Topic := defaultTopic; MKey := MKey msg; MValue := MValue msg;
                     Partition := Partition msg; Offset := Offset msg; Headers := Headers msg;
                     Timestamp := Timestamp msg; Attempt := Attempt msg |}
             else msg in
  let '(msg, err) := send ctx msg in
  (msg, match err with
        | Some e => Some (Errors.Node (TText "kafka: send to topic") [e])
        | None => None
        end).
End Send.

(** ** Lemmas *)

Lemma carrier_get_set (hs : list Header) (k v : string) : carrier_Get (carrier_Set hs k v) k = v.
Proof.
  unfold carrier_Get. induction hs as [|h hs IH]; cbn; [by rewrite String.eqb_refl|].
  destruct (String.eqb (Key h) k) eqn:E; cbn; by rewrite E.
Qed.

Lemma carrier_get_set_other (hs : list Header) (k k' v : string) :
  k <> k' -> carrier_Get (carrier_Set hs k v) k' = carrier_Get hs k'.
Proof.
  intros Hk. unfold carrier_Get. induction hs as [|h hs IH]; cbn.
  - by destruct (String.eqb_spec k k').
  - destruct (String.eqb_spec (Key h) k) as [E|E]; cbn.
    + rewrite E. by destruct (String.eqb_spec k k').
    + destruct (String.eqb (Key h) k'); done.
Qed.

Lemma carrier_set_keys (hs : list Header) (k v : string) :
  carrier_Keys (carrier_Set hs k v) =
  if bool_decide (k ∈ carrier_Keys hs) then carrier_Keys hs else carrier_Keys hs ++ [k].
Proof.
  induction hs as [|h hs IH]; cbn; [done|].
  destruct (String.eqb_spec (Key h) k) as [E|E]; cbn.
  - rewrite bool_decide_eq_true_2 by set_solver. done.
  - unfold carrier_Keys in *. rewrite IH.
    destruct (decide (k ∈ Key <$> hs)) as [Hin|Hin].
    + rewrite !bool_decide_eq_true_2 by set_solver. done.
    + rewrite !bool_decide_eq_false_2 by set_solver. done.
Qed.

Lemma double_range (i : nat) (d m : Z) :
  0 <= d < 2 ^ 63 -> 0 <= m <= 2 ^ 62 ->
  0 <= double i d m /\ Z.min (double i d m) m = Z.min (d * 2 ^ Z.of_nat i) m.
Proof.
  intros Hd Hm. revert d Hd. induction i as [|i IH]; intros d Hd; cbn [double].
  - split; [lia|]. by rewrite Z.mul_1_r.
  - destruct (Z.ltb_spec d m) as [Hlt|Hge].
    + rewrite Go.wrap64_id by (unfold Go.in_int64, Go.int64_min, Go.int64_max; lia).
      destruct (IH (d * 2)) as [H1 H2]; [lia|]. split; [done|]. rewrite H2.
      rewrite Nat2Z.inj_succ, Z.pow_succ_r by lia. f_equal; lia.
    + split; [lia|].
      assert (1 <= 2 ^ Z.of_nat (S i)) by (pose proof (Z.pow_pos_nonneg 2 (Z.of_nat (S i))); lia).
      rewrite !Z.min_r; [done|nia|lia].
Qed.

(** ** Properties *)

Lemma backoff_bounds (N : Z -> Z) (n initial maxDelay : Z) :
  (forall k, 0 < k -> 0 <= N k < k) ->
  0 <= n -> 0 <= initial < 2 ^ 63 -> 0 <= maxDelay <= 2 ^ 62 ->
  let d := Z.min (initial * 2 ^ n) maxDelay in
  d / 2 <= backoff N n initial maxDelay <= d.
Proof.
  intros HN Hn Hi Hm d. unfold backoff.
  destruct (double_range (Z.to_nat n) initial maxDelay Hi Hm) as [H0 E].
  rewrite E, Z2Nat.id by done. fold d.
  assert (Hd : 0 <= d) by (subst d; rewrite <- (Z2Nat.id n), <- E by done; lia).
  rewrite Z.quot_div_nonneg by lia.
  destruct (Z.leb_spec (d / 2) 0) as [Hh|Hh].
  - pose proof (Z.div_le_upper_bound d 2 d). lia.
  - pose proof (HN (d / 2 + 1) ltac:(lia)). pose proof (Z.div_mod d 2 ltac:(lia)).
    pose proof (Z.mod_pos_bound d 2 ltac:(lia)). lia.
Qed.

(** The delay before retry n of the consumer is between half of
    min(initial * 2^n, max), rounded down, and all of it, for any maximum up to 2^62 ns (146
    years): doubling never wraps around. *)
Theorem backoff_range (N : Z -> Z) (n initial maxDelay : Z) :
  (forall k, 0 < k -> 0 <= N k < k) ->
  0 <= n -> 0 <= initial < 2 ^ 63 -> 0 <= maxDelay <= 2 ^ 62 ->
  let d := Z.min (initial * 2 ^ n) maxDelay in
  d / 2 <= backoff N n initial maxDelay <= d.
Proof. apply backoff_bounds. Qed.

Lemma backoff_range_witness : 400 <= backoff (fun k => k - 1) 2 200 30000 <= 800.
Proof. exact (backoff_range (fun k => k - 1) 2 200 30000 ltac:(lia) ltac:(lia) ltac:(lia) ltac:(lia)). Defined.

Lemma new_send_error_as (kind : string) (code : Z) (err : error) :
  exists k, as_send_error (NewSendError kind code err) =
    Some (TSendError k (negb (String.eqb k KindRejected)) code) /\
    k = if is_ctx_error err then KindUnavailable else kind.
Proof. by eexists. Qed.

(** Every error the producer's Send returns carries a send error, so
    callers can always branch on it; Rejected says yes exactly when that send
    error is not retryable; and an error of a spent or cancelled context built by
    a driver is never a rejection, whatever kind the driver guessed. *)
Theorem send_error_taxonomy {Ctx : Type} (Extract : Ctx -> list Header -> Ctx)
    (Inject : Ctx -> list (string * string)) (clSend : Ctx -> Message -> option error)
    (topic : string) (ctx : Ctx) (msg : Message) :
  (forall m e, Producer_Send Extract Inject clSend topic ctx msg = (m, Some e) ->
     Topic m = (if String.eqb (Topic msg) "" then topic else Topic msg) /\
     exists kind retryable code, as_send_error e = Some (TSendError kind retryable code) /\
       Rejected e = negb retryable) /\
  (forall kind code err, Rejected (NewSendError kind code err) =
     negb (is_ctx_error err) && String.eqb kind KindRejected).
Proof.
  split.
  - intros m e. unfold Producer_Send, send. set (msg' := if String.eqb (Topic msg) "" then _ else msg).
    set (parent := match headerValue (Headers msg') HeaderTraceparent with Some _ => _ | None => _ end).
    assert (Hwrap : forall x k r c, as_send_error x = Some (TSendError k r c) ->
      let e := Errors.Node (TText "kafka: send to topic") [x] in
      as_send_error e = Some (TSendError k r c) /\ Rejected e = negb r).
    { intros x k r c Hx. unfold Rejected, as_send_error in *. cbn. by rewrite Hx. }
    intros [= <- He].
    split; [subst msg'; by destruct (String.eqb (Topic msg) "")|].
    destruct (clSend parent _) as [err|]; [|done].
    destruct (as_send_error err) as [t|] eqn:E; injection He as <-.
    + apply Errors.find_sound in E as Hs. destruct t as [| | |k r c| | | |]; try done.
      exists k, r, c. by apply Hwrap.
    + destruct (new_send_error_as KindUnknown 0 err) as (k & Hk & _).
      eexists k, _, 0. by apply Hwrap.
  - intros kind code err. unfold Rejected.
    destruct (new_send_error_as kind code err) as (k & -> & ->).
    destruct (is_ctx_error err); [done|]. cbn. by rewrite negb_involutive.
Qed.

End KafkaMessage.
