(* ===== verification/KafkaConsumer.v ===== *)
(** The consumer loop of libs/kafka (consumer.go): poll, process with retries
    and dead-lettering, commit, rebalance callbacks, drain.

    The driver, the handler, the clock and the context are environments: the
    definitions take their answers, and emit the events that matter to the
    delivery guarantee (a record's turn, its end, a commit) in order. *)
From S2P Require Import Prelude GoError GoStr KafkaMessage.

Module KafkaConsumer.
Import KafkaMessage.

Record TopicPartition := { tp_Topic : string; tp_Partition : Z }.

#[export] Instance TopicPartition_eq_dec : EqDecision TopicPartition.
Proof. solve_decision. Defined.

#[export] Instance TopicPartition_countable : Countable TopicPartition.
Proof.
  refine (inj_countable' (fun p => (tp_Topic p, tp_Partition p))
    (fun x => {| tp_Topic := fst x; tp_Partition := snd x |}) _).
  by intros [].
Defined.

(** The configuration keys the loop reads. *)
Record config := {
  MaxRetries : Z;
  RetryBackoff : Z;
  RetryBackoffMax : Z;
  DeadLetterTopic : string
}.

(** The loop's state: processed but not committed offsets, owned partitions. *)
Record consumer := {
  pending : gmap TopicPartition Z;
  owned : gset TopicPartition
}.

Definition tp_of (r : Message) : TopicPartition :=
  {| tp_Topic := Topic r; tp_Partition := Partition r |}.

Definition maxRetries (c : config) : Z := Z.max (MaxRetries c) 0.

(** [strings.ReplaceAll(s, old, new)] for a non-empty [old]. *)
Fixpoint replace_all (fuel : nat) (old new s : string) : string :=
  match fuel, s with
  | S fuel, String a s' =>
      if String.prefix old s
      then (new ++ replace_all fuel old new (String.substring (String.length old)
              (String.length s - String.length old) s))%string
      else String a (replace_all fuel old new s')
  | _, _ => s
  end.
Definition ReplaceAll (s old new : string) : string := replace_all (String.length s) old new s.

Definition deadLetterTopic (c : config) (source : string) : string :=
  if String.eqb (DeadLetterTopic c) "none" || String.eqb (DeadLetterTopic c) "-" then ""
  else ReplaceAll (DeadLetterTopic c) "{topic}" source.

(** ** Events *)

(** A group change the driver reports. *)
Inductive rebalance :=
| Assigned (parts : list TopicPartition)
| Revoked (parts : option (list TopicPartition)) (commit_ok : bool)
| Lost (parts : list TopicPartition).

Inductive event :=
| Fetched (rs : list Message)               (* what a poll returned, now to be processed *)
| Turn (r : Message)                        (* an owned record's turn *)
| Invoked (r : Message) (attempt : Z)       (* one handler call *)
| Waited (d : Z)
| DLQSend (m : Message)                     (* one publish to the dead-letter topic *)
| Finished (r : Message)                    (* process returned nil: markDone next *)
| Committed (offs : gmap TopicPartition Z)
| CommitFailed (offs : gmap TopicPartition Z)
| Rebalanced (b : rebalance).               (* a callback returned *)

(** ** process *)

Definition with_attempt (r : Message) (n : Z) : Message :=
  {| Topic := Topic r; MKey := MKey r; MValue := MValue r; Partition := Partition r;
     Offset := Offset r; Headers := Headers r; Timestamp := Timestamp r; Attempt := n |}.

Definition maxDLQErrorBytes : nat := 1024.

Definition is_dlq_key (k : string) : bool :=
  existsb (String.eqb k) [HeaderDLQReason; HeaderDLQError; HeaderDLQSourceTopic;
    HeaderDLQSourcePartition; HeaderDLQSourceOffset; HeaderDLQAttempts].

(** The record parked for [r] after [attempts] calls, the last of which failed
    with [errText]. *)
Definition dlq_headers (r : Message) (reason errText : string) (attempts : Z) : list Header :=
  filter (fun h => is_dlq_key (Key h) = false) (Headers r) ++
  [{| Key := HeaderDLQReason; Value := reason |};
   {| Key := HeaderDLQError; Value := String.substring 0 maxDLQErrorBytes errText |};
   {| Key := HeaderDLQSourceTopic; Value := Topic r |};
   {| Key := HeaderDLQSourcePartition; Value := GoStr.Itoa (Partition r) |};
   {| Key := HeaderDLQSourceOffset; Value := GoStr.Itoa (Offset r) |};
   {| Key := HeaderDLQAttempts; Value := GoStr.Itoa attempts |}].

Definition dlq_message (topic : string) (r : Message) (reason errText : string) (attempts : Z) : Message :=
  {| Topic := topic; MKey := MKey r; MValue := MValue r; Partition := 0; Offset := 0;
     Headers := dlq_headers r reason errText attempts; Timestamp := 0; Attempt := 0 |}.

(** The environment of one record: for handler call [n] (from 1) its error, its
    text and whether the drain deadline had passed after it; for publish [n]
    (from 0) likewise; whether each wait was slept fully. *)
Record rec_in := {
  ri_handler : Z -> option error;
  ri_text : Z -> string;
  ri_ctx : Z -> bool;
  ri_rand : Z -> Z -> Z;
  ri_slept : Z -> bool;
  dl_send : Z -> option error;
  dl_ctx : Z -> bool;
  dl_rand : Z -> Z -> Z;
  dl_slept : Z -> bool
}.

Inductive outcome := Done | Draining | Stop (e : error) | NoFuel.

Section Process.
Context (cfg : config) (i : rec_in) (r : Message).

(** [deadLetter]'s loop at publish [n]. *)
Fixpoint dl_loop (fuel : nat) (msg : Message) (n : Z) : list event * outcome :=
  match fuel with
  | O => ([], NoFuel)
  | S fuel =>
      match dl_send i n with
      | None => ([DLQSend msg], Done)
      | Some err =>
          if dl_ctx i n then ([DLQSend msg], Draining)
          else if maxRetries cfg <=? n then ([DLQSend msg], Stop err)
          else
            let wait := backoff (dl_rand i n) n (RetryBackoff cfg) (RetryBackoffMax cfg) in
            if negb (dl_slept i n) then ([DLQSend msg; Waited wait], Draining)
            else let '(evs, o) := dl_loop fuel msg (n + 1) in (DLQSend msg :: Waited wait :: evs, o)
      end
  end.

Definition deadLetter (topic reason errText : string) (attempts : Z) : list event * outcome :=
  dl_loop (S (Z.to_nat (maxRetries cfg))) (dlq_message topic r reason errText attempts) 0.

(** The handler loop at call [attempt]: how it ended, and with which call and
    error when every retry failed. *)
Inductive handled := HDone | HDraining | HFailed (attempt : Z) (err : error) | HNoFuel.

Fixpoint handle_loop (fuel : nat) (attempt : Z) : list event * handled :=
  match fuel with
  | O => ([], HNoFuel)
  | S fuel =>
      let ev := Invoked (with_attempt r attempt) attempt in
      match ri_handler i attempt with
      | None => ([ev], HDone)
      | Some err =>
          if ri_ctx i attempt then ([ev], HDraining)
          else if IsPermanent err || (maxRetries cfg <? attempt) then ([ev], HFailed attempt err)
          else
            let wait := backoff (ri_rand i attempt) (attempt - 1) (RetryBackoff cfg) (RetryBackoffMax cfg) in
            if negb (ri_slept i attempt) then ([ev; Waited wait], HDraining)
            else let '(evs, o) := handle_loop fuel (attempt + 1) in (ev :: Waited wait :: evs, o)
      end
  end.

Definition reason_of (err : error) : string :=
  if IsPermanent err then "permanent" else "retries_exhausted".

Definition process : list event * outcome :=
  let '(evs, h) := handle_loop (S (Z.to_nat (maxRetries cfg))) 1 in
  match h with
  | HDone => (evs, Done)
  | HDraining => (evs, Draining)
  | HNoFuel => (evs, NoFuel)
  | HFailed attempt err =>
      let dlqTopic := deadLetterTopic cfg (Topic r) in
      if String.eqb dlqTopic "" then (evs, Stop (Errors.Node (TText "failed; dead-letter topic disabled") [err]))
      else
        let '(evs', o) := deadLetter dlqTopic (reason_of err) (ri_text i attempt) attempt in
        (evs ++ evs', match o with
                      | Stop dlqErr => Stop (Errors.Node (TText "could not be dead-lettered") [err; dlqErr])
                      | o => o
                      end)
  end.
End Process.

(** ** State changes *)

Definition owns (c : consumer) (r : Message) : bool := bool_decide (tp_of r ∈ owned c).

Definition markDone (c : consumer) (r : Message) : consumer :=
  {| pending := <[tp_of r := Offset r]> (pending c); owned := owned c |}.

Definition containsPartition (ps : list TopicPartition) (p : TopicPartition) : bool :=
  bool_decide (p ∈ ps).

Definition selected (only : option (list TopicPartition)) (p : TopicPartition) : bool :=
  match only with None => true | Some ps => containsPartition ps p end.

(** [commitLocked]: [only = None] is nil; [ok] is the broker's answer. *)
Definition commitLocked (c : consumer) (only : option (list TopicPartition)) (ok : bool) :
    consumer * list event :=
  let kept := filter (fun kv => kv.1 ∈ owned c) (pending c) in
  let offs := filter (fun kv => selected only kv.1 = true) kept in
  let next := (fun off => off + 1) <$> offs in
  if decide (offs = ∅) then ({| pending := kept; owned := owned c |}, [])
  else if ok then ({| pending := kept ∖ offs; owned := owned c |}, [Committed next])
  else ({| pending := kept; owned := owned c |}, [CommitFailed next]).

Definition commitPending (c : consumer) (ok : bool) : consumer * list event := commitLocked c None ok.

Definition onAssigned (c : consumer) (parts : list TopicPartition) : consumer :=
  {| pending := pending c; owned := list_to_set parts ∪ owned c |}.

Definition forgetLocked (c : consumer) (gone : list TopicPartition) : consumer :=
  {| pending := pending c; owned := owned c ∖ list_to_set gone |}.

Definition drop_pending (c : consumer) (parts : list TopicPartition) : consumer :=
  {| pending := foldr delete (pending c) parts; owned := owned c |}.

(** [parts = None] is a nil slice. *)
Definition onRevoked (c : consumer) (parts : option (list TopicPartition)) (ok : bool) : consumer * list event :=
  let '(c, evs) := commitLocked c parts ok in
  let ps := default [] parts in
  (forgetLocked (drop_pending c ps) ps, evs).

Definition onLost (c : consumer) (parts : list TopicPartition) : consumer :=
  forgetLocked (drop_pending c parts) parts.

Definition on_rebalance (c : consumer) (b : rebalance) : consumer * list event :=
  let '(c, evs) := match b with
    | Assigned ps => (onAssigned c ps, [])
    | Revoked ps ok => onRevoked c ps ok
    | Lost ps => (onLost c ps, [])
    end in
  (c, evs ++ [Rebalanced b]).

Fixpoint on_rebalances (c : consumer) (bs : list rebalance) : consumer * list event :=
  match bs with
  | [] => (c, [])
  | b :: bs =>
      let '(c, evs) := on_rebalance c b in
      let '(c, evs') := on_rebalances c bs in
      (c, evs ++ evs')
  end.

(** ** processBatch and Run *)

(** One record of a batch: group changes before its turn, whether the drain
    deadline had passed, its environment, group changes while it ran. *)
Record turn_in := {
  ti_before : list rebalance;
  ti_ctx : bool;
  ti_rec : rec_in;
  ti_during : list rebalance
}.

Fixpoint processBatch (cfg : config) (c : consumer) (records : list (Message * turn_in)) :
    consumer * list event * outcome :=
  match records with
  | [] => (c, [], Done)
  | (r, t) :: records =>
      let '(c, e0) := on_rebalances c (ti_before t) in
      if ti_ctx t then (c, e0, Draining)
      else if negb (owns c r) then
        let '(c, evs, o) := processBatch cfg c records in (c, e0 ++ evs, o)
      else
        let '(e1, o) := process cfg (ti_rec t) r in
        let '(c, e2) := on_rebalances c (ti_during t) in
        let sofar := e0 ++ Turn r :: e1 ++ e2 in
        match o with
        | Done =>
            let '(c, evs, o) := processBatch cfg (markDone c r) records in
            (c, sofar ++ Finished r :: evs, o)
        | o => (c, sofar, o)
        end
  end.

(** One iteration of [Run]. *)
Inductive poll_err := PollOK | PollFetchError | PollClosed | PollFailed (e : error).

Record poll_in := {
  pi_ctx : bool;                         (* ctx.Err() before the poll *)
  pi_rebalance : list rebalance;         (* during Poll *)
  pi_records : list (Message * turn_in);
  pi_err : poll_err;
  pi_ctx' : bool;                        (* ctx.Err() after it *)
  pi_commit : bool;                      (* the broker's answer to the commit *)
  pi_allowed : list rebalance            (* during AllowRebalance *)
}.

Inductive run_res := Continue | Stopped (err : option error) | RunNoFuel.

Definition run_iter (cfg : config) (c : consumer) (p : poll_in) : consumer * list event * run_res :=
  if pi_ctx p then (c, [], Stopped None)
  else
    let '(c, e0) := on_rebalances c (pi_rebalance p) in
    match pi_err p with
    | PollClosed => (c, e0, Stopped None)
    | PollFailed e => (c, e0, Stopped (Some e))
    | PollOK | PollFetchError =>
        if pi_ctx' p then
          let '(c, e1) := on_rebalances c (pi_allowed p) in (c, e0 ++ e1, Stopped None)
        else
          let '(c, e1, o) := processBatch cfg c (pi_records p) in
          let '(c, e2) := commitPending c (pi_commit p) in
          let '(c, e3) := on_rebalances c (pi_allowed p) in
          (c, e0 ++ Fetched (pi_records p).*1 :: e1 ++ e2 ++ e3,
           match o with
           | Done => Continue
           | Draining => Stopped None
           | Stop e => Stopped (Some e)
           | NoFuel => RunNoFuel
           end)
    end.

(** [Run] on a finite sequence of polls; the deferred Close reports the
    partitions still held as revoked. *)
Fixpoint run_loop (cfg : config) (c : consumer) (ps : list poll_in) : consumer * list event * run_res :=
  match ps with
  | [] => (c, [], Continue)
  | p :: ps =>
      let '(c, evs, res) := run_iter cfg c p in
      match res with
      | Continue => let '(c, evs', res) := run_loop cfg c ps in (c, evs ++ evs', res)
      | _ => (c, evs, res)
      end
  end.

Definition Run (cfg : config) (c : consumer) (ps : list poll_in) (close_ok : bool) :
    consumer * list event * run_res :=
  let '(c, evs, res) := run_loop cfg c ps in
  match res with
  | Continue => (c, evs, res)
  | _ => let '(c, evs') := on_rebalance c (Revoked (Some (elements (owned c))) close_ok) in
         (c, evs ++ evs', res)
  end.

Definition initial : consumer := {| pending := ∅; owned := ∅ |}.

(** ** What a trace says *)

(** The offset of the last finished record of a partition. *)
Definition fin_step (tp : TopicPartition) (o : option Z) (e : event) : option Z :=
  match e with
  | Finished r => if decide (tp_of r = tp) then Some (Offset r) else o
  | _ => o
  end.
Definition last_fin (t : list event) (tp : TopicPartition) : option Z := foldl (fin_step tp) None t.

(** The partitions owned. *)
Definition own_step (s : gset TopicPartition) (e : event) : gset TopicPartition :=
  match e with
  | Rebalanced (Assigned ps) => list_to_set ps ∪ s
  | Rebalanced (Revoked ps _) => s ∖ list_to_set (default [] ps)
  | Rebalanced (Lost ps) => s ∖ list_to_set ps
  | _ => s
  end.
Definition owned_after (t : list event) : gset TopicPartition := foldl own_step ∅ t.

(** Records take their turns one at a time: the open turn, if any; [None] when
    the order is broken. *)
Inductive turns : list event -> option Message -> Prop :=
| TurnsNil : turns [] None
| TurnsOpen (t : list event) (r : Message) : turns t None -> turns (t ++ [Turn r]) (Some r)
| TurnsClose (t : list event) (r : Message) : turns t (Some r) -> turns (t ++ [Finished r]) None
| TurnsOther (t : list event) (o : option Message) (e : event) :
    turns t o -> (forall r, e <> Turn r) -> (forall r, e <> Finished r) -> turns (t ++ [e]) o.

(** Every successful commit of a trace is of owned partitions and one past
    their last finished record. *)
Definition commits_ok (t : list event) : Prop :=
  forall t1 offs t2, t = t1 ++ Committed offs :: t2 ->
  forall tp n, offs !! tp = Some n -> last_fin t1 tp = Some (n - 1) /\ tp ∈ owned_after t1.

(** The invariant of the loop: [c] is the state, [t] the trace so far, [o] the
    record being processed. *)
Record good (c : consumer) (t : list event) (o : option Message) : Prop := {
  g_pending : forall tp off, pending c !! tp = Some off -> last_fin t tp = Some off;
  g_owned : owned c = owned_after t;
  g_turns : turns t o;
  g_commits : commits_ok t
}.

Lemma last_fin_app (t k : list event) (tp : TopicPartition) :
  last_fin (t ++ k) tp = foldl (fin_step tp) (last_fin t tp) k.
Proof. apply foldl_app. Qed.

Lemma owned_after_app (t k : list event) : owned_after (t ++ k) = foldl own_step (owned_after t) k.
Proof. apply foldl_app. Qed.

Lemma app_snoc_inv {A} (l l1 l2 : list A) (x y : A) :
  l ++ [x] = l1 ++ y :: l2 -> (l2 = [] /\ l1 = l /\ x = y) \/ exists k, l2 = k ++ [x] /\ l = l1 ++ y :: k.
Proof.
  destruct l2 as [|z l2] using rev_ind; intros H.
  - apply app_inj_tail in H as [-> ->]. by left.
  - rewrite app_comm_cons, app_assoc in H. apply app_inj_tail in H as [-> ->]. right. by exists l2.
Qed.

Lemma commits_snoc (t : list event) (e : event) :
  commits_ok t ->
  (forall offs tp n, e = Committed offs -> offs !! tp = Some n ->
     last_fin t tp = Some (n - 1) /\ tp ∈ owned_after t) ->
  commits_ok (t ++ [e]).
Proof.
  intros Ht He t1 offs t2 E tp n Hn. apply app_snoc_inv in E as [(-> & -> & ->)|(k & -> & ->)].
  - by eapply He.
  - by eapply Ht.
Qed.

(** An event that is neither a turn, an end, a commit nor a group change. *)
Definition inert (e : event) : Prop :=
  match e with Fetched _ | Invoked _ _ | Waited _ | DLQSend _ | CommitFailed _ => True | _ => False end.

Lemma good_inert (c : consumer) (t k : list event) (o : option Message) :
  Forall inert k -> good c t o -> good c (t ++ k) o.
Proof.
  intros Hk Hg. induction k as [|e k IH] using rev_ind; [by rewrite app_nil_r|].
  apply Forall_app in Hk as [Hk He]. inversion_clear He as [|? ? He' _].
  rewrite app_assoc. destruct (IH Hk) as [G1 G2 G3 G4]. split.
  - intros tp off Hp. rewrite last_fin_app, (G1 _ _ Hp). by destruct e.
  - rewrite owned_after_app, G2. by destruct e.
  - apply TurnsOther; [done| |]; intros r ->; done.
  - apply commits_snoc; [done|]. intros offs tp n ->. done.
Qed.

(** Dropping pending offsets keeps the invariant. *)
Lemma good_shrink (c c' : consumer) (t : list event) (o : option Message) :
  good c t o -> pending c' ⊆ pending c -> owned c' = owned c -> good c' t o.
Proof.
  intros [G1 G2 G3 G4] Hp Ho. split; [|congruence|done|done].
  intros tp off H. apply G1. by eapply lookup_weaken.
Qed.

Lemma good_committed (c : consumer) (t : list event) (o : option Message) (offs : gmap TopicPartition Z) :
  good c t o ->
  (forall tp n, offs !! tp = Some n -> pending c !! tp = Some (n - 1) /\ tp ∈ owned c) ->
  good c (t ++ [Committed offs]) o.
Proof.
  intros [G1 G2 G3 G4] Hoffs. split.
  - intros tp off Hp. rewrite last_fin_app. cbn. by apply G1.
  - by rewrite owned_after_app, G2.
  - by apply TurnsOther.
  - apply commits_snoc; [done|]. intros offs' tp n [= <-] Hn.
    destruct (Hoffs tp n Hn) as [H1 H2]. rewrite <- G2. split; [by apply G1|done].
Qed.

Lemma good_commit (c c' : consumer) (t evs : list event) (o : option Message)
    (only : option (list TopicPartition)) (ok : bool) :
  good c t o -> commitLocked c only ok = (c', evs) -> good c' (t ++ evs) o /\ owned c' = owned c.
Proof.
  intros Hg. unfold commitLocked.
  set (kept := filter (fun kv => kv.1 ∈ owned c) (pending c)).
  set (offs := filter (fun kv => selected only kv.1 = true) kept).
  assert (Hk : kept ⊆ pending c) by apply map_filter_subseteq.
  assert (Ho : offs ⊆ kept) by apply map_filter_subseteq.
  assert (Hgk : good {| pending := kept; owned := owned c |} t o) by by eapply good_shrink.
  destruct (decide (offs = ∅)) as [E|E]; [|destruct ok]; intros [= <- <-]; (split; [|done]).
  - by rewrite app_nil_r.
  - apply (good_shrink {| pending := kept; owned := owned c |}); cbn; [|by apply map_subseteq_difference_l|done].
    apply good_committed; [done|]. cbn. intros tp n Hn.
    apply lookup_fmap_Some in Hn as (off & <- & Hoff). rewrite Z.add_simpl_r.
    assert (Hkk : kept !! tp = Some off) by by eapply lookup_weaken.
    split; [done|]. by apply map_lookup_filter_Some in Hkk as [_ ?].
  - apply good_inert; [|done]. by repeat constructor.
Qed.

Lemma drop_pending_subset (m : gmap TopicPartition Z) (ps : list TopicPartition) : foldr delete m ps ⊆ m.
Proof.
  induction ps as [|p ps IH]; cbn; [done|]. etrans; [apply delete_subseteq|done].
Qed.

Lemma good_rebalanced (c c' : consumer) (t : list event) (o : option Message) (b : rebalance) :
  good c t o -> pending c' ⊆ pending c -> owned c' = own_step (owned c) (Rebalanced b) ->
  good c' (t ++ [Rebalanced b]) o.
Proof.
  intros [G1 G2 G3 G4] Hp Ho. split.
  - intros tp off H. rewrite last_fin_app. cbn. apply G1. by eapply lookup_weaken.
  - by rewrite owned_after_app, Ho, G2.
  - by apply TurnsOther.
  - apply commits_snoc; [done|]. intros offs tp n [=].
Qed.

Lemma good_rebalance (c c' : consumer) (t evs : list event) (o : option Message) (b : rebalance) :
  good c t o -> on_rebalance c b = (c', evs) -> good c' (t ++ evs) o.
Proof.
  intros Hg. unfold on_rebalance. destruct b as [ps|ps ok|ps].
  - intros [= <- <-]. by apply (good_rebalanced c).
  - unfold onRevoked. destruct (commitLocked c ps ok) as [c1 evs1] eqn:Ec. intros [= <- <-].
    destruct (good_commit _ _ _ _ _ _ _ Hg Ec) as [G _]. rewrite app_assoc.
    apply (good_rebalanced c1); [done|apply drop_pending_subset|done].
  - intros [= <- <-]. apply (good_rebalanced c); [done|apply drop_pending_subset|done].
Qed.

Lemma good_rebalances (c c' : consumer) (t evs : list event) (o : option Message) (bs : list rebalance) :
  good c t o -> on_rebalances c bs = (c', evs) -> good c' (t ++ evs) o.
Proof.
  revert c t evs. induction bs as [|b bs IH]; intros c t evs Hg; cbn.
  - intros [= <- <-]. by rewrite app_nil_r.
  - destruct (on_rebalance c b) as [c1 e1] eqn:E1. destruct (on_rebalances c1 bs) as [c2 e2] eqn:E2.
    intros [= <- <-]. rewrite app_assoc. eapply IH; [|done]. by eapply good_rebalance.
Qed.

(** *** process *)

Lemma dl_loop_inert (cfg : config) (i : rec_in) (fuel : nat) (msg : Message) (n : Z) :
  Forall inert (fst (dl_loop cfg i fuel msg n)).
Proof.
  revert n. induction fuel as [|fuel IH]; intros n; cbn; [constructor|].
  specialize (IH (n + 1)). destruct (dl_loop cfg i fuel msg (n + 1)).
  repeat case_match; cbn in *; by repeat constructor.
Qed.

Lemma handle_loop_inert (cfg : config) (i : rec_in) (r : Message) (fuel : nat) (n : Z) :
  Forall inert (fst (handle_loop cfg i r fuel n)).
Proof.
  revert n. induction fuel as [|fuel IH]; intros n; cbn; [constructor|].
  specialize (IH (n + 1)). destruct (handle_loop cfg i r fuel (n + 1)).
  repeat case_match; cbn in *; by repeat constructor.
Qed.

Lemma process_inert (cfg : config) (i : rec_in) (r : Message) : Forall inert (fst (process cfg i r)).
Proof.
  unfold process, deadLetter.
  pose proof (handle_loop_inert cfg i r (S (Z.to_nat (maxRetries cfg))) 1) as Hh.
  destruct (handle_loop _ _ _ _ _) as [evs [| |attempt err|]]; cbn [fst] in *; try done.
  destruct (String.eqb _ ""); [done|].
  pose proof (dl_loop_inert cfg i (S (Z.to_nat (maxRetries cfg)))
    (dlq_message (deadLetterTopic cfg (Topic r)) r (reason_of err) (ri_text i attempt) attempt) 0) as Hd.
  destruct (dl_loop _ _ _ _ _) as [evs' o]; cbn [fst] in *. by apply Forall_app.
Qed.

(** *** The loop *)

Lemma good_turn (c : consumer) (t : list event) (r : Message) :
  good c t None -> good c (t ++ [Turn r]) (Some r).
Proof.
  intros [G1 G2 G3 G4]. split.
  - intros tp off Hp. rewrite last_fin_app. cbn. by apply G1.
  - by rewrite owned_after_app, G2.
  - by apply TurnsOpen.
  - apply commits_snoc; [done|]. intros offs tp n [=].
Qed.

Lemma good_finished (c : consumer) (t : list event) (r : Message) :
  good c t (Some r) -> good (markDone c r) (t ++ [Finished r]) None.
Proof.
  intros [G1 G2 G3 G4]. split.
  - intros tp off Hp. rewrite last_fin_app. cbn in *.
    destruct (decide (tp_of r = tp)) as [<-|Hne].
    + by rewrite lookup_insert_eq in Hp.
    + rewrite lookup_insert_ne in Hp by done. by apply G1.
  - by rewrite owned_after_app.
  - by apply TurnsClose.
  - apply commits_snoc; [done|]. intros offs tp n [=].
Qed.

Lemma good_batch (cfg : config) (records : list (Message * turn_in)) (c c' : consumer)
    (t evs : list event) (o : outcome) :
  good c t None -> processBatch cfg c records = (c', evs, o) ->
  exists op, good c' (t ++ evs) op /\ (o = Done -> op = None).
Proof.
  revert c t evs. induction records as [|[r ti] records IH]; intros c t evs Hg; cbn.
  { intros [= <- <- <-]. rewrite app_nil_r. by exists None. }
  destruct (on_rebalances c (ti_before ti)) as [c0 e0] eqn:E0.
  pose proof (good_rebalances _ _ _ _ _ _ Hg E0) as Hg0.
  destruct (ti_ctx ti); [intros [= <- <- <-]; by exists None|].
  destruct (owns c0 r); cbn [negb].
  2:{ destruct (processBatch cfg c0 records) as [[c1 e1] o1] eqn:E1. intros [= <- <- <-].
      rewrite app_assoc. by eapply IH. }
  pose proof (process_inert cfg (ti_rec ti) r) as Hin.
  destruct (process cfg (ti_rec ti) r) as [e1 o1]. cbn in Hin.
  destruct (on_rebalances c0 (ti_during ti)) as [c2 e2] eqn:E2.
  assert (Hg2 : good c2 (t ++ e0 ++ Turn r :: e1 ++ e2) (Some r)).
  { replace (t ++ e0 ++ Turn r :: e1 ++ e2) with ((((t ++ e0) ++ [Turn r]) ++ e1) ++ e2)
      by (by rewrite <- !app_assoc).
    eapply good_rebalances; [|exact E2]. apply good_inert; [done|]. by apply good_turn. }
  assert (Hother : forall o', o' <> Done -> (c2, e0 ++ Turn r :: e1 ++ e2, o') = (c', evs, o) ->
    exists op, good c' (t ++ evs) op /\ (o = Done -> op = None)).
  { intros o' Ho' [= <- <- <-]. exists (Some r). split; [exact Hg2|done]. }
  destruct o1; [|by apply Hother..].
  destruct (processBatch cfg (markDone c2 r) records) as [[c3 e3] o3] eqn:E3.
  intros [= <- <- <-].
  replace (t ++ (e0 ++ Turn r :: e1 ++ e2) ++ Finished r :: e3)
    with (((t ++ e0 ++ Turn r :: e1 ++ e2) ++ [Finished r]) ++ e3) by (by rewrite <- !app_assoc).
  eapply IH; [|exact E3]. by apply good_finished.
Qed.

Lemma good_iter (cfg : config) (p : poll_in) (c c' : consumer) (t evs : list event) (res : run_res) :
  good c t None -> run_iter cfg c p = (c', evs, res) ->
  exists op, good c' (t ++ evs) op /\ (res = Continue -> op = None).
Proof.
  intros Hg. unfold run_iter. destruct (pi_ctx p).
  { intros [= <- <- <-]. rewrite app_nil_r. by exists None. }
  destruct (on_rebalances c (pi_rebalance p)) as [c0 e0] eqn:E0.
  pose proof (good_rebalances _ _ _ _ _ _ Hg E0) as Hg0.
  assert (Hmain : forall c' evs res,
    (if pi_ctx' p then let '(c, e1) := on_rebalances c0 (pi_allowed p) in (c, e0 ++ e1, Stopped None)
     else let '(c, e1, o) := processBatch cfg c0 (pi_records p) in
          let '(c, e2) := commitPending c (pi_commit p) in
          let '(c, e3) := on_rebalances c (pi_allowed p) in
          (c, e0 ++ Fetched (pi_records p).*1 :: e1 ++ e2 ++ e3, match o with Done => Continue | Draining => Stopped None
             | Stop e => Stopped (Some e) | NoFuel => RunNoFuel end)) = (c', evs, res) ->
    exists op, good c' (t ++ evs) op /\ (res = Continue -> op = None)).
  { clear c' evs res. intros c' evs res. destruct (pi_ctx' p).
    - destruct (on_rebalances c0 (pi_allowed p)) as [c1 e1] eqn:E1. intros [= <- <- <-].
      rewrite app_assoc. exists None. split; [by eapply good_rebalances|done].
    - destruct (processBatch cfg c0 (pi_records p)) as [[c1 e1] o1] eqn:E1.
      destruct (commitPending c1 (pi_commit p)) as [c2 e2] eqn:E2.
      destruct (on_rebalances c2 (pi_allowed p)) as [c3 e3] eqn:E3. intros [= <- <- <-].
      pose proof (good_inert _ _ [Fetched (pi_records p).*1] _ ltac:(by repeat constructor) Hg0) as Hgf.
      destruct (good_batch _ _ _ _ _ _ _ Hgf E1) as (op & G1 & Hop).
      destruct (good_commit _ _ _ _ _ _ _ G1 E2) as [G2 _].
      exists op. rewrite (cons_middle _ e0), !app_assoc. split; [by eapply good_rebalances|].
      destruct o1; (done || auto). }
  destruct (pi_err p); [apply Hmain|apply Hmain|..]; intros [= <- <- <-]; by exists None.
Qed.

Lemma good_run (cfg : config) (ps : list poll_in) (c c' : consumer) (t evs : list event) (res : run_res) :
  good c t None -> run_loop cfg c ps = (c', evs, res) -> exists op, good c' (t ++ evs) op.
Proof.
  revert c t evs. induction ps as [|p ps IH]; intros c t evs Hg; cbn.
  { intros [= <- <- <-]. rewrite app_nil_r. by exists None. }
  destruct (run_iter cfg c p) as [[c1 e1] r1] eqn:E1.
  destruct (good_iter _ _ _ _ _ _ _ Hg E1) as (op & G & Hop).
  destruct r1.
  - rewrite Hop in G by done. destruct (run_loop cfg c1 ps) as [[c2 e2] r2] eqn:E2.
    intros [= <- <- <-]. rewrite app_assoc. by eapply IH.
  - intros [= <- <- <-]. by exists op.
  - intros [= <- <- <-]. by exists op.
Qed.

Lemma good_initial : good initial [] None.
Proof.
  split; [|done|constructor|].
  - intros tp off H. unfold initial in H. cbn [pending] in H. by rewrite lookup_empty in H.
  - intros [|e t1] offs t2 H; discriminate.
Qed.

Lemma good_Run (cfg : config) (ps : list poll_in) (ok : bool) (c : consumer) (evs : list event) (res : run_res) :
  Run cfg initial ps ok = (c, evs, res) -> exists op, good c evs op.
Proof.
  unfold Run. destruct (run_loop cfg initial ps) as [[c1 e1] r1] eqn:E1.
  destruct (good_run _ _ _ _ _ _ _ good_initial E1) as [op G]. cbn in G.
  destruct r1; [intros [= <- <- <-]; by exists op|..];
    destruct (on_rebalance c1 _) as [c2 e2] eqn:E2; intros [= <- <- <-]; exists op;
    by eapply good_rebalance.
Qed.

(** *** Reading the invariant *)

Lemma last_fin_split (t : list event) (tp : TopicPartition) (o : Z) :
  last_fin t tp = Some o ->
  exists r u v, t = u ++ Finished r :: v /\ tp_of r = tp /\ Offset r = o /\
    forall r', Finished r' ∈ v -> tp_of r' <> tp.
Proof.
  induction t as [|e t IH] using rev_ind; [done|]. rewrite last_fin_app. cbn.
  assert (Hrec : last_fin t tp = Some o -> (forall r', e = Finished r' -> tp_of r' <> tp) ->
    exists r u v, t ++ [e] = u ++ Finished r :: v /\ tp_of r = tp /\ Offset r = o /\
      forall r', Finished r' ∈ v -> tp_of r' <> tp).
  { intros Ho He. destruct (IH Ho) as (r & u & v & -> & H1 & H2 & H3).
    exists r, u, (v ++ [e]). rewrite <- app_assoc. split_and!; [done..|].
    intros r' [Hr'|Hr'%list_elem_of_singleton]%elem_of_app; [by apply H3|by apply He]. }
  destruct e; cbn; try (intros Ho; apply Hrec; [done|by intros ? [=]]).
  destruct (decide (tp_of r = tp)) as [E|E].
  - intros [= <-]. exists r, t, []. split_and!; try done. intros r' Hr'. by apply not_elem_of_nil in Hr'.
  - intros Ho. apply Hrec; [done|]. by intros r' [= <-].
Qed.

Lemma turns_snoc (t : list event) (e : event) (o : option Message) :
  turns (t ++ [e]) o -> exists o', turns t o' /\
    match e with
    | Turn r => o' = None /\ o = Some r
    | Finished r => o' = Some r /\ o = None
    | _ => o = o'
    end.
Proof.
  intros H. inversion H as [E|t' r Ht E|t' r Ht E|t' o' e' Ht H1 H2 E].
  - by destruct t.
  - apply app_inj_tail in E as [<- <-]. by exists None.
  - apply app_inj_tail in E as [<- <-]. by exists (Some r).
  - apply app_inj_tail in E as [<- <-]. exists o. split; [done|].
    destruct e'; try done; [by destruct (H1 r)|by destruct (H2 r)].
Qed.

Lemma turns_prefix (t k : list event) (o : option Message) :
  turns (t ++ k) o -> exists o', turns t o'.
Proof.
  revert o. induction k as [|e k IH] using rev_ind; intros o; [rewrite app_nil_r; by exists o|].
  rewrite app_assoc. intros (o' & H & _)%turns_snoc. by apply (IH o').
Qed.

Lemma turns_closed (t : list event) (o : option Message) (r : Message) :
  turns t o -> Turn r ∈ t -> Finished r ∈ t \/ o = Some r.
Proof.
  intros H. induction H as [|t r' H IH|t r' H IH|t o e H IH H1 H2]; intros Hr.
  - by apply not_elem_of_nil in Hr.
  - apply elem_of_app in Hr as [Hr|[= ->]%list_elem_of_singleton]; [|by right].
    destruct (IH Hr) as [|]; [left; set_solver|done].
  - apply elem_of_app in Hr as [Hr|[=]%list_elem_of_singleton].
    destruct (IH Hr) as [|[= ->]]; left; set_solver.
  - apply elem_of_app in Hr as [Hr|Hr%list_elem_of_singleton]; [|by destruct (H1 r)].
    destruct (IH Hr) as [|]; [left; set_solver|by right].
Qed.

Lemma turns_open (t : list event) (r : Message) : turns t (Some r) -> Turn r ∈ t.
Proof.
  intros H. remember (Some r) as o eqn:E. revert r E.
  induction H as [|t r' H IH|t r' H IH|t o e H IH H1 H2]; intros r E; simplify_eq.
  - set_solver.
  - specialize (IH r eq_refl). set_solver.
Qed.

(** The turns of a partition come in strictly increasing offset order, which is
    what a driver guarantees between two assignments of it. *)
Definition ordered (tp : TopicPartition) (t : list event) : Prop :=
  forall u r1 v r2 w, t = u ++ Turn r1 :: v ++ Turn r2 :: w ->
  tp_of r1 = tp -> tp_of r2 = tp -> Offset r1 < Offset r2.

(** C3: offsets advance only past records that were handled or parked.  In any
    run, whatever the polls, rebalances, handler results and commit answers,
    each successful commit of a partition is of a partition owned at that
    moment, at one past a record that was finished (accepted by the handler or
    published to the dead-letter topic); every record whose turn came before
    that one is finished too, and no later record of that partition is finished
    yet.  So when the partition's records came in offset order, every record of
    it below the committed offset that was taken from a poll is finished. *)
Theorem commits_cover_finished_only (cfg : config) (ps : list poll_in) (close_ok : bool)
    (c : consumer) (evs : list event) (res : run_res)
    (t1 t2 : list event) (offs : gmap TopicPartition Z) (tp : TopicPartition) (n : Z) :
  Run cfg initial ps close_ok = (c, evs, res) ->
  evs = t1 ++ Committed offs :: t2 -> offs !! tp = Some n ->
  tp ∈ owned_after t1 /\
  exists r u v, t1 = u ++ Finished r :: v /\ tp_of r = tp /\ Offset r = n - 1 /\
    (forall r', Turn r' ∈ u -> Finished r' ∈ u ++ [Finished r]) /\
    (forall r', Finished r' ∈ v -> tp_of r' <> tp) /\
    (ordered tp t1 -> forall r', Turn r' ∈ t1 -> tp_of r' = tp -> Offset r' < n -> Finished r' ∈ t1).
Proof.
  intros HR -> Hn. destruct (good_Run _ _ _ _ _ _ HR) as [op [_ _ Ht Hc]].
  destruct (Hc t1 offs t2 eq_refl tp n Hn) as [Hl Ho]. split; [done|].
  apply last_fin_split in Hl as (r & u & v & -> & H1 & H2 & H3).
  exists r, u, v. apply turns_prefix in Ht as [o1 Ht].
  replace (u ++ Finished r :: v) with ((u ++ [Finished r]) ++ v) in Ht by (by rewrite <- app_assoc).
  apply turns_prefix in Ht as [o2 Ht]. pose proof Ht as (o3 & Hu & -> & ->)%turns_snoc.
  assert (Hfin : forall r', Turn r' ∈ u -> Finished r' ∈ u ++ [Finished r]).
  { intros r' Hr'. destruct (turns_closed _ _ r' Ht) as [|]; [set_solver|done|done]. }
  split_and!; try done. intros Hord r' Hr' Htp Hlt.
  apply turns_open in Hu as Hru.
  apply elem_of_app in Hr' as [Hr'|Hr']; [specialize (Hfin r' Hr'); set_solver|].
  apply elem_of_cons in Hr' as [Hr'|Hr']; [done|].
  apply list_elem_of_split in Hru as (u1 & u2 & ->). apply list_elem_of_split in Hr' as (v1 & v2 & ->).
  specialize (Hord u1 r (u2 ++ Finished r :: v1) r' v2). exfalso.
  assert (Offset r < Offset r'); [|lia]. apply Hord; [|done|done].
  by rewrite <- !app_assoc.
Qed.

(** *** A concrete run *)

Definition demo_cfg : config :=
  {| MaxRetries := 1; RetryBackoff := 200; RetryBackoffMax := 1000; DeadLetterTopic := "{topic}.dlq" |}.
Definition demo_tp : TopicPartition := {| tp_Topic := "tasks"; tp_Partition := 0 |}.
Definition demo_msg (off : Z) : Message :=
  {| Topic := "tasks"; MKey := Some "k"; MValue := "v"; Partition := 0; Offset := off; Headers := [];
     Timestamp := 0; Attempt := 0 |}.

(** The handler refuses every call; the dead-letter publish goes through. *)
Definition poison_in : rec_in := {|
  ri_handler := fun _ => Some (Errors.Node (TText "boom") []); ri_text := fun _ => "boom";
  ri_ctx := fun _ => false; ri_rand := fun _ _ => 0; ri_slept := fun _ => true;
  dl_send := fun _ => None; dl_ctx := fun _ => false; dl_rand := fun _ _ => 0; dl_slept := fun _ => true |}.
Definition ok_in : rec_in := {|
  ri_handler := fun _ => None; ri_text := fun _ => ""; ri_ctx := fun _ => false;
  ri_rand := fun _ _ => 0; ri_slept := fun _ => true; dl_send := fun _ => None;
  dl_ctx := fun _ => false; dl_rand := fun _ _ => 0; dl_slept := fun _ => true |}.
Definition demo_turn (i : rec_in) : turn_in :=
  {| ti_before := []; ti_ctx := false; ti_rec := i; ti_during := [] |}.

Definition demo_polls : list poll_in := [{|
  pi_ctx := false; pi_rebalance := [Assigned [demo_tp]];
  pi_records := [(demo_msg 5, demo_turn ok_in); (demo_msg 6, demo_turn poison_in)];
  pi_err := PollOK; pi_ctx' := false; pi_commit := true; pi_allowed := [] |}].

Definition demo_run : consumer * list event * run_res := Run demo_cfg initial demo_polls true.

Lemma commits_cover_finished_only_witness :
  demo_tp ∈ owned_after (take 11 demo_run.1.2) /\
  exists r u v, take 11 demo_run.1.2 = u ++ Finished r :: v /\ tp_of r = demo_tp /\ Offset r = 7 - 1.
Proof.
  destruct (commits_cover_finished_only demo_cfg demo_polls true demo_run.1.1 demo_run.1.2 demo_run.2
    (take 11 demo_run.1.2) (drop 12 demo_run.1.2) {[demo_tp := 7]} demo_tp 7) as (H1 & r & u & v & H2 & H3 & H4 & _).
  - vm_compute. reflexivity.
  - vm_compute. reflexivity.
  - vm_compute. reflexivity.
  - split; [exact H1|]. exists r, u, v. split; [exact H2|]. split; [exact H3|exact H4].
Defined.

(** *** process *)

Definition invocations (l : list event) : list Z :=
  omap (fun e => match e with Invoked _ n => Some n | _ => None end) l.
Definition publishes (l : list event) : list Message :=
  omap (fun e => match e with DLQSend m => Some m | _ => None end) l.

Lemma invocations_app (l k : list event) : invocations (l ++ k) = invocations l ++ invocations k.
Proof. apply omap_app. Qed.
Lemma publishes_app (l k : list event) : publishes (l ++ k) = publishes l ++ publishes k.
Proof. apply omap_app. Qed.

(** Calls [a] to [n], each but the last failing with an error worth a retry. *)
Definition retried (i : rec_in) (a n : Z) : Prop :=
  forall k, a <= k < n -> exists e, ri_handler i k = Some e /\ IsPermanent e = false.

Lemma handle_loop_spec (cfg : config) (i : rec_in) (r : Message) (fuel : nat) (a : Z) :
  1 <= a <= maxRetries cfg + 1 -> maxRetries cfg + 1 - a < Z.of_nat fuel ->
  let '(evs, h) := handle_loop cfg i r fuel a in
  h <> HNoFuel /\ publishes evs = [] /\
  exists n, a <= n <= maxRetries cfg + 1 /\ invocations evs = seqZ a (n - a + 1) /\ retried i a n /\
    match h with
    | HDone => ri_handler i n = None
    | HFailed n' err => n' = n /\ ri_handler i n = Some err /\
        (IsPermanent err = true \/ n = maxRetries cfg + 1)
    | _ => True
    end.
Proof.
  revert a. induction fuel as [|fuel IH]; intros a Ha Hf; [lia|]. cbn [handle_loop].
  assert (Hone : invocations [Invoked (with_attempt r a) a] = seqZ a (a - a + 1)).
  { by replace (a - a + 1) with 1 by lia. }
  assert (Hret : retried i a a) by (intros k Hk; lia).
  destruct (ri_handler i a) as [err|] eqn:Eh.
  2:{ split; [done|]. split; [done|]. exists a. split_and!; (lia || done). }
  destruct (ri_ctx i a).
  { split; [done|]. split; [done|]. exists a. split_and!; (lia || done). }
  destruct (IsPermanent err) eqn:Ep; cbn [orb].
  { split; [done|]. split; [done|]. exists a. split_and!; (lia || done || by left). }
  destruct (Z.ltb_spec (maxRetries cfg) a) as [Hlt|Hge].
  { split; [done|]. split; [done|]. exists a. split_and!; (lia || done || (right; lia)). }
  destruct (ri_slept i a); cbn [negb].
  2:{ split; [done|]. split; [done|]. exists a. split_and!; (lia || done). }
  specialize (IH (a + 1) ltac:(lia) ltac:(lia)).
  destruct (handle_loop cfg i r fuel (a + 1)) as [evs h].
  destruct IH as (Hh & Hp & n & Hn & Hi & Hr & Hm). split; [done|]. split; [exact Hp|].
  exists n. split; [lia|]. split.
  { change (a :: invocations evs = seqZ a (n - a + 1)). rewrite Hi. rewrite (seqZ_cons a (n - a + 1)) by lia. f_equal. f_equal; lia. }
  split; [|done]. intros k Hk. destruct (decide (k = a)) as [->|]; [by exists err|]. apply Hr. lia.
Qed.

Lemma dl_loop_spec (cfg : config) (i : rec_in) (msg : Message) (fuel : nat) (a : Z) :
  0 <= a <= maxRetries cfg -> maxRetries cfg - a < Z.of_nat fuel ->
  let '(evs, o) := dl_loop cfg i fuel msg a in
  o <> NoFuel /\ invocations evs = [] /\
  exists k, (1 <= k)%nat /\ Z.of_nat k <= maxRetries cfg - a + 1 /\ publishes evs = replicate k msg /\
    match o with
    | Done => dl_send i (a + Z.of_nat k - 1) = None
    | Stop e => dl_send i (a + Z.of_nat k - 1) = Some e /\ a + Z.of_nat k - 1 = maxRetries cfg
    | _ => True
    end.
Proof.
  revert a. induction fuel as [|fuel IH]; intros a Ha Hf; [lia|]. cbn [dl_loop].
  replace (a + Z.of_nat 1 - 1) with a by lia.
  destruct (dl_send i a) as [err|] eqn:Es.
  2:{ split; [done|]. split; [done|]. exists 1%nat. split_and!; [lia..|done|]. by replace (a + Z.of_nat 1 - 1) with a by lia. }
  destruct (dl_ctx i a).
  { split; [done|]. split; [done|]. exists 1%nat. split_and!; (lia || done). }
  destruct (Z.leb_spec (maxRetries cfg) a).
  { split; [done|]. split; [done|]. exists 1%nat. split_and!; [lia..|done| |lia].
    by replace (a + Z.of_nat 1 - 1) with a by lia. }
  destruct (dl_slept i a); cbn [negb].
  2:{ split; [done|]. split; [done|]. exists 1%nat. split_and!; (lia || done). }
  specialize (IH (a + 1) ltac:(lia) ltac:(lia)).
  destruct (dl_loop cfg i fuel msg (a + 1)) as [evs o].
  destruct IH as (Ho & Hi & k & Hk1 & Hk2 & Hp & Hm). split; [done|]. split; [exact Hi|].
  exists (S k). split_and!; [lia..| |].
  - change (msg :: publishes evs = replicate (S k) msg). by rewrite Hp.
  - replace (a + Z.of_nat (S k) - 1) with (a + 1 + Z.of_nat k - 1) by lia. done.
Qed.


(** *** The parked record *)

Definition plain (hs : list Header) : list Header := filter (fun h => is_dlq_key (Key h) = false) hs.

Lemma headerValue_app (hs ks : list Header) (k : string) :
  headerValue (hs ++ ks) k = match headerValue hs k with Some v => Some v | None => headerValue ks k end.
Proof. induction hs as [|h hs IH]; cbn; [done|]. by destruct (String.eqb (Key h) k). Qed.

Lemma plain_lookup (hs : list Header) (k : string) :
  headerValue (plain hs) k = if is_dlq_key k then None else headerValue hs k.
Proof.
  induction hs as [|h hs IH]; [by destruct (is_dlq_key k)|]. unfold plain in *. rewrite filter_cons.
  destruct (decide (is_dlq_key (Key h) = false)) as [E|E]; cbn [headerValue].
  - destruct (String.eqb_spec (Key h) k) as [<-|Hne]; [by rewrite E|done].
  - rewrite IH. destruct (String.eqb_spec (Key h) k) as [<-|Hne]; [|done].
    by destruct (is_dlq_key (Key h)).
Qed.

Lemma plain_dlq (r : Message) (reason errText : string) (attempts : Z) :
  plain (dlq_headers r reason errText attempts) = plain (Headers r).
Proof.
  unfold plain, dlq_headers. rewrite filter_app. cbn. rewrite app_nil_r.
  rewrite list_filter_filter_l; [done|]. done.
Qed.

(** The record parked on the dead-letter topic keeps the key, the value and
    every other header of the original in order; looking up a dlq_* header gives
    the fresh value (also when the record was itself read from a dead-letter
    topic), any other header what it was; the source offset reads back as the
    number; parking it again does not grow the headers. *)
Theorem dlq_record_faithful (topic : string) (r : Message) (reason errText : string) (attempts : Z)
    (again reason' errText' : string) (attempts' : Z) :
  let m := dlq_message topic r reason errText attempts in
  Topic m = topic /\ MKey m = MKey r /\ MValue m = MValue r /\
  plain (Headers m) = plain (Headers r) /\
  (forall k, is_dlq_key k = false -> Message_Header m k = Message_Header r k) /\
  Message_Header m HeaderDLQReason = Some reason /\
  Message_Header m HeaderDLQSourceTopic = Some (Topic r) /\
  Message_Header m HeaderDLQSourcePartition = Some (GoStr.Itoa (Partition r)) /\
  Message_Header m HeaderDLQSourceOffset = Some (GoStr.Itoa (Offset r)) /\
  (Go.in_int64 (Offset r) -> GoStr.ParseInt (GoStr.bytes (GoStr.Itoa (Offset r))) = inl (Offset r)) /\
  Message_Header m HeaderDLQAttempts = Some (GoStr.Itoa attempts) /\
  length (Headers (dlq_message again m reason' errText' attempts')) = length (Headers m).
Proof.
  cbv zeta. unfold Message_Header. cbn [Headers dlq_message Topic MKey MValue].
  assert (Hl : forall k, headerValue (dlq_headers r reason errText attempts) k =
    match headerValue (plain (Headers r)) k with
    | Some v => Some v
    | None => headerValue [{| Key := HeaderDLQReason; Value := reason |};
       {| Key := HeaderDLQError; Value := String.substring 0 maxDLQErrorBytes errText |};
       {| Key := HeaderDLQSourceTopic; Value := Topic r |};
       {| Key := HeaderDLQSourcePartition; Value := GoStr.Itoa (Partition r) |};
       {| Key := HeaderDLQSourceOffset; Value := GoStr.Itoa (Offset r) |};
       {| Key := HeaderDLQAttempts; Value := GoStr.Itoa attempts |}] k
    end) by (intros k; apply headerValue_app).
  split_and!; try done; try (rewrite Hl, plain_lookup; done).
  - apply plain_dlq.
  - intros k Hk. rewrite Hl, plain_lookup, Hk. destruct (headerValue (Headers r) k); [done|].
    unfold is_dlq_key in Hk. cbn [existsb] in Hk. repeat (apply orb_false_elim in Hk as [? Hk]).
    cbn [headerValue Key]. rewrite !(String.eqb_sym _ k). by repeat match goal with H : _ = false |- _ => rewrite H; clear H end.
  - intros Ho. unfold GoStr.Itoa. rewrite GoStr.bytes_of_bytes by (by apply GoStr.FormatInt_bytes).
    by apply GoStr.ParseInt_FormatInt.
  - unfold dlq_headers at 1. cbn [Headers dlq_message]. rewrite length_app.
    change (filter _ (dlq_headers r reason errText attempts)) with
      (plain (dlq_headers r reason errText attempts)).
    rewrite plain_dlq. unfold dlq_headers. by rewrite length_app.
Qed.

End KafkaConsumer.
