(* ===== verification/Group.v ===== *)
(** Members of a consumer group (libs/kafka consumer.go, several processes of a service):
    what their loops commit together, over restarts and rebalances.

    A group's history is the sequence of what its members do, each event with the member it
    is of; a process that restarts is another member. The broker's part is the committed
    offset of each partition, where the fetching of a partition resumes when it is assigned. *)
From S2P Require Import Prelude KafkaMessage KafkaConsumer.

Module Group.
Import KafkaMessage KafkaConsumer.

Notation history := (list (nat * event)).

(** What member [m] did. *)
Definition by_member (m : nat) (t : history) : list event := (filter (fun x => x.1 = m) t).*2.

Lemma by_member_app (m : nat) (t k : history) : by_member m (t ++ k) = by_member m t ++ by_member m k.
Proof. unfold by_member. by rewrite filter_app, fmap_app. Qed.

Lemma by_member_same (m : nat) (e : event) : by_member m [(m, e)] = [e].
Proof. unfold by_member. by rewrite filter_cons_True. Qed.

Lemma by_member_other (m m' : nat) (e : event) : m' <> m -> by_member m [(m', e)] = [].
Proof. intros H. unfold by_member. by rewrite filter_cons_False. Qed.

Lemma elem_of_by_member (m : nat) (e : event) (t : history) : e ∈ by_member m t <-> (m, e) ∈ t.
Proof.
  unfold by_member. rewrite list_elem_of_fmap. split.
  - intros ([m' e'] & -> & [Hm Hin]%list_elem_of_filter). cbn in Hm. by subst.
  - intros H. exists (m, e). split; [done|]. by apply list_elem_of_filter.
Qed.

(** A driver reports assignments within [Poll], [AllowRebalance] and [Close], never while a
    batch is processed (kgo.BlockRebalanceOnPoll; librdkafka's callbacks run within Poll). A
    partition may be taken away at any time. *)
Definition takes (b : rebalance) : Prop := match b with Assigned _ => False | _ => True end.
Definition calm (p : poll_in) : Prop := Forall (fun x => Forall takes (ti_before x.2 ++ ti_during x.2)) (pi_records p).

(** Every member runs the loop over such a driver: its events are the beginning of a run. *)
Definition members_run (cfg : config) (t : history) : Prop :=
  forall m, exists ps ok c rest res, Forall calm ps /\ Run cfg initial ps ok = (c, by_member m t ++ rest, res).

(** ** The loop leaves nothing out *)

(** What is left of the batch: the records a poll returned and that have not had their turn.
    A turn goes to the next of them whose partition is held; another poll, or an assignment,
    comes when no record of a partition held is left. [None] is a loop that is over. *)
Definition clean (t : list event) (todo : list Message) : Prop := Forall (fun r => tp_of r ∉ owned_after t) todo.
Definition idle (e : event) : Prop := match e with Fetched _ | Turn _ | Rebalanced _ => False | _ => True end.

Inductive paced : list event -> option (list Message) -> Prop :=
| PacedNil : paced [] (Some [])
| PacedFetch (t : list event) (todo rs : list Message) : paced t (Some todo) -> clean t todo -> paced (t ++ [Fetched rs]) (Some rs)
| PacedTurn (t : list event) (skipped todo : list Message) (r : Message) :
    paced t (Some (skipped ++ r :: todo)) -> clean t skipped -> tp_of r ∈ owned_after t -> paced (t ++ [Turn r]) (Some todo)
| PacedAssign (t : list event) (todo : list Message) (ps : list TopicPartition) :
    paced t (Some todo) -> clean t todo -> paced (t ++ [Rebalanced (Assigned ps)]) (Some [])
| PacedTake (t : list event) (st : option (list Message)) (b : rebalance) : paced t st -> takes b -> paced (t ++ [Rebalanced b]) st
| PacedIdle (t : list event) (st : option (list Message)) (e : event) : paced t st -> idle e -> paced (t ++ [e]) st
| PacedOver (t : list event) (todo : list Message) : paced t (Some todo) -> paced t None
| PacedLate (t : list event) (ps : list TopicPartition) : paced t None -> paced (t ++ [Rebalanced (Assigned ps)]) None.

(** Undoing one step. *)
Definition paced_step (t : list event) (st : option (list Message)) (e : event) (st' : option (list Message)) : Prop :=
  match e with
  | Fetched rs => (forall l, st' = Some l -> l = rs) /\ exists todo, st = Some todo /\ clean t todo
  | Turn r => exists skipped todo, st = Some (skipped ++ r :: todo) /\ clean t skipped /\ tp_of r ∈ owned_after t /\ (forall l, st' = Some l -> l = todo)
  | Rebalanced (Assigned _) => (forall l, st' = Some l -> l = [] /\ exists todo, st = Some todo /\ clean t todo)
  | _ => forall l, st' = Some l -> st = Some l
  end.

Lemma paced_snoc (t : list event) (e : event) (st' : option (list Message)) :
  paced (t ++ [e]) st' -> exists st, paced t st /\ paced_step t st e st'.
Proof.
  intros H. remember (t ++ [e]) as te eqn:E. revert t e E.
  induction H as [|t0 todo rs H IH Hc|t0 sk todo r H IH Hc Ho|t0 todo ps H IH Hc|t0 st b H IH Hb|t0 st e0 H IH He|t0 todo H IH|t0 ps H IH]; intros t e E;
    [by destruct t|..|apply app_inj_tail in E as [<- <-]; exists None; by split];
    try (apply app_inj_tail in E as [<- <-]).
  - exists (Some todo). split; [done|]. split; [by intros l [= <-]|eauto].
  - exists (Some (sk ++ r :: todo)). split; [done|]. exists sk, todo. split_and!; try done. by intros l [= <-].
  - exists (Some todo). split; [done|]. intros l [= <-]. eauto.
  - exists st. split; [done|]. destruct b; [done|by intros l ->..].
  - exists st. split; [done|]. destruct e0; try done; by intros l ->.
  - destruct (IH t e E) as (st & Hst & Hs). exists st. split; [done|]. destruct e as [| | | | | | | |[]]; cbn in *; try done.
    + destruct Hs as [_ Hs]. split; [done|done].
    + destruct Hs as (sk & td & -> & Hcl & Ho & _). by exists sk, td.
Qed.

Lemma paced_prefix (t k : list event) (st : option (list Message)) : paced (t ++ k) st -> exists st', paced t st'.
Proof.
  revert st. induction k as [|e k IH] using rev_ind; intros st; [rewrite app_nil_r; eauto|].
  rewrite app_assoc. intros (st' & H & _)%paced_snoc. by eapply IH.
Qed.

Lemma paced_turn (u v : list event) (r : Message) (st : option (list Message)) : paced (u ++ Turn r :: v) st ->
  exists skipped todo, paced u (Some (skipped ++ r :: todo)) /\ clean u skipped /\ tp_of r ∈ owned_after u.
Proof.
  change (Turn r :: v) with ([Turn r] ++ v). rewrite app_assoc.
  intros (st' & (st0 & H & sk & td & -> & Hc & Ho & _)%paced_snoc)%paced_prefix. eauto.
Qed.

Lemma paced_idles (t k : list event) (st : option (list Message)) : Forall idle k -> paced t st -> paced (t ++ k) st.
Proof.
  induction k as [|e k IH] using rev_ind; [by rewrite app_nil_r|]. intros [Hk He]%Forall_app Ht. inversion_clear He as [|? ? He' _].
  rewrite app_assoc. apply PacedIdle; auto.
Qed.

Lemma commit_idle (c c' : consumer) (only : option (list TopicPartition)) (ok : bool) (evs : list event) :
  commitLocked c only ok = (c', evs) -> Forall idle evs.
Proof. unfold commitLocked. destruct (decide _); [|destruct ok]; intros [= _ <-]; by repeat constructor. Qed.

Lemma rebalance_idle (c c' : consumer) (b : rebalance) (evs : list event) :
  on_rebalance c b = (c', evs) -> exists e0, evs = e0 ++ [Rebalanced b] /\ Forall idle e0.
Proof.
  unfold on_rebalance, onRevoked. destruct b as [ps|ps ok|ps]; [intros [= _ <-]; by exists []| |intros [= _ <-]; by exists []].
  destruct (commitLocked c ps ok) as [c1 e1] eqn:E. intros [= _ <-]. exists e1. split; [done|by eapply commit_idle].
Qed.

Lemma owned_idle (t k : list event) : Forall idle k -> owned_after (t ++ k) = owned_after t.
Proof.
  rewrite owned_after_app. generalize (owned_after t) as s. intros s H. induction H as [|e k He _ IH]; [done|]. cbn.
  replace (own_step s e) with s; [done|]. by destruct e.
Qed.

Lemma owned_takes (t : list event) (b : rebalance) : takes b -> owned_after (t ++ [Rebalanced b]) ⊆ owned_after t.
Proof. rewrite owned_after_app. destruct b; cbn; [done|set_solver..]. Qed.

Lemma clean_less (t t' : list event) (todo : list Message) : owned_after t' ⊆ owned_after t -> clean t todo -> clean t' todo.
Proof. intros H Hc. eapply Forall_impl; [exact Hc|]. set_solver. Qed.

(** Partitions taken away leave the batch as it is. *)
Lemma paced_takes (bs : list rebalance) (c c' : consumer) (t evs : list event) (st : option (list Message)) :
  Forall takes bs -> on_rebalances c bs = (c', evs) -> paced t st -> paced (t ++ evs) st /\ owned_after (t ++ evs) ⊆ owned_after t.
Proof.
  revert c t evs. induction bs as [|b bs IH]; intros c t evs Hb; cbn; [intros [= <- <-] Ht; by rewrite app_nil_r|].
  inversion_clear Hb as [|? ? H1 H2]. destruct (on_rebalance c b) as [c1 e1] eqn:E1, (on_rebalances c1 bs) as [c2 e2] eqn:E2. intros [= <- <-] Ht.
  apply rebalance_idle in E1 as (e0 & -> & Hi). rewrite (app_assoc t).
  destruct (IH c1 (t ++ e0 ++ [Rebalanced b]) e2 H2 E2) as [H3 H4].
  - rewrite app_assoc. apply PacedTake; [by apply paced_idles|done].
  - split; [done|]. etrans; [exact H4|]. rewrite app_assoc. etrans; [by apply owned_takes|]. by rewrite owned_idle.
Qed.

(** Between batches any group change is in order; when the loop is over, likewise. *)
Lemma paced_rebalance (b : rebalance) (c c' : consumer) (t evs : list event) (todo : list Message) :
  on_rebalance c b = (c', evs) -> paced t (Some todo) -> clean t todo -> exists todo', paced (t ++ evs) (Some todo') /\ clean (t ++ evs) todo'.
Proof.
  intros (e0 & -> & Hi)%rebalance_idle Ht Hc. rewrite app_assoc. pose proof (paced_idles _ _ _ Hi Ht) as H0.
  assert (Hc0 : clean (t ++ e0) todo) by (eapply clean_less; [|done]; by rewrite owned_idle).
  destruct b as [ps|ps ok|ps]; [exists []; split; [by eapply PacedAssign|constructor]|..];
    exists todo; (split; [by apply PacedTake|]); eapply clean_less; [by apply owned_takes|done|by apply owned_takes|done].
Qed.

Lemma paced_rebalances (bs : list rebalance) (c c' : consumer) (t evs : list event) (todo : list Message) :
  on_rebalances c bs = (c', evs) -> paced t (Some todo) -> clean t todo -> exists todo', paced (t ++ evs) (Some todo') /\ clean (t ++ evs) todo'.
Proof.
  revert c t evs todo. induction bs as [|b bs IH]; intros c t evs todo; cbn; [intros [= _ <-]; rewrite app_nil_r; eauto|].
  destruct (on_rebalance c b) as [c1 e1] eqn:E1, (on_rebalances c1 bs) as [c2 e2] eqn:E2. intros [= <- <-] Ht Hc.
  destruct (paced_rebalance _ _ _ _ _ _ E1 Ht Hc) as (todo1 & H1 & Hc1). rewrite app_assoc. by eapply IH.
Qed.

Lemma paced_over (bs : list rebalance) (c c' : consumer) (t evs : list event) :
  on_rebalances c bs = (c', evs) -> paced t None -> paced (t ++ evs) None.
Proof.
  revert c t evs. induction bs as [|b bs IH]; intros c t evs; cbn; [intros [= _ <-]; by rewrite app_nil_r|].
  destruct (on_rebalance c b) as [c1 e1] eqn:E1, (on_rebalances c1 bs) as [c2 e2] eqn:E2. intros [= <- <-] Ht. rewrite app_assoc.
  eapply IH; [done|]. apply rebalance_idle in E1 as (e0 & -> & Hi). rewrite app_assoc. pose proof (paced_idles _ _ _ Hi Ht) as H0.
  destruct b; [by apply PacedLate|by apply PacedTake..].
Qed.

(** [process] changes neither. *)
Lemma process_idle (cfg : config) (i : rec_in) (r : Message) : Forall idle (process cfg i r).1.
Proof.
  assert (Hh : forall fuel n, Forall idle (handle_loop cfg i r fuel n).1).
  { induction fuel as [|fuel IH]; intros n; cbn; [constructor|]. specialize (IH (n + 1)).
    destruct (handle_loop cfg i r fuel (n + 1)). repeat case_match; cbn in *; by repeat constructor. }
  assert (Hd : forall msg fuel n, Forall idle (dl_loop cfg i fuel msg n).1).
  { intros msg. induction fuel as [|fuel IH]; intros n; cbn; [constructor|]. specialize (IH (n + 1)).
    destruct (dl_loop cfg i fuel msg (n + 1)). repeat case_match; cbn in *; by repeat constructor. }
  unfold process. specialize (Hh (S (Z.to_nat (maxRetries cfg))) 1). destruct (handle_loop _ _ _ _ _) as [evs []]; cbn [fst] in *; try done.
  destruct (String.eqb _ _); [done|]. unfold deadLetter.
  specialize (Hd (dlq_message (deadLetterTopic cfg (Topic r)) r (reason_of err) (ri_text i attempt) attempt) (S (Z.to_nat (maxRetries cfg))) 0).
  destruct (dl_loop _ _ _ _ _) as [evs' o]. cbn [fst] in *. by apply Forall_app.
Qed.

(** A batch that is done has given every record of a partition still held its turn. *)
Lemma paced_batch (cfg : config) (records : list (Message * turn_in)) (skipped : list Message) (c c' : consumer) (t evs : list event) (o : outcome) :
  Forall (fun x => Forall takes (ti_before x.2 ++ ti_during x.2)) records -> good c t None ->
  paced t (Some (skipped ++ records.*1)) -> clean t skipped -> processBatch cfg c records = (c', evs, o) ->
  paced (t ++ evs) None /\ (o = Done -> exists todo, paced (t ++ evs) (Some todo) /\ clean (t ++ evs) todo).
Proof.
  revert skipped c t evs o. induction records as [|[r ti] records IH]; intros skipped c t evs o Hcalm Hg Ht Hc; cbn.
  { intros [= _ <- <-]. rewrite app_nil_r in *. split; [by eapply PacedOver|eauto]. }
  inversion_clear Hcalm as [|? ? Hti Hcalm']. apply Forall_app in Hti as [Hb Hd].
  destruct (on_rebalances c (ti_before ti)) as [c0 e0] eqn:E0. pose proof (good_rebalances _ _ _ _ _ _ Hg E0) as Hg0.
  destruct (paced_takes _ _ _ _ _ _ Hb E0 Ht) as [H0 Hless]. pose proof (clean_less _ _ _ Hless Hc) as Hc0.
  destruct (ti_ctx ti); [intros [= _ <- <-]; split; [by eapply PacedOver|done]|].
  pose proof (g_owned _ _ _ Hg0) as Hown. destruct (owns c0 r) eqn:Hr; cbn [negb]; unfold owns in Hr.
  2:{ apply bool_decide_eq_false in Hr. destruct (processBatch cfg c0 records) as [[c1 e1] o1] eqn:E1. intros [= <- <- <-]. rewrite app_assoc.
      eapply (IH (skipped ++ [r])); [done|done|by rewrite <- app_assoc| |done]. apply Forall_app. split; [done|]. repeat constructor. by rewrite <- Hown. }
  apply bool_decide_eq_true in Hr. pose proof (process_idle cfg (ti_rec ti) r) as Hi. pose proof (process_inert cfg (ti_rec ti) r) as Hin.
  destruct (process cfg (ti_rec ti) r) as [e1 o1]. cbn [fst] in Hi, Hin.
  destruct (on_rebalances c0 (ti_during ti)) as [c2 e2] eqn:E2.
  assert (H1 : paced (((t ++ e0) ++ [Turn r]) ++ e1) (Some records.*1)).
  { apply paced_idles; [done|]. eapply PacedTurn; [exact H0|done|by rewrite <- Hown]. }
  pose proof (good_rebalances _ _ _ _ _ _ (good_inert _ _ _ _ Hin (good_turn _ _ r Hg0)) E2) as Hg2.
  destruct (paced_takes _ _ _ _ _ _ Hd E2 H1) as [H2 _]. rewrite <- !app_assoc in H2, Hg2.
  destruct o1; try (intros [= _ <- <-]; split; [by eapply PacedOver|done]).
  destruct (processBatch cfg (markDone c2 r) records) as [[c3 e3] o3] eqn:E3. intros [= <- <- <-].
  replace (t ++ (e0 ++ Turn r :: e1 ++ e2) ++ Finished r :: e3) with (((t ++ e0 ++ [Turn r] ++ e1 ++ e2) ++ [Finished r]) ++ e3) by (rewrite <- !app_assoc; cbn; by rewrite <- !app_assoc).
  eapply (IH []); [done|by apply good_finished|by apply PacedIdle|constructor|done].
Qed.

Lemma paced_iter (cfg : config) (p : poll_in) (c c' : consumer) (t evs : list event) (todo : list Message) (res : run_res) :
  calm p -> good c t None -> paced t (Some todo) -> clean t todo -> run_iter cfg c p = (c', evs, res) ->
  paced (t ++ evs) None /\ (res = Continue -> exists todo, paced (t ++ evs) (Some todo) /\ clean (t ++ evs) todo).
Proof.
  intros Hcalm Hg Ht Hc. unfold run_iter. destruct (pi_ctx p); [intros [= _ <- <-]; rewrite app_nil_r; split; [by eapply PacedOver|done]|].
  destruct (on_rebalances c (pi_rebalance p)) as [c0 e0] eqn:E0. pose proof (good_rebalances _ _ _ _ _ _ Hg E0) as Hg0.
  destruct (paced_rebalances _ _ _ _ _ _ E0 Ht Hc) as (todo0 & H0 & Hc0). pose proof (PacedOver _ _ H0) as Hover.
  destruct (processBatch cfg c0 (pi_records p)) as [[c1 e1] o1] eqn:E1. destruct (commitPending c1 (pi_commit p)) as [c2 e2] eqn:E2.
  destruct (on_rebalances c2 (pi_allowed p)) as [c3 e3] eqn:E3. destruct (on_rebalances c0 (pi_allowed p)) as [c4 e4] eqn:E4.
  assert (Hearly : paced (t ++ e0 ++ e4) None) by (rewrite app_assoc; by eapply paced_over).
  assert (Hall : paced (t ++ e0 ++ Fetched (pi_records p).*1 :: e1 ++ e2 ++ e3) None /\
    (o1 = Done -> exists todo, paced (t ++ e0 ++ Fetched (pi_records p).*1 :: e1 ++ e2 ++ e3) (Some todo) /\ clean (t ++ e0 ++ Fetched (pi_records p).*1 :: e1 ++ e2 ++ e3) todo)).
  { rewrite (cons_middle _ e0), !app_assoc. pose proof (good_inert _ _ [Fetched (pi_records p).*1] _ ltac:(by repeat constructor) Hg0) as Hgf.
    destruct (paced_batch cfg (pi_records p) [] _ _ _ _ _ Hcalm Hgf (PacedFetch _ _ _ H0 Hc0) (Forall_nil_2 _) E1) as [H1 Hdone].
    pose proof (commit_idle _ _ _ _ _ E2) as Hi. split.
    - eapply paced_over; [done|]. by apply paced_idles.
    - intros Ho. destruct (Hdone Ho) as (todo1 & Ht1 & Hc1). eapply paced_rebalances; [done|by apply paced_idles|].
      eapply clean_less; [|done]. by rewrite owned_idle. }
  destruct (pi_err p), (pi_ctx' p); intros [= _ <- <-]; (split; [done || apply Hall|]); try done; intros Hr; apply Hall; by destruct o1.
Qed.

Lemma paced_Run (cfg : config) (ps : list poll_in) (ok : bool) (c : consumer) (evs : list event) (res : run_res) :
  Forall calm ps -> Run cfg initial ps ok = (c, evs, res) -> paced evs None.
Proof.
  assert (Hloop : forall c t todo c' evs res, Forall calm ps -> good c t None -> paced t (Some todo) -> clean t todo ->
    run_loop cfg c ps = (c', evs, res) -> paced (t ++ evs) None).
  { clear. induction ps as [|p ps IH]; intros c t todo c' evs res Hcalm Hg Ht Hc; cbn; [intros [= _ <- _]; rewrite app_nil_r; by eapply PacedOver|].
    inversion_clear Hcalm as [|? ? Hp Hps]. destruct (run_iter cfg c p) as [[c1 e1] r1] eqn:E1. destruct (run_loop cfg c1 ps) as [[c2 e2] r2] eqn:E2.
    destruct (good_iter _ _ _ _ _ _ _ Hg E1) as (op & G & Hop). destruct (paced_iter _ _ _ _ _ _ _ _ Hp Hg Ht Hc E1) as [Hover Hnext].
    destruct r1; intros [= _ <- _]; [|done..]. rewrite Hop in G by done. destruct (Hnext eq_refl) as (todo1 & H1 & Hc1). rewrite app_assoc. by eapply IH. }
  intros Hcalm. unfold Run. destruct (run_loop cfg initial ps) as [[c1 e1] r1] eqn:E1.
  pose proof (Hloop initial [] [] c1 e1 r1 Hcalm good_initial PacedNil (Forall_nil_2 _) E1) as H1. cbn in H1.
  destruct (on_rebalance c1 _) as [c2 e2] eqn:E2. destruct r1; intros [= _ <- _]; [done|..];
    (eapply (paced_over [_]); [cbn; rewrite E2; cbn; by rewrite app_nil_r|done]).
Qed.

Lemma member_paced (cfg : config) (t : history) (m : nat) : members_run cfg t -> exists st, paced (by_member m t) st.
Proof. intros H. destruct (H m) as (ps & ok & c & rest & res & Hcalm & HR). eapply paced_prefix, paced_Run; [done|exact HR]. Qed.

(** A record whose turn comes was returned by a poll. *)
Lemma todo_fetched (t : list event) (st : option (list Message)) (todo : list Message) (r : Message) :
  paced t st -> st = Some todo -> r ∈ todo -> exists rs, Fetched rs ∈ t /\ r ∈ rs.
Proof.
  intros H. revert todo. induction H as [|t0 td rs H IH Hc|t0 sk td r0 H IH Hc Ho|t0 td ps H IH Hc|t0 st b H IH Hb|t0 st e0 H IH He|t0 td H IH|t0 ps H IH];
    intros todo E Hr; try done; try injection E as <-; try (by apply elem_of_nil in Hr).
  - exists rs. set_solver.
  - destruct (IH _ eq_refl) as (rs & H1 & H2); [set_solver|]. exists rs. set_solver.
  - destruct (IH _ E Hr) as (rs & H1 & H2). exists rs. set_solver.
  - destruct (IH _ E Hr) as (rs & H1 & H2). exists rs. set_solver.
Qed.

Lemma turn_fetched (cfg : config) (t : history) (m : nat) (r : Message) :
  members_run cfg t -> (m, Turn r) ∈ t -> exists rs, (m, Fetched rs) ∈ t /\ r ∈ rs.
Proof.
  intros Hrun Hin%elem_of_by_member. destruct (member_paced cfg t m Hrun) as [st Hst].
  apply list_elem_of_split in Hin as (u & v & E). rewrite E in Hst. destruct (paced_turn _ _ _ _ Hst) as (sk & todo & Hp & _).
  destruct (todo_fetched _ _ _ r Hp eq_refl) as (rs & H1 & H2); [set_solver|]. exists rs. split; [|done].
  apply elem_of_by_member. rewrite E. set_solver.
Qed.

(** ** The broker *)

Section Broker.
(** Where a partition is read from when nothing is committed ([AutoOffsetReset]), and the
    offsets that hold a record (compaction and transactions leave gaps). *)
Context (start : TopicPartition -> Z) (present : TopicPartition -> Z -> Prop).

(** The committed offset. *)
Definition commit_step (tp : TopicPartition) (n : Z) (x : nat * event) : Z :=
  match x.2 with Committed offs => default n (offs !! tp) | _ => n end.
Definition committed (t : history) (tp : TopicPartition) : Z := foldl (commit_step tp) (start tp) t.

(** The offset [m] works from, once it was assigned the partition. *)
Definition position_step (m : nat) (tp : TopicPartition) (st : Z * option Z) (x : nat * event) : Z * option Z :=
  let '(n, p) := st in
  (commit_step tp n x,
   if decide (x.1 = m) then
     match x.2 with
     | Rebalanced (Assigned ps) => if decide (tp ∈ ps) then Some n else p
     | Turn r => if decide (tp_of r = tp) then Some (Offset r + 1) else p
     | _ => p
     end
   else p).
Definition position (t : history) (m : nat) (tp : TopicPartition) : option Z :=
  (foldl (position_step m tp) (start tp, None) t).2.

(** [l] is what the partition holds from [p] on: offsets grow, and no record is left out. *)
Fixpoint reads (tp : TopicPartition) (p : Z) (l : list Message) : Prop :=
  match l with
  | [] => True
  | r :: l => p <= Offset r /\ (forall k, p <= k < Offset r -> ~ present tp k) /\ reads tp (Offset r + 1) l
  end.
Definition after (p : Z) (l : list Message) : Z := foldl (fun _ r => Offset r + 1) p l.
Definition of_partition (tp : TopicPartition) (rs : list Message) : list Message := filter (fun r => tp_of r = tp) rs.

(** The next offset the driver returns to [m] of a partition [m] holds. *)
Definition fetch_step (m : nat) (tp : TopicPartition) (st : Z * option Z) (x : nat * event) : Z * option Z :=
  let '(n, p) := st in
  (commit_step tp n x,
   if decide (x.1 = m) then
     match x.2 with
     | Rebalanced (Assigned ps) => if decide (tp ∈ ps) then Some n else p
     | Rebalanced (Revoked ps _) => if decide (tp ∈ default [] ps) then None else p
     | Rebalanced (Lost ps) => if decide (tp ∈ ps) then None else p
     | Fetched rs => (fun p => after p (of_partition tp rs)) <$> p
     | _ => p
     end
   else p).
Definition fetch_position (t : history) (m : nat) (tp : TopicPartition) : option Z :=
  (foldl (fetch_step m tp) (start tp, None) t).2.

(** What a driver promises of [Poll] (libs/kafka driver.go): the records of a partition the
    member holds come from the committed offset on, in order, none left out; of other
    partitions nothing is asked. (The librdkafka driver breaks it for a partition revoked and
    assigned again within one poll: [RdConsumer.reassigned_partition_loses_record].) *)
Definition polls_in_order (t : history) : Prop :=
  forall u m rs v tp p, t = u ++ (m, Fetched rs) :: v -> fetch_position u m tp = Some p -> reads tp p (of_partition tp rs).

(** What is to be shown of the loop: the records of a partition take their turns from the
    committed offset on, none left out. *)
Definition turns_in_order (t : history) : Prop :=
  forall u m r v, t = u ++ (m, Turn r) :: v ->
  exists p, position u m (tp_of r) = Some p /\ p <= Offset r /\ forall k, p <= k < Offset r -> ~ present (tp_of r) k.

(** The record at an offset was handled or parked, by some member. *)
Definition finished (t : history) (tp : TopicPartition) (k : Z) : Prop :=
  exists m r, (m, Finished r) ∈ t /\ tp_of r = tp /\ Offset r = k.

Lemma committed_snoc (t : history) (x : nat * event) (tp : TopicPartition) : committed (t ++ [x]) tp = commit_step tp (committed t tp) x.
Proof. unfold committed. by rewrite foldl_app. Qed.

Lemma position_committed (t : history) (m : nat) (tp : TopicPartition) :
  foldl (position_step m tp) (start tp, None) t = (committed t tp, position t m tp).
Proof.
  unfold position. induction t as [|x t IH] using rev_ind; [done|]. rewrite committed_snoc, foldl_app. cbn [foldl].
  rewrite IH. done.
Qed.

Lemma position_snoc (t : history) (x : nat * event) (m : nat) (tp : TopicPartition) :
  position (t ++ [x]) m tp = (position_step m tp (committed t tp, position t m tp) x).2.
Proof. unfold position at 1. rewrite foldl_app. cbn [foldl]. by rewrite position_committed. Qed.

(** *** The turns follow what the polls return *)

Lemma fetch_committed (t : history) (m : nat) (tp : TopicPartition) :
  foldl (fetch_step m tp) (start tp, None) t = (committed t tp, fetch_position t m tp).
Proof.
  unfold fetch_position. induction t as [|x t IH] using rev_ind; [done|]. rewrite committed_snoc, foldl_app. cbn [foldl].
  rewrite IH. done.
Qed.

Lemma fetch_snoc (t : history) (x : nat * event) (m : nat) (tp : TopicPartition) :
  fetch_position (t ++ [x]) m tp = (fetch_step m tp (committed t tp, fetch_position t m tp) x).2.
Proof. unfold fetch_position at 1. rewrite foldl_app. cbn [foldl]. by rewrite fetch_committed. Qed.

Lemma clean_partition (t : list event) (todo : list Message) (tp : TopicPartition) :
  clean t todo -> tp ∈ owned_after t -> of_partition tp todo = [].
Proof.
  intros Hc Ht. unfold of_partition. induction Hc as [|r todo Hr _ IH]; [done|]. rewrite filter_cons_False; [done|]. by intros <-.
Qed.

(** The batch goes from the member's position to the driver's. *)
Definition in_step (t : history) (m : nat) : Prop :=
  forall todo tp, paced (by_member m t) (Some todo) -> tp ∈ owned_after (by_member m t) ->
  exists p, position t m tp = Some p /\ fetch_position t m tp = Some (after p (of_partition tp todo)) /\ reads tp p (of_partition tp todo).

Lemma in_step_snoc (t : history) (m m' : nat) (e : event) :
  (forall rs tp p, e = Fetched rs -> fetch_position t m' tp = Some p -> reads tp p (of_partition tp rs)) ->
  in_step t m -> in_step (t ++ [(m', e)]) m.
Proof.
  intros Hlaw Hin todo tp. rewrite position_snoc, fetch_snoc, by_member_app. unfold position_step, fetch_step. cbn [fst snd].
  destruct (decide (m' = m)) as [->|Hne]; [|rewrite (by_member_other m m' e Hne), app_nil_r; apply Hin].
  rewrite by_member_same. intros (st & Hp & Hs)%paced_snoc. rewrite owned_after_app. cbn [foldl].
  assert (Hclean : forall td, st = Some td -> clean (by_member m t) td -> tp ∈ owned_after (by_member m t) ->
    exists p, position t m tp = Some p /\ fetch_position t m tp = Some p).
  { intros td -> Hc Ho. destruct (Hin td tp Hp Ho) as (p & H1 & H2 & _). rewrite (clean_partition _ _ _ Hc Ho) in H2. eauto. }
  destruct e as [rs|r| | | | | | |[ps|ps ok|ps]]; cbn [own_step paced_step] in *;
    try (rewrite (Hs todo eq_refl) in Hp; by apply Hin).
  - destruct Hs as [Hl (td & -> & Hc)]. rewrite (Hl todo eq_refl). intros Ho. destruct (Hclean td eq_refl Hc Ho) as (p & -> & Hf).
    rewrite Hf. exists p. split_and!; [done..|]. by eapply Hlaw.
  - destruct Hs as (sk & td & -> & Hc & Hr & Hl). rewrite (Hl todo eq_refl). intros Ho. destruct (Hin _ tp Hp Ho) as (p & H1 & H2 & H3).
    unfold of_partition in H2, H3. rewrite filter_app in H2, H3. fold (of_partition tp sk) in H2, H3. rewrite (clean_partition _ _ _ Hc Ho) in H2, H3.
    cbn [app] in H2, H3. destruct (decide (tp_of r = tp)) as [E|E].
    + rewrite filter_cons_True in H2, H3 by done. destruct H3 as (_ & _ & H3). eauto.
    + rewrite filter_cons_False in H2, H3 by done. eauto.
  - destruct (Hs todo eq_refl) as (-> & td & -> & Hc). cbn. destruct (decide (tp ∈ ps)) as [|Hn]; [by eexists|]. intros Ho.
    destruct (Hclean td eq_refl Hc) as (p & H1 & H2); [set_solver|eauto].
  - rewrite (Hs todo eq_refl) in Hp. intros Ho. rewrite decide_False by set_solver. apply Hin; [done|set_solver].
  - rewrite (Hs todo eq_refl) in Hp. intros Ho. rewrite decide_False by set_solver. apply Hin; [done|set_solver].
Qed.

Lemma in_step_always (t : history) (m : nat) : polls_in_order t -> in_step t m.
Proof.
  induction t as [|[m' e] t IH] using rev_ind; intros Hlaw; [intros todo tp _ H; set_solver|].
  apply in_step_snoc; [intros rs tp p -> H; by eapply (Hlaw t m' rs [])|]. apply IH. intros u m0 rs v tp p -> H.
  eapply (Hlaw u m0 rs (v ++ [(m', e)])); [by rewrite <- app_assoc|done].
Qed.

(** Over a driver that returns what a partition holds, the loop handles what it holds. *)
Lemma polls_turns (cfg : config) (t : history) : members_run cfg t -> polls_in_order t -> turns_in_order t.
Proof.
  intros Hrun Hlaw u m r v ->. destruct (member_paced cfg _ m Hrun) as [st Hst].
  rewrite by_member_app in Hst. change ((m, Turn r) :: v) with ([(m, Turn r)] ++ v) in Hst. rewrite by_member_app, by_member_same in Hst.
  destruct (paced_turn _ _ _ _ Hst) as (sk & todo & Hp & Hc & Hr).
  assert (Hu : polls_in_order u) by (intros u' m' rs v' tp p -> H; eapply (Hlaw u' m' rs (v' ++ (m, Turn r) :: v)); [by rewrite <- app_assoc|done]).
  destruct (in_step_always u m Hu _ _ Hp Hr) as (p & H1 & _ & H3). exists p. split; [done|]. unfold of_partition in H3. rewrite filter_app in H3.
  fold (of_partition (tp_of r) sk) in H3. rewrite (clean_partition _ _ _ Hc Hr), filter_cons_True in H3 by done. destruct H3 as (H4 & H5 & _). done.
Qed.

(** ** Nothing below the committed offset is missing *)

(** The record [m] is working on. *)
Definition working (t : history) (m : nat) (o : option Message) : Prop := turns (by_member m t) o.

Record group_inv (t : history) : Prop := {
  gi_committed : forall tp k, start tp <= k < committed t tp -> present tp k -> finished t tp k;
  gi_position : forall m tp p k, position t m tp = Some p -> start tp <= k < p -> present tp k ->
    finished t tp k \/ exists r, working t m (Some r) /\ tp_of r = tp /\ Offset r = k;
  gi_working : forall m r k, working t m (Some r) -> start (tp_of r) <= k < Offset r -> present (tp_of r) k -> finished t (tp_of r) k;
  gi_finished : forall m r k, (m, Finished r) ∈ t -> start (tp_of r) <= k <= Offset r -> present (tp_of r) k -> finished t (tp_of r) k
}.

Lemma finished_more (t k : history) (tp : TopicPartition) (o : Z) : finished t tp o -> finished (t ++ k) tp o.
Proof. intros (m & r & Hin & H). exists m, r. split; [apply elem_of_app; by left|done]. Qed.

(** One record at a time. *)
Lemma turns_unique (t : list event) (o o' : option Message) : turns t o -> turns t o' -> o = o'.
Proof.
  revert o o'. induction t as [|e t IH] using rev_ind; intros o o' H H'.
  - inversion H as [E|? ? ? E|? ? ? E|? ? ? ? ? ? E]; try (by destruct t);
      inversion H' as [E'|? ? ? E'|? ? ? E'|? ? ? ? ? ? E']; try done; by destruct t.
  - apply turns_snoc in H as (p & Hp & He), H' as (p' & Hp' & He'). specialize (IH _ _ Hp Hp').
    destruct e; naive_solver congruence.
Qed.

Lemma working_other (t : history) (m m' : nat) (e : event) (o : option Message) :
  m' <> m -> working (t ++ [(m', e)]) m o <-> working t m o.
Proof. intros H. unfold working. by rewrite by_member_app, (by_member_other m m' e H), app_nil_r. Qed.
Lemma working_same (t : history) (m : nat) (e : event) (o : option Message) :
  working (t ++ [(m, e)]) m o -> exists o', working t m o' /\
    match e with
    | Turn r => o' = None /\ o = Some r
    | Finished r => o' = Some r /\ o = None
    | _ => o = o'
    end.
Proof. unfold working. rewrite by_member_app, by_member_same. apply turns_snoc. Qed.

(** A step that leaves offsets, positions and the records in work as they were. *)
Definition silent (e : event) : Prop :=
  match e with Turn _ | Finished _ | Committed _ | Rebalanced (Assigned _) => False | _ => True end.

Lemma inv_silent (t : history) (m : nat) (e : event) : silent e -> group_inv t -> group_inv (t ++ [(m, e)]).
Proof.
  intros Hs [G1 G2 G3 G4].
  assert (Hw : forall m' r, working (t ++ [(m, e)]) m' (Some r) -> working t m' (Some r)).
  { intros m' r. destruct (decide (m' = m)) as [->|]; [|by rewrite working_other].
    intros (o' & Hw & He)%working_same. by destruct e; try done; rewrite He. }
  assert (Hw' : forall m' r, working t m' (Some r) -> working (t ++ [(m, e)]) m' (Some r)).
  { intros m' r H. destruct (decide (m' = m)) as [->|]; [|by rewrite working_other].
    unfold working. rewrite by_member_app, by_member_same. apply TurnsOther; [done|..]; intros r' ->; done. }
  assert (Hf : forall m' r, (m', Finished r) ∈ t ++ [(m, e)] -> (m', Finished r) ∈ t).
  { intros m' r [|[= -> <-]%list_elem_of_singleton]%elem_of_app; done. }
  split.
  - intros tp k. rewrite committed_snoc. intros H Hpr. apply finished_more, G1; [by destruct e|done].
  - intros m' tp p k. rewrite position_snoc. intros Hp Hk Hpr.
    assert (Hp' : position t m' tp = Some p) by (unfold position_step in Hp; cbn in Hp; destruct (decide (m = m')); [destruct e as [| | | | | | | |[]]|]; done).
    destruct (G2 m' tp p k Hp' Hk Hpr) as [|(r & H & ?)]; [left; by apply finished_more|right; exists r; split; [by apply Hw'|done]].
  - intros m' r k H%Hw Hk Hpr. apply finished_more. by eapply G3.
  - intros m' r k H%Hf Hk Hpr. apply finished_more. by eapply G4.
Qed.

Lemma inv_turn (t : history) (m : nat) (r : Message) (p : Z) :
  working (t ++ [(m, Turn r)]) m (Some r) -> position t m (tp_of r) = Some p -> p <= Offset r ->
  (forall k, p <= k < Offset r -> ~ present (tp_of r) k) -> group_inv t -> group_inv (t ++ [(m, Turn r)]).
Proof.
  intros Hopen Hpos Hle Hgap [G1 G2 G3 G4]. pose proof Hopen as (o' & Hidle & -> & _)%working_same.
  assert (Hbelow : forall k, start (tp_of r) <= k < Offset r -> present (tp_of r) k -> finished t (tp_of r) k).
  { intros k Hk Hpr. destruct (Z.lt_ge_cases k p) as [Hlt|Hge]; [|exfalso; apply (Hgap k); [lia|done]]. destruct (G2 _ _ _ k Hpos ltac:(lia) Hpr) as [|(r' & Hw & _)]; [done|]. pose proof (turns_unique _ _ _ Hidle Hw) as [=]. }
  split.
  - intros tp k. rewrite committed_snoc. intros H Hpr. by apply finished_more, G1.
  - intros m' tp q k. rewrite position_snoc. unfold position_step. cbn.
    destruct (decide (m = m')) as [<-|Hne]; [destruct (decide (tp_of r = tp)) as [<-|Htp]|].
    + intros [= <-] Hk Hpr. destruct (decide (k = Offset r)) as [->|]; [right; by exists r|left]. apply finished_more, Hbelow; [lia|done].
    + intros Hp Hk Hpr. destruct (G2 m tp q k Hp Hk Hpr) as [|(r' & Hw & _)]; [left; by apply finished_more|]. pose proof (turns_unique _ _ _ Hidle Hw) as [=].
    + intros Hp Hk Hpr. destruct (G2 m' tp q k Hp Hk Hpr) as [|(r' & Hw & Ht)]; [left; by apply finished_more|right]. exists r'. split; [by rewrite working_other|done].
  - intros m' r' k Hw Hk Hpr. apply finished_more. destruct (decide (m' = m)) as [->|Hne].
    + pose proof (turns_unique _ _ _ Hopen Hw) as [= <-]. by apply Hbelow.
    + rewrite working_other in Hw by done. by eapply G3.
  - intros m' r' k [H|[=]%list_elem_of_singleton]%elem_of_app Hk Hpr. apply finished_more. by eapply G4.
Qed.

Lemma inv_finished (t : history) (m : nat) (r : Message) :
  working (t ++ [(m, Finished r)]) m None -> group_inv t -> group_inv (t ++ [(m, Finished r)]).
Proof.
  intros Hclosed [G1 G2 G3 G4]. pose proof Hclosed as (o' & Hopen & -> & _)%working_same.
  assert (Hnew : finished (t ++ [(m, Finished r)]) (tp_of r) (Offset r)) by (exists m, r; split; [set_solver|done]).
  split.
  - intros tp k. rewrite committed_snoc. intros H Hpr. by apply finished_more, G1.
  - intros m' tp p k. rewrite position_snoc. unfold position_step. cbn.
    assert (Hsame : (if decide (m = m') then position t m' tp else position t m' tp) = position t m' tp) by by destruct (decide _).
    rewrite Hsame. clear Hsame. intros Hp Hk Hpr. destruct (G2 m' tp p k Hp Hk Hpr) as [|(r' & Hw & <- & <-)]; [left; by apply finished_more|].
    destruct (decide (m' = m)) as [->|Hne].
    + pose proof (turns_unique _ _ _ Hopen Hw) as [= <-]. by left.
    + right. exists r'. split; [by rewrite working_other|done].
  - intros m' r' k Hw Hk Hpr. apply finished_more. destruct (decide (m' = m)) as [->|Hne].
    + pose proof (turns_unique _ _ _ Hclosed Hw) as [=].
    + rewrite working_other in Hw by done. by eapply G3.
  - intros m' r' k [H|[= -> ->]%list_elem_of_singleton]%elem_of_app Hk Hpr; [apply finished_more; by eapply G4|].
    destruct (decide (k = Offset r)) as [->|]; [done|]. apply finished_more. eapply G3; [done|lia|done].
Qed.

Lemma inv_committed (t : history) (m : nat) (offs : gmap TopicPartition Z) :
  (forall tp n, offs !! tp = Some n -> exists r, (m, Finished r) ∈ t /\ tp_of r = tp /\ Offset r = n - 1) ->
  group_inv t -> group_inv (t ++ [(m, Committed offs)]).
Proof.
  intros Hoffs [G1 G2 G3 G4].
  assert (Hw : forall m' o, working (t ++ [(m, Committed offs)]) m' o <-> working t m' o).
  { intros m' o. destruct (decide (m' = m)) as [->|]; [|by rewrite working_other]. split; [by intros (o' & H & ->)%working_same|].
    intros H. unfold working. rewrite by_member_app, by_member_same. by apply TurnsOther. }
  split.
  - intros tp k. rewrite committed_snoc. cbn. intros Hk Hpr. apply finished_more. destruct (offs !! tp) as [n|] eqn:Hn; cbn in Hk; [|by apply G1].
    destruct (Hoffs tp n Hn) as (r & Hr & <- & Ho). eapply G4; [done|lia|done].
  - intros m' tp p k. rewrite position_snoc. unfold position_step. cbn.
    assert (Hsame : (if decide (m = m') then position t m' tp else position t m' tp) = position t m' tp) by by destruct (decide _).
    rewrite Hsame. clear Hsame. intros Hp Hk Hpr. setoid_rewrite Hw. destruct (G2 m' tp p k Hp Hk Hpr) as [|]; [left; by apply finished_more|by right].
  - intros m' r k Hw' Hk Hpr. apply Hw in Hw'. apply finished_more. by eapply G3.
  - intros m' r k [H|[=]%list_elem_of_singleton]%elem_of_app Hk Hpr. apply finished_more. by eapply G4.
Qed.

Lemma inv_assigned (t : history) (m : nat) (ps : list TopicPartition) : group_inv t -> group_inv (t ++ [(m, Rebalanced (Assigned ps))]).
Proof.
  intros [G1 G2 G3 G4].
  assert (Hw : forall m' o, working (t ++ [(m, Rebalanced (Assigned ps))]) m' o <-> working t m' o).
  { intros m' o. destruct (decide (m' = m)) as [->|]; [|by rewrite working_other]. split; [by intros (o' & H & ->)%working_same|].
    intros H. unfold working. rewrite by_member_app, by_member_same. by apply TurnsOther. }
  split.
  - intros tp k. rewrite committed_snoc. intros H Hpr. by apply finished_more, G1.
  - intros m' tp p k. rewrite position_snoc. unfold position_step. cbn. setoid_rewrite Hw.
    intros Hp Hk Hpr. destruct (decide (m = m')) as [<-|]; [destruct (decide (tp ∈ ps))|].
    + injection Hp as <-. left. by apply finished_more, G1.
    + destruct (G2 m tp p k Hp Hk Hpr); [left; by apply finished_more|by right].
    + destruct (G2 m' tp p k Hp Hk Hpr); [left; by apply finished_more|by right].
  - intros m' r k Hw' Hk Hpr. apply Hw in Hw'. apply finished_more. by eapply G3.
  - intros m' r k [H|[=]%list_elem_of_singleton]%elem_of_app Hk Hpr. apply finished_more. by eapply G4.
Qed.

(** What the loop of a member guarantees of the events so far. *)
Lemma member_good (cfg : config) (t : history) (m : nat) :
  members_run cfg t -> (exists o, working t m o) /\ commits_ok (by_member m t).
Proof.
  intros H. destruct (H m) as (ps & ok & c & rest & res & _ & HR). destruct (good_Run _ _ _ _ _ _ HR) as [op [_ _ Ht Hc]]. split.
  - by apply turns_prefix in Ht.
  - intros t1 offs t2 E. apply (Hc t1 offs (t2 ++ rest)). by rewrite E, <- app_assoc.
Qed.

Lemma members_run_prefix (cfg : config) (t k : history) : members_run cfg (t ++ k) -> members_run cfg t.
Proof.
  intros H m. destruct (H m) as (ps & ok & c & rest & res & Hcalm & HR). exists ps, ok, c, (by_member m k ++ rest), res. split; [done|].
  by rewrite HR, by_member_app, <- app_assoc.
Qed.

Lemma turns_invariant (cfg : config) (t : history) : members_run cfg t -> turns_in_order t -> group_inv t.
Proof.
  induction t as [|[m e] t IH] using rev_ind; intros Hrun Hfetch.
  - split; cbn; try done; [intros; lia|intros m r k Hw|intros m r k H%not_elem_of_nil; done].
    pose proof (turns_unique [] _ _ Hw TurnsNil) as [=].
  - assert (Hi : group_inv t).
    { apply IH; [by eapply members_run_prefix|]. intros u m' r v E. apply (Hfetch u m' r (v ++ [(m, e)])). by rewrite E, <- app_assoc. }
    destruct (member_good cfg _ m Hrun) as [[o Ho] Hc]. pose proof Ho as (o' & Hpre & He)%working_same.
    destruct e as [|r| | | |r|offs| |[ps| |]]; try (by apply inv_silent).
    + destruct He as [-> ->]. destruct (Hfetch t m r [] eq_refl) as (p & H1 & H2 & H3). by eapply inv_turn.
    + destruct He as [-> ->]. by apply inv_finished.
    + apply inv_committed; [|done]. intros tp n Hn. rewrite by_member_app, by_member_same in Hc.
      destruct (Hc (by_member m t) offs [] eq_refl tp n Hn) as [Hl _]. apply last_fin_split in Hl as (r & u & v & E & Htp & Hof & _).
      exists r. split_and!; [|done|done]. apply elem_of_by_member. rewrite E. set_solver.
    + by apply inv_assigned.
Qed.

Lemma group_invariant (cfg : config) (t : history) : members_run cfg t -> polls_in_order t -> group_inv t.
Proof. intros Hrun Hlaw. eapply turns_invariant; [done|]. by eapply polls_turns. Qed.
End Broker.

(** ** What comes before what *)

(** A record is finished only after the handler had it, and the handler only gets records
    whose turn came. *)
Definition cause (e : event) (u : list event) : Prop :=
  match e with
  | Finished r => Invoked (with_attempt r 1) 1 ∈ u
  | Invoked r n => exists r0, Turn r0 ∈ u /\ r = with_attempt r0 n
  | _ => True
  end.
Definition causal (t : list event) : Prop := forall u e v, t = u ++ e :: v -> cause e u.

Definition no_cause (e : event) : Prop := match e with Finished _ | Invoked _ _ => False | _ => True end.

Lemma cause_more (e : event) (u w : list event) : cause e u -> cause e (w ++ u).
Proof. destruct e; cbn; try done; set_solver. Qed.

Lemma causal_app (t k : list event) : causal t -> causal k -> causal (t ++ k).
Proof.
  intros Ht Hk u e v E. apply app_eq_app in E as (w & [[-> E]|[-> E]]).
  - destruct w as [|x w]; cbn in E.
    + rewrite <- (app_nil_r u). apply cause_more, (Hk [] e v (eq_sym E)).
    + injection E as <- _. by apply (Ht u e w).
  - by apply cause_more, (Hk w e v).
Qed.

Lemma causal_snoc (t : list event) (e : event) : causal t -> cause e t -> causal (t ++ [e]).
Proof. intros Ht He u x v [(-> & -> & ->)|(k & -> & ->)]%app_snoc_inv; [done|by apply (Ht u x k)]. Qed.

Lemma causal_none (t : list event) : Forall no_cause t -> causal t.
Proof. intros H u e v ->. apply Forall_app in H as [_ H]. inversion_clear H as [|? ? He _]. by destruct e. Qed.

Lemma causal_prefix (t k : list event) : causal (t ++ k) -> causal t.
Proof. intros H u e v E. apply (H u e (v ++ k)). by rewrite E, <- app_assoc. Qed.

Lemma commit_no_cause (c c' : consumer) (only : option (list TopicPartition)) (ok : bool) (evs : list event) :
  commitLocked c only ok = (c', evs) -> Forall no_cause evs.
Proof. unfold commitLocked. destruct (decide _); [|destruct ok]; intros [= _ <-]; by repeat constructor. Qed.

Lemma rebalance_no_cause (c c' : consumer) (b : rebalance) (evs : list event) : on_rebalance c b = (c', evs) -> Forall no_cause evs.
Proof.
  unfold on_rebalance, onRevoked. destruct b as [ps|ps ok|ps]; [intros [= _ <-]; by repeat constructor| |intros [= _ <-]; by repeat constructor].
  destruct (commitLocked c ps ok) as [c1 e1] eqn:E. intros [= _ <-]. apply Forall_app. split; [by eapply commit_no_cause|by repeat constructor].
Qed.

Lemma rebalances_no_cause (c c' : consumer) (bs : list rebalance) (evs : list event) : on_rebalances c bs = (c', evs) -> Forall no_cause evs.
Proof.
  revert c evs. induction bs as [|b bs IH]; intros c evs; cbn; [intros [= _ <-]; constructor|].
  destruct (on_rebalance c b) as [c1 e1] eqn:E1, (on_rebalances c1 bs) as [c2 e2] eqn:E2. intros [= -> <-].
  apply Forall_app. split; [by eapply rebalance_no_cause|by eapply IH].
Qed.

(** The handler is called for every record whose turn comes. *)
Lemma process_invokes (cfg : config) (i : rec_in) (r : Message) : Invoked (with_attempt r 1) 1 ∈ (process cfg i r).1.
Proof.
  assert (H : Invoked (with_attempt r 1) 1 ∈ (handle_loop cfg i r (S (Z.to_nat (maxRetries cfg))) 1).1).
  { cbn [handle_loop]. destruct (handle_loop cfg i r (Z.to_nat (maxRetries cfg)) (1 + 1)) as [l h].
    repeat case_match; cbn; set_solver. }
  unfold process. destruct (handle_loop _ _ _ _ _) as [evs []]; cbn [fst] in *; try done.
  destruct (String.eqb _ _); [done|]. destruct (deadLetter _ _ _ _ _ _ _) as [evs' o]. cbn. set_solver.
Qed.

(** [process] only calls the handler, for its record, and publishes to the dead-letter topic. *)
Definition of_record (r : Message) (e : event) : Prop :=
  match e with Invoked r' n => r' = with_attempt r n | Finished _ => False | _ => True end.

Lemma process_of_record (cfg : config) (i : rec_in) (r : Message) : Forall (of_record r) (process cfg i r).1.
Proof.
  assert (Hh : forall fuel n, Forall (of_record r) (handle_loop cfg i r fuel n).1).
  { induction fuel as [|fuel IH]; intros n; cbn; [constructor|]. specialize (IH (n + 1)).
    destruct (handle_loop cfg i r fuel (n + 1)). repeat case_match; cbn in *; by repeat constructor. }
  assert (Hd : forall msg fuel n, Forall (of_record r) (dl_loop cfg i fuel msg n).1).
  { intros msg. induction fuel as [|fuel IH]; intros n; cbn; [constructor|]. specialize (IH (n + 1)).
    destruct (dl_loop cfg i fuel msg (n + 1)). repeat case_match; cbn in *; by repeat constructor. }
  unfold process. specialize (Hh (S (Z.to_nat (maxRetries cfg))) 1). destruct (handle_loop _ _ _ _ _) as [evs []]; cbn [fst] in *; try done.
  destruct (String.eqb _ _); [done|]. unfold deadLetter.
  specialize (Hd (dlq_message (deadLetterTopic cfg (Topic r)) r (reason_of err) (ri_text i attempt) attempt) (S (Z.to_nat (maxRetries cfg))) 0).
  destruct (dl_loop _ _ _ _ _) as [evs' o]. cbn [fst] in *. by apply Forall_app.
Qed.

Lemma causal_turn (r : Message) (l : list event) : Forall (of_record r) l -> causal (Turn r :: l).
Proof.
  intros H [|y u] e v; cbn; intros [= <- E]; [done|]. rewrite E in H. apply Forall_app in H as [_ H]. inversion_clear H as [|? ? He _].
  destruct e; cbn in *; try done. exists r. set_solver.
Qed.

Lemma causal_batch (cfg : config) (records : list (Message * turn_in)) (c c' : consumer) (evs : list event) (o : outcome) :
  processBatch cfg c records = (c', evs, o) -> causal evs.
Proof.
  revert c evs o. induction records as [|[r ti] records IH]; intros c evs o; cbn; [intros [= _ <- _]; apply causal_none; constructor|].
  destruct (on_rebalances c (ti_before ti)) as [c0 e0] eqn:E0. pose proof (causal_none _ (rebalances_no_cause _ _ _ _ E0)) as H0.
  destruct (ti_ctx ti); [intros [= _ <- _]; done|]. destruct (owns c0 r); cbn [negb].
  2:{ destruct (processBatch cfg c0 records) as [[c1 e1] o1] eqn:E1. intros [= -> <- _]. apply causal_app; [done|by eapply IH]. }
  pose proof (causal_turn r _ (process_of_record cfg (ti_rec ti) r)) as Hturn. pose proof (process_invokes cfg (ti_rec ti) r) as Hinv.
  destruct (process cfg (ti_rec ti) r) as [e1 o1]. cbn [fst] in *. destruct (on_rebalances c0 (ti_during ti)) as [c2 e2] eqn:E2.
  assert (Hopen : causal (e0 ++ Turn r :: e1 ++ e2)).
  { apply causal_app; [done|]. rewrite app_comm_cons. apply causal_app; [done|]. by eapply causal_none, rebalances_no_cause. }
  destruct o1; try (intros [= _ <- _]; done).
  destruct (processBatch cfg (markDone c2 r) records) as [[c3 e3] o3] eqn:E3. intros [= -> <- _].
  change (Finished r :: e3) with ([Finished r] ++ e3). rewrite app_assoc. apply causal_app; [|by eapply IH].
  apply causal_snoc; [done|]. cbn. set_solver.
Qed.

Lemma causal_iter (cfg : config) (p : poll_in) (c c' : consumer) (evs : list event) (res : run_res) :
  run_iter cfg c p = (c', evs, res) -> causal evs.
Proof.
  unfold run_iter. destruct (pi_ctx p); [intros [= _ <- _]; apply causal_none; constructor|].
  destruct (on_rebalances c (pi_rebalance p)) as [c0 e0] eqn:E0. pose proof (causal_none _ (rebalances_no_cause _ _ _ _ E0)) as H0.
  destruct (processBatch cfg c0 (pi_records p)) as [[c1 e1] o1] eqn:E1. pose proof (causal_batch _ _ _ _ _ _ E1) as H1.
  destruct (commitPending c1 (pi_commit p)) as [c2 e2] eqn:E2. pose proof (causal_none _ (commit_no_cause _ _ _ _ _ E2)) as H2.
  destruct (on_rebalances c2 (pi_allowed p)) as [c3 e3] eqn:E3. pose proof (causal_none _ (rebalances_no_cause _ _ _ _ E3)) as H3.
  destruct (on_rebalances c0 (pi_allowed p)) as [c4 e4] eqn:E4. pose proof (causal_none _ (rebalances_no_cause _ _ _ _ E4)) as H4.
  assert (Hf : causal (Fetched (pi_records p).*1 :: e1 ++ e2 ++ e3)).
  { apply (causal_app [_]); [apply causal_none; by repeat constructor|]. by repeat apply causal_app. }
  destruct (pi_err p), (pi_ctx' p); intros [= _ <- _]; try done; by apply causal_app.
Qed.

Lemma causal_run (cfg : config) (ps : list poll_in) (c c' : consumer) (evs : list event) (res : run_res) :
  run_loop cfg c ps = (c', evs, res) -> causal evs.
Proof.
  revert c evs res. induction ps as [|p ps IH]; intros c evs res; cbn; [intros [= _ <- _]; apply causal_none; constructor|].
  destruct (run_iter cfg c p) as [[c1 e1] r1] eqn:E1. apply causal_iter in E1. destruct (run_loop cfg c1 ps) as [[c2 e2] r2] eqn:E2.
  destruct r1; intros [= -> <- _]; [apply causal_app; [done|by eapply IH]|done..].
Qed.

Lemma causal_Run (cfg : config) (ps : list poll_in) (ok : bool) (c c' : consumer) (evs : list event) (res : run_res) :
  Run cfg c ps ok = (c', evs, res) -> causal evs.
Proof.
  unfold Run. destruct (run_loop cfg c ps) as [[c1 e1] r1] eqn:E1. apply causal_run in E1.
  destruct (on_rebalance c1 _) as [c2 e2] eqn:E2. apply rebalance_no_cause, causal_none in E2.
  destruct r1; intros [= _ <- _]; [done|by apply causal_app..].
Qed.

(** The records handed to the handler of a member, in order. *)
Definition handed (t : list event) : list Message := omap (fun e => match e with Invoked r _ => Some r | _ => None end) t.

Lemma finished_handed (cfg : config) (t : history) (m : nat) (r : Message) :
  members_run cfg t -> (m, Finished r) ∈ t -> with_attempt r 1 ∈ handed (by_member m t).
Proof.
  intros Hrun Hin%elem_of_by_member. destruct (Hrun m) as (ps & ok & c & rest & res & _ & HR). apply causal_Run, causal_prefix in HR.
  apply list_elem_of_split in Hin as (u & v & E). apply list_elem_of_omap. exists (Invoked (with_attempt r 1) 1).
  split; [|done]. rewrite E. apply elem_of_app. left. apply (HR u (Finished r) v E).
Qed.

Lemma handed_turn (cfg : config) (t : history) (m : nat) (r : Message) :
  members_run cfg t -> r ∈ handed (by_member m t) -> exists r0 n, (m, Turn r0) ∈ t /\ r = with_attempt r0 n.
Proof.
  intros Hrun (e & Hin & He)%list_elem_of_omap. destruct (Hrun m) as (ps & ok & c & rest & res & _ & HR). apply causal_Run, causal_prefix in HR.
  destruct e as [| |r' n| | | | | |]; try done. injection He as ->. apply list_elem_of_split in Hin as (u & v & E).
  destruct (HR u _ v E) as (r0 & H0 & ->). exists r0, n. split; [|done]. apply elem_of_by_member. rewrite E. set_solver.
Qed.
(** ** A clean stop commits what was processed *)

(** The offset of a partition a member committed last. *)
Definition commit_of (tp : TopicPartition) (o : option Z) (e : event) : option Z :=
  match e with Committed offs => match offs !! tp with Some n => Some n | None => o end | _ => o end.
Definition last_commit (t : list event) (tp : TopicPartition) : option Z := foldl (commit_of tp) None t.

(** No commit fails, no partition is lost, and records finish while their partition is held. *)
Definition undisturbed (t : list event) : Prop :=
  forall u e v, t = u ++ e :: v ->
  match e with
  | CommitFailed _ | Rebalanced (Lost _) => False
  | Finished r => tp_of r ∈ owned_after u
  | _ => True
  end.

Lemma undisturbed_prefix (t k : list event) : undisturbed (t ++ k) -> undisturbed t.
Proof. intros H u e v E. apply (H u e (v ++ k)). by rewrite E, <- app_assoc. Qed.

(** What is finished is committed, or pending and going to be. *)
Record settled (c : consumer) (t : list event) : Prop := {
  st_good : exists o, good c t o;
  st_owned : forall tp o, pending c !! tp = Some o -> tp ∈ owned c;
  st_done : forall tp o, last_fin t tp = Some o -> pending c !! tp = Some o \/ last_commit t tp = Some (o + 1)
}.

Lemma settled_good (c : consumer) (t : list event) (o : option Message) : settled c t -> turns t o -> good c t o.
Proof. intros [[op Hg] _ _] Ht. destruct Hg as [G1 G2 G3 G4]. rewrite (turns_unique _ _ _ Ht G3). by split. Qed.

Lemma last_commit_app (t k : list event) (tp : TopicPartition) : last_commit (t ++ k) tp = foldl (commit_of tp) (last_commit t tp) k.
Proof. apply foldl_app. Qed.

(** A commit leaves nothing of its partitions pending. *)
Lemma settled_commit (c c' : consumer) (t evs : list event) (only : option (list TopicPartition)) (ok : bool) :
  settled c t -> commitLocked c only ok = (c', evs) -> undisturbed (t ++ evs) ->
  settled c' (t ++ evs) /\ owned c' = owned c /\ forall tp, selected only tp = true -> pending c' !! tp = None.
Proof.
  intros [[op Hg] Ho Hd] E Hu. destruct (good_commit _ _ _ _ _ _ _ Hg E) as [Hg' Hown]. unfold commitLocked in E.
  assert (Hk : filter (fun kv => kv.1 ∈ owned c) (pending c) = pending c) by (apply map_filter_id; intros tp o H; cbn; by eapply Ho).
  rewrite Hk in E. set (offs := filter (fun kv => selected only kv.1 = true) (pending c)) in E.
  assert (Hoff : forall tp o, offs !! tp = Some o <-> pending c !! tp = Some o /\ selected only tp = true) by (intros; apply map_lookup_filter_Some).
  destruct (decide (offs = ∅)) as [E0|_]; [|destruct ok]; injection E as <- <-; cbn [pending owned].
  - rewrite app_nil_r in *. split; [split; [by exists op|done|done]|split; [done|]]. intros tp Hs. apply eq_None_not_Some. intros [o H].
    assert (offs !! tp = Some o) as Hl by (by apply Hoff). by rewrite E0, lookup_empty in Hl.
  - assert (Hdiff : forall tp o, (pending c ∖ offs) !! tp = Some o <-> pending c !! tp = Some o /\ selected only tp = false).
    { intros tp o. rewrite lookup_difference_Some. split; intros [H1 H2]; (split; [done|]).
      - destruct (selected only tp) eqn:Hs; [|done]. assert (offs !! tp = Some o) by (by apply Hoff). congruence.
      - apply eq_None_not_Some. intros [o' [_ H']%Hoff]. congruence. }
    split; [split; [by exists op| |]|split; [done|]]; cbn.
    + intros tp o [H _]%Hdiff. by eapply Ho.
    + intros tp o. rewrite last_fin_app, last_commit_app. cbn. intros Hl. destruct (Hd tp o Hl) as [Hp|Hc].
      * destruct (selected only tp) eqn:Hs; [right|left; by apply Hdiff]. rewrite lookup_fmap, (proj2 (Hoff tp o)) by done. done.
      * rewrite lookup_fmap. destruct (offs !! tp) as [o'|] eqn:Hf; [|by right]. right. cbn. apply Hoff in Hf as [Hf _].
        destruct Hg as [G1 _ _ _]. apply G1 in Hf. congruence.
    + intros tp Hs. apply eq_None_not_Some. intros [o [_ H]%Hdiff]. congruence.
  - exfalso. by apply (Hu t _ [] eq_refl).
Qed.

Lemma settled_other (c : consumer) (t k : list event) :
  settled c t -> Forall inert k -> undisturbed (t ++ k) -> settled c (t ++ k).
Proof.
  intros [[op Hg] Ho Hd] Hk _. split; [exists op; by apply good_inert|done|].
  assert (Hsame : forall tp, last_fin (t ++ k) tp = last_fin t tp /\ last_commit (t ++ k) tp = last_commit t tp).
  { intros tp. induction k as [|e k IH] using rev_ind; [by rewrite app_nil_r|]. apply Forall_app in Hk as [Hk He]. inversion_clear He as [|? ? He' _].
    rewrite app_assoc, last_fin_app, last_commit_app. destruct (IH Hk) as [-> ->]. by destruct e. }
  intros tp o. destruct (Hsame tp) as [-> ->]. apply Hd.
Qed.

Lemma settled_rebalance (c c' : consumer) (t evs : list event) (b : rebalance) :
  settled c t -> on_rebalance c b = (c', evs) -> undisturbed (t ++ evs) -> settled c' (t ++ evs).
Proof.
  intros Hst E Hu. assert (Hg : exists o, good c' (t ++ evs) o) by (destruct (st_good _ _ Hst) as [o Hg]; exists o; by eapply good_rebalance).
  unfold on_rebalance in E. destruct b as [ps|ps ok|ps]; simplify_eq/=.
  - destruct Hst as [_ Ho Hd]. split; [done| |]; cbn.
    + intros tp o H. apply elem_of_union. right. by eapply Ho.
    + intros tp o. rewrite last_fin_app, last_commit_app. apply Hd.
  - unfold onRevoked in E. destruct (commitLocked c ps ok) as [c1 e1] eqn:Ec. simplify_eq/=. rewrite app_assoc in *.
    destruct (settled_commit _ _ _ _ _ _ Hst Ec (undisturbed_prefix _ _ Hu)) as ([_ Ho Hd] & Hown & Hnone).
    assert (Hdrop : foldr delete (pending c1) (default [] ps) = pending c1).
    { destruct ps as [l|]; [|done]. cbn in *. assert (Hl : forall tp, tp ∈ l -> pending c1 !! tp = None) by (intros tp H; apply Hnone; by apply bool_decide_eq_true).
      clear Hnone Hg Hu Ec. induction l as [|x l IH]; [done|]. cbn. rewrite IH by (intros; apply Hl; by right). apply delete_id, Hl. left. }
    split; [done| |]; cbn.
    + rewrite Hdrop. intros tp o H. pose proof (Ho tp o H) as Hin. apply elem_of_difference. split; [done|]. intros Hps.
      destruct ps as [l|]; cbn in Hps; [|set_solver]. rewrite Hnone in H; [done|]. cbn. apply bool_decide_eq_true. by apply elem_of_list_to_set in Hps.
    + intros tp o. rewrite Hdrop, last_fin_app, last_commit_app. apply Hd.
  - exfalso. by apply (Hu t _ [] eq_refl).
Qed.

Lemma settled_rebalances (c c' : consumer) (t evs : list event) (bs : list rebalance) :
  settled c t -> on_rebalances c bs = (c', evs) -> undisturbed (t ++ evs) -> settled c' (t ++ evs).
Proof.
  revert c t evs. induction bs as [|b bs IH]; intros c t evs Hst; cbn; [intros [= <- <-]; by rewrite app_nil_r|].
  destruct (on_rebalance c b) as [c1 e1] eqn:E1, (on_rebalances c1 bs) as [c2 e2] eqn:E2. intros [= <- <-]. rewrite app_assoc. intros Hu.
  eapply IH; [|done|done]. eapply settled_rebalance; [done|done|]. by eapply undisturbed_prefix.
Qed.
Lemma settled_finished (c : consumer) (t : list event) (r : Message) :
  settled c t -> turns t (Some r) -> undisturbed (t ++ [Finished r]) -> settled (markDone c r) (t ++ [Finished r]).
Proof.
  intros Hst Ht Hu. pose proof (settled_good _ _ _ Hst Ht) as Hg. destruct Hst as [_ Ho Hd].
  assert (Hown : tp_of r ∈ owned c) by (destruct Hg as [_ G2 _ _]; rewrite G2; exact (Hu t (Finished r) [] eq_refl)).
  split; [exists None; by apply good_finished| |]; cbn.
  - intros tp o. destruct (decide (tp_of r = tp)) as [<-|Hne]; [done|]. rewrite lookup_insert_ne by done. apply Ho.
  - intros tp o. rewrite last_fin_app, last_commit_app. cbn. destruct (decide (tp_of r = tp)) as [<-|Hne].
    + intros [= <-]. left. by rewrite lookup_insert_eq.
    + rewrite lookup_insert_ne by done. apply Hd.
Qed.

Lemma settled_turn (c : consumer) (t : list event) (r : Message) : settled c t -> turns t None -> settled c (t ++ [Turn r]).
Proof.
  intros Hst Ht. pose proof (settled_good _ _ _ Hst Ht) as Hg. destruct Hst as [_ Ho Hd].
  split; [exists (Some r); by apply good_turn|done|]. intros tp o. rewrite last_fin_app, last_commit_app. apply Hd.
Qed.

Lemma settled_batch (cfg : config) (records : list (Message * turn_in)) (c c' : consumer) (t evs : list event) (o : outcome) :
  settled c t -> turns t None -> processBatch cfg c records = (c', evs, o) -> undisturbed (t ++ evs) -> settled c' (t ++ evs).
Proof.
  revert c t evs. induction records as [|[r ti] records IH]; intros c t evs Hst Ht; cbn.
  { intros [= <- <- <-] _. by rewrite app_nil_r. }
  destruct (on_rebalances c (ti_before ti)) as [c0 e0] eqn:E0.
  assert (H0 : undisturbed (t ++ e0) -> settled c0 (t ++ e0)) by (intros; by eapply settled_rebalances).
  assert (Hidle : turns (t ++ e0) None) by apply (good_rebalances _ _ _ _ _ _ (settled_good _ _ _ Hst Ht) E0).
  destruct (ti_ctx ti); [intros [= <- <- <-] Hu; auto|]. destruct (owns c0 r); cbn [negb].
  2:{ destruct (processBatch cfg c0 records) as [[c1 e1] o1] eqn:E1. intros [= <- <- <-]. rewrite app_assoc. intros Hu.
      eapply IH; [|done|done|done]. apply H0. by eapply undisturbed_prefix. }
  pose proof (process_inert cfg (ti_rec ti) r) as Hin. destruct (process cfg (ti_rec ti) r) as [e1 o1]. cbn [fst] in Hin.
  destruct (on_rebalances c0 (ti_during ti)) as [c2 e2] eqn:E2.
  assert (Hassoc : t ++ e0 ++ Turn r :: e1 ++ e2 = (((t ++ e0) ++ [Turn r]) ++ e1) ++ e2) by (by rewrite <- !app_assoc).
  assert (Hrun : undisturbed (t ++ e0 ++ Turn r :: e1 ++ e2) ->
    settled c2 (t ++ e0 ++ Turn r :: e1 ++ e2) /\ turns (t ++ e0 ++ Turn r :: e1 ++ e2) (Some r)).
  { rewrite Hassoc. intros Hu. pose proof (undisturbed_prefix _ _ Hu) as Hu1. pose proof (undisturbed_prefix _ _ Hu1) as Hu2.
    pose proof (settled_turn _ _ r (H0 (undisturbed_prefix _ _ Hu2)) Hidle) as H1. pose proof (settled_other _ _ _ H1 Hin Hu1) as H2.
    pose proof (settled_rebalances _ _ _ _ _ H2 E2 Hu) as H3. split; [done|].
    pose proof (settled_good _ _ _ (H0 (undisturbed_prefix _ _ Hu2)) Hidle) as Hg.
    apply (good_rebalances _ _ _ _ _ _ (good_inert _ _ _ _ Hin (good_turn _ _ r Hg)) E2). }
  destruct o1; try (intros [= <- <- <-] Hu; by apply Hrun).
  destruct (processBatch cfg (markDone c2 r) records) as [[c3 e3] o3] eqn:E3. intros [= <- <- <-].
  replace (t ++ (e0 ++ Turn r :: e1 ++ e2) ++ Finished r :: e3) with (((t ++ e0 ++ Turn r :: e1 ++ e2) ++ [Finished r]) ++ e3) by (by rewrite <- !app_assoc).
  intros Hu. pose proof (undisturbed_prefix _ _ Hu) as Hu1. destruct (Hrun (undisturbed_prefix _ _ Hu1)) as [H1 H2].
  eapply IH; [by apply settled_finished|by apply TurnsClose|done|done].
Qed.

Lemma settled_iter (cfg : config) (p : poll_in) (c c' : consumer) (t evs : list event) (res : run_res) :
  settled c t -> turns t None -> run_iter cfg c p = (c', evs, res) -> undisturbed (t ++ evs) -> settled c' (t ++ evs).
Proof.
  intros Hst Ht. unfold run_iter. destruct (pi_ctx p); [intros [= <- <- <-] _; by rewrite app_nil_r|].
  destruct (on_rebalances c (pi_rebalance p)) as [c0 e0] eqn:E0.
  assert (H0 : undisturbed (t ++ e0) -> settled c0 (t ++ e0)) by (intros; by eapply settled_rebalances).
  assert (Hidle : turns (t ++ e0) None) by apply (good_rebalances _ _ _ _ _ _ (settled_good _ _ _ Hst Ht) E0).
  destruct (processBatch cfg c0 (pi_records p)) as [[c1 e1] o1] eqn:E1. destruct (commitPending c1 (pi_commit p)) as [c2 e2] eqn:E2.
  destruct (on_rebalances c2 (pi_allowed p)) as [c3 e3] eqn:E3. destruct (on_rebalances c0 (pi_allowed p)) as [c4 e4] eqn:E4.
  assert (Hearly : undisturbed (t ++ e0 ++ e4) -> settled c4 (t ++ e0 ++ e4)).
  { rewrite app_assoc. intros Hu. eapply settled_rebalances; [|done|done]. apply H0. by eapply undisturbed_prefix. }
  assert (Hall : undisturbed (t ++ e0 ++ Fetched (pi_records p).*1 :: e1 ++ e2 ++ e3) -> settled c3 (t ++ e0 ++ Fetched (pi_records p).*1 :: e1 ++ e2 ++ e3)).
  { rewrite (cons_middle _ e0), !app_assoc. intros Hu3. pose proof (undisturbed_prefix _ _ Hu3) as Hu2. pose proof (undisturbed_prefix _ _ Hu2) as Hu1.
    pose proof (undisturbed_prefix _ _ Hu1) as Huf. pose proof (settled_other _ _ [Fetched (pi_records p).*1] (H0 (undisturbed_prefix _ _ Huf)) ltac:(by repeat constructor) Huf) as Hf.
    pose proof (settled_batch _ _ _ _ _ _ _ Hf (TurnsOther _ _ (Fetched (pi_records p).*1) Hidle ltac:(done) ltac:(done)) E1 Hu1) as H1.
    destruct (settled_commit _ _ _ _ _ _ H1 E2 Hu2) as [H2 _]. by eapply settled_rebalances. }
  destruct (pi_err p), (pi_ctx' p); intros [= <- <- <-]; auto.
Qed.

Lemma settled_run (cfg : config) (ps : list poll_in) (c c' : consumer) (t evs : list event) (res : run_res) :
  settled c t -> turns t None -> run_loop cfg c ps = (c', evs, res) -> undisturbed (t ++ evs) -> settled c' (t ++ evs).
Proof.
  revert c t evs res. induction ps as [|p ps IH]; intros c t evs res Hst Ht; cbn; [intros [= <- <- <-] _; by rewrite app_nil_r|].
  destruct (run_iter cfg c p) as [[c1 e1] r1] eqn:E1. destruct (run_loop cfg c1 ps) as [[c2 e2] r2] eqn:E2.
  destruct (good_iter _ _ _ _ _ _ _ (settled_good _ _ _ Hst Ht) E1) as (op & [_ _ G _] & Hop).
  destruct r1; [|intros [= <- <- <-]; by eapply settled_iter..]. intros [= <- <- <-]. rewrite Hop in G by done. rewrite app_assoc. intros Hu.
  eapply IH; [|done|done|done]. eapply settled_iter; [done|done|done|]. by eapply undisturbed_prefix.
Qed.

Lemma settled_initial : settled initial [].
Proof. split; [exists None; apply good_initial|intros tp o H; unfold initial in H; cbn [pending] in H; by rewrite lookup_empty in H|done]. Qed.

Lemma last_commit_split (t : list event) (tp : TopicPartition) (n : Z) :
  last_commit t tp = Some n -> exists u offs v, t = u ++ Committed offs :: v /\ offs !! tp = Some n.
Proof.
  unfold last_commit. induction t as [|x t IH] using rev_ind; [done|]. rewrite foldl_app. cbn. intros Hc.
  assert (Hrec : foldl (commit_of tp) None t = Some n -> exists u offs v, t ++ [x] = u ++ Committed offs :: v /\ offs !! tp = Some n).
  { intros (u & offs & v & -> & Hn)%IH. exists u, offs, (v ++ [x]). by rewrite <- app_assoc. }
  destruct x; cbn in Hc; try (by apply Hrec). destruct (offs !! tp) as [k|] eqn:Hk; [|by apply Hrec]. injection Hc as ->. by exists t, offs, [].
Qed.

Lemma last_fin_kept (tp : TopicPartition) (k : list event) (o : Z) : is_Some (foldl (fin_step tp) (Some o) k).
Proof. revert o. induction k as [|x k IH]; intros o; [by eexists|]. cbn. destruct x; cbn; try apply IH. by destruct (decide _); apply IH. Qed.

(** A run that stops, undisturbed, has committed everything it finished: the member that gets
    a partition next is given the record after the last one processed. *)
Theorem clean_stop_commits_processed (cfg : config) (ps : list poll_in) (c : consumer) (evs : list event) (err : option error) (tp : TopicPartition) :
  Run cfg initial ps true = (c, evs, Stopped err) -> undisturbed evs ->
  pending c = ∅ /\ last_commit evs tp = (fun o => o + 1) <$> last_fin evs tp.
Proof.
  unfold Run. destruct (run_loop cfg initial ps) as [[c1 e1] r1] eqn:E1. destruct r1 as [|e|]; [done| |by destruct (on_rebalance c1 _)].
  destruct (on_rebalance c1 _) as [c2 e2] eqn:E2. intros [= <- <- <-] Hu.
  pose proof (settled_run _ _ _ _ [] _ _ settled_initial TurnsNil E1 (undisturbed_prefix _ _ Hu)) as H1. cbn in H1.
  pose proof (settled_rebalance _ _ _ _ _ H1 E2 Hu) as [[op [G1 _ _ G4]] Ho Hd].
  assert (He : pending c2 = ∅).
  { apply map_empty. intros x. apply eq_None_not_Some. intros [o Hx]. pose proof (Ho x o Hx) as Hin.
    unfold on_rebalance, onRevoked in E2. destruct (commitLocked c1 _ true) as [c3 e3] eqn:E3. simplify_eq/=.
    assert (owned c3 = owned c1) as Heq by (destruct (st_good _ _ H1) as [op1 Hg1]; by destruct (good_commit _ _ _ _ _ _ _ Hg1 E3)).
    rewrite Heq in Hin. apply elem_of_difference in Hin as [Hin Hn]. apply Hn. apply elem_of_list_to_set. by apply elem_of_elements. }
  split; [done|]. destruct (last_fin (e1 ++ e2) tp) as [o|] eqn:Hl; cbn.
  - destruct (Hd tp o Hl) as [Hp|]; [by rewrite He, lookup_empty in Hp|done].
  - destruct (last_commit (e1 ++ e2) tp) as [n|] eqn:Hc; [|done]. apply last_commit_split in Hc as (u & offs & v & E & Hn).
    destruct (G4 u offs v E tp n Hn) as [Hf _]. rewrite E, last_fin_app, Hf in Hl. destruct (last_fin_kept tp (Committed offs :: v) (n - 1)) as [z Hz].
    by rewrite Hz in Hl.
Qed.
(** ** The group *)


(** The law of the polls, on a concrete history of a partition without gaps. *)
Fixpoint contiguous (p : Z) (l : list Message) : bool :=
  match l with [] => true | r :: l => (Offset r =? p) && contiguous (p + 1) l end.
Definition polls_checked (start : TopicPartition -> Z) (t : history) : bool :=
  forallb (fun i => match t !! i with
                    | Some (m, Fetched rs) =>
                        forallb (fun tp => match fetch_position start (take i t) m tp with
                                           | Some p => contiguous p (of_partition tp rs)
                                           | None => true
                                           end) (tp_of <$> rs)
                    | _ => true
                    end) (seq 0 (length t)).

Lemma contiguous_reads (present : TopicPartition -> Z -> Prop) (tp : TopicPartition) (l : list Message) :
  forall p, contiguous p l = true -> reads present tp p l.
Proof. induction l as [|r l IH]; intros p; cbn; [done|]. intros [->%Z.eqb_eq H]%andb_true_iff. split_and!; [lia|lia|by apply IH]. Qed.

Lemma polls_checked_sound (start : TopicPartition -> Z) (present : TopicPartition -> Z -> Prop) (t : history) :
  polls_checked start t = true -> polls_in_order start present t.
Proof.
  unfold polls_checked. rewrite forallb_forall. intros H u m rs v tp p E Hp. specialize (H (length u)). rewrite E in H.
  rewrite list_lookup_middle, take_app_length in H by done.
  assert (Hin : In (length u) (seq 0 (length (u ++ (m, Fetched rs) :: v)))) by (apply in_seq; rewrite length_app; cbn; lia).
  specialize (H Hin). rewrite forallb_forall in H. destruct (decide (tp ∈ tp_of <$> rs)) as [Hrs|Hrs].
  - specialize (H tp (proj1 (list_elem_of_In _ _) Hrs)). rewrite Hp in H. by apply contiguous_reads.
  - replace (of_partition tp rs) with (@nil Message); [done|]. symmetry. unfold of_partition. clear H Hp E Hin.
    induction rs as [|r rs IH]; [done|]. rewrite filter_cons_False, IH; [done|set_solver|]. intros <-. apply Hrs. left.
Qed.

Lemma idle_member (cfg : config) : Run cfg initial [] true = (initial, [], Continue).
Proof. done. Qed.

(** A first member handles two records and loses the partition before it commits the second;
    a second member is given that record again, and one that is poison. *)
Definition demo_poll (bs : list rebalance) (rs : list (Message * turn_in)) (commit : bool) : poll_in :=
  {| pi_ctx := false; pi_rebalance := bs; pi_records := rs; pi_err := PollOK; pi_ctx' := false; pi_commit := commit; pi_allowed := [] |}.
Definition demo_first : list poll_in :=
  [demo_poll [Assigned [demo_tp]] [(demo_msg 0, demo_turn ok_in)] true; demo_poll [] [(demo_msg 1, demo_turn ok_in)] false;
   demo_poll [Lost [demo_tp]] [] true].
Definition demo_second : list poll_in :=
  [demo_poll [Assigned [demo_tp]] [(demo_msg 1, demo_turn ok_in); (demo_msg 2, demo_turn poison_in)] true].
Definition demo_history : history :=
  ((fun e => (0%nat, e)) <$> (Run demo_cfg initial demo_first true).1.2) ++ ((fun e => (1%nat, e)) <$> (Run demo_cfg initial demo_second true).1.2).

Lemma demo_members (m : nat) : by_member m demo_history =
  match m with 0%nat => (Run demo_cfg initial demo_first true).1.2 | 1%nat => (Run demo_cfg initial demo_second true).1.2 | _ => [] end.
Proof. destruct m as [|[|m]]; vm_compute; reflexivity. Qed.

Lemma demo_members_run : members_run demo_cfg demo_history.
Proof.
  intros m. rewrite demo_members. destruct m as [|[|m]].
  - exists demo_first, true. eexists _, [], _. rewrite app_nil_r. split; [repeat constructor|vm_compute; reflexivity].
  - exists demo_second, true. eexists _, [], _. rewrite app_nil_r. split; [repeat constructor|vm_compute; reflexivity].
  - exists [], true. eexists _, [], _. split; [constructor|reflexivity].
Qed.

End Group.
