(* ===== verification/KafkaMetrics.v ===== *)
(** What libs/kafka counts (metrics.go, and the counting in consumer.go), which collectors
    a client exposes, and the one driver a binary links (driver.go). *)
From S2P Require Import Prelude GoError GoStr KafkaMessage KafkaConsumer.

Module KafkaMetrics.
Import KafkaMessage KafkaConsumer.

(** ** Sends *)

(** Counters by topic and result, and the observations of each topic's histogram. *)
Record sendMetrics := { s_records : gmap (string * string) Z; s_duration : gmap string (list Z) }.
Definition newSendMetrics : sendMetrics := {| s_records := ∅; s_duration := ∅ |}.

Definition inc `{Countable K} (k : K) (m : gmap K Z) : gmap K Z := <[k := default 0 (m !! k) + 1]> m.

Definition send_result (err : option error) : string :=
  match err with
  | None => "ok"
  | Some e => match as_send_error e with Some (TSendError kind _ _) => kind | _ => KindUnknown end
  end.

Definition observe (topic : string) (d : Z) (err : option error) (m : sendMetrics) : sendMetrics :=
  {| s_records := inc (topic, send_result err) (s_records m);
     s_duration := <[topic := d :: default [] (s_duration m !! topic)]> (s_duration m) |}.

(** ** Records *)

Definition consumeOK : string := "ok".
Definition consumeRetried : string := "retried".
Definition consumeDeadLettered : string := "dead_lettered".
Definition consumeFailed : string := "failed".
Definition otherTopic : string := "other".

Definition is_regex (t : string) : bool := String.prefix "^" t.

(** The literally configured topics. *)
Definition known_topics (topics : list string) : gset string := list_to_set (base.filter (fun t => is_regex t = false) topics).

Definition topic_label (topics : list string) (t : string) : string :=
  if bool_decide (t ∈ known_topics topics) then t else otherTopic.

Section Results.
Context (cfg : config) (i : rec_in) (r : Message).

(** The result [process] counts for its record, if it gets to count one. *)
Definition process_result : option string :=
  let '(evs, h) := handle_loop cfg i r (S (Z.to_nat (maxRetries cfg))) 1 in
  match h with
  | HDone => Some (if (1 <? length (invocations evs))%nat then consumeRetried else consumeOK)
  | HDraining | HNoFuel => None
  | HFailed attempt err =>
      let dlqTopic := deadLetterTopic cfg (Topic r) in
      if String.eqb dlqTopic "" then Some consumeFailed
      else match (deadLetter cfg i r dlqTopic (reason_of err) (ri_text i attempt) attempt).2 with
           | Done => Some consumeDeadLettered
           | Stop _ => Some consumeFailed
           | Draining | NoFuel => None
           end
  end.

(** A record is counted exactly when it was disposed of: as handled or parked when the
    loop goes on to commit it, as failed when it stops the loop, and not at all when the
    process is draining, which will see it again. It is [ok] after one call and [retried]
    after more. *)
Lemma one_result_per_record :
  let '(evs, o) := process cfg i r in
  match o with
  | Done => process_result = Some (match publishes evs with
                                   | [] => if (1 <? length (invocations evs))%nat then consumeRetried else consumeOK
                                   | _ => consumeDeadLettered
                                   end)
  | Stop _ => process_result = Some consumeFailed
  | Draining => process_result = None
  | NoFuel => False
  end.
Proof.
  unfold process, process_result.
  pose proof (handle_loop_spec cfg i r (S (Z.to_nat (maxRetries cfg))) 1) as Hh. unfold maxRetries in Hh at 1 2. specialize (Hh ltac:(lia) ltac:(unfold maxRetries; lia)).
  destruct (handle_loop cfg i r _ 1) as [evs h]. destruct Hh as (Hf & Hp & n & Hn & Hinv & _ & Hm).
  destruct h as [| |attempt err|]; [by rewrite Hp|done| |done].
  destruct (String.eqb (deadLetterTopic cfg (Topic r)) ""); [done|].
  unfold deadLetter. pose proof (dl_loop_spec cfg i (dlq_message (deadLetterTopic cfg (Topic r)) r (reason_of err) (ri_text i attempt) attempt)
    (S (Z.to_nat (maxRetries cfg))) 0) as Hd. specialize (Hd ltac:(unfold maxRetries; lia) ltac:(unfold maxRetries; lia)).
  destruct (dl_loop _ _ _ _ 0) as [evs' o]. destruct Hd as (Hno & _ & k & Hk & _ & Hpub & _). destruct o; cbn [snd]; try done.
  rewrite publishes_app, Hp, Hpub. by destruct k; [lia|].
Qed.
End Results.

(** The counter of a consumer after the records it was given a result for. *)
Definition count_record (topics : list string) (m : gmap (string * string) Z) (x : Message * option string) : gmap (string * string) Z :=
  match x.2 with Some result => inc (topic_label topics (Topic x.1), result) m | None => m end.

Definition results : list string := [consumeOK; consumeRetried; consumeDeadLettered; consumeFailed].

Lemma process_result_known (cfg : config) (i : rec_in) (r : Message) (x : string) : process_result cfg i r = Some x -> x ∈ results.
Proof.
  unfold process_result, results. destruct (handle_loop _ _ _ _ _) as [evs h].
  destruct h as [| |attempt err|]; try done; [destruct (_ <? _)%nat; intros [= <-]; set_solver|].
  destruct (String.eqb _ _); [intros [= <-]; set_solver|]. destruct (deadLetter _ _ _ _ _ _ _).2; try done; intros [= <-]; set_solver.
Qed.

(** Whatever the cluster's topics are, the series of the counter are those of the
    configured topics and one other: a subscription by pattern adds none. *)
Lemma record_series_bounded (topics : list string) (l : list (Message * option string)) :
  Forall (fun x => forall res, x.2 = Some res -> res ∈ results) l ->
  forall k, k ∈ dom (foldl (count_record topics) ∅ l) -> (k.1 ∈ topics \/ k.1 = otherTopic) /\ k.2 ∈ results.
Proof.
  intros Hl. cut (forall m, (forall k, k ∈ dom m -> (k.1 ∈ topics \/ k.1 = otherTopic) /\ k.2 ∈ results) ->
    forall k, k ∈ dom (foldl (count_record topics) m l) -> (k.1 ∈ topics \/ k.1 = otherTopic) /\ k.2 ∈ results).
  { intros H. apply H. intros k. by rewrite dom_empty, elem_of_empty. }
  induction Hl as [|[r [res|]] l Hx _ IH]; intros m Hm; [done| |by apply IH]. cbn [foldl count_record snd fst]. apply IH.
  intros k. unfold inc. rewrite dom_insert, elem_of_union, elem_of_singleton. intros [->|Hk]; [|by apply Hm]. cbn [fst snd].
  split; [|by apply Hx]. unfold topic_label. case_bool_decide as Hin; [|by right]. left.
  unfold known_topics in Hin. apply elem_of_list_to_set, list_elem_of_filter in Hin. by destruct Hin.
Qed.

(** ** Client gauges *)

Inductive desc := ClientInfo | ClientBrokersUp | ClientRequestErrors | QueueBytes_ | QueueMaxBytes_.

Record ClientStats := { Valid : bool; BrokersUp : Z; RequestErrors : Z; QueueBytes : Z; QueueMaxBytes : Z }.

Definition Describe (role : string) : list desc :=
  [ClientInfo; ClientBrokersUp; ClientRequestErrors] ++ if String.eqb role "producer" then [QueueBytes_; QueueMaxBytes_] else [].

Definition Collect (role : string) (s : ClientStats) : list (desc * Z) :=
  (ClientInfo, 1) ::
  if negb (Valid s) then []
  else [(ClientBrokersUp, BrokersUp s); (ClientRequestErrors, RequestErrors s)] ++
       if String.eqb role "producer" then [(QueueBytes_, QueueBytes s); (QueueMaxBytes_, QueueMaxBytes s)] else [].

(** A scrape has no series that was not described and none twice, says which client is
    linked even when the snapshot is missing or stale, and the rest only from a valid one. *)
Lemma collect_described (role : string) (s : ClientStats) :
  (forall d v, (d, v) ∈ Collect role s -> d ∈ Describe role) /\ NoDup (fst <$> Collect role s) /\
  (ClientInfo, 1) ∈ Collect role s /\ (Valid s = false -> Collect role s = [(ClientInfo, 1)]).
Proof.
  unfold Collect, Describe. destruct (Valid s), (String.eqb role "producer"); cbn; split_and!; try done; try set_solver;
    repeat (apply NoDup_cons; split; [rewrite ?elem_of_cons; rewrite ?elem_of_nil; naive_solver|]); try apply NoDup_nil_2;
    intros d v; rewrite !elem_of_cons, elem_of_nil; naive_solver.
Qed.

(** ** The linked driver *)

(** [Register]: the driver's name, and whether it panicked. *)
Definition Register (d : string) (driver : option string) : option string * bool :=
  match driver with Some _ => (driver, true) | None => (Some d, false) end.
Definition Provider (driver : option string) : string := default "" driver.

(** A binary that starts with its providers registered links exactly one, the first. *)
Lemma one_provider (ds : list string) (d : string) :
  foldl (fun acc d => let '(drv, p) := Register d acc.1 in (drv, acc.2 || p)) (None, false) (d :: ds) = (Some d, negb (bool_decide (ds = []))).
Proof.
  cbn [foldl Register fst snd orb].
  assert (H : forall l b, foldl (fun acc d => let '(drv, p) := Register d acc.1 in (drv, acc.2 || p)) (Some d, b) l = (Some d, b || negb (bool_decide (l = [])))).
  { induction l as [|x l IH]; intros b; [by rewrite orb_false_r|]. cbn [foldl Register fst snd]. rewrite IH, orb_true_r. by rewrite orb_true_r. }
  by rewrite H.
Qed.
End KafkaMetrics.
