(* ===== verification/RdKafka.v ===== *)
(** The librdkafka driver (libs/kafka-rdkafka/rdkafka.go): how its errors are
    classified, what [Send] waits for, how a failed producer is replaced and closed
    while calls are inside it, what [Poll] returns across rebalances, and how the
    consumer is closed while calls are inside it.

    The library is the environment: its answers, callbacks and fatal errors are
    inputs. What must never happen is a call into a client that was destroyed. *)
From S2P Require Import Prelude GoError KafkaMessage KafkaConsumer.

(** * Sending *)

Module RdSend.
Import KafkaMessage.

(** The codes the driver names; any other is [ErrOther]. *)
Inductive ErrorCode :=
  | ErrQueueFull
  | ErrMsgTimedOut | ErrTimedOut | ErrRequestTimedOut | ErrTransport | ErrAllBrokersDown | ErrLeaderNotAvailable
  | ErrNotLeaderForPartition | ErrNetworkException | ErrNotEnoughReplicas | ErrNotEnoughReplicasAfterAppend
  | ErrKafkaStorageError | ErrThrottlingQuotaExceeded
  | ErrUnknownTopicOrPart | ErrUnknownTopic | ErrUnknownPartition | ErrTopicAuthorizationFailed
  | ErrClusterAuthorizationFailed | ErrAuthentication | ErrSaslAuthenticationFailed
  | ErrFatal
  | ErrMsgSizeTooLarge | ErrRecordListTooLarge | ErrInvalidMsg | ErrInvalidRecord | ErrPolicyViolation | ErrBadMsg
  | ErrTopicException
  | ErrState
  | ErrOther (n : Z).

Definition sendErrorKinds (c : ErrorCode) : option string :=
  match c with
  | ErrQueueFull => Some KindQueueFull
  | ErrMsgTimedOut | ErrTimedOut | ErrRequestTimedOut | ErrTransport | ErrAllBrokersDown | ErrLeaderNotAvailable
  | ErrNotLeaderForPartition | ErrNetworkException | ErrNotEnoughReplicas | ErrNotEnoughReplicasAfterAppend
  | ErrKafkaStorageError | ErrThrottlingQuotaExceeded => Some KindUnavailable
  | ErrUnknownTopicOrPart | ErrUnknownTopic | ErrUnknownPartition | ErrTopicAuthorizationFailed
  | ErrClusterAuthorizationFailed | ErrAuthentication | ErrSaslAuthenticationFailed => Some KindNotProvisioned
  | ErrFatal => Some KindFatal
  | ErrMsgSizeTooLarge | ErrRecordListTooLarge | ErrInvalidMsg | ErrInvalidRecord | ErrPolicyViolation | ErrBadMsg
  | ErrTopicException => Some KindRejected
  | ErrState | ErrOther _ => None
  end.

(** An error of the client (with its code) or of the context. *)
Inductive cerror := Client (c : ErrorCode) (fatal : bool) | Context (e : KafkaMessage.error).

Section Codes.
(** The number of a code. *)
Context (code_number : ErrorCode -> Z).

Definition as_error (e : cerror) : KafkaMessage.error :=
  match e with Client _ _ => Errors.Node (TText "kafka client error") [] | Context e => e end.

Definition sendError (err : option cerror) : option KafkaMessage.error :=
  match err with
  | None => None
  | Some e =>
      let '(kind, code) :=
        match e with
        | Client c fatal =>
            (if fatal then KindFatal else default KindUnknown (sendErrorKinds c), code_number c)
        | Context _ => (KindUnknown, 0)
        end in
      Some (NewSendError kind code (as_error e))
  end.

(** One round of [Send]: what enqueueing answered (nothing is success), and, while
    it waits for room, whether the context ended first. *)
Record round := { produced : option cerror; gave_up : bool }.

Definition queue_full (e : option cerror) : bool :=
  match e with Some (Client ErrQueueFull _) => true | _ => false end.

(** The enqueueing loop: the last answer, and the rounds it took; [None] while it
    is still waiting for room. *)
Fixpoint enqueue (rounds : list round) : option (option cerror) :=
  match rounds with
  | [] => None
  | r :: rounds =>
      if negb (queue_full (produced r)) then Some (produced r)
      else if gave_up r then Some (produced r)
      else enqueue rounds
  end.

(** The wait for the delivery report: its error, or the context's. *)
Inductive awaited := Report (err : option cerror) | Event | Ended (e : KafkaMessage.error).

Definition Send (rounds : list round) (w : awaited) : option (option KafkaMessage.error) :=
  match enqueue rounds with
  | None => None
  | Some (Some e) => Some (sendError (Some e))
  | Some None =>
      Some (match w with
            | Report err => sendError err
            | Event => None
            | Ended e => sendError (Some (Context e))
            end)
  end.

(** What [Send] reports: no error only after the record was enqueued and its
    delivery report carried none; every error is a send error, retryable unless the
    broker rejected the record itself; a full queue is reported only when the caller's
    time ran out. *)
Theorem send_reports (rounds : list round) (w : awaited) (res : option KafkaMessage.error) :
  Send rounds w = Some res ->
  (res = None -> enqueue rounds = Some None /\ (w = Report None \/ w = Event)) /\
  (forall e, res = Some e -> exists kind r code, as_send_error e = Some (TSendError kind r code) /\
     r = negb (String.eqb kind KindRejected)) /\
  (forall f, enqueue rounds = Some (Some (Client ErrQueueFull f)) ->
     exists r, r ∈ rounds /\ gave_up r = true).
Proof.
  assert (Hse : forall k c e, exists kind r code, as_send_error (NewSendError k c e) = Some (TSendError kind r code) /\
     r = negb (String.eqb kind KindRejected)).
  { intros k c e. unfold NewSendError, as_send_error. cbn. eauto. }
  intros H. unfold Send in H. split_and!.
  - intros ->. destruct (enqueue rounds) as [[e|]|]; [by destruct e| |done].
    split; [done|]. destruct w as [[e|]| |e]; [by destruct e|by left|by right|done].
  - intros e ->. destruct (enqueue rounds) as [[x|]|]; [| |done].
    + destruct x; injection H as <-; apply Hse.
    + destruct w as [[x|]| |x]; [destruct x| | |]; try done; cbn in H; injection H as <-; apply Hse.
  - intros f Hf. clear H. induction rounds as [|r rounds IH]; [done|]. cbn in Hf.
    destruct (queue_full (produced r)) eqn:Hq; cbn in Hf.
    + destruct (gave_up r) eqn:Hg; [exists r; set_solver|].
      destruct (IH Hf) as (r' & ? & ?). exists r'. set_solver.
    + injection Hf as Hf. rewrite Hf in Hq. done.
Qed.
End Codes.
End RdSend.

(** * Replacing and closing the producer *)

Module RdProducer.

(** [inside] are the calls that hold the read lock, each in the client it found;
    [replacing] the replacement goroutines started and not yet in the lock,
    [retiring] those that swapped their client and have yet to close it, [closer]
    the client [Close] has yet to close, [destroyed] the clients closed. *)
Record producer := {
  cl : nat;
  next_client : nat;
  closed : bool;
  inside : gmap nat nat;
  replacing : list nat;
  retiring : list nat;
  closer : option nat;
  destroyed : list nat
}.

Definition newProducer : producer :=
  {| cl := 0; next_client := 1; closed := false; inside := ∅; replacing := []; retiring := []; closer := None; destroyed := [] |}.

Inductive event :=
  | EEnter (t : nat)             (* produce or Ping takes the read lock *)
  | ELeave (t : nat)
  | EFatal (c : nat)             (* pumpEvents of a client sees a fatal error *)
  | EReplace (k : nat) (ok : bool)  (* replace in the write lock; ok: a new client was made *)
  | ERetire (k : nat)            (* replace closes the old client *)
  | EClose                       (* Close in the write lock *)
  | EDestroy.                    (* Close flushes and closes the client *)

Definition set_inside (m : gmap nat nat) (p : producer) : producer :=
  {| cl := cl p; next_client := next_client p; closed := closed p; inside := m; replacing := replacing p; retiring := retiring p;
     closer := closer p; destroyed := destroyed p |}.
Definition set_replacing (l : list nat) (p : producer) : producer :=
  {| cl := cl p; next_client := next_client p; closed := closed p; inside := inside p; replacing := l; retiring := retiring p;
     closer := closer p; destroyed := destroyed p |}.

(** The write lock: no reader is inside. *)
Definition locked (p : producer) : bool := bool_decide (inside p = ∅).

(** [produce] and [Ping]: the read lock and the check; a closed producer answers
    errProducerClosed. *)
Definition produce (t : nat) (p : producer) : producer :=
  if closed p then p else set_inside (<[t := cl p]> (inside p)) p.

Definition startReplace (failed : nat) (p : producer) : producer :=
  if closed p then p else set_replacing (replacing p ++ [failed]) p.

(** [replace] up to its unlock; [ok]: the new client could be made. *)
Definition replace (failed : nat) (ok : bool) (p : producer) : producer :=
  if closed p || negb (cl p =? failed)%nat then p
  else if negb ok then p
  else {| cl := next_client p; next_client := S (next_client p); closed := closed p; inside := inside p; replacing := replacing p;
          retiring := retiring p ++ [failed]; closer := closer p; destroyed := destroyed p |}.

(** [Close] up to its unlock. *)
Definition Close (p : producer) : producer :=
  if closed p then p
  else {| cl := cl p; next_client := next_client p; closed := true; inside := inside p; replacing := replacing p;
          retiring := retiring p; closer := Some (cl p); destroyed := destroyed p |}.

Definition step (ev : event) (p : producer) : option producer :=
  match ev with
  | EEnter t => match inside p !! t with Some _ => None | None => Some (produce t p) end
  | ELeave t => match inside p !! t with None => None | Some _ => Some (set_inside (delete t (inside p)) p) end
  | EFatal c =>
      if negb (locked p) || negb (c <? next_client p)%nat || bool_decide (c ∈ destroyed p) then None
      else Some (startReplace c p)
  | EReplace k ok =>
      failed ← replacing p !! k;
      if negb (locked p) then None else Some (replace failed ok (set_replacing (delete k (replacing p)) p))
  | ERetire k =>
      c ← retiring p !! k;
      Some {| cl := cl p; next_client := next_client p; closed := closed p; inside := inside p;
              replacing := replacing p; retiring := delete k (retiring p); closer := closer p; destroyed := destroyed p ++ [c] |}
  | EClose => if negb (locked p) then None else Some (Close p)
  | EDestroy =>
      c ← closer p;
      Some {| cl := cl p; next_client := next_client p; closed := closed p; inside := inside p;
              replacing := replacing p; retiring := retiring p; closer := None; destroyed := destroyed p ++ [c] |}
  end.

Fixpoint run (evs : list event) (p : producer) : option producer :=
  match evs with
  | [] => Some p
  | ev :: evs => p' ← step ev p; run evs p'
  end.

(** Every client made is in exactly one place: in use, waiting to be closed, or
    closed. *)
Definition places (p : producer) : list nat :=
  (if closed p then [] else [cl p]) ++ match closer p with Some c => [c] | None => [] end ++ retiring p ++ destroyed p.

Record inv (p : producer) : Prop := {
  inv_places : places p ≡ₚ seq 0 (next_client p);
  inv_inside : forall t c, inside p !! t = Some c -> c = cl p /\ closed p = false;
  inv_closer : closed p = false -> closer p = None
}.

Lemma producer_inv_new : inv newProducer.
Proof. split; [done| |done]. intros t c H. cbn in H. by rewrite lookup_empty in H. Qed.

(** Only the calls inside and the replacements under way may differ. *)
Lemma producer_inv_frame (p p' : producer) :
  cl p' = cl p -> next_client p' = next_client p -> closed p' = closed p -> closer p' = closer p ->
  retiring p' = retiring p -> destroyed p' = destroyed p -> inside p' ⊆ inside p -> inv p -> inv p'.
Proof.
  intros E1 E2 E3 E4 E5 E6 Hsub [H1 H2 H3]. split; [|intros t c Ht|]; rewrite ?E1, ?E2, ?E3, ?E4; try done.
  - unfold places. by rewrite E1, E3, E4, E5, E6.
  - apply (H2 t). by eapply lookup_weaken.
Qed.

Lemma producer_replace_inv (failed : nat) (ok : bool) (p : producer) : inside p = ∅ -> inv p -> inv (replace failed ok p).
Proof.
  intros Hi Hinv. pose proof Hinv as [H1 H2 H3]. unfold replace.
  destruct (closed p || _) eqn:Hg; [done|]. destruct ok; [cbn [negb]|done].
  apply orb_false_elim in Hg as [Hc Hf]. apply negb_false_iff, Nat.eqb_eq in Hf as <-.
  split; [|intros t c Ht; cbn in Ht; by rewrite Hi, lookup_empty in Ht|cbn; auto].
  unfold places in *. cbn [cl closed closer retiring destroyed next_client]. rewrite Hc in *. rewrite H3 in H1 by done. rewrite H3 by done.
  cbn [app] in *. rewrite seq_S, <- H1. cbn [Nat.add]. rewrite <- app_assoc. cbn [app].
  transitivity (next_client p :: cl p :: retiring p ++ destroyed p).
  - constructor. symmetry. apply Permutation_middle.
  - apply (Permutation_cons_append (cl p :: retiring p ++ destroyed p)).
Qed.

Lemma producer_step_inv (ev : event) (p p' : producer) : step ev p = Some p' -> inv p -> inv p'.
Proof.
  intros Hs Hinv. pose proof Hinv as [H1 H2 H3]. destruct ev as [t|t|c|k ok|k| |]; cbn [step] in Hs.
  - destruct (inside p !! t); [done|]. injection Hs as <-. unfold produce. destruct (closed p) eqn:Hc; [done|].
    split; cbn; [|intros u c [[<- <-]|[_ Hu]]%lookup_insert_Some; [done|by destruct (H2 _ _ Hu)]|auto].
    unfold places in *. cbn. by rewrite Hc in H1 |- *.
  - destruct (inside p !! t) eqn:Ht; [|done]. simplify_eq. apply (producer_inv_frame p); try done. apply delete_subseteq.
  - destruct (_ || _); [done|]. injection Hs as <-. unfold startReplace. destruct (closed p); [done|]. by apply (producer_inv_frame p).
  - apply bind_Some in Hs as (failed & Hk & Hs). unfold locked in Hs. destruct (bool_decide_reflect (inside p = ∅)) as [Hi|]; [|done].
    injection Hs as <-. apply producer_replace_inv; [done|]. by apply (producer_inv_frame p).
  - apply bind_Some in Hs as (c & Hk & Hs). simplify_eq. split; cbn; [|done|done].
    rewrite <- H1. unfold places. cbn. do 2 apply Permutation_app_head. rewrite (delete_Permutation _ _ _ Hk) at 2. cbn.
    rewrite app_assoc. symmetry. apply Permutation_cons_append.
  - unfold locked in Hs. destruct (bool_decide_reflect (inside p = ∅)) as [Hi|]; [|done]. injection Hs as <-. unfold Close.
    destruct (closed p) eqn:Hc; [done|].
    split; cbn; [|intros t c Ht; by rewrite Hi, lookup_empty in Ht|done].
    unfold places in *. cbn. rewrite Hc, H3 in H1 by done. done.
  - apply bind_Some in Hs as (c & Hk & Hs). simplify_eq. split; cbn; [|done|done].
    rewrite <- H1. unfold places. cbn. rewrite Hk. apply Permutation_app_head. cbn.
    rewrite app_assoc. symmetry. apply Permutation_cons_append.
Qed.

Lemma producer_run_inv (evs : list event) (p p' : producer) : run evs p = Some p' -> inv p -> inv p'.
Proof.
  revert p. induction evs as [|ev evs IH]; intros p Hr Hi; [by injection Hr as <-|].
  apply bind_Some in Hr as (p1 & H1 & Hr). eauto using producer_step_inv.
Qed.

(** ** Theorems *)

(** C13: over every interleaving of sends, pings, fatal errors, replacements and
    [Close], no call is ever inside a client that was destroyed, no client is destroyed
    twice, none is created once the producer is closed, and when [Close] and the
    replacements are through, every client that was ever created is destroyed. *)
Theorem producer_client_safe (evs : list event) (p : producer) (Hr : run evs newProducer = Some p) :
  (forall t c, inside p !! t = Some c -> c ∉ destroyed p /\ c ∉ retiring p) /\
  NoDup (destroyed p) /\
  (closed p = true -> forall ev p', step ev p = Some p' -> next_client p' = next_client p /\ closed p' = true) /\
  (closed p = true -> closer p = None -> retiring p = [] -> forall c, (c < next_client p)%nat -> c ∈ destroyed p).
Proof.
  apply producer_run_inv in Hr as [H1 H2 H3]; [|apply producer_inv_new].
  assert (Hnd : NoDup (places p)) by (rewrite H1; apply NoDup_seq).
  unfold places in *. split_and!.
  - intros t c Ht. destruct (H2 _ _ Ht) as [-> Hc]. rewrite Hc, H3 in Hnd by done. cbn in Hnd.
    apply NoDup_cons in Hnd as [Hn _]. set_solver.
  - by do 3 apply NoDup_app in Hnd as (_ & _ & Hnd).
  - intros Hc ev p' Hs. destruct ev as [t|t|c|k ok|k| |]; cbn [step] in Hs;
      unfold produce, startReplace, replace, Close in Hs; cbn in Hs; rewrite ?Hc in Hs; cbn in Hs.
    all: try (apply bind_Some in Hs as (x & _ & Hs)). all: repeat case_match; by simplify_eq/=.
  - intros Hc Hcl Hret c Hlt. rewrite Hc, Hcl, Hret in H1. cbn in H1. rewrite H1. apply elem_of_seq. lia.
Qed.

(** Two sends inside; a fatal error replaces the client once they are out. *)
Definition demo_events : list event :=
  [EEnter 1; EEnter 2; ELeave 1; ELeave 2; EFatal 0; EReplace 0 true; EEnter 3; ERetire 0].

Lemma producer_client_safe_witness :
  exists p, run demo_events newProducer = Some p /\ NoDup (destroyed p) /\ destroyed p = [0%nat].
Proof.
  eexists. split; [vm_compute; reflexivity|]. split; [|reflexivity].
  refine (proj1 (proj2 (producer_client_safe demo_events _ _))). vm_compute. reflexivity.
Defined.

End RdProducer.

(** * The consumer *)

Module RdConsumer.
Import KafkaMessage KafkaConsumer.

(** ** Poll *)

(** A partition as the client gives it; the topic may be nil. *)
Record CPartition := { c_Topic : option string; c_Partition : Z; c_Offset : Z; c_Error : option error }.

Definition toPartitions (tps : list CPartition) : list TopicPartition :=
  omap (fun tp => t ← c_Topic tp; Some {| tp_Topic := t; tp_Partition := c_Partition tp |}) tps.

(** A call of the rebalance callback, from within the client's poll. *)
Inductive rebalance := RAssigned (ps : list CPartition) | RRevoked (lost : bool) (ps : list CPartition).

(** A record as the client gives it. *)
Record CMessage := {
  c_tp : CPartition;
  c_Key : option string;
  c_Value : string;
  c_Headers : list Header;
  c_Timestamp : Z
}.

Definition toMessage (e : CMessage) : Message :=
  {| Topic := default "" (c_Topic (c_tp e)); MKey := c_Key e; MValue := c_Value e; Partition := c_Partition (c_tp e);
     Offset := c_Offset (c_tp e); Headers := c_Headers e; Timestamp := c_Timestamp e; Attempt := 0 |}.

Inductive kevent :=
  | EvMessage (e : CMessage)
  | EvStats
  | EvError (e : error) (fatal : bool).

(** One poll of the client: whether the context had ended before it, the callbacks
    it made and the event it returned. *)
Record polled := { ctx_done : bool; callbacks : list rebalance; ev : option kevent }.

Definition revoked_by (cbs : list rebalance) : list TopicPartition :=
  cbs ≫= fun r => match r with RRevoked _ ps => toPartitions ps | RAssigned _ => [] end.

(** What the callback tells the consumer loop; [ok]: its commit, if any, succeeds. *)
Definition notifies (ok : bool) (r : rebalance) : KafkaConsumer.rebalance :=
  match r with
  | RAssigned ps => Assigned (toPartitions ps)
  | RRevoked true ps => Lost (toPartitions ps)
  | RRevoked false ps => Revoked (Some (toPartitions ps)) ok
  end.

(** [Polled] carries the errors joined into the second result, [Failed] an error
    that comes alone; [Waiting]: the call is still polling when the answers end. *)
Inductive poll_result :=
  | Polled (out : list Message) (errs : list error)
  | Failed (e : error)
  | Waiting.

Definition ErrClientClosed : error := Errors.Node TClientClosed [].
Definition ErrClientFailed : error := Errors.Node TClientFailed [].

(** [fmt.Errorf("%w: %w", kafka.ErrClientFailed, e)] *)
Definition client_failed (e : error) : error := Errors.Node (TText "kafka client failed") [ErrClientFailed; e].

(** The end of a round: what was polled of a revoked partition is dropped. *)
Definition drop_revoked (revoked : list TopicPartition) (out : list Message) : list Message :=
  match revoked with [] => out | _ => filter (fun m => tp_of m ∉ revoked) out end.

Fixpoint poll_loop (max : nat) (answers : list polled) (out : list Message) (errs : list error)
    (revoked : list TopicPartition) : poll_result :=
  if (max <=? length out)%nat then Polled out errs
  else match answers with
  | [] => Waiting
  | a :: answers =>
      if ctx_done a then Polled out errs
      else
        let revoked := revoked ++ revoked_by (callbacks a) in
        match ev a with
        | None => match out with [] => poll_loop max answers out errs revoked | _ => Polled out errs end
        | Some (EvMessage e) =>
            match c_Error (c_tp e) with
            | Some err => poll_loop max answers out (errs ++ [err]) revoked
            | None => poll_loop max answers (drop_revoked revoked (out ++ [toMessage e])) errs []
            end
        | Some EvStats => poll_loop max answers (drop_revoked revoked out) errs []
        | Some (EvError e true) => Failed (client_failed e)
        | Some (EvError e false) => poll_loop max answers (drop_revoked revoked out) (errs ++ [e]) []
        end
  end.

Definition Poll (closing : bool) (max : nat) (answers : list polled) : poll_result :=
  if closing then Failed ErrClientClosed else poll_loop max answers [] [] [].

(** The records among the events of some polls. *)
Definition record_of (a : polled) : list Message :=
  match ev a with
  | Some (EvMessage e) => match c_Error (c_tp e) with None => [toMessage e] | Some _ => [] end
  | _ => []
  end.
Definition records (answers : list polled) : list Message := answers ≫= record_of.

Lemma drop_revoked_sublist (rv : list TopicPartition) (out : list Message) : drop_revoked rv out `sublist_of` out.
Proof. unfold drop_revoked. destruct rv; [done|]. apply sublist_filter. Qed.

Lemma records_cons (a : polled) (l : list polled) :
  records (a :: l) = record_of a ++ records l.
Proof. done. Qed.

(** What the theorem on [Poll] says of the loop, from a state it may be in. *)
Definition polls_to (max : nat) (answers : list polled) (out : list Message) (rv : list TopicPartition) (out' : list Message) : Prop :=
  exists consumed rest, answers = consumed ++ rest /\ (length out' <= max)%nat /\
    out' `sublist_of` out ++ records consumed /\
    (rv = [] -> Forall (fun a => revoked_by (callbacks a) = []) consumed -> out' = out ++ records consumed).

Lemma polls_to_stop (max : nat) (answers : list polled) (out : list Message) (rv : list TopicPartition) :
  (length out <= max)%nat -> polls_to max answers out rv out.
Proof. intros H. exists [], answers. rewrite app_nil_r. done. Qed.

(** One more answer, which adds [m]. *)
Lemma polls_to_cons (max : nat) (a : polled) (answers : list polled) (out o out' : list Message) (rv r : list TopicPartition)
    (m : list Message) :
  polls_to max answers o r out' ->
  record_of a = m ->
  o `sublist_of` out ++ m -> (rv = [] -> revoked_by (callbacks a) = [] -> r = [] /\ o = out ++ m) ->
  polls_to max (a :: answers) out rv out'.
Proof.
  intros (consumed & rest & -> & H1 & H2 & H3) Hm Hsub Hex.
  exists (a :: consumed), rest. rewrite records_cons, Hm. split_and!; [done|done| |].
  - etrans; [exact H2|]. rewrite app_assoc. by apply sublist_app.
  - intros Hrv Hall. inversion_clear Hall as [|? ? Ha Hc]. destruct (Hex Hrv Ha) as [-> ->].
    rewrite H3 by done. by rewrite app_assoc.
Qed.

Lemma drop_revoked_length (rv : list TopicPartition) (out : list Message) (n : nat) :
  (length out <= n)%nat -> (length (drop_revoked rv out) <= n)%nat.
Proof. etrans; [apply sublist_length, drop_revoked_sublist|done]. Qed.

Lemma poll_loop_spec (max : nat) (answers : list polled) (out : list Message) (errs : list error)
    (rv : list TopicPartition) (out' : list Message) (errs' : list error) :
  poll_loop max answers out errs rv = Polled out' errs' -> (length out <= max)%nat -> polls_to max answers out rv out'.
Proof.
  revert out errs rv. induction answers as [|a answers IH]; intros out errs rv H Hlen; cbn [poll_loop] in H.
  - destruct (Nat.leb_spec max (length out)); [|done]. simplify_eq. by apply polls_to_stop.
  - destruct (Nat.leb_spec max (length out)) as [|Hlt]; [simplify_eq; by apply polls_to_stop|].
    destruct (ctx_done a); [simplify_eq; by apply polls_to_stop|].
    assert (Hrec : record_of a = match ev a with
      | Some (EvMessage e) => match c_Error (c_tp e) with None => [toMessage e] | Some _ => [] end | _ => [] end) by done.
    destruct (ev a) as [[e| |e [|]]|] eqn:He; [destruct (c_Error (c_tp e))| |done| |].
    + eapply (polls_to_cons _ _ _ _ out _ _ _ []); [by eapply IH|exact Hrec|by rewrite app_nil_r|].
      intros -> ->. by rewrite !app_nil_r.
    + eapply (polls_to_cons _ _ _ _ _ _ _ _ [toMessage e]); [eapply IH; [exact H|]|exact Hrec|apply drop_revoked_sublist|].
      * apply drop_revoked_length. rewrite length_app. cbn. lia.
      * by intros -> ->.
    + eapply (polls_to_cons _ _ _ _ _ _ _ _ []); [eapply IH; [exact H|by apply drop_revoked_length]|exact Hrec| |].
      * rewrite app_nil_r. apply drop_revoked_sublist.
      * intros -> ->. by rewrite !app_nil_r.
    + eapply (polls_to_cons _ _ _ _ _ _ _ _ []); [eapply IH; [exact H|by apply drop_revoked_length]|exact Hrec| |].
      * rewrite app_nil_r. apply drop_revoked_sublist.
      * intros -> ->. by rewrite !app_nil_r.
    + destruct out as [|x out].
      * eapply (polls_to_cons _ _ _ _ [] _ _ _ []); [by eapply IH|exact Hrec|done|]. by intros -> ->.
      * simplify_eq. eapply (polls_to_cons _ _ _ _ _ _ _ _ []); [by eapply polls_to_stop|exact Hrec|by rewrite app_nil_r|].
        intros _ _. by rewrite !app_nil_r.
Qed.

(** ** Commit *)

(** The positions handed to the client. *)
Definition commit_partitions (offsets : list (TopicPartition * Z)) : list CPartition :=
  (fun '(tp, next) => {| c_Topic := Some (tp_Topic tp); c_Partition := tp_Partition tp; c_Offset := next; c_Error := None |}) <$> offsets.

(** [errors.Join(err, e)] *)
Definition join (err : option error) (e : error) : error := Errors.Node (TText "") (option_list err ++ [e]).

(** The answer of the client: the partitions, each with its own error, and an error. *)
Definition commitOffsets (res : list CPartition) (err : option error) : option error :=
  foldl (fun err tp => match c_Error tp with Some e => Some (join err e) | None => err end) err res.

(** A commit counts as done only when the client reports no error, for no partition. *)
Lemma commitOffsets_ok (res : list CPartition) (err : option error) :
  commitOffsets res err = None <-> err = None /\ Forall (fun tp => c_Error tp = None) res.
Proof.
  unfold commitOffsets. revert err. induction res as [|tp res IH]; intros err; cbn; [intuition|]. rewrite IH, Forall_cons.
  destruct (c_Error tp); intuition done.
Qed.

(** What is committed is what the loop asked for. *)
Lemma commit_partitions_faithful (offsets : list (TopicPartition * Z)) :
  toPartitions (commit_partitions offsets) = offsets.*1 /\ c_Offset <$> commit_partitions offsets = offsets.*2.
Proof.
  unfold toPartitions, commit_partitions. induction offsets as [|[[t p] n] l [IH1 IH2]]; [done|]. cbn in *. by rewrite IH1, IH2.
Qed.

(** ** Theorems *)

(** A poll returns records in the order the client gave them, none made up and
    none twice, at most the number asked for; and while no partition is revoked
    during it, all of them. *)
Theorem poll_returns_records (closing : bool) (max : nat) (answers : list polled) (out : list Message) (errs : list error)
    (H : Poll closing max answers = Polled out errs) :
  exists consumed rest, answers = consumed ++ rest /\ (length out <= max)%nat /\
    out `sublist_of` records consumed /\
    (Forall (fun a => revoked_by (callbacks a) = []) consumed -> out = records consumed).
Proof.
  destruct closing; [done|].
  apply poll_loop_spec in H as (consumed & rest & -> & H1 & H2 & H3); [|cbn; lia].
  exists consumed, rest. split_and!; try done. intros Ha. by apply H3.
Qed.

Definition crecord_at (offset : Z) : CMessage :=
  {| c_tp := {| c_Topic := Some "tasks"; c_Partition := 0; c_Offset := offset; c_Error := None |};
     c_Key := None; c_Value := "v"; c_Headers := []; c_Timestamp := 0 |}.
Definition quiet_poll (cbs : list rebalance) (e : option kevent) : polled := {| ctx_done := false; callbacks := cbs; ev := e |}.
Definition polled_record (offset : Z) : polled := quiet_poll [] (Some (EvMessage (crecord_at offset))).

(** A client that returns from its poll with nothing after a callback. *)
Definition rebalanced_polls : list polled :=
  [quiet_poll [RRevoked false [c_tp (crecord_at 0)]] None; quiet_poll [RAssigned [c_tp (crecord_at 0)]] None;
   polled_record 5; polled_record 6; quiet_poll [] None].

Lemma poll_returns_records_witness :
  exists consumed rest, rebalanced_polls = consumed ++ rest /\ [toMessage (crecord_at 6)] `sublist_of` records consumed.
Proof.
  destruct (poll_returns_records false 100 rebalanced_polls [toMessage (crecord_at 6)] [] eq_refl)
    as (consumed & rest & H1 & _ & H2 & _). exists consumed, rest. split; [exact H1|exact H2].
Defined.

(** The set of revoked partitions is cleared only in a round whose poll returned an
    event. So the first record of a partition that was revoked and assigned again in
    the same call is dropped and the ones after it are not: the loop then commits
    past a record no handler has seen. *)
Theorem reassigned_partition_loses_record :
  Poll false 100 rebalanced_polls = Polled [toMessage (crecord_at 6)] [].
Proof. reflexivity. Qed.

(** The iteration of the consumer loop that this call is the poll of. *)
Definition loop_poll (max : nat) (answers : list polled) (turn : turn_in) : poll_in :=
  {| pi_ctx := false; pi_rebalance := notifies true <$> (answers ≫= callbacks);
     pi_records := match Poll false max answers with Polled out _ => (fun m => (m, turn)) <$> out | _ => [] end;
     pi_err := match Poll false max answers with Polled _ [] | Waiting => PollOK | Polled _ _ => PollFetchError | Failed e => PollFailed e end;
     pi_ctx' := false; pi_commit := true; pi_allowed := [] |}.

Definition reassigned_trace : list event :=
  Eval vm_compute in (run_iter demo_cfg initial (loop_poll 100 rebalanced_polls (demo_turn ok_in))).1.2.

Theorem reassigned_record_never_handled :
  (run_iter demo_cfg initial (loop_poll 100 rebalanced_polls (demo_turn ok_in))).1.2 = reassigned_trace /\
  Committed {[tp_of (toMessage (crecord_at 5)) := 7]} ∈ reassigned_trace /\
  Forall (fun e => e <> Turn (toMessage (crecord_at 5))) reassigned_trace.
Proof.
  split; [vm_compute; reflexivity|]. split.
  - apply list_elem_of_In. cbn. tauto.
  - repeat constructor; discriminate.
Qed.

(** "Records of a partition revoked during the call are not returned": they are when
    the callback ran in the round that ended the call. *)
Theorem revoked_record_returned :
  Poll false 100 [polled_record 5; quiet_poll [RRevoked false [c_tp (crecord_at 0)]] None]
  = Polled [toMessage (crecord_at 5)] [].
Proof. reflexivity. Qed.

End RdConsumer.

(** * Closing the consumer *)

Module RdClose.
Import KafkaMessage RdConsumer.

(** Where [Close] is; [CLeaving]: in the client's own close, which runs the revoke
    callback, [CDestroyed]: that has returned. *)
Inductive closing_at := CNone | CWaiting | CLeaving | CDestroyed | CDone | CAbandoned.

(** [polls]: how many calls of Poll are in the client, which nothing counts; [calls] the
    calls counted in the wait group, each inside the client; [leaving_commit] the one of
    them the revoke callback of [Close] waits for. *)
Record consumer := {
  polls : nat;
  failed : option error;
  closing : bool;
  closed : bool;
  calls : gset nat;
  close_at : closing_at;
  leaving_commit : option nat;
  destroyed : bool
}.

Definition NewConsumer : consumer :=
  {| polls := 0; failed := None; closing := false; closed := false; calls := ∅; close_at := CNone;
     leaving_commit := None; destroyed := false |}.

Definition set_polls (n : nat) (f : option error) (c : consumer) : consumer :=
  {| polls := n; failed := f; closing := closing c; closed := closed c; calls := calls c; close_at := close_at c;
     leaving_commit := leaving_commit c; destroyed := destroyed c |}.
Definition set_calls (s : gset nat) (l : option nat) (c : consumer) : consumer :=
  {| polls := polls c; failed := failed c; closing := closing c; closed := closed c; calls := s; close_at := close_at c;
     leaving_commit := l; destroyed := destroyed c |}.
Definition set_close (cl cd : bool) (a : closing_at) (d : bool) (c : consumer) : consumer :=
  {| polls := polls c; failed := failed c; closing := cl; closed := cd; calls := calls c; close_at := a;
     leaving_commit := leaving_commit c; destroyed := d |}.

(** Poll, Ping, Commit and Close begin on any goroutine; [ERevoke] is the Commit of the
    callback that leaving the group runs. *)
Inductive close_event :=
  | EPoll                       (* Poll begins *)
  | EPolled (r : poll_result)   (* a Poll returns *)
  | EPing (t : nat)
  | ECommit (t : nat)
  | ERevoke (t : nat)
  | EDone (t : nat)             (* a counted call returns from the client *)
  | EClose                      (* Close begins *)
  | EWaited                     (* no call is inside *)
  | ETimeout                    (* closeWait is over *)
  | ELeft                       (* the client's close returns: it is destroyed *)
  | EClosed.                    (* Close's last close_step under the lock *)

(** What the event's caller gets, where it gets anything. *)
Inductive answer := Entered | Refused (e : error) | Silent.

Definition Ping (t : nat) (c : consumer) : consumer * answer :=
  match failed c with
  | Some e => (c, Refused e)
  | None => if closing c || closed c then (c, Refused ErrClientClosed) else (set_calls ({[t]} ∪ calls c) (leaving_commit c) c, Entered)
  end.

Definition Commit (t : nat) (c : consumer) : consumer * answer :=
  if closed c then (c, Refused ErrClientClosed) else (set_calls ({[t]} ∪ calls c) (leaving_commit c) c, Entered).

Definition close_step (ev : close_event) (c : consumer) : option (consumer * answer) :=
  match ev with
  | EPoll => if closing c then Some (c, Refused ErrClientClosed) else Some (set_polls (S (polls c)) (failed c) c, Entered)
  | EPolled r =>
      match polls c with
      | O => None
      | S n => Some (set_polls n (match r with Failed e => Some e | _ => failed c end) c, Silent)
      end
  | EPing t => if bool_decide (t ∈ calls c) then None else Some (Ping t c)
  | ECommit t => if bool_decide (t ∈ calls c) then None else Some (Commit t c)
  | ERevoke t =>
      match close_at c, leaving_commit c with
      | CLeaving, None =>
          if bool_decide (t ∈ calls c) then None
          else let '(c', a) := Commit t c in Some (set_calls (calls c') (Some t) c', a)
      | _, _ => None
      end
  | EDone t =>
      if bool_decide (t ∈ calls c)
      then Some (set_calls (calls c ∖ {[t]}) (if bool_decide (leaving_commit c = Some t) then None else leaving_commit c) c, Silent)
      else None
  | EClose => if closing c then Some (c, Silent) else Some (set_close true (closed c) CWaiting (destroyed c) c, Silent)
  | EWaited =>
      match close_at c with
      | CWaiting => if bool_decide (calls c = ∅) then Some (set_close (closing c) (closed c) CLeaving (destroyed c) c, Silent) else None
      | _ => None
      end
  | ETimeout =>
      match close_at c with
      | CWaiting => Some (set_close (closing c) true CAbandoned (destroyed c) c, Silent)
      | _ => None
      end
  | ELeft =>
      match close_at c, leaving_commit c with
      | CLeaving, None => Some (set_close (closing c) (closed c) CDestroyed true c, Silent)
      | _, _ => None
      end
  | EClosed =>
      match close_at c with
      | CDestroyed => Some (set_close (closing c) true CDone (destroyed c) c, Silent)
      | _ => None
      end
  end.

Fixpoint close_run (evs : list close_event) (c : consumer) : option consumer :=
  match evs with
  | [] => Some c
  | ev :: evs => '(c, _) ← close_step ev c; close_run evs c
  end.

(** ** The calls of the loop *)

(** How the [Consumer] of libs/kafka calls its client: Poll, Commit and Close on the
    goroutine of [Run], one after another (a Commit also inside a Poll, from its revoke
    callback); pings on any. *)
Definition in_Close (c : consumer) : bool := match close_at c with CWaiting | CLeaving | CDestroyed => true | _ => false end.
Definition in_turn (ev : close_event) (c : consumer) : bool :=
  match ev with
  | EPoll | EClose => Nat.eqb (polls c) 0 && negb (in_Close c)
  | ECommit _ => negb (in_Close c)
  | _ => true
  end.

Fixpoint loop_run (evs : list close_event) (c : consumer) : option consumer :=
  match evs with
  | [] => Some c
  | ev :: evs => if in_turn ev c then '(c, _) ← close_step ev c; loop_run evs c else None
  end.

(** How the flags follow from where [Close] is, and who can be inside the client
    there. *)
Definition flags (a : closing_at) : bool * bool * bool :=
  match a with
  | CNone => (false, false, false)
  | CWaiting | CLeaving => (true, false, false)
  | CDestroyed => (true, false, true)
  | CDone => (true, true, true)
  | CAbandoned => (true, true, false)
  end.

Definition flags_ok (c : consumer) : Prop := (closing c, closed c, destroyed c) = flags (close_at c).

Lemma close_step_flags (ev : close_event) (c c' : consumer) (a : answer) : close_step ev c = Some (c', a) -> flags_ok c -> flags_ok c'.
Proof.
  destruct c as [p f cg cd cs at_ lc d]. unfold flags_ok. cbn. intros Hs H.
  destruct ev; unfold close_step, Ping, Commit, set_polls, set_calls, set_close in Hs; cbn in Hs;
    destruct at_; cbn in H; injection H as -> -> ->; cbn in Hs; repeat case_match; by simplify_eq.
Qed.

(** Who can be inside the client, when the loop makes its calls in turn. *)
Record close_inv (c : consumer) : Prop := {
  inv_flags : flags_ok c;
  inv_polls : polls c <> 0%nat -> close_at c = CNone;
  inv_leaving : close_at c <> CLeaving -> leaving_commit c = None;
  inv_calls : match close_at c with
    | CLeaving => calls c = match leaving_commit c with Some t => {[t]} | None => ∅ end
    | CDestroyed | CDone => calls c = ∅
    | _ => True
    end
}.

Lemma close_inv_new : close_inv NewConsumer.
Proof. by split. Qed.

Lemma close_step_inv (ev : close_event) (c c' : consumer) (a : answer) :
  in_turn ev c = true -> close_step ev c = Some (c', a) -> close_inv c -> close_inv c'.
Proof.
  intros Ht Hs [H1 H2 H3 H4]. pose proof (close_step_flags _ _ _ _ Hs H1) as Hf. unfold flags_ok in H1.
  destruct c as [p f cg cd cs at_ lc d]. cbn in H1, H2, H3, H4, Ht.
  destruct ev as [|r|t|t|t|t| | | | |]; unfold in_turn, in_Close, close_step, Ping, Commit, set_polls, set_calls, set_close in Ht, Hs;
    cbn in Ht, Hs; destruct at_; cbn in H1; injection H1 as -> -> ->; cbn in Ht, Hs; rewrite ?andb_false_r in Ht; try done.
  all: try (specialize (H3 ltac:(done)) as ->).
  all: try (destruct p as [|p]; [|by specialize (H2 ltac:(done))]).
  all: repeat case_match; simplify_eq; split; cbn in *; try done.
  all: repeat match goal with
    | H : bool_decide _ = true |- _ => apply bool_decide_eq_true in H
    | H : bool_decide _ = false |- _ => apply bool_decide_eq_false in H
    end.
  all: first [done|set_solver].
Qed.

Lemma loop_run_inv (evs : list close_event) (c c' : consumer) : loop_run evs c = Some c' -> close_inv c -> close_inv c'.
Proof.
  revert c. induction evs as [|ev evs IH]; intros c Hr Hi; [by injection Hr as <-|].
  cbn in Hr. destruct (in_turn ev c) eqn:Ht; [|done]. apply bind_Some in Hr as ([c1 a] & H1 & Hr). eauto using close_step_inv.
Qed.

Lemma abandoned_for_good (evs : list close_event) (c c' : consumer) :
  flags_ok c -> close_at c = CAbandoned -> close_run evs c = Some c' -> flags_ok c' /\ close_at c' = CAbandoned.
Proof.
  revert c. induction evs as [|ev evs IH]; intros c Hi Ha Hr; [by injection Hr as <-|].
  apply bind_Some in Hr as ([c1 a] & Hs & Hr). apply (IH c1); [by eapply close_step_flags| |done].
  unfold flags_ok in Hi. rewrite Ha in Hi. injection Hi as Hcl Hcd _.
  destruct ev; cbn in Hs; unfold Ping, Commit in Hs; rewrite ?Ha, ?Hcl, ?Hcd in Hs; repeat case_match; by simplify_eq.
Qed.

(** What is at most left to happen in [Close]: one of the listed sequences of its own
    steps ends it. *)
Definition ends_close (c : consumer) : list close_event :=
  match close_at c with
  | CWaiting => [ETimeout]
  | CLeaving => match leaving_commit c with Some t => [EDone t; ELeft; EClosed] | None => [ELeft; EClosed] end
  | CDestroyed => [EClosed]
  | _ => []
  end.

(** ** Theorems *)

(** C23: as the loop calls it (Poll, Commit and Close one after another, Ping at any time
    from anywhere), no call is inside the consumer's client once it is destroyed; a client
    given up after [closeWait] is never destroyed, and once [Close] is over every poll,
    commit and ping is refused, whoever calls and when; and [Close] always ends by its own
    steps, given at most that the call of its revoke callback returns. Close during a Poll
    is another matter ([close_under_poll]). *)
Theorem consumer_client_safe (evs : list close_event) (c : consumer) (Hr : loop_run evs NewConsumer = Some c) :
  (destroyed c = true -> calls c = ∅ /\ polls c = 0%nat) /\
  (close_at c = CAbandoned -> forall evs' c', close_run evs' c = Some c' -> destroyed c' = false) /\
  (closed c = true -> forall ev c' a, close_step ev c = Some (c', a) -> a <> Entered /\ closed c' = true) /\
  (closing c = true -> exists c', close_run (ends_close c) c = Some c' /\ closed c' = true).
Proof.
  apply loop_run_inv in Hr; [|apply close_inv_new]. destruct Hr as [H1 H2 H3 H4]. split_and!.
  - intros Hd. unfold flags_ok in H1. destruct (close_at c) eqn:Ha; injection H1 as ? ? ?; try congruence.
    all: split; [done|]. all: by destruct (polls c); [|specialize (H2 ltac:(done))].
  - intros Ha evs' c' Hr'. destruct (abandoned_for_good _ _ _ H1 Ha Hr') as [Hf Hk].
    unfold flags_ok in Hf. rewrite Hk in Hf. by injection Hf.
  - intros Hc ev c' a Hs. unfold flags_ok in H1. destruct (close_at c) eqn:Ha; injection H1 as Hcl Hcd ?; try congruence.
    all: destruct ev; cbn in Hs; unfold Ping, Commit in Hs; rewrite ?Ha, ?Hcl, ?Hc in Hs; repeat case_match; by simplify_eq/=.
  - intros Hcl. unfold flags_ok in H1. unfold ends_close. destruct (close_at c) eqn:Ha; cbn in H1; injection H1 as ? ? ?; try congruence.
    + cbn. rewrite Ha. eauto.
    + destruct (leaving_commit c) as [t|] eqn:Hl; cbn.
      * rewrite bool_decide_eq_true_2 by (rewrite H4; set_solver). cbn. rewrite Ha, bool_decide_eq_true_2 by done. cbn. eauto.
      * rewrite Ha, Hl. cbn. eauto.
    + cbn. rewrite Ha. eauto.
    + cbn. eauto.
    + cbn. eauto.
Qed.

(** A ping inside when [Close] begins; the revoke callback commits. *)
Definition close_demo : list close_event :=
  [EPoll; EPing 1; EPolled (Polled [] []); EClose; EDone 1; EWaited; ERevoke 2; EDone 2; ELeft; EClosed].

Lemma consumer_client_safe_witness :
  exists c, loop_run close_demo NewConsumer = Some c /\ destroyed c = true /\ calls c = ∅ /\ polls c = 0%nat.
Proof.
  eexists. split; [vm_compute; reflexivity|]. split; [reflexivity|].
  refine (proj1 (consumer_client_safe close_demo _ _) _); vm_compute; reflexivity.
Defined.

(** Nothing counts a Poll: a Close on another goroutine destroys the client under it. *)
Lemma close_under_poll :
  exists c, close_run [EPoll; EClose; EWaited; ELeft] NewConsumer = Some c /\ destroyed c = true /\ polls c = 1%nat.
Proof. eexists. split; [vm_compute; reflexivity|done]. Qed.

(** So does a Commit on another goroutine between the end of the client's close and the
    lock that records it: it enters a client that is gone. *)
Lemma commit_after_close :
  exists c, close_run [EClose; EWaited; ELeft; ECommit 1] NewConsumer = Some c /\ destroyed c = true /\ calls c = {[1%nat]}.
Proof. eexists. split; [vm_compute; reflexivity|done]. Qed.

End RdClose.
