(* ===== verification/Franz.v ===== *)
(** The franz-go driver (libs/kafka-franz franz.go, stats.go): what [Send] reports, that it
    sorts the broker's errors as the librdkafka driver does, what [Poll] and [Commit]
    return, the partitions held, and the connection statistics. *)
From S2P Require Import Prelude GoError KafkaMessage KafkaConsumer RdKafka.

(** * Sending *)

Module FranzSend.
Import KafkaMessage.

(** The protocol errors the driver names; any other is [KOther]. *)
Inductive kerr :=
  | RequestTimedOut | LeaderNotAvailable | NotLeaderForPartition | NetworkException | NotEnoughReplicas
  | NotEnoughReplicasAfterAppend | KafkaStorageError | ThrottlingQuotaExceeded
  | UnknownTopicOrPartition | TopicAuthorizationFailed | ClusterAuthorizationFailed | SaslAuthenticationFailed
  | IllegalSaslState | UnsupportedSaslMechanism | TransactionalIDAuthorizationFailed
  | MessageTooLarge | RecordListTooLarge | InvalidRecord | CorruptMessage | PolicyViolation | InvalidTopicException
  | KOther (code : Z).

Definition sendErrorKinds (e : kerr) : option string :=
  match e with
  | RequestTimedOut | LeaderNotAvailable | NotLeaderForPartition | NetworkException | NotEnoughReplicas
  | NotEnoughReplicasAfterAppend | KafkaStorageError | ThrottlingQuotaExceeded => Some KindUnavailable
  | UnknownTopicOrPartition | TopicAuthorizationFailed | ClusterAuthorizationFailed | SaslAuthenticationFailed
  | IllegalSaslState | UnsupportedSaslMechanism | TransactionalIDAuthorizationFailed => Some KindNotProvisioned
  | MessageTooLarge | RecordListTooLarge | InvalidRecord | CorruptMessage | PolicyViolation | InvalidTopicException => Some KindRejected
  | KOther _ => None
  end.

(** What can be told of an error: a protocol error, one of the client's own, a network
    error, the context's, or another. *)
Inductive ferror :=
  | Protocol (e : kerr)
  | ErrMaxBuffered
  | ErrRecordTimeout
  | ErrRecordRetries
  | ErrClientClosed
  | Net
  | Context (e : KafkaMessage.error)
  | Other.

Section Codes.
(** The number of a protocol error, and whether the context's error is a network error
    (context.DeadlineExceeded is one). *)
Context (code_number : kerr -> Z) (is_net : KafkaMessage.error -> bool).

Definition as_error (e : ferror) : KafkaMessage.error :=
  match e with Context e => e | _ => Errors.Node (TText "kafka client error") [] end.

Definition sendError (err : option ferror) : option KafkaMessage.error :=
  match err with
  | None => None
  | Some e =>
      let '(kind, code) := match e with
        | Protocol k => (default KindUnknown (sendErrorKinds k), code_number k)
        | ErrMaxBuffered => (KindQueueFull, 0)
        | ErrRecordTimeout | ErrRecordRetries | ErrClientClosed => (KindUnavailable, 0)
        | Net | Context _ | Other => (KindUnknown, 0)
        end in
      let net := match e with Net => true | Context c => is_net c | _ => false end in
      let kind := if String.eqb kind KindUnknown && net then KindUnavailable else kind in
      Some (NewSendError kind code (as_error e))
  end.

(** One round of [Send]: the promise's answer or the context's error, and, while it waits
    for room, whether the context ended. *)
Record round := { answered : option ferror; gave_up : bool }.

Fixpoint Send (rounds : list round) : option (option KafkaMessage.error) :=
  match rounds with
  | [] => None
  | r :: rounds =>
      match answered r with
      | Some ErrMaxBuffered => if gave_up r then Some (sendError (answered r)) else Send rounds
      | _ => Some (sendError (answered r))
      end
  end.

(** No error is reported only for a record whose promise had none, and a full buffer
    only when the context ended in the wait for room; every error is a send error,
    retryable unless the broker rejected the record. *)
Theorem franz_send_reports (rounds : list round) (res : option KafkaMessage.error) :
  Send rounds = Some res ->
  exists r, r ∈ rounds /\ res = sendError (answered r) /\
  (res = None <-> answered r = None) /\
  (answered r = Some ErrMaxBuffered -> gave_up r = true) /\
  (forall e, res = Some e -> exists kind retry code, as_send_error e = Some (TSendError kind retry code) /\
     retry = negb (String.eqb kind KindRejected)).
Proof.
  assert (Hse : forall o e, sendError o = Some e -> exists kind retry code, as_send_error e = Some (TSendError kind retry code) /\
     retry = negb (String.eqb kind KindRejected)).
  { intros [o|] e; [|done]. cbn. destruct (match o with Protocol _ => _ | _ => _ end) as [kind code]. intros [= <-].
    unfold NewSendError, as_send_error. cbn. eauto. }
  assert (Hnone : forall o, sendError o = None <-> o = None).
  { intros [o|]; [|done]. cbn. by destruct (match o with Protocol _ => _ | _ => _ end). }
  induction rounds as [|r rounds IH]; [done|]. cbn [Send]. intros H.
  assert (Hdone : Some (sendError (answered r)) = Some res -> (answered r = Some ErrMaxBuffered -> gave_up r = true) ->
    exists r', r' ∈ r :: rounds /\ res = sendError (answered r') /\ (res = None <-> answered r' = None) /\
    (answered r' = Some ErrMaxBuffered -> gave_up r' = true) /\
    (forall e, res = Some e -> exists kind retry code, as_send_error e = Some (TSendError kind retry code) /\
       retry = negb (String.eqb kind KindRejected))).
  { intros [= <-] Hg. exists r. split_and!; [by left|done|apply Hnone..|done|]. intros e He. by eapply Hse. }
  destruct (answered r) as [[]|] eqn:Ha; try (by apply Hdone).
  destruct (gave_up r) eqn:Hg; [by apply Hdone|].
  destruct (IH H) as (r' & ? & ?). exists r'. split; [by right|done].
Qed.
End Codes.

(** ** The two drivers *)

(** The librdkafka code of a protocol error. *)
Definition rd_code (e : kerr) : RdSend.ErrorCode :=
  match e with
  | RequestTimedOut => RdSend.ErrRequestTimedOut
  | LeaderNotAvailable => RdSend.ErrLeaderNotAvailable
  | NotLeaderForPartition => RdSend.ErrNotLeaderForPartition
  | NetworkException => RdSend.ErrNetworkException
  | NotEnoughReplicas => RdSend.ErrNotEnoughReplicas
  | NotEnoughReplicasAfterAppend => RdSend.ErrNotEnoughReplicasAfterAppend
  | KafkaStorageError => RdSend.ErrKafkaStorageError
  | ThrottlingQuotaExceeded => RdSend.ErrThrottlingQuotaExceeded
  | UnknownTopicOrPartition => RdSend.ErrUnknownTopicOrPart
  | TopicAuthorizationFailed => RdSend.ErrTopicAuthorizationFailed
  | ClusterAuthorizationFailed => RdSend.ErrClusterAuthorizationFailed
  | SaslAuthenticationFailed => RdSend.ErrSaslAuthenticationFailed
  | IllegalSaslState => RdSend.ErrOther 34
  | UnsupportedSaslMechanism => RdSend.ErrOther 33
  | TransactionalIDAuthorizationFailed => RdSend.ErrOther 53
  | MessageTooLarge => RdSend.ErrMsgSizeTooLarge
  | RecordListTooLarge => RdSend.ErrRecordListTooLarge
  | InvalidRecord => RdSend.ErrInvalidRecord
  | CorruptMessage => RdSend.ErrInvalidMsg
  | PolicyViolation => RdSend.ErrPolicyViolation
  | InvalidTopicException => RdSend.ErrTopicException
  | KOther n => RdSend.ErrOther n
  end.

Definition rd_kind (e : kerr) : string := default KindUnknown (RdSend.sendErrorKinds (rd_code e)).
Definition franz_kind (e : kerr) : string := default KindUnknown (sendErrorKinds e).

(** Both drivers reject the same errors, so the same records are retried and parked; and
    they give the same kind to all but three, which franz-go alone knows as missing
    provisioning. *)
Theorem drivers_agree (e : kerr) :
  (franz_kind e = KindRejected <-> rd_kind e = KindRejected) /\
  (e ∉ [IllegalSaslState; UnsupportedSaslMechanism; TransactionalIDAuthorizationFailed] -> franz_kind e = rd_kind e).
Proof. destruct e; cbn; (split; [done|]); intros H; try done; exfalso; apply H; set_solver. Qed.

(** "the same codes as the librdkafka provider": not these. *)
Theorem drivers_differ :
  franz_kind IllegalSaslState = KindNotProvisioned /\ rd_kind IllegalSaslState = KindUnknown.
Proof. done. Qed.

End FranzSend.

(** * The consumer *)

Module FranzConsumer.
Import KafkaMessage KafkaConsumer.

(** One fetch error, of a partition. *)
Record fetch_error := { fe_tp : TopicPartition; fe_ended : bool; fe_err : error }.

(** [PollRecords]'s answer; [fe_ended]: the error is the context's or the client's
    closing. *)
Record fetches := { IsClientClosed : bool; Errors_ : list fetch_error; Records : list Message }.

Definition as_polled (r : Message) : Message :=
  {| Topic := Topic r; MKey := MKey r; MValue := MValue r; Partition := Partition r; Offset := Offset r; Headers := Headers r;
     Timestamp := Timestamp r; Attempt := 0 |}.

Definition Poll (f : fetches) : RdConsumer.poll_result :=
  if IsClientClosed f then RdConsumer.Failed RdConsumer.ErrClientClosed
  else RdConsumer.Polled (as_polled <$> Records f)
         ((fun e => Errors.Node (TText "topic/partition") [fe_err e]) <$> filter (fun e => fe_ended e = false) (Errors_ f)).

(** A commit's answer: an error, or a code per partition (zero is none). *)
Definition Commit (err : option error) (codes : list Z) : option error :=
  match err with
  | Some e => Some e
  | None => foldl (fun cerr code => if code =? 0 then cerr else Some (RdConsumer.join cerr (Errors.Node (TText "commit") []))) None codes
  end.

(** What is committed is a map by topic and partition: of two offsets of one partition the
    last wins. *)
Definition commit_map (offsets : list (TopicPartition * Z)) : gmap TopicPartition Z :=
  foldl (fun m o => <[o.1 := o.2]> m) ∅ offsets.

Lemma commit_map_distinct (offsets : list (TopicPartition * Z)) :
  NoDup offsets.*1 -> commit_map offsets = list_to_map offsets.
Proof.
  assert (Hg : forall m : gmap TopicPartition Z, NoDup offsets.*1 -> foldl (fun m o => <[o.1 := o.2]> m) m offsets = list_to_map offsets ∪ m); [|].
  { induction offsets as [|[tp n] l IH]; intros m; cbn; [by rewrite (left_id_L ∅ (∪))|]. intros [Hn Hnd]%NoDup_cons.
    rewrite IH by done. rewrite <- insert_union_l, insert_union_r; [done|]. by apply not_elem_of_list_to_map_1. }
  intros Hnd. unfold commit_map. rewrite Hg by done. apply (right_id_L ∅ (∪)).
Qed.

Lemma commit_ok (err : option error) (codes : list Z) :
  Commit err codes = None <-> err = None /\ Forall (fun c => c = 0) codes.
Proof.
  assert (Hf : forall o, foldl (fun cerr code => if code =? 0 then cerr else Some (RdConsumer.join cerr (Errors.Node (TText "commit") []))) o codes = None
    <-> o = None /\ Forall (fun c => c = 0) codes).
  { induction codes as [|c l IH]; intros o; cbn; [intuition|]. rewrite IH, Forall_cons.
    destruct (Z.eqb_spec c 0); intuition (done || congruence). }
  destruct err as [e|]; cbn; [intuition done|]. rewrite Hf. intuition.
Qed.

(** A poll of an open client returns every record fetched, in order, and every fetch error
    but those of an ended wait. *)
Lemma franz_poll_complete (f : fetches) :
  IsClientClosed f = false ->
  exists errs, Poll f = RdConsumer.Polled (as_polled <$> Records f) errs /\
    length errs = length (filter (fun e => fe_ended e = false) (Errors_ f)).
Proof. intros H. unfold Poll. rewrite H. eexists. split; [done|]. by rewrite length_fmap. Qed.

End FranzConsumer.

(** * Statistics *)

Module FranzStats.

Record stats := { conns : gmap Z Z; reqErrors : Z }.

Definition newStats : stats := {| conns := ∅; reqErrors := 0 |}.

Definition addError (s : stats) : stats := {| conns := conns s; reqErrors := Go.wrap64 (reqErrors s + 1) |}.

Inductive hook := BrokerConnect (node : Z) (failed : bool) | BrokerDisconnect (node : Z) | BrokerIO (failed : bool).

Definition OnBrokerConnect (node : Z) (failed : bool) (s : stats) : stats :=
  if failed then addError s
  else {| conns := <[node := default 0 (conns s !! node) + 1]> (conns s); reqErrors := reqErrors s |}.

Definition OnBrokerDisconnect (node : Z) (s : stats) : stats :=
  let n := default 0 (conns s !! node) - 1 in
  {| conns := if n <=? 0 then delete node (conns s) else <[node := n]> (conns s); reqErrors := reqErrors s |}.

Definition hook_step (h : hook) (s : stats) : stats :=
  match h with
  | BrokerConnect node failed => OnBrokerConnect node failed s
  | BrokerDisconnect node => OnBrokerDisconnect node s
  | BrokerIO failed => if failed then addError s else s
  end.

Definition hooks (hs : list hook) : stats := foldl (fun s h => hook_step h s) newStats hs.

Record ClientStats := { Valid : bool; BrokersUp : Z; RequestErrors : Z }.

Definition common (interval : Z) (s : stats) : ClientStats :=
  {| Valid := 0 <? interval; BrokersUp := Z.of_nat (size (filter (fun kv => 0 <= kv.1) (conns s))); RequestErrors := reqErrors s |}.

(** Connections open to a node after some hooks. *)
Definition opened (node : Z) (hs : list hook) : Z :=
  zsum (fun h => match h with
    | BrokerConnect n false => if n =? node then 1 else 0
    | BrokerDisconnect n => if n =? node then -1 else 0
    | _ => 0
    end) hs.

(** Every disconnect is of a connection that was open. *)
Definition balanced (hs : list hook) : Prop := forall node pre, pre `prefix_of` hs -> 0 <= opened node pre.

Lemma opened_snoc (node : Z) (hs : list hook) (h : hook) : opened node (hs ++ [h]) = opened node hs + opened node [h].
Proof. unfold opened. apply zsum_app. Qed.

Lemma hooks_conns (hs : list hook) (node : Z) :
  balanced hs -> conns (hooks hs) !! node = if decide (0 < opened node hs) then Some (opened node hs) else None.
Proof.
  revert node. induction hs as [|h hs IH] using rev_ind; intros node Hb; [done|].
  assert (Hb' : balanced hs) by (intros n pre Hp; apply Hb; by apply prefix_app_r).
  specialize (IH node Hb') as IHn. pose proof (Hb node (hs ++ [h]) ltac:(done)) as Hpos. rewrite opened_snoc in *.
  unfold hooks in *. rewrite foldl_app. cbn [foldl]. set (s := foldl _ _ hs) in *.
  assert (Hkeep : opened node [h] = 0 -> conns (hook_step h s) !! node = conns s !! node ->
    conns (hook_step h s) !! node = if decide (0 < opened node hs + opened node [h]) then Some (opened node hs + opened node [h]) else None).
  { intros H0 ->. by rewrite H0, Z.add_0_r. }
  destruct h as [n [|]|n|[|]]; try (by apply Hkeep).
  - destruct (Z.eqb_spec n node) as [->|Hn].
    + assert (He : opened node [BrokerConnect node false] = 1) by (unfold opened; cbn; rewrite Z.eqb_refl; lia). rewrite He in *.
      cbn. rewrite lookup_insert_eq, IHn. pose proof (Hb' node hs ltac:(done)). repeat case_decide; cbn; try lia; f_equal; lia.
    + apply Hkeep; [cbn; by rewrite (proj2 (Z.eqb_neq n node))|]. cbn. by rewrite lookup_insert_ne.
  - destruct (Z.eqb_spec n node) as [->|Hn].
    + assert (He : opened node [BrokerDisconnect node] = -1) by (unfold opened; cbn; rewrite Z.eqb_refl; lia). rewrite He in *.
      cbn. rewrite IHn. rewrite (decide_True (P := 0 < opened node hs)) by lia. cbn. destruct (Z.leb_spec (opened node hs - 1) 0).
      * rewrite lookup_delete_eq, decide_False by lia. done.
      * rewrite lookup_insert_eq, decide_True by lia. f_equal.
    + apply Hkeep; [cbn; by rewrite (proj2 (Z.eqb_neq n node))|]. cbn. destruct (_ <=? 0); [by rewrite lookup_delete_ne|by rewrite lookup_insert_ne].
Qed.

(** The brokers reported up are exactly the cluster's nodes with a connection open, as
    long as a connection is closed once. *)
Theorem brokers_up_exact (hs : list hook) (interval : Z) (Hb : balanced hs) :
  exists up : gset Z, BrokersUp (common interval (hooks hs)) = Z.of_nat (size up) /\
  forall node, node ∈ up <-> 0 <= node /\ 0 < opened node hs.
Proof.
  exists (dom (filter (fun kv => 0 <= kv.1) (conns (hooks hs)))). split; [by rewrite size_dom|].
  intros node. rewrite elem_of_dom. unfold is_Some. setoid_rewrite map_lookup_filter_Some. cbn.
  rewrite (hooks_conns hs node Hb). case_decide; naive_solver.
Qed.

(** A node with two connections, one of them closed, and a seed that is no broker. *)
Definition demo_hooks : list hook := [BrokerConnect (-1) false; BrokerConnect 1 false; BrokerConnect 1 false; BrokerDisconnect 1; BrokerIO true].

Lemma demo_hooks_balanced : balanced demo_hooks.
Proof.
  intros node pre [rest Hp]. unfold demo_hooks in Hp.
  do 6 (destruct pre as [|h pre]; [unfold opened; cbn -[Z.eqb]; repeat match goal with |- context [?a =? node] => destruct (Z.eqb_spec a node); subst end; cbn; lia|];
    try (injection Hp as <- Hp)). done.
Qed.

Lemma brokers_up_exact_witness :
  BrokersUp (common 15000 (hooks demo_hooks)) = 1 /\ exists up : gset Z, 1 ∈ up /\ size up = 1%nat.
Proof.
  split; [vm_compute; reflexivity|].
  destruct (brokers_up_exact demo_hooks 15000 demo_hooks_balanced) as (up & Hs & Hup). exists up. split.
  - apply Hup. split; [lia|vm_compute; reflexivity].
  - apply Nat2Z.inj. rewrite <- Hs. vm_compute. reflexivity.
Defined.

End FranzStats.
