(* ===== verification/KafkaConfig.v ===== *)
(** The configuration of libs/kafka (config.go): defaults and validation, and
    the numbers the franz-go driver derives from it (libs/kafka-franz
    config.go). *)
From S2P Require Import Prelude GoStr.

Module KafkaConfig.

Record Config := {
  Brokers : list string;
  Topic : string;
  Topics : list string;
  Group : string;
  ClientID : string;
  DialTimeout : Z;
  AllowAutoTopicCreation : bool;
  PublishTimeout : Z;
  StatisticsInterval : Z;
  SecurityProtocol : string;
  SASLMechanism : string;
  SASLUsername : string;
  SASLPassword : string;
  SASLPasswordFile : string;
  SSLCALocation : string;
  SSLCertificateLocation : string;
  SSLKeyLocation : string;
  SSLEndpointIdentificationAlgorithm : string;
  ProducerQueueMaxKBytes : Z;
  ProducerQueueMaxMessages : Z;
  MessageMaxBytes : Z;
  ConsumerQueueMaxKBytes : Z;
  ConsumerFetchMaxBytes : Z;
  ConsumerPartitionFetchMaxBytes : Z;
  CompressionType : string;
  LingerMs : Z;
  AssignmentStrategy : string;
  SessionTimeoutMs : Z;
  MaxPollIntervalMs : Z;
  AutoOffsetReset : string;
  MaxPollRecords : Z;
  HandlerTimeout : Z;
  MaxRetries : Z;
  RetryBackoff : Z;
  RetryBackoffMax : Z;
  DeadLetterTopic : string;
  DrainTimeout : Z;
  ExtraProperties : list (string * string);
  ProducerExtraProperties : list (string * string);
  ConsumerExtraProperties : list (string * string)
}.

Definition setString (s def : string) : string := if String.eqb s "" then def else s.
Definition setInt (n def : Z) : Z := if n =? 0 then def else n.
Definition setDuration (d def : Z) : Z := if d =? 0 then def else d.

Section Validate.
(** [strings.ToLower] and [strings.ToUpper]. *)
Context (ToLower ToUpper : string -> string).
(** The file system: the content of a file, and why a path cannot be read (the
    flag allows a directory). *)
Context (ReadFile : string -> option string) (readable : string -> bool -> option string).
(** What the linked driver refuses, [None] when no driver is registered. *)
Context (driver : option (Config -> list string)).

Definition withDefaults (c : Config) : Config :=
  let topic := setString (Topic c) "tasks.events" in
  {| Brokers := Brokers c;
     Topic := topic;
     Topics := match Topics c with [] => if String.eqb topic "" then [] else [topic] | ts => ts end;
     Group := setString (Group c) "tasks-consumer";
     ClientID := setString (ClientID c) "golang-basics";
     DialTimeout := setDuration (DialTimeout c) (10 * Go.second);
     AllowAutoTopicCreation := AllowAutoTopicCreation c;
     PublishTimeout := setDuration (PublishTimeout c) (5 * Go.second);
     StatisticsInterval := setInt (StatisticsInterval c) 15000;
     SecurityProtocol := ToLower (GoStr.TrimSpace (SecurityProtocol c));
     SASLMechanism := ToUpper (GoStr.TrimSpace (SASLMechanism c));
     SASLUsername := SASLUsername c;
     SASLPassword := SASLPassword c;
     SASLPasswordFile := SASLPasswordFile c;
     SSLCALocation := SSLCALocation c;
     SSLCertificateLocation := SSLCertificateLocation c;
     SSLKeyLocation := SSLKeyLocation c;
     SSLEndpointIdentificationAlgorithm := SSLEndpointIdentificationAlgorithm c;
     ProducerQueueMaxKBytes := setInt (ProducerQueueMaxKBytes c) (64 * 1024);
     ProducerQueueMaxMessages := setInt (ProducerQueueMaxMessages c) 100000;
     MessageMaxBytes := setInt (MessageMaxBytes c) 1000000;
     ConsumerQueueMaxKBytes := setInt (ConsumerQueueMaxKBytes c) (4 * 1024);
     ConsumerFetchMaxBytes := setInt (ConsumerFetchMaxBytes c) (4 * 1048576);
     ConsumerPartitionFetchMaxBytes := setInt (ConsumerPartitionFetchMaxBytes c) 1048576;
     CompressionType := setString (CompressionType c) "lz4";
     LingerMs := setInt (LingerMs c) 5;
     AssignmentStrategy := setString (AssignmentStrategy c) "cooperative-sticky";
     SessionTimeoutMs := setInt (SessionTimeoutMs c) 45000;
     MaxPollIntervalMs := setInt (MaxPollIntervalMs c) 300000;
     AutoOffsetReset := setString (AutoOffsetReset c) "earliest";
     MaxPollRecords := setInt (MaxPollRecords c) 100;
     HandlerTimeout := setDuration (HandlerTimeout c) (30 * Go.second);
     MaxRetries := setInt (MaxRetries c) 5;
     RetryBackoff := setDuration (RetryBackoff c) (200 * Go.millisecond);
     RetryBackoffMax := setDuration (RetryBackoffMax c) (30 * Go.second);
     DeadLetterTopic := setString (DeadLetterTopic c) "{topic}.dlq";
     DrainTimeout := setDuration (DrainTimeout c) (10 * Go.second);
     ExtraProperties := ExtraProperties c;
     ProducerExtraProperties := ProducerExtraProperties c;
     ConsumerExtraProperties := ConsumerExtraProperties c |}.

(** A condition that adds an error; the error is named by its key. *)
Definition bad (b : bool) (e : string) : list string := if b then [e] else [].
Definition is_set (s : string) : bool := negb (String.eqb s "").
Definition one_of (s : string) (l : list string) : bool := existsb (String.eqb s) l.

(** [strings.TrimRight(s, "\r\n")] is empty: every byte is one of the two. *)
Definition only_newlines (s : string) : bool :=
  forallb (fun b => (b =? 13) || (b =? 10)) (GoStr.bytes s).

Definition validateFiles (c : Config) : list string :=
  (if is_set (SASLPasswordFile c) then
     match ReadFile (SASLPasswordFile c) with
     | None => ["KAFKA_SASL_PASSWORD_FILE: unreadable"]
     | Some b => bad (only_newlines b) "KAFKA_SASL_PASSWORD_FILE: empty"
     end
   else []) ++
  flat_map (fun '(key, path) =>
    if String.eqb path "" || (String.eqb key "KAFKA_SSL_CA_LOCATION" && String.eqb path "probe") then []
    else match readable path (String.eqb key "KAFKA_SSL_CA_LOCATION") with
         | Some _ => [key]
         | None => []
         end)
    [("KAFKA_SSL_CA_LOCATION", SSLCALocation c);
     ("KAFKA_SSL_CERTIFICATE_LOCATION", SSLCertificateLocation c);
     ("KAFKA_SSL_KEY_LOCATION", SSLKeyLocation c)].

Definition validateSecurity (c : Config) : list string :=
  let protocol := SecurityProtocol c in
  if negb (one_of protocol [""; "plaintext"; "ssl"; "sasl_plaintext"; "sasl_ssl"])
  then ["KAFKA_SECURITY_PROTOCOL: unknown protocol"]
  else
    let sasl := one_of protocol ["sasl_plaintext"; "sasl_ssl"] in
    let tls := one_of protocol ["ssl"; "sasl_ssl"] in
    let hasPassword := is_set (SASLPassword c) || is_set (SASLPasswordFile c) in
    bad (is_set (SASLPassword c) && is_set (SASLPasswordFile c)) "KAFKA_SASL_PASSWORD and _FILE" ++
    (if sasl then
       if one_of (SASLMechanism c) ["PLAIN"; "SCRAM-SHA-256"; "SCRAM-SHA-512"]
       then bad (String.eqb (SASLUsername c) "" || negb hasPassword) "KAFKA_SASL_MECHANISM needs credentials"
       else if String.eqb (SASLMechanism c) "" then ["KAFKA_SECURITY_PROTOCOL needs KAFKA_SASL_MECHANISM"]
       else ["KAFKA_SASL_MECHANISM: unknown mechanism"]
     else bad (is_set (SASLMechanism c) || is_set (SASLUsername c) || hasPassword)
              "KAFKA_SASL_* set without a SASL protocol") ++
    bad (negb tls && (is_set (SSLCALocation c) || is_set (SSLCertificateLocation c) ||
         is_set (SSLKeyLocation c) || is_set (SSLEndpointIdentificationAlgorithm c)))
        "KAFKA_SSL_* set without a TLS protocol" ++
    bad (negb (Bool.eqb (String.eqb (SSLCertificateLocation c) "") (String.eqb (SSLKeyLocation c) "")))
        "KAFKA_SSL_CERTIFICATE_LOCATION and KAFKA_SSL_KEY_LOCATION" ++
    validateFiles c ++
    bad (negb (one_of (SSLEndpointIdentificationAlgorithm c) [""; "https"; "none"]))
        "KAFKA_SSL_ENDPOINT_IDENTIFICATION_ALGORITHM".

Definition validateBuffers (c : Config) : list string :=
  flat_map (fun '(name, n) => bad (n <? 0) name)
    [("KAFKA_PRODUCER_QUEUE_MAX_KBYTES", ProducerQueueMaxKBytes c);
     ("KAFKA_PRODUCER_QUEUE_MAX_MESSAGES", ProducerQueueMaxMessages c);
     ("KAFKA_MESSAGE_MAX_BYTES", MessageMaxBytes c);
     ("KAFKA_CONSUMER_QUEUE_MAX_KBYTES", ConsumerQueueMaxKBytes c);
     ("KAFKA_CONSUMER_FETCH_MAX_BYTES", ConsumerFetchMaxBytes c);
     ("KAFKA_CONSUMER_PARTITION_FETCH_MAX_BYTES", ConsumerPartitionFetchMaxBytes c)] ++
  bad (Go.wrap64 (ProducerQueueMaxKBytes c * 1024) <? MessageMaxBytes c)
      "KAFKA_MESSAGE_MAX_BYTES does not fit in KAFKA_PRODUCER_QUEUE_MAX_KBYTES" ++
  bad (ConsumerFetchMaxBytes c <? MessageMaxBytes c)
      "KAFKA_CONSUMER_FETCH_MAX_BYTES is below KAFKA_MESSAGE_MAX_BYTES" ++
  bad (ConsumerFetchMaxBytes c <? ConsumerPartitionFetchMaxBytes c)
      "KAFKA_CONSUMER_PARTITION_FETCH_MAX_BYTES is above KAFKA_CONSUMER_FETCH_MAX_BYTES".

Definition no_broker (c : Config) : list string :=
  bad (match Brokers c with [] => true | _ => false end) "KAFKA_BROKERS must be set" ++
  bad (existsb (fun b => String.eqb (GoStr.TrimSpace b) "") (Brokers c)) "KAFKA_BROKERS: empty broker address".

(** [Validate]: the defaulted configuration and every problem found. *)
Definition Validate (c : Config) : Config * list string :=
  let c := withDefaults c in
  (c,
   no_broker c ++
   validateSecurity c ++
   validateBuffers c ++
   bad (negb (one_of (CompressionType c) ["none"; "gzip"; "snappy"; "lz4"; "zstd"]))
       "KAFKA_PRODUCER_COMPRESSION_TYPE" ++
   bad (negb (one_of (AutoOffsetReset c) ["earliest"; "latest"])) "KAFKA_CONSUMER_AUTO_OFFSET_RESET" ++
   bad (negb (one_of (AssignmentStrategy c) ["cooperative-sticky"; "range"; "roundrobin"]))
       "KAFKA_CONSUMER_ASSIGNMENT_STRATEGY" ++
   (if (SessionTimeoutMs c <? 0) || (MaxPollIntervalMs c <? 0)
    then ["KAFKA_CONSUMER_SESSION_TIMEOUT_MS and KAFKA_CONSUMER_MAX_POLL_INTERVAL_MS must be positive"]
    else bad (MaxPollIntervalMs c <? SessionTimeoutMs c)
             "KAFKA_CONSUMER_MAX_POLL_INTERVAL_MS is below KAFKA_CONSUMER_SESSION_TIMEOUT_MS") ++
   bad (LingerMs c <? 0) "KAFKA_PRODUCER_LINGER_MS must not be negative" ++
   flat_map (fun '(name, d) => bad (d <? 0) name)
     [("KAFKA_DIAL_TIMEOUT", DialTimeout c); ("KAFKA_PUBLISH_TIMEOUT", PublishTimeout c);
      ("KAFKA_CONSUMER_HANDLER_TIMEOUT", HandlerTimeout c);
      ("KAFKA_CONSUMER_RETRY_BACKOFF", RetryBackoff c);
      ("KAFKA_CONSUMER_RETRY_BACKOFF_MAX", RetryBackoffMax c);
      ("KAFKA_CONSUMER_DRAIN_TIMEOUT", DrainTimeout c)] ++
   bad (RetryBackoffMax c <? RetryBackoff c)
       "KAFKA_CONSUMER_RETRY_BACKOFF_MAX is below KAFKA_CONSUMER_RETRY_BACKOFF" ++
   bad (MaxPollRecords c <? 0) "KAFKA_CONSUMER_MAX_POLL_RECORDS must be positive" ++
   bad (negb (String.eqb (GoStr.TrimSpace (DeadLetterTopic c)) (DeadLetterTopic c)))
       "KAFKA_DEAD_LETTER_TOPIC has surrounding spaces" ++
   match driver with Some v => v c | None => [] end).

End Validate.

(** ** The franz-go driver *)

Definition franz_validate (c : Config) : list string :=
  flat_map (fun '(name, props) => match props : list (string * string) with [] => [] | _ => [name] end)
    [("KAFKA_EXTRA_PROPERTIES", ExtraProperties c);
     ("KAFKA_PRODUCER_EXTRA_PROPERTIES", ProducerExtraProperties c);
     ("KAFKA_CONSUMER_EXTRA_PROPERTIES", ConsumerExtraProperties c)].

Definition minBrokerReadBytes : Z := Z.shiftl 16 20.

(** The sizes handed to the client, converted to [int32]. *)
Definition BrokerMaxReadBytes (c : Config) : Z :=
  Go.wrap32 (Z.max (Go.wrap64 (ConsumerFetchMaxBytes c + Z.shiftl 1 20)) minBrokerReadBytes).
Definition FetchMaxBytes (c : Config) : Z := Go.wrap32 (ConsumerFetchMaxBytes c).
Definition FetchMaxPartitionBytes (c : Config) : Z := Go.wrap32 (ConsumerPartitionFetchMaxBytes c).
Definition ProducerBatchMaxBytes (c : Config) : Z := Go.wrap32 (MessageMaxBytes c).

(** [MaxConcurrentFetches]: a whole number of fetches worth of prefetch. *)
Definition MaxConcurrentFetches (c : Config) : Z :=
  Z.max (Z.quot (Go.wrap64 (ConsumerQueueMaxKBytes c * 1024)) (ConsumerFetchMaxBytes c)) 1.

(** ** What an accepted configuration promises *)

Record runnable (c : Config) : Prop := {
  ok_brokers : Brokers c <> [] /\ Forall (fun b => GoStr.TrimSpace b <> "") (Brokers c);
  ok_group : Topics c <> [] /\ Group c <> "";
  ok_timeouts : 0 < DialTimeout c /\ 0 < PublishTimeout c /\ 0 < HandlerTimeout c /\ 0 < DrainTimeout c;
  ok_backoff : 0 < RetryBackoff c <= RetryBackoffMax c;
  ok_session : 0 < SessionTimeoutMs c <= MaxPollIntervalMs c;
  ok_poll : 0 < MaxPollRecords c /\ 0 < LingerMs c;
  ok_message : 0 < MessageMaxBytes c <= ConsumerFetchMaxBytes c;
  ok_queue : MessageMaxBytes c <= Go.wrap64 (ProducerQueueMaxKBytes c * 1024);
  ok_partition : 0 < ConsumerPartitionFetchMaxBytes c <= ConsumerFetchMaxBytes c;
  ok_sasl : one_of (SecurityProtocol c) ["sasl_plaintext"; "sasl_ssl"] = true ->
    SASLUsername c <> "" /\ one_of (SASLMechanism c) ["PLAIN"; "SCRAM-SHA-256"; "SCRAM-SHA-512"] = true /\
    (SASLPassword c = "" <-> SASLPasswordFile c <> "");
  ok_nosasl : one_of (SecurityProtocol c) ["sasl_plaintext"; "sasl_ssl"] = false ->
    SASLUsername c = "" /\ SASLMechanism c = "" /\ SASLPassword c = "" /\ SASLPasswordFile c = "";
  ok_notls : one_of (SecurityProtocol c) ["ssl"; "sasl_ssl"] = false ->
    SSLCALocation c = "" /\ SSLCertificateLocation c = "" /\ SSLKeyLocation c = "";
  ok_pair : SSLCertificateLocation c = "" <-> SSLKeyLocation c = ""
}.

Lemma bad_none (b : bool) (e : string) : bad b e = [] <-> b = false.
Proof. by destruct b. Qed.

Lemma is_set_false (s : string) : is_set s = false <-> s = "".
Proof. unfold is_set. by destruct (String.eqb_spec s ""). Qed.

Lemma is_set_true (s : string) : is_set s = true <-> s <> "".
Proof. unfold is_set. by destruct (String.eqb_spec s ""). Qed.

Lemma setInt_nonzero (n d : Z) : d <> 0 -> setInt n d <> 0.
Proof. unfold setInt. by destruct (Z.eqb_spec n 0). Qed.

Lemma setString_nonempty (s d : string) : d <> "" -> setString s d <> "".
Proof. unfold setString. by destruct (String.eqb_spec s ""). Qed.

Section Sound.
Context (ToLower ToUpper : string -> string).
Context (ReadFile : string -> option string) (readable : string -> bool -> option string).
Context (driver : option (Config -> list string)).

Lemma security_sound (c : Config) :
  validateSecurity ReadFile readable c = [] ->
  (one_of (SecurityProtocol c) ["sasl_plaintext"; "sasl_ssl"] = true ->
    SASLUsername c <> "" /\ one_of (SASLMechanism c) ["PLAIN"; "SCRAM-SHA-256"; "SCRAM-SHA-512"] = true /\
    (SASLPassword c = "" <-> SASLPasswordFile c <> "")) /\
  (one_of (SecurityProtocol c) ["sasl_plaintext"; "sasl_ssl"] = false ->
    SASLUsername c = "" /\ SASLMechanism c = "" /\ SASLPassword c = "" /\ SASLPasswordFile c = "") /\
  (one_of (SecurityProtocol c) ["ssl"; "sasl_ssl"] = false ->
    SSLCALocation c = "" /\ SSLCertificateLocation c = "" /\ SSLKeyLocation c = "") /\
  (SSLCertificateLocation c = "" <-> SSLKeyLocation c = "").
Proof.
  unfold validateSecurity. destruct (negb _); [done|]. rewrite !app_nil, !bad_none.
  intros (H1 & H2 & H3 & H4 & _ & _).
  split; [|split; [|split]].
  - intros Hs. rewrite Hs in H2. destruct (one_of (SASLMechanism c) _); [|by destruct (String.eqb _ "")].
    rewrite bad_none in H2. apply orb_false_elim in H2 as [Hu Hp].
    destruct (String.eqb_spec (SASLUsername c) ""); [done|]. split_and!; [done..|].
    apply negb_false_iff, orb_true_iff in Hp. rewrite !is_set_true in Hp.
    apply andb_false_iff in H1. rewrite !is_set_false in H1.
    split; [intros E; destruct Hp; congruence|intros E; destruct H1; congruence].
  - intros Hs. rewrite Hs, bad_none in H2. repeat (apply orb_false_elim in H2 as [H2 ?]).
    apply orb_false_elim in H as [? ?]. by rewrite !is_set_false in *.
  - intros Ht. rewrite Ht in H3. cbn [negb andb] in H3.
    repeat (apply orb_false_elim in H3 as [H3 ?]). by rewrite !is_set_false in *.
  - apply negb_false_iff, eqb_prop in H4.
    destruct (String.eqb_spec (SSLCertificateLocation c) ""), (String.eqb_spec (SSLKeyLocation c) ""); done.
Qed.

(** A configuration Validate accepts, as defaulted, is one the clients can
    run with: at least one broker address and none blank, a topic and a group,
    positive timeouts and sizes, a backoff that does not exceed its maximum, a
    session timeout within the poll interval, the largest message fitting the
    producer queue and one fetch; SASL credentials complete (exactly one of
    password and password file) with a SASL protocol and absent otherwise, no
    TLS keys without TLS, a client certificate exactly with its key. *)
Theorem accepted_is_runnable (c c' : Config) :
  Validate ToLower ToUpper ReadFile readable driver c = (c', []) -> runnable c'.
Proof.
  unfold Validate. intros [= <- H].
  assert (Hd : Topics (withDefaults ToLower ToUpper c) <> [] /\ Group (withDefaults ToLower ToUpper c) <> "").
  { cbn. split; [|by apply setString_nonempty]. destruct (Topics c); [|done].
    pose proof (setString_nonempty (Topic c) "tasks.events" ltac:(done)).
    by destruct (String.eqb_spec (setString (Topic c) "tasks.events") ""). }
  assert (Hz : forall f d, d <> 0 -> setInt (f c) d <> 0) by (intros; by apply setInt_nonzero).
  pose proof (Hz DialTimeout (10 * Go.second) ltac:(done)). pose proof (Hz PublishTimeout (5 * Go.second) ltac:(done)).
  pose proof (Hz HandlerTimeout (30 * Go.second) ltac:(done)). pose proof (Hz DrainTimeout (10 * Go.second) ltac:(done)).
  pose proof (Hz RetryBackoff (200 * Go.millisecond) ltac:(done)). pose proof (Hz SessionTimeoutMs 45000 ltac:(done)).
  pose proof (Hz MaxPollRecords 100 ltac:(done)). pose proof (Hz LingerMs 5 ltac:(done)).
  pose proof (Hz MessageMaxBytes 1000000 ltac:(done)). pose proof (Hz ConsumerPartitionFetchMaxBytes 1048576 ltac:(done)).
  rewrite !app_nil in H. destruct H as (Hb & Hsec & Hbuf & _ & _ & _ & Hses & Hl & Hdur & Hback & Hpoll & _ & _).
  apply security_sound in Hsec as (S1 & S2 & S3 & S4).
  match type of Hses with context [if ?b then _ else _] => destruct b eqn:Es end; [discriminate Hses|].
  unfold no_broker, validateBuffers in *. cbn [flat_map] in *.
  rewrite !app_nil, !bad_none in *. destruct_and!. zbool.
  assert (HB : Brokers (withDefaults ToLower ToUpper c) <> [] /\
    Forall (fun b => GoStr.TrimSpace b <> "") (Brokers (withDefaults ToLower ToUpper c))).
  { split; [by destruct (Brokers (withDefaults ToLower ToUpper c))|].
    apply Forall_forall. intros b Hin E. apply list_elem_of_In in Hin.
    match goal with Hx : existsb _ _ = false |- _ => apply not_true_iff_false in Hx; apply Hx end.
    apply existsb_exists. exists b. split; [done|]. rewrite E. done. }
  split; auto; cbn in *; unfold setDuration, setInt in *; lia.
Qed.

End Sound.

Definition hand_built (fetch msg part : Z) : Config := {|
  Brokers := ["localhost:9092"]; Topic := ""; Topics := []; Group := ""; ClientID := ""; DialTimeout := 0;
  AllowAutoTopicCreation := false; PublishTimeout := 0; StatisticsInterval := 0; SecurityProtocol := "";
  SASLMechanism := ""; SASLUsername := ""; SASLPassword := ""; SASLPasswordFile := ""; SSLCALocation := "";
  SSLCertificateLocation := ""; SSLKeyLocation := ""; SSLEndpointIdentificationAlgorithm := "";
  ProducerQueueMaxKBytes := 0; ProducerQueueMaxMessages := 0; MessageMaxBytes := msg;
  ConsumerQueueMaxKBytes := 0; ConsumerFetchMaxBytes := fetch; ConsumerPartitionFetchMaxBytes := part;
  CompressionType := ""; LingerMs := 0; AssignmentStrategy := ""; SessionTimeoutMs := 0;
  MaxPollIntervalMs := 0; AutoOffsetReset := ""; MaxPollRecords := 0; HandlerTimeout := 0; MaxRetries := 0;
  RetryBackoff := 0; RetryBackoffMax := 0; DeadLetterTopic := ""; DrainTimeout := 0; ExtraProperties := [];
  ProducerExtraProperties := []; ConsumerExtraProperties := [] |}.

Lemma accepted_is_runnable_witness :
  runnable (withDefaults (fun s => s) (fun s => s) (hand_built 0 0 0)).
Proof.
  apply (accepted_is_runnable (fun s => s) (fun s => s) (fun _ => None) (fun _ _ => None)
    (Some franz_validate) (hand_built 0 0 0)).
  vm_compute. reflexivity.
Defined.

(** A fetch size of 2 GiB passes validation with the franz-go driver linked
    and reaches the client as a negative int32: validation bounds the sizes from
    below and against each other, never from above. *)
Theorem franz_fetch_size_wraps (ToLower ToUpper : string -> string)
    (ReadFile : string -> option string) (readable : string -> bool -> option string) :
  ToLower "" = "" -> ToUpper "" = "" ->
  let c := hand_built (2 ^ 31) 0 0 in
  let '(c', errs) := Validate ToLower ToUpper ReadFile readable (Some franz_validate) c in
  errs = [] /\ FetchMaxBytes c' = - 2 ^ 31 /\ BrokerMaxReadBytes c' < 0.
Proof.
  intros Hl Hu. cbv zeta. unfold Validate.
  assert (E : withDefaults ToLower ToUpper (hand_built (2 ^ 31) 0 0) =
    withDefaults (fun s => s) (fun s => s) (hand_built (2 ^ 31) 0 0)).
  { unfold withDefaults. cbn [SecurityProtocol SASLMechanism hand_built].
    replace (GoStr.TrimSpace "") with "" by (vm_compute; reflexivity). by rewrite Hl, Hu. }
  rewrite E. split; [vm_compute; reflexivity|]. split; [vm_compute; reflexivity|]. vm_compute. reflexivity.
Qed.

Lemma franz_fetch_size_wraps_witness :
  FetchMaxBytes (withDefaults (fun s => s) (fun s => s) (hand_built (2 ^ 31) 0 0)) = - 2 ^ 31.
Proof.
  exact (proj1 (proj2 (franz_fetch_size_wraps (fun s => s) (fun s => s) (fun _ => None) (fun _ _ => None)
    eq_refl eq_refl))).
Defined.

End KafkaConfig.
