(* ===== verification/FranzConfig.v ===== *)
(** How the franz-go driver is set up (libs/kafka-franz config.go, franz.go): the options a
    configuration becomes, when the connection is encrypted and authenticated, the record
    of owned partitions, and the property lists of libs/kafka config.go. *)
From S2P Require Import Prelude GoStr KafkaConfig KafkaConsumer.

Module FranzConfig.
Import KafkaConfig.

Inductive opt_error := CAUnreadable | CANoCertificate | KeyPairRejected | PasswordUnreadable | PasswordEmpty | UnknownMechanism.

Inductive codec_ := Gzip | Snappy | Lz4 | Zstd | NoCompression.
Definition codec (name : string) : codec_ :=
  if String.eqb name "gzip" then Gzip else if String.eqb name "snappy" then Snappy
  else if String.eqb name "lz4" then Lz4 else if String.eqb name "zstd" then Zstd else NoCompression.

Inductive balancer_ := Range | RoundRobin | CooperativeSticky.
Definition balancer (strategy : string) : balancer_ :=
  if String.eqb strategy "range" then Range else if String.eqb strategy "roundrobin" then RoundRobin else CooperativeSticky.

Definition msDuration (ms : Z) : Z := Go.wrap64 (ms * Go.millisecond).

Inductive mechanism := Plain (user pass : string) | ScramSha256 (user pass : string) | ScramSha512 (user pass : string).

Section Options.
Context {Pool Cert Peer : Type} (ReadFile : string -> option string).
Context (SystemCertPool : option Pool) (NewCertPool : Pool) (AppendCertsFromPEM : Pool -> string -> option Pool).
Context (LoadX509KeyPair : string -> string -> option Cert).
(** [Verify] of the first certificate against roots, with the others as intermediates. *)
Context (Verify : Pool -> list Peer -> Peer -> bool).

Record tls_config := { RootCAs : Pool; InsecureSkipVerify : bool; VerifyConnection : option (list Peer -> bool); Certificates : list Cert }.

(** The check of the chain that is left when host names are not verified. *)
Definition verify_chain (pool : Pool) (peers : list Peer) : bool :=
  match peers with [] => false | leaf :: rest => Verify pool rest leaf end.

Definition ca_pool (c : Config) : opt_error + Pool :=
  let pool := default NewCertPool SystemCertPool in
  if is_set (SSLCALocation c) then
    match ReadFile (SSLCALocation c) with
    | None => inl CAUnreadable
    | Some pem => match AppendCertsFromPEM pool pem with None => inl CANoCertificate | Some pool => inr pool end
    end
  else inr pool.

Definition tlsConfig (c : Config) : opt_error + option tls_config :=
  if one_of (SecurityProtocol c) ["ssl"; "sasl_ssl"] then
    match ca_pool c with
    | inl e => inl e
    | inr pool =>
        let lax := String.eqb (SSLEndpointIdentificationAlgorithm c) "none" in
        let tc certs := {| RootCAs := pool; InsecureSkipVerify := lax;
                           VerifyConnection := if lax then Some (verify_chain pool) else None; Certificates := certs |} in
        if is_set (SSLCertificateLocation c) then
          match LoadX509KeyPair (SSLCertificateLocation c) (SSLKeyLocation c) with
          | None => inl KeyPairRejected
          | Some cert => inr (Some (tc [cert]))
          end
        else inr (Some (tc []))
    end
  else inr None.

Definition sasl_password (c : Config) : opt_error + string :=
  if is_set (SASLPasswordFile c) then
    match ReadFile (SASLPasswordFile c) with
    | None => inl PasswordUnreadable
    | Some b => let p := GoStr.TrimRight_newlines b in if is_set p then inr p else inl PasswordEmpty
    end
  else inr (SASLPassword c).

Definition saslMechanism (c : Config) : opt_error + option mechanism :=
  if one_of (SecurityProtocol c) ["sasl_plaintext"; "sasl_ssl"] then
    match sasl_password c with
    | inl e => inl e
    | inr p =>
        if String.eqb (SASLMechanism c) "PLAIN" then inr (Some (Plain (SASLUsername c) p))
        else if String.eqb (SASLMechanism c) "SCRAM-SHA-256" then inr (Some (ScramSha256 (SASLUsername c) p))
        else if String.eqb (SASLMechanism c) "SCRAM-SHA-512" then inr (Some (ScramSha512 (SASLUsername c) p))
        else inl UnknownMechanism
    end
  else inr None.

Inductive opt :=
  | SeedBrokers (bs : list string) | ClientID_ (id : string) | DialTimeout_ (d : Z) | BrokerMaxReadBytes_ (n : Z)
  | WithHooks | FetchMaxBytes_ (n : Z) | FetchMaxPartitionBytes_ (n : Z) | AllowAutoTopicCreation_
  | DialTLSConfig (t : tls_config) | SASL (m : mechanism)
  | RequiredAllISRAcks | ProducerLinger (d : Z) | ProducerBatchCompression (c d : codec_) | RecordDeliveryTimeout (d : Z)
  | MaxBufferedRecords (n : Z) | MaxBufferedBytes (n : Z) | ProducerBatchMaxBytes_ (n : Z)
  | ConsumerGroup (g : string) | ConsumeTopics (ts : list string) | DisableAutoCommit | BlockRebalanceOnPoll | Balancers (b : balancer_)
  | SessionTimeout (d : Z) | RebalanceTimeout (d : Z) | ConsumeResetOffset (at_end : bool) | MaxConcurrentFetches_ (n : Z).

Definition commonOpts (c : Config) : opt_error + list opt :=
  let opts := [SeedBrokers (Brokers c); ClientID_ (ClientID c); DialTimeout_ (DialTimeout c); BrokerMaxReadBytes_ (BrokerMaxReadBytes c);
               WithHooks; FetchMaxBytes_ (FetchMaxBytes c); FetchMaxPartitionBytes_ (FetchMaxPartitionBytes c)] ++
              (if AllowAutoTopicCreation c then [AllowAutoTopicCreation_] else []) in
  match tlsConfig c with
  | inl e => inl e
  | inr tls =>
      match saslMechanism c with
      | inl e => inl e
      | inr mech => inr (opts ++ match tls with Some t => [DialTLSConfig t] | None => [] end ++ match mech with Some m => [SASL m] | None => [] end)
      end
  end.

Definition producerOpts (c : Config) : list opt :=
  [RequiredAllISRAcks; ProducerLinger (msDuration (LingerMs c)); ProducerBatchCompression (codec (CompressionType c)) NoCompression;
   RecordDeliveryTimeout (PublishTimeout c); MaxBufferedRecords (ProducerQueueMaxMessages c);
   MaxBufferedBytes (Go.wrap64 (ProducerQueueMaxKBytes c * 1024)); ProducerBatchMaxBytes_ (ProducerBatchMaxBytes c)].

Definition consumerOpts (c : Config) : list opt :=
  [ConsumerGroup (Group c); ConsumeTopics (Topics c); DisableAutoCommit; BlockRebalanceOnPoll; Balancers (balancer (AssignmentStrategy c));
   SessionTimeout (msDuration (SessionTimeoutMs c)); RebalanceTimeout (msDuration (MaxPollIntervalMs c));
   ConsumeResetOffset (String.eqb (AutoOffsetReset c) "latest"); MaxConcurrentFetches_ (MaxConcurrentFetches c)].

(** The options of the two clients; a consumer also produces its dead letters. *)
Definition producer_client (c : Config) : opt_error + list opt :=
  match commonOpts c with inl e => inl e | inr o => inr (o ++ producerOpts c) end.
Definition consumer_client (c : Config) : opt_error + list opt :=
  match commonOpts c with inl e => inl e | inr o => inr (o ++ producerOpts c ++ consumerOpts c) end.

(** ** Encryption and authentication *)

Definition tls_of (os : list opt) : list tls_config := omap (fun o => match o with DialTLSConfig t => Some t | _ => None end) os.
Definition sasl_of (os : list opt) : list mechanism := omap (fun o => match o with SASL m => Some m | _ => None end) os.

(** What a TLS configuration checks of a broker: its chain in any case, since either the
    standard verification runs or the check of the chain in its place. *)
Definition checks_chain (t : tls_config) : Prop :=
  InsecureSkipVerify t = false \/
  exists verify, VerifyConnection t = Some verify /\
    forall peers, verify peers = true -> exists leaf rest, peers = leaf :: rest /\ Verify (RootCAs t) rest leaf = true.

Lemma tls_checks_chain (c : Config) (t : tls_config) : tlsConfig c = inr (Some t) -> checks_chain t.
Proof.
  assert (Hgen : forall pool certs, checks_chain {| RootCAs := pool; InsecureSkipVerify := String.eqb (SSLEndpointIdentificationAlgorithm c) "none";
    VerifyConnection := if String.eqb (SSLEndpointIdentificationAlgorithm c) "none" then Some (verify_chain pool) else None; Certificates := certs |}).
  { intros pool certs. unfold checks_chain. cbn. destruct (String.eqb _ _); [right|by left]. exists (verify_chain pool). split; [done|].
    intros [|leaf rest] H; [done|]. by exists leaf, rest. }
  unfold tlsConfig. destruct (one_of _ _); [|done]. destruct (ca_pool c) as [|pool]; [done|].
  destruct (is_set _); [|by intros [= <-]]. destruct (LoadX509KeyPair _ _); [|done]. by intros [= <-].
Qed.

Definition password_of (m : mechanism) : string := match m with Plain _ p | ScramSha256 _ p | ScramSha512 _ p => p end.
Definition user_of (m : mechanism) : string := match m with Plain u _ | ScramSha256 u _ | ScramSha512 u _ => u end.

Lemma sasl_complete (c : Config) :
  runnable c -> one_of (SecurityProtocol c) ["sasl_plaintext"; "sasl_ssl"] = true ->
  match saslMechanism c with
  | inr (Some m) => user_of m <> "" /\ password_of m <> ""
  | inr None => False
  | inl e => e = PasswordUnreadable \/ e = PasswordEmpty
  end.
Proof.
  intros Hr Hp. destruct (ok_sasl _ Hr Hp) as (Hu & Hm & Hxor). unfold saslMechanism. rewrite Hp.
  assert (Hpw : match sasl_password c with inr p => p <> "" | inl e => e = PasswordUnreadable \/ e = PasswordEmpty end).
  { unfold sasl_password. destruct (is_set (SASLPasswordFile c)) eqn:Hf.
    - destruct (ReadFile _) as [b|]; [|by left]. destruct (is_set (GoStr.TrimRight_newlines b)) eqn:Hb; [by apply is_set_true|by right].
    - apply is_set_false in Hf. intros He. by apply Hxor in He. }
  destruct (sasl_password c) as [e|p]; [done|]. unfold one_of in Hm. cbn [existsb] in Hm.
  destruct (String.eqb (SASLMechanism c) "PLAIN"); [done|]. destruct (String.eqb _ "SCRAM-SHA-256"); [done|].
  destruct (String.eqb _ "SCRAM-SHA-512"); done.
Qed.

(** The clients of an accepted configuration are built with TLS exactly when its protocol
    says so, and then check the chain of every broker even if host names are not
    verified; and with complete credentials exactly when its protocol asks for them: the
    mechanism is always one the driver knows. *)
Lemma franz_security (c : Config) (os : list opt) :
  runnable c -> commonOpts c = inr os ->
  (one_of (SecurityProtocol c) ["ssl"; "sasl_ssl"] = true <-> exists t, tls_of os = [t]) /\
  (forall t, t ∈ tls_of os -> checks_chain t) /\
  (one_of (SecurityProtocol c) ["sasl_plaintext"; "sasl_ssl"] = true <-> exists m, sasl_of os = [m]) /\
  (forall m, m ∈ sasl_of os -> user_of m <> "" /\ password_of m <> "").
Proof.
  intros Hr. unfold commonOpts. destruct (tlsConfig c) as [|tls] eqn:Ht; [done|]. destruct (saslMechanism c) as [|mech] eqn:Hs; [done|].
  intros [= <-]. cbn [app].
  assert (Htls : is_Some tls <-> one_of (SecurityProtocol c) ["ssl"; "sasl_ssl"] = true).
  { revert Ht. unfold tlsConfig. destruct (one_of _ _); [|intros [= <-]; by split; [intros ?%is_Some_None|]].
    destruct (ca_pool c); [done|]. destruct (is_set _); [destruct (LoadX509KeyPair _ _); [|done]|]; intros [= <-]; by split; [|eauto]. }
  assert (Hsasl : is_Some mech <-> one_of (SecurityProtocol c) ["sasl_plaintext"; "sasl_ssl"] = true).
  { destruct (one_of (SecurityProtocol c) ["sasl_plaintext"; "sasl_ssl"]) eqn:Hp.
    - pose proof (sasl_complete c Hr Hp) as H. rewrite Hs in H. destruct mech; [by split; [|eauto]|done].
    - unfold saslMechanism in Hs. rewrite Hp in Hs. injection Hs as <-. by split; [intros ?%is_Some_None|]. }
  match goal with |- context [tls_of ?l] => assert (Hl : tls_of l = match tls with Some t => [t] | None => [] end /\ sasl_of l = match mech with Some m => [m] | None => [] end) end.
  { destruct (AllowAutoTopicCreation c), tls, mech; done. }
  destruct Hl as [-> ->]. rewrite <- Htls, <- Hsasl. split_and!.
  - destruct tls as [t|]; [by split; eauto|]. split; [by intros ?%is_Some_None|by intros [t ?]].
  - intros t Hin. destruct tls as [t'|]; [|by apply not_elem_of_nil in Hin]. apply list_elem_of_singleton in Hin as ->. by eapply tls_checks_chain.
  - destruct mech as [m|]; [by split; eauto|]. split; [by intros ?%is_Some_None|by intros [m ?]].
  - intros m Hin. destruct mech as [m'|]; [|by apply not_elem_of_nil in Hin]. apply list_elem_of_singleton in Hin as ->.
    pose proof (sasl_complete c Hr ltac:(by apply Hsasl)) as H. by rewrite Hs in H.
Qed.
End Options.
End FranzConfig.

(** * The partitions the driver holds *)

Module FranzOwned.
Import KafkaConsumer.

(** A group change as franz-go reports it: partitions by topic. *)
Definition partitions : Type := list (string * list Z).

Definition toPartitions (m : partitions) : list TopicPartition :=
  m ≫= fun tps => (fun p => {| tp_Topic := tps.1; tp_Partition := p |}) <$> tps.2.

Inductive callback := OnAssigned (m : partitions) | OnRevoked (m : partitions) (commit_ok : bool) | OnLost (m : partitions).

(** What the loop is told: a nil slice when no partition is named. *)
Definition told (c : callback) : rebalance :=
  match c with
  | OnAssigned m => Assigned (toPartitions m)
  | OnRevoked m ok => Revoked (match toPartitions m with [] => None | ps => Some ps end) ok
  | OnLost m => Lost (toPartitions m)
  end.

Definition forget (owned : gset TopicPartition) (parts : list TopicPartition) : gset TopicPartition :=
  foldl (fun s p => s ∖ {[ p ]}) owned parts.

(** The driver's own record, changed before the loop is told of an assignment and after it
    is told of a loss. *)
Definition driver_owned (owned : gset TopicPartition) (c : callback) : gset TopicPartition :=
  match c with
  | OnAssigned m => foldl (fun s p => {[ p ]} ∪ s) owned (toPartitions m)
  | OnRevoked m _ | OnLost m => forget owned (toPartitions m)
  end.

Lemma forget_set (owned : gset TopicPartition) (parts : list TopicPartition) : forget owned parts = owned ∖ list_to_set parts.
Proof.
  revert owned. induction parts as [|p ps IH]; intros owned; cbn; [set_solver|]. unfold forget in *. cbn. rewrite IH. set_solver.
Qed.

Lemma assign_set (owned : gset TopicPartition) (parts : list TopicPartition) :
  foldl (fun s p => {[ p ]} ∪ s) owned parts = list_to_set parts ∪ owned.
Proof. revert owned. induction parts as [|p ps IH]; intros owned; cbn; [set_solver|]. rewrite IH. set_solver. Qed.

Lemma commit_owned (c : consumer) (only : option (list TopicPartition)) (ok : bool) : owned (commitLocked c only ok).1 = owned c.
Proof. unfold commitLocked. destruct (decide _); [done|]. by destruct ok. Qed.

Lemma told_owned (c : consumer) (cb : callback) : owned (on_rebalance c (told cb)).1 = driver_owned (owned c) cb.
Proof.
  destruct cb as [m|m ok|m]; unfold told, on_rebalance, driver_owned.
  - by rewrite assign_set.
  - unfold onRevoked. pose proof (commit_owned c (match toPartitions m with [] => None | ps => Some ps end) ok) as Hc.
    destruct (commitLocked _ _ _) as [c' evs]. cbn [fst] in *. unfold forgetLocked, drop_pending. cbn [owned]. rewrite Hc, forget_set. by destruct (toPartitions m).
  - by rewrite forget_set.
Qed.

(** The driver and the loop agree on the partitions they hold after any group changes. *)
Lemma owned_agree (c : consumer) (cbs : list callback) :
  owned (on_rebalances c (told <$> cbs)).1 = foldl driver_owned (owned c) cbs.
Proof.
  revert c. induction cbs as [|cb cbs IH]; intros c; [done|]. cbn [fmap list_fmap on_rebalances foldl].
  pose proof (told_owned c cb) as H. destruct (on_rebalance c (told cb)) as [c' evs]. specialize (IH c').
  cbn in H, IH |- *. rewrite H in IH. by destruct (on_rebalances c' (told <$> cbs)) as [c'' evs'].
Qed.

(** [Close]: the client is left once. *)
Definition Close (closed : bool) : bool * nat := if closed then (true, 0%nat) else (true, 1%nat).
End FranzOwned.

(** * Property lists *)

Module Properties.

(** A value of the JSON object. *)
Inductive json := JString (s : string) | JBool (b : bool) | JNumber (x : Z) | JOther.

Inductive prop_error := NotAnObject | NotScalar (key : string).

Section Parse.
(** [json.Unmarshal] into a map, and [strconv.FormatFloat(v, 'f', -1, 64)]; [JNumber] is
    a float64 by its bits. *)
Context (Unmarshal : string -> option (gmap string json)) (FormatFloat : Z -> string).

Definition scalar (v : json) : option string :=
  match v with
  | JString s => Some s
  | JBool b => Some (if b then "true" else "false")
  | JNumber x => Some (FormatFloat x)
  | JOther => None
  end.

(** [None] is a nil map. *)
Definition UnmarshalText (b : string) : prop_error + option (gmap string string) :=
  if String.eqb (GoStr.TrimSpace b) "" then inr None
  else match Unmarshal b with
       | None => inl NotAnObject
       | Some raw =>
           match list_find (fun kv => scalar kv.2 = None) (map_to_list raw) with
           | Some (_, (k, _)) => inl (NotScalar k)
           | None => inr (Some (omap scalar raw))
           end
       end.

(** Either every property of the object is taken, under its name, or the object is
    refused for one that is not a string, a number or a boolean. *)
Lemma properties_all_or_none (b : string) (raw : gmap string json) :
  GoStr.TrimSpace b <> "" -> Unmarshal b = Some raw ->
  match UnmarshalText b with
  | inr (Some out) => dom out = dom raw /\ forall k v, raw !! k = Some v -> out !! k = scalar v
  | inr None => False
  | inl (NotScalar k) => exists v, raw !! k = Some v /\ scalar v = None
  | inl NotAnObject => False
  end.
Proof.
  intros Hb Hu. unfold UnmarshalText. rewrite (proj2 (String.eqb_neq _ _) Hb), Hu.
  destruct (list_find _ _) as [[j [k v]]|] eqn:E.
  - apply list_find_Some in E as (Hj & Hs & _). exists v. split; [|done]. by eapply elem_of_map_to_list, list_elem_of_lookup_2.
  - apply list_find_None in E. assert (Hall : forall k v, raw !! k = Some v -> is_Some (scalar v)).
    { intros k v Hk. eapply Forall_forall in E; [|by apply elem_of_map_to_list]. cbn in E. by apply not_eq_None_Some. }
    split; [|intros k v Hk; by rewrite lookup_omap, Hk]. apply set_eq. intros k. rewrite !elem_of_dom, lookup_omap.
    destruct (raw !! k) as [v|] eqn:Hk; cbn; [|done]. split; [by eauto|]. intros _. by eapply Hall.
Qed.
End Parse.

(** [readable]: [open] fails with an error or gives whether the path is a directory. *)
Definition readable (open : string -> string + (string + bool)) (path : string) (dirOK : bool) : option string :=
  match open path with
  | inl err => Some err
  | inr (inl err) => Some err
  | inr (inr is_dir) => if is_dir && negb dirOK then Some (path ++ " is a directory")%string else None
  end.
End Properties.
