(* ===== verification/RdConfig.v ===== *)
(** The configuration of the librdkafka driver (libs/kafka-rdkafka/config.go): the
    client properties built from the named settings, the extra properties an operator
    may add, and that these never change a property a named setting owns. *)
From stdpp Require Import sorting.
From S2P Require Import Prelude GoStr KafkaConfig.

Module RdConfig.
Import KafkaConfig.

(** ** Properties *)

Inductive value := VStr (s : string) | VInt (n : Z) | VBool (b : bool).

#[export] Instance value_eq_dec : EqDecision value.
Proof. solve_decision. Defined.

Notation ConfigMap := (gmap string value).

(** A Go map of strings. *)
Definition Properties : Type := list (string * string).

(** [for k, v := range props { m[k] = v }] *)
Definition set_all (props : Properties) (m : ConfigMap) : ConfigMap := (VStr <$> list_to_map props) ∪ m.

Definition receiveMessageMaxBytesOverhead : Z := 512.

Definition ownedProperties : gmap string string :=
  list_to_map
  [("bootstrap.servers", "KAFKA_BROKERS");
   ("metadata.broker.list", "KAFKA_BROKERS");
   ("client.id", "KAFKA_CLIENT_ID");
   ("group.id", "KAFKA_GROUP");
   ("socket.connection.setup.timeout.ms", "KAFKA_DIAL_TIMEOUT");
   ("message.timeout.ms", "KAFKA_PUBLISH_TIMEOUT");
   ("delivery.timeout.ms", "KAFKA_PUBLISH_TIMEOUT");
   ("allow.auto.create.topics", "KAFKA_ALLOW_AUTO_TOPIC_CREATION");
   ("statistics.interval.ms", "KAFKA_STATISTICS_INTERVAL_MS");
   ("security.protocol", "KAFKA_SECURITY_PROTOCOL");
   ("sasl.mechanism", "KAFKA_SASL_MECHANISM");
   ("sasl.mechanisms", "KAFKA_SASL_MECHANISM");
   ("sasl.username", "KAFKA_SASL_USERNAME");
   ("sasl.password", "KAFKA_SASL_PASSWORD(_FILE)");
   ("ssl.ca.location", "KAFKA_SSL_CA_LOCATION");
   ("ssl.certificate.location", "KAFKA_SSL_CERTIFICATE_LOCATION");
   ("ssl.key.location", "KAFKA_SSL_KEY_LOCATION");
   ("ssl.endpoint.identification.algorithm", "KAFKA_SSL_ENDPOINT_IDENTIFICATION_ALGORITHM");
   ("queue.buffering.max.kbytes", "KAFKA_PRODUCER_QUEUE_MAX_KBYTES");
   ("queue.buffering.max.messages", "KAFKA_PRODUCER_QUEUE_MAX_MESSAGES");
   ("message.max.bytes", "KAFKA_MESSAGE_MAX_BYTES");
   ("queued.max.messages.kbytes", "KAFKA_CONSUMER_QUEUE_MAX_KBYTES");
   ("fetch.max.bytes", "KAFKA_CONSUMER_FETCH_MAX_BYTES");
   ("receive.message.max.bytes", "KAFKA_CONSUMER_FETCH_MAX_BYTES (set from it)");
   ("max.partition.fetch.bytes", "KAFKA_CONSUMER_PARTITION_FETCH_MAX_BYTES");
   ("fetch.message.max.bytes", "KAFKA_CONSUMER_PARTITION_FETCH_MAX_BYTES");
   ("compression.type", "KAFKA_PRODUCER_COMPRESSION_TYPE");
   ("compression.codec", "KAFKA_PRODUCER_COMPRESSION_TYPE");
   ("linger.ms", "KAFKA_PRODUCER_LINGER_MS");
   ("queue.buffering.max.ms", "KAFKA_PRODUCER_LINGER_MS");
   ("partition.assignment.strategy", "KAFKA_CONSUMER_ASSIGNMENT_STRATEGY");
   ("session.timeout.ms", "KAFKA_CONSUMER_SESSION_TIMEOUT_MS");
   ("max.poll.interval.ms", "KAFKA_CONSUMER_MAX_POLL_INTERVAL_MS");
   ("auto.offset.reset", "KAFKA_CONSUMER_AUTO_OFFSET_RESET");
   ("acks", "nothing: fixed to all by libs/kafka");
   ("request.required.acks", "nothing: fixed to all by libs/kafka");
   ("enable.idempotence", "nothing: fixed to true by libs/kafka");
   ("enable.auto.commit", "nothing: the consumer loop commits");
   ("enable.auto.offset.store", "nothing: the consumer loop commits")].

(** ** Validation *)

(** Why a property is refused: a named setting owns it, or the driver does. *)
Inductive refusal := UseInstead (src key use : string) | Managed (src key : string).

Definition key_le (a b : string) : Prop := String.leb a b = true.
#[export] Instance key_le_dec : RelDecision key_le.
Proof. intros a b. unfold key_le. apply _. Defined.

(** [slices.Sorted(maps.Keys(props))] *)
Definition sorted_keys (props : Properties) : list string := merge_sort key_le props.*1.

Definition refuse (src k : string) : list refusal :=
  match ownedProperties !! k with
  | Some use => [UseInstead src k use]
  | None => if String.prefix "go." k then [Managed src k] else []
  end.

Definition validate (c : Config) : list refusal :=
  [("KAFKA_EXTRA_PROPERTIES", ExtraProperties c);
   ("KAFKA_PRODUCER_EXTRA_PROPERTIES", ProducerExtraProperties c);
   ("KAFKA_CONSUMER_EXTRA_PROPERTIES", ConsumerExtraProperties c)] ≫= fun '(src, props) => sorted_keys props ≫= refuse src.

(** ** The maps *)

Section Files.
Context (ReadFile : string -> option string).

Inductive prop_error := PasswordUnreadable | PasswordEmpty.

(** The password handed to the client. *)
Definition sasl_password (c : Config) : sum prop_error string :=
  if String.eqb (SASLPasswordFile c) "" then inr (SASLPassword c)
  else match ReadFile (SASLPasswordFile c) with
       | None => inl PasswordUnreadable
       | Some b => if String.eqb (GoStr.TrimRight_newlines b) "" then inl PasswordEmpty else inr (GoStr.TrimRight_newlines b)
       end.

Definition ms (d : Z) : Z := Z.quot d Go.millisecond.

Definition insert_if (b : bool) (k : string) (v : value) (m : ConfigMap) : ConfigMap := if b then <[k := v]> m else m.

Definition commonProperties (c : Config) : sum prop_error ConfigMap :=
  let m : ConfigMap := list_to_map
    [("bootstrap.servers", VStr (String.concat "," (Brokers c)));
     ("client.id", VStr (ClientID c));
     ("socket.connection.setup.timeout.ms", VInt (ms (DialTimeout c)));
     ("socket.keepalive.enable", VBool true);
     ("allow.auto.create.topics", VBool (AllowAutoTopicCreation c));
     ("message.max.bytes", VInt (MessageMaxBytes c));
     ("go.logs.channel.enable", VBool true)] in
  let m := insert_if (0 <? StatisticsInterval c) "statistics.interval.ms" (VInt (StatisticsInterval c)) m in
  let m := insert_if (is_set (SecurityProtocol c)) "security.protocol" (VStr (SecurityProtocol c)) m in
  match (if is_set (SASLMechanism c)
         then match sasl_password c with
              | inl e => inl e
              | inr password =>
                  inr (<["sasl.password" := VStr password]> (<["sasl.username" := VStr (SASLUsername c)]>
                    (<["sasl.mechanism" := VStr (SASLMechanism c)]> m)))
              end
         else inr m) with
  | inl e => inl e
  | inr m =>
      let m := insert_if (is_set (SSLCALocation c)) "ssl.ca.location" (VStr (SSLCALocation c)) m in
      let m := insert_if (is_set (SSLCertificateLocation c)) "ssl.certificate.location" (VStr (SSLCertificateLocation c)) m in
      let m := insert_if (is_set (SSLKeyLocation c)) "ssl.key.location" (VStr (SSLKeyLocation c)) m in
      let m := insert_if (is_set (SSLEndpointIdentificationAlgorithm c)) "ssl.endpoint.identification.algorithm"
                 (VStr (SSLEndpointIdentificationAlgorithm c)) m in
      inr (set_all (ExtraProperties c) m)
  end.

Definition producerProperties (c : Config) : sum prop_error ConfigMap :=
  match commonProperties c with
  | inl e => inl e
  | inr m =>
      let m := <["acks" := VStr "all"]> m in
      let m := <["enable.idempotence" := VBool true]> m in
      let m := <["compression.type" := VStr (CompressionType c)]> m in
      let m := <["linger.ms" := VInt (LingerMs c)]> m in
      let m := <["message.timeout.ms" := VInt (ms (PublishTimeout c))]> m in
      let m := <["queue.buffering.max.kbytes" := VInt (ProducerQueueMaxKBytes c)]> m in
      let m := <["queue.buffering.max.messages" := VInt (ProducerQueueMaxMessages c)]> m in
      inr (set_all (ProducerExtraProperties c) m)
  end.

Definition consumerProperties (c : Config) : sum prop_error ConfigMap :=
  match commonProperties c with
  | inl e => inl e
  | inr m =>
      let m := <["group.id" := VStr (Group c)]> m in
      let m := <["enable.auto.commit" := VBool false]> m in
      let m := <["enable.auto.offset.store" := VBool false]> m in
      let m := <["auto.offset.reset" := VStr (AutoOffsetReset c)]> m in
      let m := <["partition.assignment.strategy" := VStr (AssignmentStrategy c)]> m in
      let m := <["session.timeout.ms" := VInt (SessionTimeoutMs c)]> m in
      let m := <["max.poll.interval.ms" := VInt (MaxPollIntervalMs c)]> m in
      let m := <["queued.max.messages.kbytes" := VInt (ConsumerQueueMaxKBytes c)]> m in
      let m := <["fetch.max.bytes" := VInt (ConsumerFetchMaxBytes c)]> m in
      let m := <["receive.message.max.bytes" := VInt (Go.wrap64 (ConsumerFetchMaxBytes c + receiveMessageMaxBytesOverhead))]> m in
      let m := <["max.partition.fetch.bytes" := VInt (ConsumerPartitionFetchMaxBytes c)]> m in
      inr (set_all (ConsumerExtraProperties c) m)
  end.
End Files.

(** ** Lemmas *)

Definition without_extras (c : Config) : Config :=
  {| Brokers := Brokers c; Topic := Topic c; Topics := Topics c; Group := Group c; ClientID := ClientID c;
     DialTimeout := DialTimeout c; AllowAutoTopicCreation := AllowAutoTopicCreation c; PublishTimeout := PublishTimeout c;
     StatisticsInterval := StatisticsInterval c; SecurityProtocol := SecurityProtocol c; SASLMechanism := SASLMechanism c;
     SASLUsername := SASLUsername c; SASLPassword := SASLPassword c; SASLPasswordFile := SASLPasswordFile c;
     SSLCALocation := SSLCALocation c; SSLCertificateLocation := SSLCertificateLocation c; SSLKeyLocation := SSLKeyLocation c;
     SSLEndpointIdentificationAlgorithm := SSLEndpointIdentificationAlgorithm c;
     ProducerQueueMaxKBytes := ProducerQueueMaxKBytes c; ProducerQueueMaxMessages := ProducerQueueMaxMessages c;
     MessageMaxBytes := MessageMaxBytes c; ConsumerQueueMaxKBytes := ConsumerQueueMaxKBytes c;
     ConsumerFetchMaxBytes := ConsumerFetchMaxBytes c; ConsumerPartitionFetchMaxBytes := ConsumerPartitionFetchMaxBytes c;
     CompressionType := CompressionType c; LingerMs := LingerMs c; AssignmentStrategy := AssignmentStrategy c;
     SessionTimeoutMs := SessionTimeoutMs c; MaxPollIntervalMs := MaxPollIntervalMs c; AutoOffsetReset := AutoOffsetReset c;
     MaxPollRecords := MaxPollRecords c; HandlerTimeout := HandlerTimeout c; MaxRetries := MaxRetries c;
     RetryBackoff := RetryBackoff c; RetryBackoffMax := RetryBackoffMax c; DeadLetterTopic := DeadLetterTopic c;
     DrainTimeout := DrainTimeout c; ExtraProperties := []; ProducerExtraProperties := []; ConsumerExtraProperties := [] |}.

(** ** What a client is told *)

(** The settings of a librdkafka client that a named key or the driver decides, with every
    name librdkafka documents for each: it takes a value under any of them. *)
Inductive setting :=
  | BrokerList | ClientName | GroupName | ConnectTimeout | TopicCreation | Statistics | Protocol | Mechanism | Username
  | Password | AuthorityFile | CertificateFile | KeyFile | HostCheck | SendQueueKBytes | SendQueueMessages | MessageBytes
  | FetchQueueKBytes | FetchBytes | ReceiveBytes | PartitionBytes | Compression | Linger | Assignment | SessionTimeout
  | PollInterval | OffsetReset | DeliveryTimeout | Acknowledgements | Idempotence | AutoCommit | AutoStore.

Definition names (s : setting) : list string :=
  match s with
  | BrokerList => ["metadata.broker.list"; "bootstrap.servers"]
  | ClientName => ["client.id"]
  | GroupName => ["group.id"]
  | ConnectTimeout => ["socket.connection.setup.timeout.ms"]
  | TopicCreation => ["allow.auto.create.topics"]
  | Statistics => ["statistics.interval.ms"]
  | Protocol => ["security.protocol"]
  | Mechanism => ["sasl.mechanisms"; "sasl.mechanism"]
  | Username => ["sasl.username"]
  | Password => ["sasl.password"]
  | AuthorityFile => ["ssl.ca.location"]
  | CertificateFile => ["ssl.certificate.location"]
  | KeyFile => ["ssl.key.location"]
  | HostCheck => ["ssl.endpoint.identification.algorithm"]
  | SendQueueKBytes => ["queue.buffering.max.kbytes"]
  | SendQueueMessages => ["queue.buffering.max.messages"]
  | MessageBytes => ["message.max.bytes"]
  | FetchQueueKBytes => ["queued.max.messages.kbytes"]
  | FetchBytes => ["fetch.max.bytes"]
  | ReceiveBytes => ["receive.message.max.bytes"]
  | PartitionBytes => ["fetch.message.max.bytes"; "max.partition.fetch.bytes"]
  | Compression => ["compression.codec"; "compression.type"]
  | Linger => ["queue.buffering.max.ms"; "linger.ms"]
  | Assignment => ["partition.assignment.strategy"]
  | SessionTimeout => ["session.timeout.ms"]
  | PollInterval => ["max.poll.interval.ms"]
  | OffsetReset => ["auto.offset.reset"]
  | DeliveryTimeout => ["message.timeout.ms"; "delivery.timeout.ms"]
  | Acknowledgements => ["request.required.acks"; "acks"]
  | Idempotence => ["enable.idempotence"]
  | AutoCommit => ["enable.auto.commit"]
  | AutoStore => ["enable.auto.offset.store"]
  end.

(** Every value a map of properties gives for a setting. *)
Definition given (m : ConfigMap) (s : setting) : list value := omap (fun k => m !! k) (names s).

(** The driver refuses each of these names, and those of the Go client. *)
Definition reserved (k : string) : Prop := is_Some (ownedProperties !! k) \/ String.prefix "go." k = true.

Lemma names_reserved (s : setting) (k : string) : k ∈ names s -> reserved k.
Proof.
  intros Hk. left. apply (bool_decide_eq_true _). revert k Hk. apply (Forall_forall (fun k => bool_decide (is_Some (ownedProperties !! k)) = true)).
  destruct s; repeat (apply Forall_cons_2 || apply Forall_nil_2); vm_compute; reflexivity.
Qed.

Lemma set_all_nil (m : ConfigMap) : set_all [] m = m.
Proof. unfold set_all. cbn. by rewrite fmap_empty, (left_id_L ∅ (∪)). Qed.

Lemma set_all_out (props : Properties) (m : ConfigMap) (k : string) : k ∉ props.*1 -> set_all props m !! k = m !! k.
Proof.
  intros H. apply lookup_union_r. rewrite lookup_fmap. apply not_elem_of_list_to_map in H. by rewrite H.
Qed.

Lemma set_all_in (props : Properties) (m : ConfigMap) (k v : string) :
  list_to_map (M:=gmap string string) props !! k = Some v -> set_all props m !! k = Some (VStr v).
Proof. intros H. apply lookup_union_Some_l. by rewrite lookup_fmap, H. Qed.

Lemma refuse_reserved (src k : string) : reserved k -> refuse src k <> [].
Proof. unfold refuse. intros [[use ->]|H]; [done|]. destruct (ownedProperties !! k); [done|]. by rewrite H. Qed.

Lemma sorted_keys_in (props : Properties) (k : string) : k ∈ props.*1 <-> k ∈ sorted_keys props.
Proof. unfold sorted_keys. by rewrite merge_sort_Permutation. Qed.

(** No extra property is a reserved one. *)
Lemma validate_none (c : Config) (k : string) :
  validate c = [] -> reserved k ->
  k ∉ (ExtraProperties c).*1 /\ k ∉ (ProducerExtraProperties c).*1 /\ k ∉ (ConsumerExtraProperties c).*1.
Proof.
  intros Hv Hk.
  assert (Hnone : forall src props, sorted_keys props ≫= refuse src = [] -> k ∉ props.*1).
  { intros src props Hb Hin. apply sorted_keys_in in Hin. apply list_elem_of_split in Hin as (l1 & l2 & Hl).
    rewrite Hl, bind_app in Hb. apply app_nil in Hb as [_ Hb]. cbn in Hb. apply app_nil in Hb as [Hb _].
    by apply (refuse_reserved src k Hk). }
  unfold validate in Hv. cbn -[sorted_keys refuse] in Hv.
  apply app_nil in Hv as [H1 [H2 [H3 _]%app_nil]%app_nil]. split_and!; eapply Hnone; eassumption.
Qed.

Lemma insert_lookup_cong (m m' : ConfigMap) (k j : string) (v : value) :
  m !! k = m' !! k -> <[j := v]> m !! k = <[j := v]> m' !! k.
Proof. intros H. by destruct (decide (j = k)) as [->|Hn]; [rewrite !lookup_insert_eq|rewrite !lookup_insert_ne]. Qed.

Section Kept.
Context (ReadFile : string -> option string).

(** The extra properties come last. *)
Lemma commonProperties_extra (c : Config) :
  match commonProperties ReadFile (without_extras c) with
  | inl e => commonProperties ReadFile c = inl e
  | inr m => commonProperties ReadFile c = inr (set_all (ExtraProperties c) m)
  end.
Proof.
  unfold commonProperties, sasl_password, without_extras.
  cbn [Brokers ClientID DialTimeout AllowAutoTopicCreation MessageMaxBytes StatisticsInterval SecurityProtocol SASLMechanism
    SASLUsername SASLPassword SASLPasswordFile SSLCALocation SSLCertificateLocation SSLKeyLocation
    SSLEndpointIdentificationAlgorithm ExtraProperties].
  destruct (is_set (SASLMechanism c)); [|by rewrite set_all_nil].
  destruct (String.eqb (SASLPasswordFile c) ""); [by rewrite set_all_nil|].
  destruct (ReadFile _) as [b|]; [|done]. destruct (String.eqb (GoStr.TrimRight_newlines b) ""); [done|by rewrite set_all_nil].
Qed.

(** ** Theorems *)

Lemma given_cong (m m0 : ConfigMap) (s : setting) : (forall k, k ∈ names s -> m !! k = m0 !! k) -> given m s = given m0 s.
Proof.
  unfold given. induction (names s) as [|k l IH]; intros H; [done|]. cbn. rewrite (H k) by set_solver. rewrite IH by set_solver. done.
Qed.

(** With a configuration the driver accepts, a reserved property is what it is without the
    extra ones. *)
Lemma reserved_kept (c : Config) (Hv : validate c = []) :
  (forall m, producerProperties ReadFile c = inr m ->
     exists m0, producerProperties ReadFile (without_extras c) = inr m0 /\ forall k, reserved k -> m !! k = m0 !! k) /\
  (forall m, consumerProperties ReadFile c = inr m ->
     exists m0, consumerProperties ReadFile (without_extras c) = inr m0 /\ forall k, reserved k -> m !! k = m0 !! k).
Proof.
  pose proof (commonProperties_extra c) as Hx. unfold producerProperties, consumerProperties.
  destruct (commonProperties ReadFile (without_extras c)) as [e|m0]; rewrite Hx; [done|].
  split; intros m [= <-]; (eexists; split; [reflexivity|]); intros k Hk; pose proof (validate_none c k Hv Hk) as (He & Hp & Hc);
    cbn [without_extras ProducerExtraProperties ConsumerExtraProperties]; rewrite set_all_nil, set_all_out by done;
    repeat apply insert_lookup_cong; by rewrite set_all_out.
Qed.

(** What the driver fixes, in the map built without extra properties. *)
Lemma common_names (c : Config) (m : ConfigMap) :
  commonProperties ReadFile (without_extras c) = inr m -> m !! "request.required.acks" = None.
Proof.
  unfold commonProperties. destruct (if is_set (SASLMechanism (without_extras c)) then _ else _) as [|m1] eqn:H1; [done|]. intros [= <-].
  cbn [without_extras ExtraProperties]. rewrite set_all_nil. unfold insert_if in *.
  repeat match goal with |- context [if ?b then _ else _] => destruct b end; rewrite ?lookup_insert_ne by discriminate; revert H1;
    repeat match goal with |- context [if ?b then _ else _] => destruct b end;
    try (destruct (sasl_password ReadFile _); [done|]); intros [= <-]; rewrite ?lookup_insert_ne by discriminate; reflexivity.
Qed.

Lemma fixed_producer (c : Config) (m : ConfigMap) :
  producerProperties ReadFile (without_extras c) = inr m -> given m Acknowledgements = [VStr "all"] /\ given m Idempotence = [VBool true].
Proof.
  unfold producerProperties. destruct (commonProperties ReadFile (without_extras c)) as [|m0] eqn:Hc; [done|]. apply common_names in Hc. intros [= <-].
  cbn [without_extras ProducerExtraProperties]. rewrite set_all_nil. unfold given. cbn [names omap list_omap]. split.
  - rewrite !lookup_insert_ne, Hc by discriminate. by rewrite lookup_insert_eq.
  - rewrite !lookup_insert_ne by discriminate. by rewrite lookup_insert_eq.
Qed.

Lemma fixed_consumer (c : Config) (m : ConfigMap) :
  consumerProperties ReadFile (without_extras c) = inr m -> given m AutoCommit = [VBool false] /\ given m AutoStore = [VBool false].
Proof.
  unfold consumerProperties. destruct (commonProperties ReadFile (without_extras c)) as [|m0] eqn:Hc; [done|]. intros [= <-].
  cbn [without_extras ConsumerExtraProperties]. rewrite set_all_nil. unfold given. cbn [names omap list_omap].
  split; rewrite !lookup_insert_ne by discriminate; by rewrite lookup_insert_eq.
Qed.


(** "each librdkafka property a named key (or the library) sets": the driver also sets
    [socket.keepalive.enable], which is not among them, so an extra property turns it off. *)
Lemma keepalive_not_owned :
  refuse "KAFKA_EXTRA_PROPERTIES" "socket.keepalive.enable" = [] /\
  forall (c : Config) (m : ConfigMap),
    list_to_map (M:=gmap string string) (ExtraProperties c) !! "socket.keepalive.enable" = Some "false" ->
    commonProperties ReadFile c = inr m -> m !! "socket.keepalive.enable" = Some (VStr "false").
Proof.
  split; [by vm_compute|]. intros c m Hx Hm. pose proof (commonProperties_extra c) as H.
  destruct (commonProperties ReadFile (without_extras c)); rewrite H in Hm; [done|]. injection Hm as <-. by apply set_all_in.
Qed.

(** An extra property of the producer reaches its client, over one for all clients. *)
Theorem extra_properties_reach_client (c : Config) (k v : string) (m : ConfigMap) :
  producerProperties ReadFile c = inr m -> list_to_map (M:=gmap string string) (ProducerExtraProperties c) !! k = Some v ->
  m !! k = Some (VStr v).
Proof.
  unfold producerProperties. destruct (commonProperties ReadFile c) as [|m0]; [done|]. intros [= <-] H. by apply set_all_in.
Qed.

(** The password of a file is what the file holds less its trailing line breaks, and an
    unreadable or empty file builds no client. *)
Lemma password_file_errors (c : Config) :
  is_set (SASLMechanism c) = true -> SASLPasswordFile c <> "" ->
  (ReadFile (SASLPasswordFile c) = None -> producerProperties ReadFile c = inl PasswordUnreadable) /\
  (forall b, ReadFile (SASLPasswordFile c) = Some b -> GoStr.TrimRight_newlines b = "" ->
     producerProperties ReadFile c = inl PasswordEmpty).
Proof.
  intros Hm Hf%String.eqb_neq. unfold producerProperties, commonProperties, sasl_password. rewrite Hm, Hf.
  split; [by intros ->|]. intros b -> ->. done.
Qed.
End Kept.

Definition demo_rd : Config :=
  {| Brokers := ["k1:9092"; "k2:9092"]; Topic := "tasks.events"; Topics := ["tasks.events"]; Group := "g"; ClientID := "c";
     DialTimeout := 10 * Go.second; AllowAutoTopicCreation := false; PublishTimeout := 5 * Go.second; StatisticsInterval := 15000;
     SecurityProtocol := "sasl_ssl"; SASLMechanism := "PLAIN"; SASLUsername := "u"; SASLPassword := ""; SASLPasswordFile := "/pw";
     SSLCALocation := ""; SSLCertificateLocation := ""; SSLKeyLocation := ""; SSLEndpointIdentificationAlgorithm := "";
     ProducerQueueMaxKBytes := 65536; ProducerQueueMaxMessages := 100000; MessageMaxBytes := 1000000;
     ConsumerQueueMaxKBytes := 4096; ConsumerFetchMaxBytes := 4194304; ConsumerPartitionFetchMaxBytes := 1048576;
     CompressionType := "lz4"; LingerMs := 5; AssignmentStrategy := "cooperative-sticky"; SessionTimeoutMs := 45000;
     MaxPollIntervalMs := 300000; AutoOffsetReset := "earliest"; MaxPollRecords := 100; HandlerTimeout := 30 * Go.second;
     MaxRetries := 5; RetryBackoff := 200 * Go.millisecond; RetryBackoffMax := 30 * Go.second; DeadLetterTopic := "{topic}.dlq";
     DrainTimeout := 10 * Go.second; ExtraProperties := [("broker.address.family", "v4")];
     ProducerExtraProperties := [("retries", "3")]; ConsumerExtraProperties := [] |}.
Definition demo_files (path : string) : option string :=
  if String.eqb path "/pw" then Some (String.append "secret" (String (Ascii.ascii_of_nat 10) "")) else None.

Definition demo_producer_map : ConfigMap :=
  Eval vm_compute in match producerProperties demo_files demo_rd with inr m => m | inl _ => ∅ end.


(** Refusals name the property and what to use instead, never its value. *)
Example refused_property :
  validate {| Brokers := []; Topic := ""; Topics := []; Group := ""; ClientID := ""; DialTimeout := 0; AllowAutoTopicCreation := false;
     PublishTimeout := 0; StatisticsInterval := 0; SecurityProtocol := ""; SASLMechanism := ""; SASLUsername := ""; SASLPassword := "";
     SASLPasswordFile := ""; SSLCALocation := ""; SSLCertificateLocation := ""; SSLKeyLocation := "";
     SSLEndpointIdentificationAlgorithm := ""; ProducerQueueMaxKBytes := 0; ProducerQueueMaxMessages := 0; MessageMaxBytes := 0;
     ConsumerQueueMaxKBytes := 0; ConsumerFetchMaxBytes := 0; ConsumerPartitionFetchMaxBytes := 0; CompressionType := ""; LingerMs := 0;
     AssignmentStrategy := ""; SessionTimeoutMs := 0; MaxPollIntervalMs := 0; AutoOffsetReset := ""; MaxPollRecords := 0;
     HandlerTimeout := 0; MaxRetries := 0; RetryBackoff := 0; RetryBackoffMax := 0; DeadLetterTopic := ""; DrainTimeout := 0;
     ExtraProperties := [("go.events.channel.size", "1"); ("acks", "1")]; ProducerExtraProperties := []; ConsumerExtraProperties := [] |}
  = [UseInstead "KAFKA_EXTRA_PROPERTIES" "acks" "nothing: fixed to all by libs/kafka";
     Managed "KAFKA_EXTRA_PROPERTIES" "go.events.channel.size"].
Proof. vm_compute. reflexivity. Qed.

End RdConfig.
