(* ===== verification/Conformance.v ===== *)
(** The conformance suite of the Kafka drivers (libs/kafka/kafkatest), run on the model of the
    consumer loop: the scenarios with their configurations and handlers, and what each
    expects, for every way the few records of a topic can be cut into polls, and for every
    size of polls where the scenario has ten. The driver's
    and the broker's parts are played as the harness plays them; the suite's waits and its
    spans are left out. *)
From S2P Require Import Prelude GoError GoStr KafkaMessage KafkaConsumer Group KafkaMetrics KafkaConfig RdKafka Franz.

Module Conformance.
Import KafkaMessage KafkaConsumer.

(** ** Helpers *)

(** [fmt.Appendf(nil, "k-%d", i)]. *)
Definition numbered (p : string) (i : nat) : string := (p ++ "-" ++ GoStr.Itoa (Z.of_nat i))%string.

(** [sendN]: the records as the topic's only partition keeps them. *)
Definition sendN (topic : string) (n : nat) : list Message :=
  (fun i => {| Topic := topic; MKey := Some (numbered "k" i); MValue := numbered "v" i; Partition := 0; Offset := Z.of_nat i;
               Headers := [{| Key := HeaderEventID; Value := numbered "e" i |}]; Timestamp := 0; Attempt := 0 |}) <$> seq 0 n.

(** [consumerConfig], with the fields the scenarios change. *)
Definition consumerConfig (brokers : list string) (topic group client : string) (maxRetries : Z) (deadLetter : string) (drain : Z) : KafkaConfig.Config :=
  {| KafkaConfig.Brokers := brokers; KafkaConfig.Topic := ""; KafkaConfig.Topics := [topic]; KafkaConfig.Group := group; KafkaConfig.ClientID := client;
     KafkaConfig.DialTimeout := 0; KafkaConfig.AllowAutoTopicCreation := false; KafkaConfig.PublishTimeout := 0; KafkaConfig.StatisticsInterval := -1;
     KafkaConfig.SecurityProtocol := ""; KafkaConfig.SASLMechanism := ""; KafkaConfig.SASLUsername := ""; KafkaConfig.SASLPassword := "";
     KafkaConfig.SASLPasswordFile := ""; KafkaConfig.SSLCALocation := ""; KafkaConfig.SSLCertificateLocation := ""; KafkaConfig.SSLKeyLocation := "";
     KafkaConfig.SSLEndpointIdentificationAlgorithm := ""; KafkaConfig.ProducerQueueMaxKBytes := 0; KafkaConfig.ProducerQueueMaxMessages := 0;
     KafkaConfig.MessageMaxBytes := 0; KafkaConfig.ConsumerQueueMaxKBytes := 0; KafkaConfig.ConsumerFetchMaxBytes := 0;
     KafkaConfig.ConsumerPartitionFetchMaxBytes := 0; KafkaConfig.CompressionType := ""; KafkaConfig.LingerMs := 0; KafkaConfig.AssignmentStrategy := "";
     KafkaConfig.SessionTimeoutMs := 10000; KafkaConfig.MaxPollIntervalMs := 0; KafkaConfig.AutoOffsetReset := ""; KafkaConfig.MaxPollRecords := 0;
     KafkaConfig.HandlerTimeout := 0; KafkaConfig.MaxRetries := maxRetries; KafkaConfig.RetryBackoff := 10 * Go.millisecond;
     KafkaConfig.RetryBackoffMax := 50 * Go.millisecond;
     KafkaConfig.DeadLetterTopic := deadLetter; KafkaConfig.DrainTimeout := drain; KafkaConfig.ExtraProperties := []; KafkaConfig.ProducerExtraProperties := [];
     KafkaConfig.ConsumerExtraProperties := [] |}.

(** The configuration the loop of a consumer built from it reads (upper-casing is of the SASL
    mechanism, which it does not read). *)
Definition loop_config (c : KafkaConfig.Config) : config :=
  let c := KafkaConfig.withDefaults GoStr.ToLower (fun s => s) c in
  {| MaxRetries := KafkaConfig.MaxRetries c; RetryBackoff := KafkaConfig.RetryBackoff c; RetryBackoffMax := KafkaConfig.RetryBackoffMax c;
     DeadLetterTopic := KafkaConfig.DeadLetterTopic c |}.

(** A handler: its error with the text of it. *)
Definition Handler := Message -> option (error * string).

(** What the loop sees of a record: the handler's answers; [cut]: the drain deadline passes
    during its first call. *)
Definition env_of (h : Handler) (cut : Message -> bool) (r : Message) : rec_in :=
  {| ri_handler := fun n => fst <$> h (with_attempt r n); ri_text := fun n => default ""%string (snd <$> h (with_attempt r n));
     ri_ctx := fun _ => cut r; ri_rand := fun _ _ => 0; ri_slept := fun _ => true;
     dl_send := fun _ => None; dl_ctx := fun _ => false; dl_rand := fun _ _ => 0; dl_slept := fun _ => true |}.

(** Every way to cut a list into batches. *)
Fixpoint cuts {A} (l : list A) : list (list (list A)) :=
  match l with
  | [] => [[]]
  | x :: l => cuts l ≫= (fun c => match c with [] => [[[x]]] | b :: c => [[x] :: b :: c; (x :: b) :: c] end)
  end.

(** Batches of at most [n] records, as a client hands out a backlog. *)
Fixpoint chunks {A} (fuel n : nat) (l : list A) : list (list A) :=
  match fuel, l with
  | S fuel, _ :: _ => take n l :: chunks fuel n (drop n l)
  | _, _ => []
  end.

(** [start]: a member that is assigned the partition, is given the batches, and, with [stop]
    set, finds its context cancelled in the turn after that many polls. *)
Definition tp_of_topic (topic : string) : TopicPartition := {| tp_Topic := topic; tp_Partition := 0 |}.
Definition polls (topic : string) (h : Handler) (cut : Message -> bool) (stop : option nat) (batches : list (list Message)) : list poll_in :=
  imap (fun i b => {| pi_ctx := match stop with Some n => (n <=? i)%nat | None => false end;
                      pi_rebalance := if Nat.eqb i 0 then [Assigned [tp_of_topic topic]] else [];
                      pi_records := (fun r => (r, demo_turn (env_of h cut r))) <$> b;
                      pi_err := PollOK; pi_ctx' := false; pi_commit := true; pi_allowed := [] |}) (batches ++ [[]]).
Definition start (c : KafkaConfig.Config) (topic : string) (h : Handler) (cut : Message -> bool) (stop : option nat) (batches : list (list Message))
    : list event * run_res :=
  let '(_, evs, res) := Run (loop_config c) initial (polls topic h cut stop batches) true in (evs, res).

(** [seen]: what the handler was given, and its keys and offsets. *)
Definition seen (evs : list event) : list Message := Group.handed evs.
Definition keys (evs : list event) : list string := (fun m => default ""%string (MKey m)) <$> seen evs.
Definition offsets (l : list Message) : gmap Z Z := foldl (fun m r => <[Offset r := default 0 (m !! Offset r) + 1]> m) ∅ l.

(** [Harness.Committed] of the partition. *)
Definition Committed_ (evs : list event) (topic : string) : option Z := Group.last_commit evs (tp_of_topic topic).

(** The counter of records, as [testx.Metric] reads it: -1 for a series that is not there. *)
Definition Metric {K} `{Countable K} (m : gmap K Z) (k : K) : Z := default (-1) (m !! k).
Definition records_total (c : KafkaConfig.Config) (h : Handler) (cut : Message -> bool) (evs : list event) : gmap (string * string) Z :=
  foldl (KafkaMetrics.count_record (KafkaConfig.Topics c)) ∅
    (omap (fun e => match e with Turn r => Some (r, KafkaMetrics.process_result (loop_config c) (env_of h cut r) r) | _ => None end) evs).
Definition handler_calls (evs : list event) : Z := Z.of_nat (length (seen evs)).

(** The sends of the consumer's producer, all of which go through. *)
Definition sends (evs : list event) : KafkaMetrics.sendMetrics :=
  foldl (fun m p => KafkaMetrics.observe (Topic p) 0 None m) KafkaMetrics.newSendMetrics (publishes evs).

Definition header (m : Message) (key : string) : string := default ""%string (Message_Header m key).
Definition text_error (s : string) : error := Errors.Node (TText s) [].
(** The expectations of a scenario, for every cutting of its records. *)
Definition for_every_cut (l : list Message) (expect : list (list Message) -> bool) : bool := forallb expect (cuts l).
Definition for_every_size (l : list Message) (expect : list (list Message) -> bool) : bool :=
  forallb (fun n => expect (chunks (length l) (S n) l)) (seq 0 (length l)).

(** ** Scenarios *)

Definition demo_brokers : list string := ["localhost:9092"].
Definition never (_ : Message) : bool := false.

Definition key_is (m : Message) (k : string) : bool := String.eqb (default ""%string (MKey m)) k.

(** *** retriesThenSucceeds *)
Definition retriesThenSucceeds_handler : Handler := fun m =>
  if key_is m "k-1" && (Attempt m <? 3) then Some (text_error "downstream unavailable", "downstream unavailable"%string) else None.

Definition retriesThenSucceeds (topic : string) (batches : list (list Message)) : bool :=
  let cfg := consumerConfig demo_brokers topic "group" "cons" 0 "" (5 * Go.second) in
  let '(evs, res) := start cfg topic retriesThenSucceeds_handler never None batches in
  let total := records_total cfg retriesThenSucceeds_handler never evs in
  (Metric total (topic, "ok"%string) =? 2) && (Metric total (topic, "retried"%string) =? 1) &&
  bool_decide (Attempt <$> filter (fun m => key_is m "k-1" = true) (seen evs) = [1; 2; 3]) &&
  (handler_calls evs =? 5) && bool_decide (publishes evs = []).

(** *** deadLetter *)
Definition deadLetter_handler : Handler := fun m =>
  if key_is m "k-1" then Some (Errors.Node TPermanent [text_error "undecodable payload"], "undecodable payload"%string)
  else if key_is m "k-2" then Some (text_error "still broken", "still broken"%string)
  else None.

Definition deadLetter_ (topic : string) (batches : list (list Message)) : bool :=
  let dlq := (topic ++ ".dlq")%string in
  let cfg := consumerConfig demo_brokers topic "group" "cons" 2 "" (5 * Go.second) in
  let '(evs, res) := start cfg topic deadLetter_handler never None batches in
  let total := records_total cfg deadLetter_handler never evs in
  match publishes evs with
  | [perm; exhausted] =>
      String.eqb (Topic perm) dlq && String.eqb (Topic exhausted) dlq && key_is perm "k-1" && key_is exhausted "k-2" &&
      String.eqb (MValue perm) "v-1" && String.eqb (header perm HeaderEventID) "e-1" &&
      String.eqb (header perm HeaderDLQReason) "permanent" && String.eqb (header perm HeaderDLQError) "undecodable payload" &&
      String.eqb (header perm HeaderDLQSourceTopic) topic && String.eqb (header perm HeaderDLQSourcePartition) "0" &&
      String.eqb (header perm HeaderDLQSourceOffset) "1" && String.eqb (header perm HeaderDLQAttempts) "1" &&
      String.eqb (header exhausted HeaderDLQReason) "retries_exhausted" && String.eqb (header exhausted HeaderDLQAttempts) "3" &&
      String.eqb (header exhausted HeaderDLQSourceOffset) "2"
  | _ => false
  end &&
  bool_decide (Committed_ evs topic = Some 4) &&
  (Metric total (topic, "dead_lettered"%string) =? 2) && (Metric total (topic, "ok"%string) =? 2) &&
  (Metric (KafkaMetrics.s_records (sends evs)) (dlq, "ok"%string) =? 2) &&
  match res with Continue => true | _ => false end.

(** *** dlqDisabled *)
Definition dlqDisabled_handler : Handler := fun m => if key_is m "k-1" then Some (text_error "poison", "poison"%string) else None.

(** The error says so (its text is that of the model's error). *)
Definition ErrorContains (e : error) (s : string) : bool :=
  Errors.matches (fun t => match t with TText x => String.eqb x s | _ => false end) e.

Definition dlqDisabled (topic : string) (batches : list (list Message)) : bool :=
  let cfg := consumerConfig demo_brokers topic "group" "cons" 1 "none" (5 * Go.second) in
  let '(evs, res) := start cfg topic dlqDisabled_handler never None batches in
  match res with
  | Stopped (Some err) => ErrorContains err "failed; dead-letter topic disabled" && ErrorContains err "poison"
  | _ => false
  end &&
  bool_decide ("k-2"%string ∉ keys evs) && bool_decide (Committed_ evs topic = Some 1) &&
  (Metric (records_total cfg dlqDisabled_handler never evs) (topic, "failed"%string) =? 1).

(** *** gracefulShutdown: the drain deadline cuts the batch *)

(** The handler of record 5 only stops when its context ends, with the context's error. *)
Definition drainCut_handler : Handler := fun m =>
  if Offset m =? 5 then Some (Errors.Node TDeadlineExceeded [], "context deadline exceeded"%string) else None.
Definition accepts : Handler := fun _ => None.

Definition from_to (a b : Z) : gmap Z Z := list_to_map ((fun k => (k, 1)) <$> seqZ a (b - a)).

Definition drainCut (topic : string) (batches : list (list Message)) : bool :=
  let cfg := consumerConfig demo_brokers topic "group" "cons" 0 "" (300 * Go.millisecond) in
  let '(evs, res) := start cfg topic drainCut_handler (fun m => Offset m =? 5) None batches in
  let first := offsets (filter (fun m => Offset m <> 5) (seen evs)) in
  match res with Stopped None => true | _ => false end &&
  bool_decide (first = from_to 0 5) && bool_decide (Committed_ evs topic = Some 5) &&
  (let rest := filter (fun m => default 0 (Committed_ evs topic) <= Offset m) (concat batches) in
   for_every_size rest (fun again => bool_decide (offsets (seen (start cfg topic accepts never None again).1) = from_to 5 10))).

(** *** gracefulShutdown: the drain finishes the batch *)

(** The context is cancelled while record 2 is in its handler: the batch is finished, and no
    other is polled. *)
Definition batch_with (k : Z) (batches : list (list Message)) : nat :=
  length (filter (fun b => forallb (fun m => Offset m <? k) b = true) batches).

Definition drainFinish (topic : string) (batches : list (list Message)) : bool :=
  let cfg := consumerConfig demo_brokers topic "group" "cons" 0 "" (5 * Go.second) in
  let '(evs, res) := start cfg topic accepts never (Some (S (batch_with 2 batches))) batches in
  let done := offsets (seen evs) in
  let last := Z.of_nat (size done) - 1 in
  match res with Stopped None => true | _ => false end &&
  bool_decide (is_Some (done !! 2)) && bool_decide (done = from_to 0 (last + 1)) && bool_decide (Committed_ evs topic = Some (last + 1)) &&
  (let rest := filter (fun m => last < Offset m) (concat batches) in
   for_every_size rest (fun again => forallb (fun m => last <? Offset m) (seen (start cfg topic accepts never None again).1) &&
                                     (handler_calls (start cfg topic accepts never None again).1 =? 9 - last))).

(** *** stopsOnCancel *)
Definition stopsOnCancel (topic : string) : bool :=
  let cfg := consumerConfig demo_brokers topic "group" "cons" 0 "" (5 * Go.second) in
  let '(evs, res) := start cfg topic accepts never (Some 1%nat) [[]] in
  match res with Stopped None => true | _ => false end && bool_decide (seen evs = []).

(** *** errorTaxonomy *)

(** What each driver reports for a topic that is missing and for a record that is too large. *)
Definition errorTaxonomy (missing tooLarge : option error) : bool :=
  match missing, tooLarge with
  | Some m, Some t =>
      match as_send_error m with
      | Some (TSendError kind _ _) => existsb (String.eqb kind) [KindNotProvisioned; KindUnavailable]
      | _ => false
      end && negb (Rejected m) && Rejected t
  | _, _ => false
  end.

(** The model of the library meets the expectations of the conformance suite, however the
    records arrive. *)
Theorem suite_passes (rd_number : RdSend.ErrorCode -> Z) (franz_number : FranzSend.kerr -> Z) (is_net : error -> bool) :
  for_every_cut (sendN "retry" 3) (retriesThenSucceeds "retry") = true /\
  for_every_cut (sendN "dlq" 4) (deadLetter_ "dlq") = true /\
  for_every_cut (sendN "poison" 3) (dlqDisabled "poison") = true /\
  for_every_size (sendN "drain-cut" 10) (drainCut "drain-cut") = true /\
  for_every_size (sendN "drain-finish" 10) (drainFinish "drain-finish") = true /\
  stopsOnCancel "idle" = true /\
  errorTaxonomy (RdSend.sendError rd_number (Some (RdSend.Client RdSend.ErrUnknownTopic false)))
    (RdSend.sendError rd_number (Some (RdSend.Client RdSend.ErrMsgSizeTooLarge false))) = true /\
  errorTaxonomy (FranzSend.sendError franz_number is_net (Some (FranzSend.Protocol FranzSend.UnknownTopicOrPartition)))
    (FranzSend.sendError franz_number is_net (Some (FranzSend.Protocol FranzSend.MessageTooLarge))) = true.
Proof. split_and!; vm_compute; reflexivity. Qed.
End Conformance.
