(* ===== verification/Pgx.v ===== *)
(** The PostgreSQL pool (libs/pgx pgx.go, config.go, metrics.go): how a pool is built from
    the configuration, and what a query is counted under. *)
From S2P Require Import Prelude GoStr.

(** * Building the pool *)

Module PgPool.

Record Config := {
  URL : string;
  Host : string;
  Port : Z;
  User : string;
  Password : string;
  PasswordFile : string;
  Name : string;
  SSLMode : string;
  MaxConns : Z;
  MinConns : Z;
  MaxConnLifetime : Z;
  MaxConnIdleTime : Z;
  ConnectTimeout : Z;
  StatementTimeout : Z;
  LockTimeout : Z;
  IdleInTransactionSessionTimeout : Z
}.

(** pgxpool's own configuration, as parsed from the connection string. *)
Record PoolConfig := {
  p_MaxConns : Z;
  p_MinConns : Z;
  p_MaxConnLifetime : Z;
  p_MaxConnIdleTime : Z;
  p_Password : string;
  p_ConnectTimeout : Z;
  p_RuntimeParams : gmap string string
}.

Definition defaultConnectTimeout : Z := 5 * Go.second.

Inductive secret_error := SecretUnreadable | SecretEmpty.

Section Files.
Context (ReadFile : string -> option string).

Definition readSecretFile (path : string) : sum secret_error string :=
  match ReadFile path with
  | None => inl SecretUnreadable
  | Some b => if String.eqb (GoStr.TrimRight_newlines b) "" then inl SecretEmpty else inr (GoStr.TrimRight_newlines b)
  end.

(** [Config.Validate] *)
Definition Validate (c : Config) : option secret_error :=
  if String.eqb (PasswordFile c) "" then None
  else match readSecretFile (PasswordFile c) with inl e => Some e | inr _ => None end.

(** A positive timeout as PostgreSQL takes it: milliseconds, never rounded to zero. *)
Definition param_ms (d : Z) : string := GoStr.Itoa (Z.max (Z.quot d Go.millisecond) 1).

Definition runtimeParams (c : Config) : gmap string string :=
  list_to_map ((fun '(name, d) => (name, param_ms d)) <$>
    filter (fun nd => 0 < nd.2)
      [("statement_timeout", StatementTimeout c); ("lock_timeout", LockTimeout c);
       ("idle_in_transaction_session_timeout", IdleInTransactionSessionTimeout c)]).

(** A positive setting over pgxpool's own. *)
Definition over (set def : Z) : Z := if 0 <? set then set else def.

Definition connect_timeout (c : Config) : Z := if ConnectTimeout c <=? 0 then defaultConnectTimeout else ConnectTimeout c.

Definition pool_config (c : Config) (parsed : PoolConfig) : sum secret_error PoolConfig :=
  match (if String.eqb (PasswordFile c) "" then inr (p_Password parsed) else readSecretFile (PasswordFile c)) with
  | inl e => inl e
  | inr pw =>
      inr {| p_MaxConns := over (MaxConns c) (p_MaxConns parsed);
             p_MinConns := over (MinConns c) (p_MinConns parsed);
             p_MaxConnLifetime := over (MaxConnLifetime c) (p_MaxConnLifetime parsed);
             p_MaxConnIdleTime := over (MaxConnIdleTime c) (p_MaxConnIdleTime parsed);
             p_Password := pw;
             p_ConnectTimeout := connect_timeout c;
             p_RuntimeParams := runtimeParams c ∪ p_RuntimeParams parsed |}
  end.

Inductive new_error := ParseDSN | PasswordFileError (e : secret_error) | BuildPool | InitialPing.

(** What is done to the pool. *)
Inductive pool_event := Built (p : PoolConfig) | Pinged (timeout : Z) | Closed.

(** [New]: the connection string as parsed, whether the pool could be built and whether
    it answers. *)
Definition New (c : Config) (parsed : option PoolConfig) (builds answers : bool) : sum new_error PoolConfig * list pool_event :=
  match parsed with
  | None => (inl ParseDSN, [])
  | Some parsed =>
      match pool_config c parsed with
      | inl e => (inl (PasswordFileError e), [])
      | inr p =>
          if negb builds then (inl BuildPool, [])
          else if answers then (inr p, [Built p; Pinged (connect_timeout c)])
          else (inl InitialPing, [Built p; Pinged (connect_timeout c); Closed])
      end
  end.

(** A pool that is returned answered a ping of positive time limit; one that is not
    returned is closed. A setting of zero leaves pgxpool's own value, a positive session
    timeout reaches the server as a positive number, and the password of a file goes
    over every other. *)
Theorem new_pool_sound (c : Config) (parsed : option PoolConfig) (builds answers : bool) :
  let '(res, evs) := New c parsed builds answers in
  (forall t, Pinged t ∈ evs -> 0 < t) /\
  match res with
  | inr p =>
      evs = [Built p; Pinged (connect_timeout c)] /\
      (PasswordFile c <> "" -> readSecretFile (PasswordFile c) = inr (p_Password p) /\ p_Password p <> "") /\
      exists p0, parsed = Some p0 /\ (MaxConns c = 0 -> p_MaxConns p = p_MaxConns p0) /\
        (MaxConnLifetime c = 0 -> p_MaxConnLifetime p = p_MaxConnLifetime p0) /\
        (0 < StatementTimeout c -> p_RuntimeParams p !! "statement_timeout" = Some (param_ms (StatementTimeout c)))
  | inl e => (exists p, Built p ∈ evs) <-> Closed ∈ evs
  end.
Proof.
  assert (Hct : 0 < connect_timeout c).
  { unfold connect_timeout, defaultConnectTimeout, Go.second. destruct (Z.leb_spec (ConnectTimeout c) 0); lia. }
  unfold New. destruct parsed as [p0|]; [|set_solver].
  destruct (pool_config c p0) as [e|p] eqn:Hp; [set_solver|].
  destruct builds; cbn [negb]; [|set_solver]. destruct answers; [|set_solver].
  split; [set_solver|]. split; [done|]. unfold pool_config in Hp. split.
  - intros Hf%String.eqb_neq. rewrite Hf in Hp. unfold readSecretFile in *. destruct (ReadFile _) as [b|]; [|done].
    destruct (String.eqb_spec (GoStr.TrimRight_newlines b) ""); [done|]. injection Hp as <-. done.
  - exists p0. destruct (if String.eqb (PasswordFile c) "" then _ else _) as [|pw]; [done|]. injection Hp as <-.
    cbn [p_MaxConns p_MaxConnLifetime p_RuntimeParams].
    split_and!; [done|by intros ->|by intros ->|]. intros Hs. apply lookup_union_Some_l.
    unfold runtimeParams. rewrite filter_cons_True by (cbn; lia). cbn [fmap list_fmap list_to_map foldr]. cbn. by rewrite lookup_insert_eq.
Qed.

End Files.

(** A timeout below a millisecond is one millisecond, not "off". *)
Example short_timeout_kept : param_ms (300 * Go.microsecond) = "1".
Proof. vm_compute. reflexivity. Qed.

End PgPool.

(** * What a query is counted under *)

Module PgQuery.
Import GoStr.

Definition knownKeywords : list string :=
  ["select"; "insert"; "update"; "delete"; "with"; "begin"; "commit"; "rollback"; "savepoint"; "release";
   "create"; "alter"; "drop"; "truncate"; "copy"; "set"; "show"; "lock"; "listen"; "notify"; "call"].

(** [strings.TrimLeft(s, " \t\r\n(")] *)
Definition lead_byte (c : Z) : bool := (c =? 32) || (c =? 9) || (c =? 13) || (c =? 10) || (c =? 40).
Fixpoint trim_lead (p : list Z) : list Z :=
  match p with
  | c :: q => if lead_byte c then trim_lead q else p
  | [] => []
  end.

(** What follows the first line break. *)
Fixpoint after_newline (p : list Z) : option (list Z) :=
  match p with
  | [] => None
  | c :: q => if c =? 10 then Some q else after_newline q
  end.

Definition is_comment (p : list Z) : bool := match p with 45 :: 45 :: _ => true | _ => false end.

(** The loop: [Some (Some s)] the statement proper, [Some None] a comment that never
    ends, [None] out of fuel. *)
Fixpoint skip (fuel : nat) (p : list Z) : option (option (list Z)) :=
  match fuel with
  | O => None
  | S fuel =>
      let s := trim_lead p in
      if is_comment s then match after_newline s with Some q => skip fuel q | None => Some None end
      else Some (Some s)
  end.

Definition letter (c : Z) : bool := in_range c 97 122 || in_range c 65 90.
Fixpoint word (p : list Z) : list Z :=
  match p with
  | c :: q => if letter c then c :: word q else []
  | [] => []
  end.

Definition keyword (p : list Z) : string :=
  let kw := of_bytes (lower_byte <$> word p) in
  if bool_decide (kw ∈ knownKeywords) then kw else "other".

Definition statement_keyword (p : list Z) : option string :=
  match skip (S (length p)) p with
  | None => None
  | Some None => Some "other"
  | Some (Some s) => Some (keyword s)
  end.

Lemma trim_lead_length (p : list Z) : (length (trim_lead p) <= length p)%nat.
Proof. induction p as [|c q IH]; cbn; [done|]. destruct (lead_byte c); cbn; lia. Qed.

Lemma after_newline_length (p q : list Z) : after_newline p = Some q -> (length q < length p)%nat.
Proof. induction p as [|c r IH]; cbn; [done|]. destruct (c =? 10); [intros [= <-]; lia|]. intros H%IH. lia. Qed.

(** The fuel is enough, and any that is gives the same. *)
Lemma skip_enough (fuel : nat) (p : list Z) : (length p < fuel)%nat -> skip fuel p = skip (S (length p)) p /\ skip fuel p <> None.
Proof.
  assert (Hmono : forall n m p, (length p < n)%nat -> (length p < m)%nat -> skip n p = skip m p /\ skip n p <> None).
  { intros n. induction n as [|n IH]; intros m q Hn Hm; [lia|]. destruct m as [|m]; [lia|]. cbn.
    destruct (is_comment (trim_lead q)); [|done]. destruct (after_newline (trim_lead q)) as [r|] eqn:Hr; [|done].
    apply after_newline_length in Hr. pose proof (trim_lead_length q). apply IH; lia. }
  intros H. apply Hmono; lia.
Qed.

Definition statementKeyword (sql : string) : string := default "other" (statement_keyword (bytes sql)).

Lemma trim_lead_app (w p : list Z) : Forall (fun c => lead_byte c = true) w -> trim_lead (w ++ p) = trim_lead p.
Proof. induction 1 as [|c w Hc _ IH]; [done|]. cbn. by rewrite Hc. Qed.

Lemma after_newline_app (w p : list Z) : 10 ∉ w -> after_newline (w ++ 10 :: p) = Some p.
Proof.
  induction w as [|c w IH]; intros H; [done|]. cbn. destruct (Z.eqb_spec c 10) as [->|]; [set_solver|]. apply IH. set_solver.
Qed.

Lemma statement_keyword_step (p q : list Z) (H : forall n, exists k, skip (S (k + n)) p = skip (S n) q) : statement_keyword p = statement_keyword q.
Proof.
  unfold statement_keyword. destruct (H (length p + length q)%nat) as [k Hk].
  destruct (skip_enough (S (k + (length p + length q))) p ltac:(lia)) as [<- _].
  destruct (skip_enough (S (length p + length q)) q ltac:(lia)) as [<- _]. by rewrite Hk.
Qed.

(** The label of a query is one of a fixed set whatever its text, and the space,
    parentheses and comments in front of a statement do not change it. *)
Theorem statement_label_bounded (p w c : list Z) :
  (forall sql, statementKeyword sql ∈ "other" :: knownKeywords) /\
  (exists kw, statement_keyword p = Some kw) /\
  (Forall (fun b => lead_byte b = true) w -> statement_keyword (w ++ p) = statement_keyword p) /\
  (10 ∉ c -> statement_keyword (45 :: 45 :: c ++ 10 :: p) = statement_keyword p).
Proof.
  assert (Hk : forall s, keyword s ∈ "other" :: knownKeywords).
  { intros s. unfold keyword. case_bool_decide; [by right|by left]. }
  split_and!.
  - intros sql. unfold statementKeyword, statement_keyword. destruct (skip _ _) as [[s|]|]; cbn; [apply Hk|by left|by left].
  - unfold statement_keyword. destruct (skip_enough (S (length p)) p ltac:(lia)) as [_ H].
    destruct (skip (S (length p)) p) as [[s|]|]; [eauto|eauto|done].
  - intros Hw. apply statement_keyword_step. intros n. exists 0%nat. cbn [skip Nat.add]. by rewrite trim_lead_app.
  - intros Hc. apply statement_keyword_step. intros n. exists 1%nat. cbn [skip Nat.add]. cbn [trim_lead lead_byte].
    change (lead_byte 45) with false. cbn match. cbn [is_comment].
    pose proof (after_newline_app (45 :: 45 :: c) p ltac:(set_solver)) as Ha. cbn [app] in Ha. by rewrite Ha.
Qed.

Example keyword_of_commented_query : statementKeyword "-- list
 (SELECT id FROM tasks)" = "select".
Proof. vm_compute. reflexivity. Qed.

(** ** The query tracer *)

(** What a context carries: the operation's name, and the query under way. *)
Record qctx := { operation : option string; started : option (string * Z) }.

Definition TraceQueryStart (now : Z) (sql : string) (c : qctx) : qctx :=
  let op := default "" (operation c) in
  let op := if String.eqb op "" then statementKeyword sql else op in
  {| operation := operation c; started := Some (op, now) |}.

Inductive qerror := ErrNoRows | OtherError.
#[export] Instance qerror_eq_dec : EqDecision qerror.
Proof. solve_decision. Defined.

(** The histogram's observations and the error counter, by operation. *)
Record queryMetrics := { duration : gmap string (list Z); errors : gmap string Z }.

Definition TraceQueryEnd (now : Z) (err : option qerror) (c : qctx) (m : queryMetrics) : queryMetrics :=
  match started c with
  | None => m
  | Some (op, start) =>
      {| duration := <[op := default [] (duration m !! op) ++ [Go.time_sub now start]]> (duration m);
         errors := match err with
           | Some OtherError => <[op := default 0 (errors m !! op) + 1]> (errors m)
           | _ => errors m
           end |}
  end.

(** A query from start to end. *)
Definition traced (c : qctx) (sql : string) (t0 t1 : Z) (err : option qerror) (m : queryMetrics) : queryMetrics :=
  TraceQueryEnd t1 err (TraceQueryStart t0 sql c) m.

Definition label_of (c : qctx) (sql : string) : string :=
  match operation c with Some op => if String.eqb op "" then statementKeyword sql else op | None => statementKeyword sql end.

(** Every query is observed once, under its label, and counted as failed there exactly
    when it failed with anything but "no rows"; no other label changes. *)
Theorem query_counted_once (c : qctx) (sql : string) (t0 t1 : Z) (err : option qerror) (m : queryMetrics) :
  let m' := traced c sql t0 t1 err m in
  let l := label_of c sql in
  default [] (duration m' !! l) = default [] (duration m !! l) ++ [Go.time_sub t1 t0] /\
  default 0 (errors m' !! l) = default 0 (errors m !! l) + (if decide (err = Some OtherError) then 1 else 0) /\
  (forall l', l' <> l -> duration m' !! l' = duration m !! l' /\ errors m' !! l' = errors m !! l').
Proof.
  assert (Hl : started (TraceQueryStart t0 sql c) = Some (label_of c sql, t0)).
  { unfold TraceQueryStart, label_of. cbn. by destruct (operation c). }
  cbv zeta. unfold traced, TraceQueryEnd. rewrite Hl. cbn [duration errors]. rewrite lookup_insert_eq. split_and!; [done| |].
  - destruct err as [[|]|]; case_decide; rewrite ?lookup_insert_eq, ?Z.add_0_r; done.
  - intros l' Hn. rewrite lookup_insert_ne by done. destruct err as [[|]|]; [done| |done]. by rewrite lookup_insert_ne.
Qed.

End PgQuery.
