(* ===== verification/Migrate.v ===== *)
(** Schema migrations (libs/pgx/migrate.go): which files are migrations and in what
    order, and any number of replicas that migrate one database at the same time,
    over every interleaving of their transactions.

    PostgreSQL is modelled by what its documentation says of the statements used: an
    advisory transaction lock has one holder until its transaction ends, a statement
    after it reads what is committed, and a transaction's writes appear at its commit or
    not at all. *)
From stdpp Require Import sorting.
From S2P Require Import Prelude GoStr.

Module Migrate.
Import GoStr.

(** ** Files *)

Record Migration := { Version : Z; Name : string; File : string; SQL : string }.

#[export] Instance Migration_eq_dec : EqDecision Migration.
Proof. solve_decision. Defined.

(** A directory entry, and what reading the file gives. *)
Record entry := { e_name : string; e_dir : bool; e_body : option string }.

Inductive load_error :=
  | BadName (file : string)
  | BadVersion (file : string)
  | SharedVersion (file1 file2 : string) (v : Z)
  | Unreadable (file : string)
  | NoDirectory.

(** [path.Ext] *)
Fixpoint ext_rev (r acc : list Z) : list Z :=
  match r with
  | [] => []
  | c :: r => if c =? 46 then 46 :: acc else if c =? 47 then [] else ext_rev r (c :: acc)
  end.
Definition Ext (p : list Z) : list Z := ext_rev (rev p) [].

Fixpoint span_digits (p : list Z) : list Z * list Z :=
  match p with
  | [] => ([], [])
  | c :: q => if is_digit c then let '(d, r) := span_digits q in (c :: d, r) else ([], p)
  end.

Definition name_byte (c : Z) : bool := in_range c 97 122 || is_digit c || (c =? 95).

(** The submatches of [^(\d+)_([a-z0-9_]+)\.sql$]. *)
Definition migrationFile (p : list Z) : option (list Z * list Z) :=
  let '(ds, rest) := span_digits p in
  match ds, rest with
  | _ :: _, c :: rest =>
      let k := (length rest - 4)%nat in
      if (c =? 95) && (0 <? k)%nat && forallb name_byte (take k rest) && bool_decide (drop k rest = bytes ".sql")
      then Some (ds, take k rest) else None
  | _, _ => None
  end.

Definition is_sql (e : entry) : bool := negb (e_dir e) && bool_decide (Ext (bytes (e_name e)) = bytes ".sql").

Fixpoint load (es : list entry) (seen : gmap Z string) (out : list Migration) : sum load_error (list Migration) :=
  match es with
  | [] => inr out
  | e :: es =>
      if negb (is_sql e) then load es seen out
      else match migrationFile (bytes (e_name e)) with
      | None => inl (BadName (e_name e))
      | Some (digits, name) =>
          match ParseInt digits with
          | inr _ => inl (BadVersion (e_name e))
          | inl v =>
              match seen !! v with
              | Some prev => inl (SharedVersion prev (e_name e) v)
              | None =>
                  match e_body e with
                  | None => inl (Unreadable (e_name e))
                  | Some body =>
                      load es (<[v := e_name e]> seen)
                        (out ++ [{| Version := v; Name := of_bytes name; File := e_name e; SQL := body |}])
                  end
              end
          end
      end
  end.

Definition version_le (a b : Migration) : Prop := Version a <= Version b.
#[export] Instance version_le_dec : RelDecision version_le.
Proof. intros a b. unfold version_le. apply _. Defined.
#[export] Instance version_le_total : Total version_le.
Proof. intros a b. unfold version_le. lia. Qed.
#[export] Instance version_le_trans : Transitive version_le.
Proof. intros a b c. unfold version_le. lia. Qed.

(** [dir = None]: the directory cannot be read. *)
Definition LoadMigrations (dir : option (list entry)) : sum load_error (list Migration) :=
  match dir with
  | None => inl NoDirectory
  | Some es => match load es ∅ [] with inl e => inl e | inr out => inr (merge_sort version_le out) end
  end.

(** The migration a file holds. *)
Definition reads (e : entry) (m : Migration) : Prop :=
  is_sql e = true /\ exists digits name, migrationFile (bytes (e_name e)) = Some (digits, name) /\
  ParseInt digits = inl (Version m) /\ Name m = of_bytes name /\ File m = e_name e /\ e_body e = Some (SQL m).

Lemma load_spec (es : list entry) (seen : gmap Z string) (out res : list Migration) :
  load es seen out = inr res -> (forall v, is_Some (seen !! v) <-> v ∈ Version <$> out) -> NoDup (Version <$> out) ->
  exists more, res = out ++ more /\ NoDup (Version <$> res) /\
    (forall m, m ∈ more -> exists e, e ∈ es /\ reads e m) /\
    (forall e, e ∈ es -> is_sql e = true -> exists m, m ∈ more /\ reads e m).
Proof.
  revert seen out. induction es as [|e es IH]; intros seen out H Hs Hnd; cbn in H.
  { injection H as <-. exists []. rewrite app_nil_r. split_and!; [done|done|set_solver|set_solver]. }
  destruct (is_sql e) eqn:Hsql; cbn in H.
  - destruct (migrationFile _) as [[digits name]|] eqn:Hm; [|done]. destruct (ParseInt digits) as [v|] eqn:Hv; [|done].
    destruct (seen !! v) eqn:Hseen; [done|]. destruct (e_body e) as [body|] eqn:Hb; [|done].
    set (m := {| Version := v; Name := of_bytes name; File := e_name e; SQL := body |}) in *.
    assert (Hr : reads e m) by (split; [done|]; exists digits, name; done).
    assert (Hv' : v ∉ Version <$> out) by (intros [? Hv']%Hs; congruence).
    destruct (IH _ _ H) as (more & -> & Hnd' & H1 & H2).
    { intros w. rewrite fmap_app, elem_of_app. cbn. rewrite list_elem_of_singleton, lookup_insert_is_Some, <- Hs.
      destruct (decide (v = w)); naive_solver. }
    { rewrite fmap_app. apply NoDup_app. cbn. split_and!; [done| |apply NoDup_singleton]. intros x Hx ->%list_elem_of_singleton. done. }
    exists (m :: more). rewrite <- app_assoc in *. cbn [app] in *. split_and!; [done|done| |].
    + intros x [->|Hx]%elem_of_cons; [exists e; split; [by left|done]|]. destruct (H1 _ Hx) as (e' & ? & ?). exists e'. split; [by right|done].
    + intros e' [->|He']%elem_of_cons He; [exists m; split; [by left|done]|].
      destruct (H2 _ He' He) as (m' & ? & ?). exists m'. split; [by right|done].
  - destruct (IH _ _ H Hs Hnd) as (more & -> & Hnd' & H1 & H2). exists more. split_and!; [done|done| |].
    + intros m Hm. destruct (H1 m Hm) as (e' & ? & ?). exists e'. split; [by right|done].
    + intros e' [->|He']%elem_of_cons He; [congruence|by apply H2].
Qed.

Lemma sorted_versions (ms : list Migration) :
  StronglySorted version_le ms -> NoDup (Version <$> ms) -> StronglySorted Z.lt (Version <$> ms).
Proof.
  induction 1 as [|m ms Hs IH Hall]; cbn; intros Hnd; constructor; apply NoDup_cons in Hnd as [Hm Hnd]; [by apply IH|].
  apply Forall_forall. intros v Hv. rewrite Forall_forall in Hall. apply list_elem_of_fmap in Hv as (x & -> & Hx).
  specialize (Hall x Hx). unfold version_le in Hall. assert (Version x <> Version m); [|lia].
  intros E. apply Hm. rewrite <- E. by apply list_elem_of_fmap_2.
Qed.
(** ** Runners *)

(** Where a run is in [applyOne] of the head of its list: between two migrations, in a
    transaction that waits for the lock, holding it, with the table ensured, with the
    version found missing, with the SQL run, with the row inserted; or over. *)
Inductive phase := PNext | PBegun | PLocked | PEnsured | PMissing | PRan | PRecorded | PFailed | PDone.

(** [past] are the migrations the run is through with, [applied] how many it ran. *)
Record runner := { past : list Migration; todo : list Migration; ph : phase; applied : nat }.

(** [rows] is schema_migrations and [history] the SQL executed, both as committed;
    [holder] has the advisory lock. *)
Record db := { rows : gmap Z string; history : list Migration; holder : option nat; runners : gmap nat runner }.

Definition empty_db : db := {| rows := ∅; history := []; holder := None; runners := ∅ |}.

Inductive event :=
  | EStart (i : nat) (ms : list Migration)   (* a replica boots and calls Migrate *)
  | EBegin (i : nat)
  | ELock (i : nat)
  | EEnsure (i : nat)
  | ECheck (i : nat)
  | EExec (i : nat)
  | ERecord (i : nat)
  | ECommit (i : nat) (reported : bool)      (* reported: the answer reaches the runner *)
  | EFail (i : nat)                          (* a statement fails, or the runner dies *)
  | EReturn (i : nat).                       (* every migration is through: nil *)

Definition set_runner (i : nat) (r : runner) (d : db) : db :=
  {| rows := rows d; history := history d; holder := holder d; runners := <[i := r]> (runners d) |}.
Definition set_phase (i : nat) (r : runner) (p : phase) (d : db) : db :=
  set_runner i {| past := past r; todo := todo r; ph := p; applied := applied r |} d.

(** The transaction ends: its lock is free. *)
Definition end_tx (i : nat) (d : db) : db :=
  {| rows := rows d; history := history d; holder := if bool_decide (holder d = Some i) then None else holder d;
     runners := runners d |}.

(** The runner goes on to its next migration. *)
Definition advance (r : runner) (ran : bool) : runner :=
  {| past := past r ++ match todo r with m :: _ => [m] | [] => [] end; todo := tail (todo r); ph := PNext; applied := if ran then S (applied r) else applied r |}.

(** What a commit makes visible. *)
Definition commit (m : Migration) (d : db) : db :=
  {| rows := <[Version m := Name m]> (rows d); history := history d ++ [m]; holder := holder d; runners := runners d |}.

Definition runner_step (i : nat) (ev : event) (r : runner) (d : db) : option db :=
  match ev, ph r, todo r with
  | EBegin _, PNext, _ :: _ => Some (set_phase i r PBegun d)
  | ELock _, PBegun, _ =>
      match holder d with
      | None => Some (set_phase i r PLocked {| rows := rows d; history := history d; holder := Some i; runners := runners d |})
      | Some _ => None
      end
  | EEnsure _, PLocked, _ => Some (set_phase i r PEnsured d)
  | ECheck _, PEnsured, m :: _ =>
      match rows d !! Version m with
      | Some _ => Some (set_runner i (advance r false) (end_tx i d))
      | None => Some (set_phase i r PMissing d)
      end
  | EExec _, PMissing, _ => Some (set_phase i r PRan d)
  | ERecord _, PRan, _ => Some (set_phase i r PRecorded d)
  | ECommit _ reported, PRecorded, m :: _ =>
      let d := end_tx i (commit m d) in
      if reported then Some (set_runner i (advance r true) d) else Some (set_phase i r PFailed d)
  | EFail _, (PNext | PBegun | PLocked | PEnsured | PMissing | PRan | PRecorded), _ =>
      Some (set_phase i r PFailed (end_tx i d))
  | EReturn _, PNext, [] => Some (set_phase i r PDone d)
  | _, _, _ => None
  end.

Definition runner_of (ev : event) : nat :=
  match ev with
  | EStart i _ | EBegin i | ELock i | EEnsure i | ECheck i | EExec i | ERecord i | ECommit i _ | EFail i | EReturn i => i
  end.

Definition step (ev : event) (d : db) : option db :=
  match ev with
  | EStart i ms =>
      match runners d !! i with
      | Some _ => None
      | None => Some (set_runner i {| past := []; todo := ms; ph := PNext; applied := 0 |} d)
      end
  | _ => r ← runners d !! runner_of ev; runner_step (runner_of ev) ev r d
  end.

Fixpoint run (evs : list event) (d : db) : option db :=
  match evs with
  | [] => Some d
  | ev :: evs => d ← step ev d; run evs d
  end.

(** ** The invariant *)

Section Schema.
(** The migrations there are, in order; a replica of an older release has the first
    few of them. *)
Context (all : list Migration) (Hall : NoDup (Version <$> all)).

Definition holds_lock (p : phase) : bool :=
  match p with PLocked | PEnsured | PMissing | PRan | PRecorded => true | _ => false end.
Definition found_missing (p : phase) : bool := match p with PMissing | PRan | PRecorded => true | _ => false end.
Definition in_tx (p : phase) : bool := match p with PBegun => true | p => holds_lock p end.

Record runner_inv (d : db) (i : nat) (r : runner) : Prop := {
  ri_prefix : past r ++ todo r `prefix_of` all;
  ri_past : (length (past r) <= length (history d))%nat;
  ri_lock : holds_lock (ph r) = true <-> holder d = Some i;
  ri_tx : in_tx (ph r) = true -> todo r <> [];
  ri_missing : found_missing (ph r) = true -> length (past r) = length (history d);
  ri_done : ph r = PDone -> todo r = []
}.

Definition rows_of (l : list Migration) : gmap Z string := list_to_map ((fun m => (Version m, Name m)) <$> l).

Record inv (d : db) : Prop := {
  inv_history : history d `prefix_of` all;
  inv_rows : rows d = rows_of (history d);
  inv_holder : forall i, holder d = Some i -> is_Some (runners d !! i);
  inv_runners : forall i r, runners d !! i = Some r -> runner_inv d i r
}.

Lemma rows_of_lookup (l : list Migration) (v : Z) : is_Some (rows_of l !! v) <-> v ∈ Version <$> l.
Proof.
  unfold rows_of. induction l as [|m l IH]; cbn.
  - rewrite lookup_empty. split; [by intros [? ?]|]. intros H. by apply not_elem_of_nil in H.
  - rewrite lookup_insert_is_Some, elem_of_cons, IH. destruct (decide (Version m = v)); naive_solver.
Qed.

(** Two migrations of one version are at one place. *)
Lemma version_place (j k : nat) (m n : Migration) :
  all !! j = Some m -> all !! k = Some n -> Version m = Version n -> j = k.
Proof.
  intros Hj Hk Hv. eapply (NoDup_lookup _ _ _ _ Hall); rewrite list_lookup_fmap; [by rewrite Hj|by rewrite Hk, Hv].
Qed.

(** The head of a run's list, against what is recorded. *)
Lemma head_recorded (d : db) (i : nat) (r : runner) (m : Migration) (rest : list Migration) :
  inv d -> runner_inv d i r -> todo r = m :: rest ->
  all !! length (past r) = Some m /\
  (rows d !! Version m = None -> length (past r) = length (history d)) /\
  (is_Some (rows d !! Version m) -> (length (past r) < length (history d))%nat).
Proof.
  intros Hd Hr Ht. destruct (inv_history d Hd) as [h Hh]. destruct (ri_prefix _ _ _ Hr) as [t Hp]. rewrite Ht in Hp.
  assert (Hm : all !! length (past r) = Some m).
  { rewrite Hp, <- app_assoc. cbn. by rewrite lookup_app_r, Nat.sub_diag. }
  pose proof (ri_past _ _ _ Hr) as Hle. rewrite (inv_rows d Hd). split_and!; [done| |].
  - intros Hn. destruct (decide (length (past r) = length (history d))) as [|Hne]; [done|]. exfalso.
    assert (Hin : history d !! length (past r) = Some m) by (rewrite <- Hm, Hh, lookup_app_l; [done|lia]).
    apply eq_None_not_Some in Hn. apply Hn, rows_of_lookup, list_elem_of_fmap_2. by eapply list_elem_of_lookup_2.
  - intros (x & Hx & Hin)%rows_of_lookup%list_elem_of_fmap. apply list_elem_of_lookup_1 in Hin as [k Hk].
    pose proof (lookup_lt_Some _ _ _ Hk). rewrite (version_place (length (past r)) k m x); [done|done| |done].
    rewrite Hh, lookup_app_l; done.
Qed.
(** A step of one run: what the others rely on stays. *)
Lemma inv_one_runner (d d' : db) (i : nat) (r' : runner) :
  inv d -> runners d' = <[i := r']> (runners d) ->
  (history d' = history d \/ holder d = Some i /\ history d `prefix_of` history d') ->
  history d' `prefix_of` all -> rows d' = rows_of (history d') ->
  (forall j, j <> i -> holder d' = Some j <-> holder d = Some j) ->
  runner_inv d' i r' -> inv d'.
Proof.
  intros Hd Hrun Hh Hpre Hrows Hlock Hi. split; [done|done| |].
  - intros j Hj. rewrite Hrun. destruct (decide (i = j)) as [->|Hn]; [rewrite lookup_insert_eq; eauto|].
    rewrite lookup_insert_ne by done. apply (inv_holder d Hd). by apply Hlock.
  - intros j r Hj. rewrite Hrun in Hj. apply lookup_insert_Some in Hj as [[<- <-]|[Hn Hj]]; [done|].
    destruct (inv_runners d Hd j r Hj) as [H1 H2 H3 H4 H5 H6].
    assert (Hlen : (length (history d) <= length (history d'))%nat).
    { destruct Hh as [->|[_ ?]]; [done|by apply prefix_length]. }
    split; [done|lia|rewrite (Hlock j) by done; done|done| |done].
    intros Hf. destruct Hh as [->|[Hhold _]]; [by apply H5|]. exfalso.
    assert (holder d = Some j) by (apply H3; by destruct (ph r)). congruence.
Qed.

Lemma end_tx_holder (i j : nat) (d : db) : holder (end_tx i d) = Some j <-> holder d = Some j /\ j <> i.
Proof. cbn. case_bool_decide; naive_solver. Qed.

(** A run that moves within its transaction. *)
Lemma inv_phase (d : db) (i : nat) (r : runner) (p : phase) :
  inv d -> runners d !! i = Some r ->
  holds_lock p = holds_lock (ph r) -> (in_tx p = true -> todo r <> []) ->
  (found_missing p = true -> length (past r) = length (history d)) -> (p = PDone -> todo r = []) ->
  inv (set_phase i r p d).
Proof.
  intros Hd Hr Hl Ht Hm Hdn. pose proof (inv_runners d Hd i r Hr) as [H1 H2 H3 H4 H5 H6].
  eapply inv_one_runner; [exact Hd|reflexivity|by left|apply Hd|apply Hd|done|].
  split; cbn; [done|done|by rewrite Hl|done|done|done].
Qed.

Lemma inv_fail (d : db) (i : nat) (r : runner) : inv d -> runners d !! i = Some r -> inv (set_phase i r PFailed (end_tx i d)).
Proof.
  intros Hd Hr. pose proof (inv_runners d Hd i r Hr) as [H1 H2 H3 H4 H5 H6].
  eapply inv_one_runner; [exact Hd|reflexivity|by left|apply Hd|apply Hd| |].
  - intros j Hj. cbn [set_phase set_runner holder]. rewrite end_tx_holder. naive_solver.
  - split; cbn [set_phase set_runner ph past todo history holder]; try done. rewrite end_tx_holder. naive_solver.
Qed.

(** The prefix a run goes through, one migration on. *)
Lemma advance_prefix (r : runner) (ran : bool) : past (advance r ran) ++ todo (advance r ran) = past r ++ todo r.
Proof. unfold advance. cbn. rewrite <- app_assoc. by destruct (todo r). Qed.

Lemma inv_skip (d : db) (i : nat) (r : runner) (m : Migration) (rest : list Migration) :
  inv d -> runners d !! i = Some r -> todo r = m :: rest -> is_Some (rows d !! Version m) ->
  inv (set_runner i (advance r false) (end_tx i d)).
Proof.
  intros Hd Hr Ht Hin. pose proof (inv_runners d Hd i r Hr) as Hri.
  destruct (head_recorded d i r m rest Hd Hri Ht) as (_ & _ & Hlt). specialize (Hlt Hin). destruct Hri as [H1 H2 H3 H4 H5 H6].
  eapply inv_one_runner; [exact Hd|reflexivity|by left|apply Hd|apply Hd| |].
  - intros j Hj. cbn [set_runner holder]. rewrite end_tx_holder. naive_solver.
  - split; cbn [set_runner history holder]; try done.
    + by rewrite advance_prefix.
    + unfold advance. cbn. rewrite Ht, length_app. cbn. lia.
    + rewrite end_tx_holder. unfold advance. cbn. naive_solver.
Qed.

Lemma rows_of_snoc (l : list Migration) (m : Migration) :
  Version m ∉ Version <$> l -> rows_of (l ++ [m]) = <[Version m := Name m]> (rows_of l).
Proof.
  intros H. unfold rows_of. rewrite fmap_app. cbn. rewrite list_to_map_snoc; [done|].
  rewrite <- list_fmap_compose. done.
Qed.

(** A commit extends the history by the next migration of all. *)
Lemma inv_commit (d : db) (i : nat) (r r' : runner) (m : Migration) (rest : list Migration) :
  inv d -> runners d !! i = Some r -> ph r = PRecorded -> todo r = m :: rest ->
  r' = advance r true \/ r' = {| past := past r; todo := todo r; ph := PFailed; applied := applied r |} ->
  inv (set_runner i r' (end_tx i (commit m d))).
Proof.
  intros Hd Hr Hp Ht Hr'. pose proof (inv_runners d Hd i r Hr) as Hri.
  destruct (head_recorded d i r m rest Hd Hri Ht) as (Hm & _ & Hlt). destruct Hri as [H1 H2 H3 H4 H5 H6].
  rewrite Hp in *. specialize (H5 eq_refl). assert (Hlock : holder d = Some i) by (by apply H3).
  assert (Hnew : Version m ∉ Version <$> history d).
  { intros Hin. rewrite <- rows_of_lookup, <- (inv_rows d Hd) in Hin. specialize (Hlt Hin). lia. }
  destruct (inv_history d Hd) as [h Hh].
  eapply inv_one_runner; [exact Hd|reflexivity|right; split; [done|by apply prefix_app_r]| | | |].
  - cbn. rewrite H5, Hh, lookup_app_r, Nat.sub_diag in Hm by done. destruct h as [|x h]; [done|]. injection Hm as ->.
    rewrite Hh. apply prefix_app, prefix_cons, prefix_nil.
  - cbn [set_runner end_tx commit rows history]. by rewrite (inv_rows d Hd), rows_of_snoc.
  - intros j Hj. cbn [set_runner holder]. rewrite end_tx_holder. cbn. naive_solver.
  - assert (Hfree : holder (end_tx i (commit m d)) = None) by (cbn; by rewrite bool_decide_eq_true_2).
    split; cbn [set_runner history holder]; rewrite ?Hfree; destruct Hr' as [->| ->]; try done.
    + by rewrite advance_prefix.
    + unfold advance. cbn. rewrite Ht, !length_app. cbn. lia.
    + cbn. rewrite length_app. cbn. lia.
Qed.

Lemma inv_lock (d : db) (i : nat) (r : runner) :
  inv d -> runners d !! i = Some r -> ph r = PBegun -> holder d = None ->
  inv (set_phase i r PLocked {| rows := rows d; history := history d; holder := Some i; runners := runners d |}).
Proof.
  intros Hd Hr Hp Hh. pose proof (inv_runners d Hd i r Hr) as [H1 H2 H3 H4 H5 H6]. rewrite Hp in *.
  eapply inv_one_runner; [exact Hd|reflexivity|by left|apply Hd|apply Hd| |].
  - intros j Hj. cbn. rewrite Hh. naive_solver.
  - split; cbn; try done.
Qed.
Definition starts_ok (ev : event) : Prop := match ev with EStart _ ms => ms `prefix_of` all | _ => True end.

Lemma runner_step_inv (i : nat) (ev : event) (r : runner) (d d' : db) :
  runner_step i ev r d = Some d' -> runners d !! i = Some r -> inv d -> inv d'.
Proof.
  intros Hs Hr Hd. pose proof (inv_runners d Hd _ r Hr) as Hri. pose proof Hri as [_ _ _ H4 H5 _].
  destruct ev, (ph r) eqn:Hp; cbn in Hs; try rewrite Hp in Hs; try done; destruct (todo r) as [|m rest] eqn:Ht; try done.
  all: try (injection Hs as <-; first [by apply inv_fail | apply inv_phase; rewrite ?Hp, ?Ht; first [done|by auto]]).
  all: try by specialize (H4 eq_refl).
  - destruct (holder d) eqn:Hh; [done|]. injection Hs as <-. by apply inv_lock.
  - destruct (rows d !! Version m) eqn:Hv; injection Hs as <-; [by eapply inv_skip|].
    destruct (head_recorded d i r m rest Hd Hri Ht) as (_ & Hm & _). apply inv_phase; rewrite ?Hp, ?Ht; first [done|by auto].
  - destruct reported; injection Hs as <-; eapply inv_commit; eauto.
Qed.

Lemma migrate_step_inv (ev : event) (d d' : db) : step ev d = Some d' -> starts_ok ev -> inv d -> inv d'.
Proof.
  intros Hs Hok Hd. destruct ev as [i ms|i|i|i|i|i|i|i rep|i|i]; cbn [step] in Hs.
  2-10: apply bind_Some in Hs as (r & Hr & Hs); by eapply runner_step_inv.
  destruct (runners d !! i) eqn:Hr; [done|]. injection Hs as <-.
  eapply inv_one_runner; [exact Hd|reflexivity|by left|apply Hd|apply Hd|done|].
  split; cbn; try done; [lia|]. split; [done|]. intros [? Hx]%(inv_holder d Hd). congruence.
Qed.

Lemma migrate_run_inv (evs : list event) (d d' : db) : run evs d = Some d' -> Forall starts_ok evs -> inv d -> inv d'.
Proof.
  revert d. induction evs as [|ev evs IH]; intros d Hr Hok Hd; [by injection Hr as <-|].
  apply bind_Some in Hr as (d1 & H1 & Hr). apply Forall_cons in Hok as [Ho Hok]. eauto using migrate_step_inv.
Qed.

Lemma empty_db_inv : inv empty_db.
Proof. split; cbn; [apply prefix_nil|done|done|]. intros i r H. by rewrite lookup_empty in H. Qed.

(** ** Theorems *)

(** C11: however many replicas migrate one database at the same time, with the full set
    of migrations or the set of an older release, and whatever fails or dies on the
    way: what was executed is always a prefix of the migrations in order, each exactly
    once, and schema_migrations records exactly those; one transaction at a time is
    past the lock; and a run that returned nil left all of its migrations executed. *)
Theorem migrations_once_in_order (evs : list event) (d : db) (Hr : run evs empty_db = Some d) (Hs : Forall starts_ok evs) :
  history d `prefix_of` all /\ NoDup (history d) /\ rows d = rows_of (history d) /\
  (forall i j ri rj, runners d !! i = Some ri -> runners d !! j = Some rj ->
     holds_lock (ph ri) = true -> holds_lock (ph rj) = true -> i = j) /\
  (forall i r, runners d !! i = Some r -> ph r = PDone -> past r `prefix_of` history d /\ todo r = []).
Proof.
  apply migrate_run_inv in Hr; [|done|apply empty_db_inv]. pose proof Hr as [H1 H2 H3 H4]. split_and!; [done| |done| |].
  - apply (NoDup_fmap_1 Version). destruct H1 as [h Hh]. rewrite Hh, fmap_app in Hall. by apply NoDup_app in Hall as [? _].
  - intros i j ri rj Hi Hj Li Lj. apply (ri_lock _ _ _ (H4 i ri Hi)) in Li. apply (ri_lock _ _ _ (H4 j rj Hj)) in Lj. congruence.
  - intros i r Hi Hp. destruct (H4 i r Hi) as [P1 P2 _ _ _ P6]. split; [|by apply P6].
    rewrite (P6 Hp), app_nil_r in P1. destruct P1 as [k1 E1], H1 as [k2 E2].
    destruct (prefix_weak_total (past r) (history d) all) as [?|Hpre]; [by eexists|by eexists|done|].
    apply prefix_length_eq in Hpre; [|lia]. by rewrite Hpre.
Qed.
End Schema.

(** ** A run alone *)

(** The steps of [applyOne] that all succeed. *)
Definition one_migration (i : nat) (m : Migration) (d : db) : list event :=
  [EBegin i; ELock i; EEnsure i; ECheck i] ++
  match rows d !! Version m with Some _ => [] | None => [EExec i; ERecord i; ECommit i true] end.

Lemma one_migration_runs (i : nat) (m : Migration) (rest : list Migration) (r : runner) (d : db) :
  runners d !! i = Some r -> ph r = PNext -> todo r = m :: rest -> holder d = None ->
  exists d' r', run (one_migration i m d) d = Some d' /\ runners d' !! i = Some r' /\ ph r' = PNext /\ todo r' = rest /\ holder d' = None.
Proof.
  intros Hr Hp Ht Hh. unfold one_migration. cbn -[lookup insert bool_decide].
  rewrite Hr. cbn -[lookup insert bool_decide]. rewrite Hp, Ht. cbn -[lookup insert bool_decide].
  repeat (rewrite lookup_insert_eq; cbn -[lookup insert bool_decide]; rewrite ?Hh, ?Ht; cbn -[lookup insert bool_decide]).
  destruct (rows d !! Version m) as [n|]; cbn -[lookup insert bool_decide].
  2: repeat (rewrite lookup_insert_eq; cbn -[lookup insert bool_decide]; rewrite ?Hh, ?Ht; cbn -[lookup insert bool_decide]).
  all: (eexists _, _; split; [reflexivity|]); cbn -[lookup insert bool_decide].
  all: rewrite lookup_insert_eq, bool_decide_eq_true_2 by done; done.
Qed.

Lemma migrate_run_app (evs evs' : list event) (d d' : db) : run evs d = Some d' -> run (evs ++ evs') d = run evs' d'.
Proof.
  revert d. induction evs as [|ev evs IH]; intros d H; [by injection H as <-|]. apply bind_Some in H as (d1 & H1 & H). cbn.
  rewrite H1. by apply IH.
Qed.

(** A run that no one disturbs and nothing fails goes through its whole list and
    returns nil. *)
Lemma migrate_alone_returns (i : nat) (r : runner) (d : db) :
  runners d !! i = Some r -> ph r = PNext -> holder d = None ->
  exists evs d' r', run evs d = Some d' /\ runners d' !! i = Some r' /\ ph r' = PDone.
Proof.
  remember (todo r) as ms eqn:Ht. revert r d Ht. induction ms as [|m ms IH]; intros r d Ht Hr Hp Hh.
  - exists [EReturn i]. cbn -[lookup insert bool_decide]. rewrite Hr. cbn -[lookup insert bool_decide]. rewrite Hp, <- Ht. cbn -[lookup insert bool_decide].
    eexists _, _. split; [reflexivity|]. cbn -[lookup insert bool_decide]. by rewrite lookup_insert_eq.
  - destruct (one_migration_runs i m ms r d Hr Hp (eq_sym Ht) Hh) as (d1 & r1 & H1 & Hr1 & Hp1 & Ht1 & Hh1).
    destruct (IH r1 d1 (eq_sym Ht1) Hr1 Hp1 Hh1) as (evs & d' & r' & H2 & H3 & H4).
    exists (one_migration i m d ++ evs), d', r'. by rewrite (migrate_run_app _ _ _ _ H1).
Qed.

(** ** What is loaded *)

(** What is loaded is every .sql file of the directory and nothing else, in
    strictly increasing order of version: a file that is misnamed, whose version does
    not fit or is taken, or that cannot be read is an error. *)
Theorem load_migrations_complete (es : list entry) (ms : list Migration) (H : LoadMigrations (Some es) = inr ms) :
  StronglySorted Z.lt (Version <$> ms) /\
  (forall m, m ∈ ms -> exists e, e ∈ es /\ reads e m) /\
  (forall e, e ∈ es -> is_sql e = true -> exists m, m ∈ ms /\ reads e m).
Proof.
  cbn in H. destruct (load es ∅ []) as [|out] eqn:Hl; [done|]. injection H as <-.
  apply load_spec in Hl as (more & -> & Hnd & H1 & H2); [|intros v; rewrite lookup_empty; cbn; split; [by intros [? ?]|set_solver]|constructor].
  assert (Hp : merge_sort version_le more ≡ₚ more) by apply merge_sort_Permutation. cbn [app] in *. split_and!.
  - apply sorted_versions; [|by rewrite Hp]. apply (StronglySorted_merge_sort version_le).
  - intros m Hm. apply H1. by rewrite Hp in Hm.
  - intros e He Hs. destruct (H2 e He Hs) as (m & Hm & Hr). exists m. by rewrite Hp.
Qed.

Definition demo_dir : list entry :=
  [{| e_name := "010_index.sql"; e_dir := false; e_body := Some "CREATE INDEX" |};
   {| e_name := "1_init.sql"; e_dir := false; e_body := Some "CREATE TABLE" |};
   {| e_name := "README.md"; e_dir := false; e_body := Some "" |};
   {| e_name := "old"; e_dir := true; e_body := None |}].
Definition demo_migrations : list Migration :=
  Eval vm_compute in match LoadMigrations (Some demo_dir) with inr ms => ms | inl _ => [] end.

Lemma load_migrations_complete_witness : LoadMigrations (Some demo_dir) = inr demo_migrations /\ StronglySorted Z.lt [1; 10].
Proof.
  assert (H : LoadMigrations (Some demo_dir) = inr demo_migrations) by (vm_compute; reflexivity).
  split; [exact H|]. exact (proj1 (load_migrations_complete demo_dir demo_migrations H)).
Defined.

Example misnamed_migration :
  LoadMigrations (Some [{| e_name := "2-typo.sql"; e_dir := false; e_body := Some "" |}]) = inl (BadName "2-typo.sql").
Proof. vm_compute. reflexivity. Qed.
Example shared_version :
  LoadMigrations (Some [{| e_name := "01_a.sql"; e_dir := false; e_body := Some "" |}; {| e_name := "1_b.sql"; e_dir := false; e_body := Some "" |}])
  = inl (SharedVersion "01_a.sql" "1_b.sql" 1).
Proof. vm_compute. reflexivity. Qed.

(** Two replicas boot together; one dies after a commit whose answer was lost. *)
Definition demo_boot : list event :=
  [EStart 1 demo_migrations; EStart 2 demo_migrations; EBegin 1; EBegin 2; ELock 1; EEnsure 1; ECheck 1; EExec 1; ERecord 1;
   ECommit 1 false; ELock 2; EEnsure 2; ECheck 2; EBegin 2; ELock 2; EEnsure 2; ECheck 2; EExec 2; ERecord 2; ECommit 2 true; EReturn 2].
Definition demo_migrated : db := Eval vm_compute in default empty_db (run demo_boot empty_db).

Lemma migrations_once_in_order_witness :
  run demo_boot empty_db = Some demo_migrated /\ history demo_migrated = demo_migrations /\ NoDup (history demo_migrated).
Proof.
  assert (H : run demo_boot empty_db = Some demo_migrated) by (vm_compute; reflexivity).
  split; [exact H|]. split; [reflexivity|].
  refine (proj1 (proj2 (migrations_once_in_order demo_migrations _ demo_boot demo_migrated H _))).
  - apply (bool_decide_unpack _). vm_compute. exact I.
  - repeat constructor; exists []; reflexivity.
Defined.
End Migrate.
