(* ===== verification/Domain.v ===== *)
(** The tasks service's model and rules (services/tasks/internal/domain):
    tasks, patches, title normalization and the pagination cursor. *)
From S2P Require Import Prelude GoStr.

Module Domain.
Import GoStr.

(** ** Tasks *)

Record Task := {
  ID : string;
  Title : string;
  Done : bool;
  Version : Z;
  CreatedAt : Z
}.

#[export] Instance Task_eq_dec : EqDecision Task.
Proof. solve_decision. Defined.

Record IdempotencyKey := { Key : string; Hash : string }.

Record Patch := { PTitle : option string; PDone : option bool }.

Inductive derror :=
| ErrNotFound
| ErrVersionMismatch
| ErrIdempotencyKeyReused
| ErrInvalidTitle (why : string)
| ErrEmptyPatch
| ErrInvalidCursor.

(** ** NormalizeTitle *)

Definition MaxTitleRunes : Z := 200.

(** The loop over the runes of the trimmed title. *)
Fixpoint check_runes (rs : list (Z * nat)) : option derror :=
  match rs with
  | [] => None
  | (r, _) :: rs =>
      if r =? 0 then Some (ErrInvalidTitle "must not contain NUL")
      else if (r <? 0x20) && negb (r =? 9) || (r =? 0x7f)
      then Some (ErrInvalidTitle "must not contain control characters")
      else check_runes rs
  end.

Definition NormalizeTitle (title : string) : string + derror :=
  let t := TrimSpace title in
  let p := bytes t in
  if String.eqb t "" then inr (ErrInvalidTitle "must not be empty or blank")
  else if negb (Valid p) then inr (ErrInvalidTitle "must be valid UTF-8")
  else if MaxTitleRunes <? RuneCount p then inr (ErrInvalidTitle "must be at most 200 characters")
  else match check_runes (runes p) with
       | Some e => inr e
       | None => inl t
       end.

Definition Normalize (p : Patch) : Patch + derror :=
  match PTitle p, PDone p with
  | None, None => inr ErrEmptyPatch
  | Some title, _ =>
      match NormalizeTitle title with
      | inr e => inr e
      | inl t => inl {| PTitle := Some t; PDone := PDone p |}
      end
  | None, _ => inl p
  end.

Definition Apply (p : Patch) (t : Task) : Task :=
  {| ID := ID t;
     Title := match PTitle p with Some x => x | None => Title t end;
     Done := match PDone p with Some x => x | None => Done t end;
     Version := Version t; CreatedAt := CreatedAt t |}.

(** ** base64.RawURLEncoding *)

(** The character of a 6-bit value, and back. *)
Definition b64char (v : Z) : Z :=
  if v <? 26 then v + 65 else if v <? 52 then v + 71 else if v <? 62 then v - 4
  else if v =? 62 then 45 else 95.

Definition b64val (c : Z) : option Z :=
  if in_range c 65 90 then Some (c - 65)
  else if in_range c 97 122 then Some (c - 71)
  else if in_range c 48 57 then Some (c + 4)
  else if c =? 45 then Some 62
  else if c =? 95 then Some 63
  else None.

Fixpoint b64encode (p : list Z) : list Z :=
  match p with
  | [] => []
  | [a] => [b64char (a / 4); b64char (a mod 4 * 16)]
  | [a; b] => [b64char (a / 4); b64char (a mod 4 * 16 + b / 16); b64char (b mod 16 * 4)]
  | a :: b :: c :: p =>
      b64char (a / 4) :: b64char (a mod 4 * 16 + b / 16) ::
      b64char (b mod 16 * 4 + c / 64) :: b64char (c mod 64) :: b64encode p
  end.

(** Decoding of 6-bit values; one left over is corrupt input. *)
Fixpoint b64bytes (vs : list Z) : option (list Z) :=
  match vs with
  | [] => Some []
  | [_] => None
  | [u; v] => Some [u * 4 + v / 16]
  | [u; v; w] => Some [u * 4 + v / 16; v mod 16 * 16 + w / 4]
  | u :: v :: w :: x :: vs =>
      rest ← b64bytes vs;
      Some (u * 4 + v / 16 :: v mod 16 * 16 + w / 4 :: w mod 4 * 64 + x :: rest)
  end.

(** [DecodeString]: newlines are ignored. *)
Definition b64decode (s : list Z) : option (list Z) :=
  vs ← mapM b64val (filter (fun c => c <> 10 /\ c <> 13) s);
  b64bytes vs.

(** ** Cursor *)

Definition DefaultPageSize : Z := 50.
Definition MaxPageSize : Z := 200.

Record Cursor := { CCreatedAt : Z; CID : string }.

Definition CursorAfter (t : Task) : Cursor := {| CCreatedAt := CreatedAt t; CID := ID t |}.

Record cursorWire := { T : string; I : string }.

Section CursorCodec.
(** The JSON document of a [cursorWire], and the RFC 3339 form of an instant in
    UTC. *)
Context (Marshal : cursorWire -> string) (Unmarshal : string -> option cursorWire).
Context (Format : Z -> string) (Parse : string -> option Z).

Definition Encode (c : Cursor) : string :=
  of_bytes (b64encode (bytes (Marshal {| T := Format (CCreatedAt c); I := CID c |}))).

Definition DecodeCursor (s : string) : Cursor + derror :=
  match b64decode (bytes s) with
  | None => inr ErrInvalidCursor
  | Some b =>
      match Unmarshal (of_bytes b) with
      | None => inr ErrInvalidCursor
      | Some w =>
          match Parse (T w) with
          | None => inr ErrInvalidCursor
          | Some t => if String.eqb (I w) "" then inr ErrInvalidCursor
                      else inl {| CCreatedAt := t; CID := I w |}
          end
      end
  end.
End CursorCodec.

Record PageRequest := { Limit : Z; RCursor : option Cursor }.
Record Page := { Tasks : list Task; Next : option Cursor }.

(** ** base64 round trip *)

Lemma b64val_char (v : Z) : 0 <= v < 64 -> b64val (b64char v) = Some v.
Proof.
  intros H. assert (Hall : Forall (fun v => b64val (b64char v) = Some v) (seqZ 0 64))
    by (vm_compute; repeat constructor).
  rewrite Forall_forall in Hall. apply Hall, elem_of_seqZ. lia.
Qed.

Lemma b64char_plain (v : Z) : 0 <= v < 64 -> b64char v <> 10 /\ b64char v <> 13.
Proof. intros H. unfold b64char. split_ifs; lia. Qed.

Lemma b64char_byte (v : Z) : 0 <= v < 64 -> is_byte (b64char v).
Proof. intros H. unfold b64char, is_byte. split_ifs; lia. Qed.

(** The 6-bit values of a byte string. *)
Fixpoint b64values (p : list Z) : list Z :=
  match p with
  | [] => []
  | [a] => [a / 4; a mod 4 * 16]
  | [a; b] => [a / 4; a mod 4 * 16 + b / 16; b mod 16 * 4]
  | a :: b :: c :: p => a / 4 :: a mod 4 * 16 + b / 16 :: b mod 16 * 4 + c / 64 :: c mod 64 :: b64values p
  end.

Lemma list_ind3 {A} (P : list A -> Prop) :
  P [] -> (forall a, P [a]) -> (forall a b, P [a; b]) ->
  (forall a b c l, P l -> P (a :: b :: c :: l)) -> forall l, P l.
Proof.
  intros H0 H1 H2 H3. fix IH 1. intros [|a [|b [|c l]]]; [done|apply H1|apply H2|apply H3, IH].
Qed.

Lemma b64encode_values (p : list Z) : b64encode p = b64char <$> b64values p.
Proof. induction p as [|a|a b|a b c l IH] using list_ind3; cbn; [done..|]. by rewrite IH. Qed.

Lemma b64values_range (p : list Z) : Forall is_byte p -> Forall (fun v => 0 <= v < 64) (b64values p).
Proof.
  induction p as [|a|a b|a b c l IH] using list_ind3; intros H; cbn;
    repeat match goal with Hx : Forall is_byte (_ :: _) |- _ => inversion_clear Hx end;
    unfold is_byte in *; repeat constructor; try (Z.to_euclidean_division_equations; lia).
  by apply IH.
Qed.

Lemma b64bytes_values (p : list Z) : Forall is_byte p -> b64bytes (b64values p) = Some p.
Proof.
  induction p as [|a|a b|a b c l IH] using list_ind3; intros H; cbn [b64values b64bytes];
    repeat match goal with Hx : Forall is_byte (_ :: _) |- _ => inversion_clear Hx end;
    unfold is_byte in *; [done|..].
  - do 2 f_equal. Z.to_euclidean_division_equations; lia.
  - do 2 f_equal; [|f_equal]; Z.to_euclidean_division_equations; lia.
  - rewrite IH by done. cbn. do 2 f_equal; [|f_equal; [|f_equal]];
      Z.to_euclidean_division_equations; lia.
Qed.

Lemma b64_roundtrip (p : list Z) : Forall is_byte p -> b64decode (b64encode p) = Some p.
Proof.
  intros H. unfold b64decode. rewrite b64encode_values.
  pose proof (b64values_range p H) as Hr.
  assert (Hf : filter (fun c => c <> 10 /\ c <> 13) (b64char <$> b64values p) = b64char <$> b64values p).
  { apply filter_id, Forall_fmap. eapply Forall_impl; [exact Hr|]. intros v Hv. by apply b64char_plain. }
  assert (Hm : mapM b64val (b64char <$> b64values p) = Some (b64values p)).
  { clear Hf. induction Hr as [|v l Hv Hl IH]; [done|]. cbn. rewrite b64val_char by done. cbn. by rewrite IH. }
  rewrite Hf, Hm. cbn. by apply b64bytes_values.
Qed.

Lemma b64encode_bytes (p : list Z) : Forall is_byte p -> Forall is_byte (b64encode p).
Proof.
  intros H. rewrite b64encode_values. apply Forall_fmap.
  eapply Forall_impl; [by apply b64values_range|]. intros v. apply b64char_byte.
Qed.

(** ** Titles *)

(** A rune the rules accept. *)
Definition title_rune (r : Z) : bool := (r =? 9) || (0x20 <=? r) && negb (r =? 0x7f).

Lemma check_runes_none (rs : list (Z * nat)) :
  Forall (fun x => 0 <= x.1) rs ->
  check_runes rs = None <-> Forall (fun x => title_rune x.1 = true) rs.
Proof.
  induction 1 as [|[r w] rs Hr Hrs IH]; cbn [check_runes]; [by split|].
  rewrite Forall_cons, <- IH. cbn [fst] in *. unfold title_rune.
  destruct (Z.eqb_spec r 0) as [->|]; [naive_solver|].
  destruct (Z.eqb_spec r 9) as [->|]; [naive_solver|].
  destruct (Z.ltb_spec r 0x20), (Z.leb_spec 0x20 r); try lia;
    destruct (Z.eqb_spec r 0x7f); naive_solver.
Qed.

Lemma in_range_true (b lo hi : Z) : in_range b lo hi = true -> lo <= b <= hi.
Proof. unfold in_range. intros H. zbool. lia. Qed.

Lemma cont_true (b : Z) : cont b = true -> 0x80 <= b <= 0xBF.
Proof. apply in_range_true. Qed.

Lemma decode_nonneg (p : list Z) : Forall is_byte p -> 0 <= (DecodeRune p).1.
Proof.
  intros H. destruct p as [|b0 p]; [by vm_compute|]. inversion_clear H as [|? ? H0 _].
  unfold is_byte in H0.
  assert (Hs : 0x80 <= second_lo b0) by (unfold second_lo; destruct (b0 =? 0xE0), (b0 =? 0xF0); lia).
  unfold DecodeRune. destruct p as [|b1 [|b2 [|b3 p]]];
    repeat (match goal with |- context [if ?c then _ else _] => destruct c eqn:? end);
    cbn [fst]; unfold RuneError; zbool;
    repeat match goal with
    | H : in_range _ _ _ = true |- _ => apply in_range_true in H
    | H : cont _ = true |- _ => apply cont_true in H
    end; lia.
Qed.

Lemma runes_nonneg (p : list Z) : Forall is_byte p -> Forall (fun x => 0 <= x.1) (runes p).
Proof.
  unfold runes. generalize (length p) as n. intros n. revert p.
  induction n as [|n IH]; intros p H; [constructor|]. destruct p as [|b p]; [constructor|].
  cbn [runes_fuel]. pose proof (decode_nonneg (b :: p) H) as Hd.
  destruct (DecodeRune (b :: p)) as [r size]. constructor; [done|].
  by apply IH, Forall_drop.
Qed.

(** The rules a stored title obeys. *)
Definition good_title (t : string) : Prop :=
  t <> "" /\ TrimSpace t = t /\ Valid (bytes t) = true /\ RuneCount (bytes t) <= 200 /\
  Forall (fun x => title_rune x.1 = true) (runes (bytes t)).

Lemma NormalizeTitle_exact (s t : string) :
  NormalizeTitle s = inl t <-> t = TrimSpace s /\ good_title t.
Proof.
  unfold NormalizeTitle, good_title, MaxTitleRunes.
  pose proof (check_runes_none (runes (bytes (TrimSpace s)))
    (runes_nonneg _ (bytes_range (TrimSpace s)))) as Hc.
  pose proof (TrimSpace_idem s) as Hi. revert Hc Hi. generalize (TrimSpace s) as u.
  intros u Hc Hi. destruct (String.eqb_spec u "") as [->|Hne]; [naive_solver|].
  destruct (Valid (bytes u)) eqn:Hv; cbn [negb]; [|naive_solver congruence].
  destruct (Z.ltb_spec 200 (RuneCount (bytes u))).
  - split; [done|]. intros (-> & _ & _ & _ & Hle & _). lia.
  - destruct (check_runes (runes (bytes u))) as [e|] eqn:He.
    + split; [done|]. intros (-> & _ & _ & _ & _ & Hf). by apply Hc in Hf.
    + split; [|naive_solver]. intros [= <-]. split_and!; try done. by apply Hc.
Qed.

(** [NormalizeTitle] accepts a title exactly when its trimmed form is not
    empty, is valid UTF-8, has at most 200 runes and holds no NUL, C0 control
    other than tab, or DEL; it returns the trimmed form, and normalizing a stored
    title again changes nothing. *)
Theorem NormalizeTitle_rules (s : string) :
  (forall t, NormalizeTitle s = inl t <-> t = TrimSpace s /\ good_title t) /\
  (forall t, NormalizeTitle s = inl t -> NormalizeTitle t = inl t).
Proof.
  split; intros t; [apply NormalizeTitle_exact|].
  intros [-> Hg]%NormalizeTitle_exact. apply NormalizeTitle_exact.
  split; [|done]. symmetry. apply TrimSpace_idem.
Qed.

(** The C1 control characters (U+0080 to U+009F, here U+009B, the control
    sequence introducer) pass the title rules, whose comment excludes every
    control character but tab. *)
Theorem c1_controls_accepted :
  let s := of_bytes [97; 0xC2; 0x9B; 98] in
  runes (bytes s) = [(97, 1%nat); (0x9B, 2%nat); (98, 1%nat)] /\ NormalizeTitle s = inl s.
Proof. vm_compute. done. Qed.

(** ** Patches *)

(** A patch that sets nothing is refused; a normalized patch sets the same
    fields, with the title normalized, and applying it changes only the fields it
    sets: the id, the version and the creation time of the task stay. *)
Theorem patch_semantics (p : Patch) (t : Task) :
  match Normalize p with
  | inr e =>
      (e = ErrEmptyPatch /\ PTitle p = None /\ PDone p = None) \/
      (exists s, PTitle p = Some s /\ NormalizeTitle s = inr e)
  | inl q =>
      (PTitle p <> None \/ PDone p <> None) /\
      PDone q = PDone p /\
      (forall s, PTitle p = Some s -> exists u, PTitle q = Some u /\ good_title u /\ u = TrimSpace s) /\
      (PTitle p = None -> PTitle q = None) /\
      Title (Apply q t) = default (Title t) (PTitle q) /\
      Done (Apply q t) = default (Done t) (PDone p) /\
      ID (Apply q t) = ID t /\ Version (Apply q t) = Version t /\ CreatedAt (Apply q t) = CreatedAt t
  end.
Proof.
  unfold Normalize. destruct p as [[s|] d]; cbn.
  - destruct (NormalizeTitle s) as [u|e] eqn:Hn; cbn; [|eauto 10].
    apply NormalizeTitle_exact in Hn as [-> Hg]. split_and!; try done; [by left|].
    intros ? [= <-]. eauto.
  - destruct d as [d|]; cbn; [|by left]. split_and!; try done. by right.
Qed.

(** ** Cursors *)

Section CursorRoundTrip.
Context (Marshal : cursorWire -> string) (Unmarshal : string -> option cursorWire).
Context (Format : Z -> string) (Parse : string -> option Z).

(** [encoding/json] reads back what it wrote, for strings of valid UTF-8. *)
Hypothesis json_roundtrip : forall w,
  Valid (bytes (T w)) = true -> Valid (bytes (I w)) = true -> Unmarshal (Marshal w) = Some w.
(** RFC 3339 with nanoseconds loses nothing of an instant, and is ASCII. *)
Hypothesis time_roundtrip : forall t, Go.in_int64 t -> Parse (Format t) = Some t.
Hypothesis time_ascii : forall t, Go.in_int64 t -> Valid (bytes (Format t)) = true.

(** Decoding the cursor a page carries gives back the position it was made
    from, for every task id that is valid UTF-8 and not empty; and the encoded
    form is made only of the 64 characters of the URL-safe alphabet. *)
Theorem cursor_roundtrip (t : Task) :
  Go.in_int64 (CreatedAt t) -> Valid (bytes (ID t)) = true -> ID t <> ""%string ->
  DecodeCursor Unmarshal Parse (Encode Marshal Format (CursorAfter t)) = inl (CursorAfter t) /\
  Forall (fun c => is_Some (b64val c)) (bytes (Encode Marshal Format (CursorAfter t))).
Proof.
  intros Ht Hv Hne. unfold DecodeCursor, Encode. set (m := Marshal _).
  rewrite !bytes_of_bytes by apply b64encode_bytes, bytes_range.
  rewrite b64_roundtrip by apply bytes_range. rewrite of_bytes_bytes. split.
  - subst m. rewrite json_roundtrip by (try apply time_ascii; done). cbn. rewrite time_roundtrip by done.
    by rewrite (proj2 (String.eqb_neq _ _) Hne).
  - rewrite b64encode_values. apply Forall_fmap. eapply Forall_impl;
      [apply b64values_range, bytes_range|].
    intros v Hr. cbn. rewrite b64val_char by done. eauto.
Qed.
End CursorRoundTrip.

(** A concrete codec of the pair and of the instant. *)
Definition demo_marshal (w : cursorWire) : string :=
  of_bytes (concat ((fun b => [1; b]) <$> bytes (T w)) ++ 0 :: bytes (I w)).
Fixpoint demo_split (p acc : list Z) : option cursorWire :=
  match p with
  | 1 :: b :: p => demo_split p (acc ++ [b])
  | 0 :: p => Some {| T := of_bytes acc; I := of_bytes p |}
  | _ => None
  end.
Definition demo_parse (s : string) : option Z :=
  match ParseInt (bytes s) with inl z => Some z | inr _ => None end.

Lemma demo_split_marshal (p acc q : list Z) :
  demo_split (concat ((fun b => [1; b]) <$> p) ++ 0 :: q) acc =
  Some {| T := of_bytes (acc ++ p); I := of_bytes q |}.
Proof.
  revert acc. induction p as [|b p IH]; intros acc; cbn; [by rewrite app_nil_r|].
  by rewrite IH, <- app_assoc.
Qed.

Lemma demo_roundtrip (w : cursorWire) : demo_split (bytes (demo_marshal w)) [] = Some w.
Proof.
  unfold demo_marshal. rewrite bytes_of_bytes.
  - rewrite demo_split_marshal. cbn [app]. rewrite !of_bytes_bytes. by destruct w.
  - apply Forall_app_2; [|constructor; [done|apply bytes_range]].
    apply Forall_concat, Forall_fmap. eapply Forall_impl; [apply bytes_range|].
    intros b Hb. cbn. repeat constructor; try done; apply Hb.
Qed.

Lemma cursor_roundtrip_witness :
  DecodeCursor (fun s => demo_split (bytes s) []) demo_parse
    (Encode demo_marshal Itoa (CursorAfter {| ID := "abc"; Title := "x"; Done := false; Version := 1; CreatedAt := 1758803445 |}))
  = inl {| CCreatedAt := 1758803445; CID := "abc" |}.
Proof.
  refine (proj1 (cursor_roundtrip demo_marshal (fun s => demo_split (bytes s) []) Itoa demo_parse
    _ _ _ {| ID := "abc"; Title := "x"; Done := false; Version := 1; CreatedAt := 1758803445 |} _ _ _)).
  - intros w _ _. apply demo_roundtrip.
  - intros t Ht. unfold demo_parse, Itoa. rewrite bytes_of_bytes by by apply FormatInt_bytes.
    by rewrite ParseInt_FormatInt.
  - intros t Ht. unfold Itoa. rewrite bytes_of_bytes by by apply FormatInt_bytes.
    by apply Valid_ascii, FormatInt_ascii.
  - vm_compute. split; discriminate.
  - vm_compute. reflexivity.
  - discriminate.
Defined.

End Domain.
