(* ===== verification/Database.v ===== *)
(** The tasks service's database: the tables of
    services/tasks/migrations/001_init.sql, transactions as
    services/tasks/internal/store.inTx runs them (with every way a statement or
    the commit can fail), and the outbox's [Enqueue]
    (services/tasks/internal/outbox/outbox.go). *)
From S2P Require Import Prelude GoStr Domain.

Module Database.
Import Domain.

(** ** Events *)

(** The payloads of the three event types (the contract's types). *)
Inductive payload :=
| TaskCreatedEvent (Id Title : string) (CreatedAt : Z) (EventId : string) (Version : Z)
| TaskUpdatedEvent (EventId Id Title : string) (Done : bool) (Version : Z)
| TaskDeletedEvent (EventId Id : string) (Version : Z).

#[export] Instance payload_eq_dec : EqDecision payload.
Proof. solve_decision. Defined.

Definition TypeTaskCreated : string := "task.created".
Definition TypeTaskUpdated : string := "task.updated".
Definition TypeTaskDeleted : string := "task.deleted".

Record Event := { EvID : string; AggregateID : string; Type_ : string; Payload : payload }.

(** ** Tables *)

Record orow := {
  o_id : Z;
  event_id : string;
  aggregate_id : string;
  event_type : string;
  o_payload : payload;
  headers : gmap string string;
  o_created_at : Z;
  rejections : Z;
  next_attempt_at : option Z;
  last_error : option string
}.

Record irow := { request_hash : string; task_id : string; i_created_at : Z }.

(** The identity column of the outbox. Its sequence gives a number at the INSERT, not at the
    commit: [free] are the numbers taken by transactions that had not committed (they may be
    running still, or have rolled back). A transaction inserts its event after it got the lock
    of its task, so its number is one given after the last commit that changed this task:
    [marks] is the sequence at that commit. *)
Record identity := { next_id : Z; free : gset Z; marks : gmap string Z }.

(** The rows of the outbox are in the order of their commits. *)
Record db := {
  tasks : gmap string Task;
  outbox : list orow;
  keys : gmap string irow;
  ids : identity
}.

Definition empty_db : db := {| tasks := ∅; outbox := []; keys := ∅; ids := {| next_id := 1; free := ∅; marks := ∅ |} |}.

(** ** Errors *)

Inductive serror :=
| Dom (e : derror)
| Driver (op cause : string)
| Replay
| Wrapped (op : string) (e : serror).

Fixpoint is_replay (e : serror) : bool :=
  match e with
  | Replay => true
  | Wrapped _ e => is_replay e
  | _ => false
  end.

(** ** Transactions *)

Inductive commit_outcome :=
| Commits
| CommitFails (cause : string) (* nothing is applied *)
| CommitLost (cause : string). (* applied, and the answer is lost *)

(** What the database and the network do to one transaction: its [now()], how
    many numbers of the identity sequence others took just before its own, the
    number it took earlier if others committed in between, the failure of its
    begin, of its n-th statement, of its commit. *)
Record env := {
  e_now : Z;
  e_gap : nat;
  e_early : option Z;
  e_begin : option string;
  e_stmt : nat -> option string;
  e_commit : commit_outcome
}.

Definition quiet (now : Z) : env :=
  {| e_now := now; e_gap := 0; e_early := None; e_begin := None; e_stmt := fun _ => None; e_commit := Commits |}.

Section Tx.
Context {L : Type}.

(** The transaction: its view of the tables, the statements sent so far,
    whether one of them failed (the server then refuses the rest), and the
    variables the closure assigns. *)
Record txst := { t_db : db; t_n : nat; t_aborted : bool; t_loc : L }.

Definition M (A : Type) : Type := txst -> (A + serror) * txst.

Definition ret {A} (a : A) : M A := fun s => (inl a, s).
Definition throw {A} (e : serror) : M A := fun s => (inr e, s).
Definition bind {A B} (m : M A) (k : A -> M B) : M B := fun s =>
  match m s with
  | (inl a, s) => k a s
  | (inr e, s) => (inr e, s)
  end.
Definition assign (f : L -> L) : M unit := fun s =>
  (inl tt, {| t_db := t_db s; t_n := t_n s; t_aborted := t_aborted s; t_loc := f (t_loc s) |}).

(** One statement: it fails from outside, because the transaction is already
    aborted, or by its own error (a constraint); else it answers and changes the
    tables. *)
Definition stmt {A} (E : env) (q : db -> (A * db) + string) : M (A + string) := fun s =>
  let failed e := (inl (inr e),
    {| t_db := t_db s; t_n := S (t_n s); t_aborted := true; t_loc := t_loc s |}) in
  if t_aborted s then failed "current transaction is aborted"%string
  else match e_stmt E (t_n s) with
  | Some e => failed e
  | None =>
      match q (t_db s) with
      | inr e => failed e
      | inl (a, d) =>
          (inl (inl a), {| t_db := d; t_n := S (t_n s); t_aborted := false; t_loc := t_loc s |})
      end
  end.

(** A statement whose failure is returned to the caller under [op]. *)
Definition query {A} (E : env) (op : string) (q : db -> (A * db) + string) : M A :=
  bind (stmt E q) (fun r =>
    match r with inl a => ret a | inr e => throw (Driver op e) end).

(** The commit of the transaction [s] that began on [d]; committing an aborted
    transaction rolls back and is an error. *)
Definition commit (E : env) (d : db) (s : txst) : option string * db :=
  if t_aborted s then (Some "commit unexpectedly resulted in rollback"%string, d)
  else match e_commit E with
  | Commits => (None, t_db s)
  | CommitLost e => (Some e, t_db s)
  | CommitFails e => (Some e, d)
  end.

(** The closure's error (or none), its variables, and the tables after. *)
Definition inTx (E : env) (l0 : L) (fn : M unit) (d : db) : option serror * L * db :=
  match e_begin E with
  | Some e => (Some (Driver "store: begin" e), l0, d)
  | None =>
      let '(r, s) := fn {| t_db := d; t_n := 0; t_aborted := false; t_loc := l0 |} in
      match r with
      | inr e => (Some e, t_loc s, d)
      | inl _ =>
          match commit E d s with
          | (None, d') => (None, t_loc s, d')
          | (Some e, d') => (Some (Driver "store: commit" e), t_loc s, d')
          end
      end
  end.

End Tx.

Arguments txst : clear implicits.
Arguments M : clear implicits.

(** ** Enqueue *)

(** The number an INSERT for task [a] is given: one taken before other transactions
    committed, if that can be, or the next but [gap]. *)
Definition past_mark (q : identity) (a : string) (id : Z) : bool :=
  match marks q !! a with Some k => k <=? id | None => true end.
Definition allot (gap : nat) (early : option Z) (a : string) (q : identity) : Z * identity :=
  let late := next_id q + Z.of_nat gap in
  let next := (late, {| next_id := late + 1; free := list_to_set (seqZ (next_id q) (Z.of_nat gap)) ∪ free q;
                        marks := <[a := late + 1]> (marks q) |}) in
  match early with
  | Some id =>
      if bool_decide (id ∈ free q) && past_mark q a id
      then (id, {| next_id := next_id q; free := free q ∖ {[id]}; marks := <[a := next_id q]> (marks q) |})
      else next
  | None => next
  end.

(** [INSERT INTO outbox]: its number, the defaults of the other columns; a second row with
    the same [event_id] violates the unique constraint. *)
Definition insert_outbox (now : Z) (gap : nat) (early : option Z) (e : Event) (hdrs : gmap string string) (d : db)
    : (unit * db) + string :=
  if existsb (fun r => String.eqb (event_id r) (EvID e)) (outbox d)
  then inr "duplicate key value violates unique constraint outbox_event_id_key"%string
  else
    let '(id, ids') := allot gap early (AggregateID e) (ids d) in
    let r := {| o_id := id; event_id := EvID e; aggregate_id := AggregateID e;
                event_type := Type_ e; o_payload := Payload e; headers := hdrs;
                o_created_at := now; rejections := 0; next_attempt_at := None;
                last_error := None |} in
    inl (tt, {| tasks := tasks d; outbox := outbox d ++ [r]; keys := keys d; ids := ids' |}).

(** [hdrs] is the trace context the propagator injects. *)
Definition Enqueue {L} (E : env) (hdrs : gmap string string) (e : Event) : M L unit :=
  query E ("outbox: enqueue " ++ Type_ e ++ " " ++ AggregateID e)%string
    (insert_outbox (e_now E) (e_gap E) (e_early E) e hdrs).

(** ** Lemmas *)

(** Inversion of a sequence that succeeded. *)
Lemma bind_inl {L A B} (m : M L A) (k : A -> M L B) (s s' : txst L) (b : B) :
  bind m k s = (inl b, s') -> exists a s1, m s = (inl a, s1) /\ k a s1 = (inl b, s').
Proof. unfold bind. destruct (m s) as [[a|e] s1]; [eauto|done]. Qed.

(** A statement that succeeded: no fault, and the tables it left. *)
Lemma query_inl {L A} (E : env) (op : string) (q : db -> (A * db) + string) (s s' : txst L) (a : A) :
  query E op q s = (inl a, s') ->
  exists d, q (t_db s) = inl (a, d) /\ t_aborted s = false /\ e_stmt E (t_n s) = None /\
    s' = {| t_db := d; t_n := S (t_n s); t_aborted := false; t_loc := t_loc s |}.
Proof.
  unfold query, bind, stmt, ret, throw. destruct (t_aborted s); [done|].
  destruct (e_stmt E (t_n s)); [done|]. destruct (q (t_db s)) as [[x d]|e]; [|done].
  intros [= -> <-]. eauto.
Qed.

(** A statement of a transaction without faults answers what it computes. *)
Lemma query_quiet {L A} (E : env) (op : string) (q : db -> (A * db) + string) (s : txst L) :
  t_aborted s = false -> e_stmt E (t_n s) = None ->
  query E op q s = match q (t_db s) with
                   | inl (a, d) => (inl a, {| t_db := d; t_n := S (t_n s); t_aborted := false; t_loc := t_loc s |})
                   | inr e => (inr (Driver op e), {| t_db := t_db s; t_n := S (t_n s); t_aborted := true; t_loc := t_loc s |})
                   end.
Proof.
  intros Ha He. unfold query, bind, stmt, ret, throw. rewrite Ha, He.
  by destruct (q (t_db s)) as [[a d]|e].
Qed.

(** A transaction either leaves the tables alone or leaves those of its closure,
    which then succeeded and was not aborted; it reports success only in the
    second case. *)
Lemma inTx_cases {L} (E : env) (l0 : L) (fn : M L unit) (d : db) :
  let s0 := {| t_db := d; t_n := 0; t_aborted := false; t_loc := l0 |} in
  let '(err, l, d') := inTx E l0 fn d in
  (d' = d /\ err <> None) \/
  (exists s, fn s0 = (inl tt, s) /\ t_aborted s = false /\ d' = t_db s /\ l = t_loc s).
Proof.
  cbn zeta. unfold inTx, commit. destruct (e_begin E); [by left|].
  destruct (fn _) as [[[]|e] s] eqn:Hf; [|by left].
  destruct (t_aborted s) eqn:Ha; [by left|].
  destruct (e_commit E); [right; eauto 10|by left|right; eauto 10].
Qed.

(** The numbers of the outbox: distinct, given by the sequence and not to be given again, and
    increasing among the events of one task. *)
Definition task_order (x y : orow) : Prop := aggregate_id x = aggregate_id y -> o_id x < o_id y.
Definition given (q : identity) (r : orow) : Prop :=
  o_id r < next_id q /\ o_id r ∉ free q /\ past_mark q (aggregate_id r) (o_id r) = false.
Definition outbox_ordered (d : db) : Prop :=
  NoDup (o_id <$> outbox d) /\ StronglySorted task_order (outbox d) /\ Forall (given (ids d)) (outbox d).

(** The sequence itself. *)
Definition identity_ok (q : identity) : Prop :=
  (forall id, id ∈ free q -> id < next_id q) /\ (forall a k, marks q !! a = Some k -> k <= next_id q).

(** The number of a new row against those given before. *)
Record allotted (q : identity) (r : orow) (q' : identity) : Prop := {
  al_ok : identity_ok q';
  al_new : o_id r < next_id q' /\ o_id r ∉ free q' /\ marks q' !! aggregate_id r = Some (next_id q');
  al_kept : forall x, given q x -> given q' x;
  al_later : forall x, given q x -> o_id x <> o_id r /\ task_order x r
}.

Lemma allot_spec (gap : nat) (early : option Z) (q q' : identity) (r : orow) :
  identity_ok q -> allot gap early (aggregate_id r) q = (o_id r, q') -> allotted q r q'.
Proof.
  intros [Hf Hm]. unfold allot, past_mark.
  assert (Hnext : (next_id q + Z.of_nat gap, {| next_id := next_id q + Z.of_nat gap + 1;
      free := list_to_set (seqZ (next_id q) (Z.of_nat gap)) ∪ free q; marks := <[aggregate_id r := next_id q + Z.of_nat gap + 1]> (marks q) |}) = (o_id r, q') ->
    allotted q r q').
  { intros [= Hid <-]. rewrite Hid. split.
    - split; cbn.
      + intros id [H%elem_of_list_to_set%elem_of_seqZ|H%Hf]%elem_of_union; lia.
      + intros a k [[_ <-]|[_ H%Hm]]%lookup_insert_Some; lia.
    - cbn. rewrite lookup_insert_eq. split_and!; [lia| |done]. intros [H%elem_of_list_to_set%elem_of_seqZ|H%Hf]%elem_of_union; lia.
    - intros x (H1 & H2 & H3). unfold given, past_mark in *. cbn. split_and!; [lia| |].
      + intros [H%elem_of_list_to_set%elem_of_seqZ|H]%elem_of_union; [lia|done].
      + destruct (decide (aggregate_id r = aggregate_id x)) as [->|Hne]; [rewrite lookup_insert_eq; apply Z.leb_gt; lia|by rewrite lookup_insert_ne].
    - intros x (H1 & _). split; [lia|]. intros _. lia. }
  destruct early as [id|]; [|exact Hnext]. destruct (bool_decide_reflect (id ∈ free q)) as [Hin|]; cbn [andb]; [|exact Hnext].
  destruct (match marks q !! aggregate_id r with Some k => k <=? id | None => true end) eqn:Hp; [|exact Hnext].
  clear Hnext. intros [= -> <-]. split.
  - split; cbn; [intros id [H _]%elem_of_difference; by apply Hf|]. intros a k [[_ <-]|[_ H%Hm]]%lookup_insert_Some; lia.
  - cbn. rewrite lookup_insert_eq. split_and!; [by apply Hf|set_solver|done].
  - intros x (H1 & H2 & H3). unfold given, past_mark in *. cbn. split_and!; [done|set_solver|].
    destruct (decide (aggregate_id r = aggregate_id x)) as [->|Hne]; [rewrite lookup_insert_eq; apply Z.leb_gt; lia|by rewrite lookup_insert_ne].
  - intros x (H1 & H2 & H3). split; [intros E; apply H2; by rewrite E|]. intros Ha. unfold past_mark in H3. rewrite Ha in H3.
    destruct (marks q !! aggregate_id r) as [k|]; [|done]. zbool. lia.
Qed.

Lemma insert_outbox_inl (now : Z) (gap : nat) (early : option Z) (e : Event) (hdrs : gmap string string) (d d' : db) :
  insert_outbox now gap early e hdrs d = inl (tt, d') ->
  exists r, outbox d' = outbox d ++ [r] /\ tasks d' = tasks d /\ keys d' = keys d /\
    o_payload r = Payload e /\ event_id r = EvID e /\ aggregate_id r = AggregateID e /\
    event_type r = Type_ e /\ rejections r = 0 /\ next_attempt_at r = None /\ headers r = hdrs /\
    o_created_at r = now /\ event_id r ∉ (event_id <$> outbox d) /\
    (identity_ok (ids d) -> allotted (ids d) r (ids d')).
Proof.
  unfold insert_outbox. destruct (existsb _ _) eqn:He; [done|]. destruct (allot _ _ _ _) as [id q] eqn:Ha. intros [= <-].
  eexists. split_and!; cbn; try done.
  - intros Hin. apply list_elem_of_fmap in Hin as (x & Hx & Hin).
    assert (Ht : existsb (fun r => String.eqb (event_id r) (EvID e)) (outbox d) = true).
    { apply existsb_exists. exists x. split; [by apply list_elem_of_In|]. rewrite <- Hx.
      apply String.eqb_refl. }
    congruence.
  - intros Hok. by eapply allot_spec.
Qed.

End Database.

Declare Scope tx_scope.
Delimit Scope tx_scope with tx.
Notation "'let!' x := m 'in' k" := (Database.bind m (fun x => k))
  (at level 200, x name, m at level 100, k at level 200, right associativity) : tx_scope.
