(* ===== verification/Store.v ===== *)
(** The task repository (services/tasks/internal/store/store.go): every change
    is one transaction that also writes its event to the outbox. *)
From S2P Require Import Prelude GoStr Domain Database.

Module Store.
Import Domain Database.
#[local] Open Scope tx_scope.

(** ** Statements *)

Definition insert_task (now : Z) (id title : string) (d : db) : (Task * db) + string :=
  match tasks d !! id with
  | Some _ => inr "duplicate key value violates unique constraint tasks_pkey"%string
  | None =>
      let t := {| ID := id; Title := title; Done := false; Version := 1; CreatedAt := now |} in
      inl (t, {| tasks := <[id := t]> (tasks d); outbox := outbox d; keys := keys d;
                 ids := ids d |})
  end.

(** [INSERT ... ON CONFLICT (key) DO UPDATE SET key = EXCLUDED.key RETURNING
    request_hash, task_id, xmax = 0]: on a conflict the row stays as it is and is
    returned. The task named is the one just inserted, so the foreign key holds. *)
Definition insert_key (now : Z) (idem : IdempotencyKey) (tid : string) (d : db)
    : ((string * string * bool) * db) + string :=
  match keys d !! Key idem with
  | Some r => inl ((request_hash r, task_id r, false), d)
  | None =>
      let r := {| request_hash := Hash idem; task_id := tid; i_created_at := now |} in
      inl ((Hash idem, tid, true),
           {| tasks := tasks d; outbox := outbox d; keys := <[Key idem := r]> (keys d);
              ids := ids d |})
  end.

Definition version_matches (expect : option Z) (t : Task) : bool :=
  match expect with None => true | Some v => Version t =? v end.

(** The conditional UPDATE: no row ([None]) when the id is unknown or the version
    differs; the increment of a BIGINT can overflow. *)
Definition update_task (id : string) (patch : Patch) (expect : option Z) (d : db)
    : (option Task * db) + string :=
  match tasks d !! id with
  | None => inl (None, d)
  | Some t =>
      if negb (version_matches expect t) then inl (None, d)
      else if Version t =? Go.int64_max then inr "bigint out of range"%string
      else
        let t' := {| ID := ID t; Title := default (Title t) (PTitle patch);
                     Done := default (Done t) (PDone patch);
                     Version := Version t + 1; CreatedAt := CreatedAt t |} in
        inl (Some t', {| tasks := <[id := t']> (tasks d); outbox := outbox d;
                         keys := keys d; ids := ids d |})
  end.

(** The conditional DELETE, which takes the task's idempotency keys with it
    (ON DELETE CASCADE). *)
Definition delete_task (id : string) (expect : option Z) (d : db) : (option Z * db) + string :=
  match tasks d !! id with
  | None => inl (None, d)
  | Some t =>
      if negb (version_matches expect t) then inl (None, d)
      else inl (Some (Version t),
        {| tasks := delete id (tasks d); outbox := outbox d;
           keys := filter (fun kr => task_id kr.2 <> id) (keys d); ids := ids d |})
  end.

Definition task_exists (id : string) (d : db) : (bool * db) + string :=
  inl (match tasks d !! id with Some _ => true | None => false end, d).

(** ** Events *)

(** [time.Time] marshals to JSON for the years 0 to 9999. *)
Definition json_time_ok (t : Z) : bool :=
  (-62167219200 * Go.second <=? t) && (t <? 253402300800 * Go.second).

(** [eventID] is the fresh id [outbox.NewID] mints. *)
Definition createdEvent (eventID : string) (t : Task) : payload + serror :=
  if json_time_ok (CreatedAt t)
  then inl (TaskCreatedEvent (ID t) (Title t) (CreatedAt t) eventID (Version t))
  else inr (Driver "store: encode task.created" "year outside of range [0,9999]").

(** ** Operations *)

Definition missOrMismatch {L} (E : env) (id : string) : M L unit :=
  let! exists_ := query E "store: check task" (task_exists id) in
  throw (Dom (if exists_ then ErrVersionMismatch else ErrNotFound)).

(** [s.pool.QueryRow]: a statement on its own. *)
Definition Get (fault : option string) (id : string) (d : db) : Task + serror :=
  match fault with
  | Some e => inr (Driver "store: get task" e)
  | None => match tasks d !! id with
            | Some t => inl t
            | None => inr (Dom ErrNotFound)
            end
  end.

Record create_vars := { c_task : option Task; c_replayID : string }.

Definition set_task (t : Task) (v : create_vars) : create_vars :=
  {| c_task := Some t; c_replayID := c_replayID v |}.
Definition set_replayID (id : string) (v : create_vars) : create_vars :=
  {| c_task := c_task v; c_replayID := id |}.

(** The closure of [Create]. *)
Definition create_tx (E : env) (hdrs : gmap string string) (eventID id title : string)
    (idem : option IdempotencyKey) : M create_vars unit :=
  let! t := query E "store: insert task" (insert_task (e_now E) id title) in
  let! _ := match idem with
            | None => ret tt
            | Some k =>
                let! row := query E "store: record idempotency key" (insert_key (e_now E) k (ID t)) in
                let '(existingHash, existingID, inserted) := row in
                if negb inserted then
                  if negb (String.eqb existingHash (Hash k))
                  then throw (Dom ErrIdempotencyKeyReused)
                  else let! _ := assign (set_replayID existingID) in throw Replay
                else ret tt
            end in
  match createdEvent eventID t with
  | inr e => throw e
  | inl p =>
      let! _ := assign (set_task t) in
      Enqueue E hdrs {| EvID := eventID; AggregateID := ID t; Type_ := TypeTaskCreated; Payload := p |}
  end.

Definition zero_task : Task :=
  {| ID := ""; Title := ""; Done := false; Version := 0; CreatedAt := 0 |}.

(** [between] is what other transactions do to the database between the rollback
    of a replayed create and the read of the first one's task; [getFault] is the
    failure of that read. *)
Definition Create (E : env) (between : db -> db) (getFault : option string)
    (hdrs : gmap string string) (eventID id title : string) (idem : option IdempotencyKey)
    (d : db) : (Task * bool * option serror) * db :=
  let '(err, v, d) := inTx E {| c_task := None; c_replayID := "" |}
                        (create_tx E hdrs eventID id title idem) d in
  match err with
  | Some e =>
      if is_replay e then
        let d := between d in
        match Get getFault (c_replayID v) d with
        | inr ge => ((zero_task, false, Some (Wrapped "store: replay idempotent create" ge)), d)
        | inl t => ((t, true, None), d)
        end
      else ((zero_task, false, Some e), d)
  | None => ((default zero_task (c_task v), false, None), d)
  end.

Definition update_tx (E : env) (hdrs : gmap string string) (eventID id : string) (patch : Patch)
    (expect : option Z) : M (option Task) unit :=
  let! r := query E "store: update task" (update_task id patch expect) in
  match r with
  | None => missOrMismatch E id
  | Some t =>
      let! _ := assign (fun _ => Some t) in
      Enqueue E hdrs {| EvID := eventID; AggregateID := ID t; Type_ := TypeTaskUpdated;
        Payload := TaskUpdatedEvent eventID (ID t) (Title t) (Done t) (Version t) |}
  end.

(** On a failed enqueue or commit the caller gets the new row beside the error. *)
Definition Update (E : env) (hdrs : gmap string string) (eventID id : string) (patch : Patch)
    (expect : option Z) (d : db) : (Task * option serror) * db :=
  let '(err, out, d) := inTx E None (update_tx E hdrs eventID id patch expect) d in
  ((default zero_task out, err), d).

Definition delete_tx (E : env) (hdrs : gmap string string) (eventID id : string)
    (expect : option Z) : M unit unit :=
  let! r := query E "store: delete task" (delete_task id expect) in
  match r with
  | None => missOrMismatch E id
  | Some version =>
      Enqueue E hdrs {| EvID := eventID; AggregateID := id; Type_ := TypeTaskDeleted;
        Payload := TaskDeletedEvent eventID id version |}
  end.

Definition Delete (E : env) (hdrs : gmap string string) (eventID id : string) (expect : option Z)
    (d : db) : option serror * db :=
  let '(err, _, d) := inTx E tt (delete_tx E hdrs eventID id expect) d in (err, d).

(** The keys older than the TTL; [lost] is an answer that is lost after the
    statement was applied. *)
Definition PurgeIdempotencyKeys (now ttl : Z) (fault lost : option string) (d : db)
    : (Z + serror) * db :=
  match fault with
  | Some e => (inr (Driver "store: purge idempotency keys" e), d)
  | None =>
      let kept := filter (fun kr => now - ttl <= i_created_at kr.2) (keys d) in
      let d' := {| tasks := tasks d; outbox := outbox d; keys := kept; ids := ids d |} in
      match lost with
      | Some e => (inr (Driver "store: purge idempotency keys" e), d')
      | None => (inl (Z.of_nat (size (keys d)) - Z.of_nat (size kept)), d')
      end
  end.

(** [RunJanitor]: a purge at every tick, failed or not, until the context ends;
    [ticks] are the ticks by then. *)
Definition RunJanitor (ttl : Z) (ticks : list (Z * option string * option string)) (d : db) : db :=
  foldl (fun d tick => let '(now, fault, lost) := tick in snd (PurgeIdempotencyKeys now ttl fault lost d)) d ticks.

(** ** Replay of the events *)

(** Applying one event to a table of tasks; [None] when it does not fit there: a
    creation of a task that exists, an update that does not follow the version at
    hand by one, a deletion of another version. *)
Definition apply_event (m : gmap string Task) (p : payload) : option (gmap string Task) :=
  match p with
  | TaskCreatedEvent id title at_ _ v =>
      match m !! id with
      | Some _ => None
      | None => if v =? 1
                then Some (<[id := {| ID := id; Title := title; Done := false; Version := 1; CreatedAt := at_ |}]> m)
                else None
      end
  | TaskUpdatedEvent _ id title done v =>
      match m !! id with
      | None => None
      | Some t => if v =? Version t + 1
                  then Some (<[id := {| ID := id; Title := title; Done := done; Version := v; CreatedAt := CreatedAt t |}]> m)
                  else None
      end
  | TaskDeletedEvent _ id v =>
      match m !! id with
      | None => None
      | Some t => if v =? Version t then Some (delete id m) else None
      end
  end.

Fixpoint replay (m : gmap string Task) (ps : list payload) : option (gmap string Task) :=
  match ps with
  | [] => Some m
  | p :: ps => m' ← apply_event m p; replay m' ps
  end.

Lemma replay_app (ps qs : list payload) (m : gmap string Task) :
  replay m (ps ++ qs) = (m' ← replay m ps; replay m' qs).
Proof.
  revert m. induction ps as [|p ps IH]; intros m; [done|]. cbn.
  destruct (apply_event m p) as [m'|]; [apply IH|done].
Qed.

(** ** What a transaction that went through did *)

Ltac tx_inv :=
  repeat match goal with
  | H : bind _ _ _ = (inl _, _) |- _ =>
      let a := fresh "a" in let s := fresh "s" in let H' := fresh "Hm" in
      apply bind_inl in H as (a & s & H' & H)
  | H : query _ _ _ _ = (inl _, _) |- _ =>
      let d := fresh "d" in let Hq := fresh "Hq" in
      apply query_inl in H as (d & Hq & _ & _ & ?); subst
  | H : Enqueue _ _ _ _ = (inl _, _) |- _ => unfold Enqueue in H
  | H : assign _ _ = (inl _, _) |- _ => unfold assign in H; simplify_eq/=
  | H : ret _ _ = (inl _, _) |- _ => unfold ret in H; simplify_eq/=
  | H : throw _ _ = (inl _, _) |- _ => discriminate H
  end.

(** A row that describes the change its payload says. *)
Definition describes (r : orow) : Prop :=
  match o_payload r with
  | TaskCreatedEvent id _ _ eid _ => aggregate_id r = id /\ event_id r = eid /\ event_type r = TypeTaskCreated
  | TaskUpdatedEvent eid id _ _ _ => aggregate_id r = id /\ event_id r = eid /\ event_type r = TypeTaskUpdated
  | TaskDeletedEvent eid id _ => aggregate_id r = id /\ event_id r = eid /\ event_type r = TypeTaskDeleted
  end.

(** [d'] is [d] after one change with its event row. *)
Record changed (d d' : db) (r : orow) : Prop := {
  ch_outbox : outbox d' = outbox d ++ [r];
  ch_tasks : apply_event (tasks d) (o_payload r) = Some (tasks d');
  ch_describes : describes r;
  ch_fresh : event_id r ∉ (event_id <$> outbox d);
  ch_id : identity_ok (ids d) -> allotted (ids d) r (ids d')
}.

Lemma insert_outbox_changed (now : Z) (gap : nat) (early : option Z) (e : Event) (hdrs : gmap string string) (d0 d d' : db) :
  insert_outbox now gap early e hdrs d = inl (tt, d') ->
  outbox d = outbox d0 -> ids d = ids d0 ->
  apply_event (tasks d0) (Payload e) = Some (tasks d) ->
  (forall r, o_payload r = Payload e -> event_id r = EvID e -> aggregate_id r = AggregateID e ->
    event_type r = Type_ e -> describes r) ->
  (exists r, changed d0 d' r) /\ tasks d' = tasks d /\ keys d' = keys d.
Proof.
  intros (r & H1 & H2 & H3 & H4 & H5 & H6 & H7 & _ & _ & _ & _ & H8 & H9)%insert_outbox_inl Ho Hn Ht Hd.
  split; [|done]. exists r. rewrite Ho in *. rewrite Hn in *. split; auto. by rewrite H4, H2.
Qed.

Lemma create_tx_changed (E : env) (hdrs : gmap string string) (eid id title : string)
    (idem : option IdempotencyKey) (d : db) (n : nat) (v : create_vars) (s : txst create_vars) :
  create_tx E hdrs eid id title idem {| t_db := d; t_n := n; t_aborted := false; t_loc := v |} = (inl tt, s) ->
  let t := {| ID := id; Title := title; Done := false; Version := 1; CreatedAt := e_now E |} in
  (exists r, changed d (t_db s) r) /\ tasks d !! id = None /\ tasks (t_db s) = <[id := t]> (tasks d) /\
  c_task (t_loc s) = Some t /\
  match idem with
  | None => keys (t_db s) = keys d
  | Some k => keys d !! Key k = None /\
      keys (t_db s) = <[Key k := {| request_hash := Hash k; task_id := id; i_created_at := e_now E |}]> (keys d)
  end.
Proof.
  intros H. unfold create_tx in H. tx_inv. cbn in *.
  unfold insert_task in Hq. destruct (tasks d !! id) eqn:Hid; [done|]. simplify_eq/=.
  assert (Hk : outbox (t_db s1) = outbox d /\ tasks (t_db s1) = <[id:={| ID := id; Title := title; Done := false; Version := 1; CreatedAt := e_now E |}]> (tasks d) /\
    ids (t_db s1) = ids d /\
    match idem with None => keys (t_db s1) = keys d
    | Some k => keys d !! Key k = None /\
        keys (t_db s1) = <[Key k := {| request_hash := Hash k; task_id := id; i_created_at := e_now E |}]> (keys d) end).
  { destruct idem as [k|]; tx_inv; [|done]. unfold insert_key in Hq. cbn in Hq.
    destruct (keys d !! Key k) as [r|] eqn:Hk; simplify_eq/=.
    - destruct (negb _); tx_inv; done.
    - by tx_inv. }
  destruct Hk as (Ho & Ht & Hn & Hk).
  unfold createdEvent in H. cbn in H. destruct (json_time_ok (e_now E)); [|done].
  tx_inv. cbn in *. apply insert_outbox_changed with (d0 := d) in Hq as (Hr & -> & ->); cbn; try done.
  - by rewrite Hid, Ht.
  - intros r H1 H2 H3 H4. unfold describes. rewrite H1. by split_and!.
Qed.

Lemma missOrMismatch_fails {L} (E : env) (id : string) (s s' : txst L) :
  missOrMismatch E id s <> (inl tt, s').
Proof. unfold missOrMismatch. intros H. tx_inv. Qed.

Lemma update_tx_changed (E : env) (hdrs : gmap string string) (eid id : string) (patch : Patch)
    (expect : option Z) (d : db) (n : nat) (v : option Task) (s : txst (option Task)) :
  (forall t, tasks d !! id = Some t -> ID t = id) ->
  update_tx E hdrs eid id patch expect {| t_db := d; t_n := n; t_aborted := false; t_loc := v |} = (inl tt, s) ->
  exists t, tasks d !! id = Some t /\ version_matches expect t = true /\ Version t <> Go.int64_max /\
  let t' := {| ID := id; Title := default (Title t) (PTitle patch); Done := default (Done t) (PDone patch);
               Version := Version t + 1; CreatedAt := CreatedAt t |} in
  (exists r, changed d (t_db s) r) /\ tasks (t_db s) = <[id := t']> (tasks d) /\
  keys (t_db s) = keys d /\ t_loc s = Some t'.
Proof.
  intros Hwf H. unfold update_tx in H. tx_inv. cbn in *.
  unfold update_task in Hq. destruct (tasks d !! id) as [t|] eqn:Hid; simplify_eq/=;
    [|by apply missOrMismatch_fails in H].
  destruct (version_matches expect t) eqn:Hv; simplify_eq/=; [|by apply missOrMismatch_fails in H].
  destruct (Z.eqb_spec (Version t) Go.int64_max); simplify_eq/=.
  specialize (Hwf t eq_refl). rewrite Hwf in *.
  tx_inv. cbn in *. exists t. apply insert_outbox_changed with (d0 := d) in Hq as (Hr & -> & ->); cbn; try done.
  - by rewrite Hid, Z.eqb_refl.
  - intros r H1 H2 H3 H4. unfold describes. rewrite H1. by split_and!.
Qed.

Lemma delete_tx_changed (E : env) (hdrs : gmap string string) (eid id : string)
    (expect : option Z) (d : db) (n : nat) (s : txst unit) :
  delete_tx E hdrs eid id expect {| t_db := d; t_n := n; t_aborted := false; t_loc := tt |} = (inl tt, s) ->
  exists t, tasks d !! id = Some t /\ version_matches expect t = true /\
  (exists r, changed d (t_db s) r) /\ tasks (t_db s) = delete id (tasks d) /\
  keys (t_db s) = filter (fun kr => task_id kr.2 <> id) (keys d).
Proof.
  intros H. unfold delete_tx in H. tx_inv. cbn in *.
  unfold delete_task in Hq. destruct (tasks d !! id) as [t|] eqn:Hid; simplify_eq/=;
    [|by apply missOrMismatch_fails in H].
  destruct (version_matches expect t) eqn:Hv; simplify_eq/=; [|by apply missOrMismatch_fails in H].
  tx_inv. cbn in *. exists t. apply insert_outbox_changed with (d0 := d) in Hq as (Hr & -> & ->); cbn; try done.
  - by rewrite Hid, Z.eqb_refl.
  - intros r H1 H2 H3 H4. unfold describes. rewrite H1. by split_and!.
Qed.

(** ** Runs of the store *)

(** The calls of the service, with what the database did to each. *)
Inductive op :=
| OpCreate (E : env) (getFault : option string) (hdrs : gmap string string)
    (eid id title : string) (idem : option IdempotencyKey)
| OpUpdate (E : env) (hdrs : gmap string string) (eid id : string) (patch : Patch) (expect : option Z)
| OpDelete (E : env) (hdrs : gmap string string) (eid id : string) (expect : option Z)
| OpPurge (now ttl : Z) (fault lost : option string).

Definition exec (d : db) (o : op) : db :=
  match o with
  | OpCreate E gf h eid id title idem => snd (Create E (fun d => d) gf h eid id title idem d)
  | OpUpdate E h eid id patch expect => snd (Update E h eid id patch expect d)
  | OpDelete E h eid id expect => snd (Delete E h eid id expect d)
  | OpPurge now ttl f l => snd (PurgeIdempotencyKeys now ttl f l d)
  end.

(** Consistency of the tables: a task is stored under its id at a version from 1
    on, every key names a task that exists, the outbox rows have distinct numbers, in
    order for one task, distinct event ids, and describe their payloads. *)
Record store_inv (d : db) : Prop := {
  si_id : forall id t, tasks d !! id = Some t -> ID t = id;
  si_version : forall id t, tasks d !! id = Some t -> 1 <= Version t <= Go.int64_max;
  si_keys : forall k r, keys d !! k = Some r -> is_Some (tasks d !! task_id r);
  si_ordered : outbox_ordered d;
  si_identity : identity_ok (ids d);
  si_events : NoDup (event_id <$> outbox d);
  si_describes : Forall describes (outbox d)
}.

Lemma store_inv_empty : store_inv empty_db.
Proof.
  split; cbn; try (intros ? ? H; by rewrite lookup_empty in H); [split_and!; constructor| |constructor|constructor].
  split; cbn; [set_solver|intros a k H; by rewrite lookup_empty in H].
Qed.

(** One change keeps the outbox part of the invariant. *)
Lemma changed_outbox (d d' : db) (r : orow) :
  store_inv d -> changed d d' r ->
  outbox_ordered d' /\ identity_ok (ids d') /\ NoDup (event_id <$> outbox d') /\ Forall describes (outbox d').
Proof.
  intros Hi [Ho _ Hd Hf Hid]. destruct (si_ordered d Hi) as (Hn & Hs & Hg). destruct (Hid (si_identity d Hi)) as [Hok Hnew Hkept Hlater].
  rewrite Forall_forall in Hg. unfold outbox_ordered. rewrite Ho, !fmap_app. cbn. split_and!.
  - apply NoDup_app. split_and!; [done| |apply NoDup_singleton]. intros z (x & -> & Hx)%list_elem_of_fmap Hz%list_elem_of_singleton.
    by destruct (Hlater x (Hg x Hx)).
  - apply sorted_snoc. split; [done|]. apply Forall_forall. intros x Hx. apply (Hlater x (Hg x Hx)).
  - apply Forall_app. split; [apply Forall_forall; intros x Hx; apply Hkept, Hg, Hx|]. constructor; [|constructor].
    destruct Hnew as (H1 & H2 & H3). split_and!; [done..|]. unfold past_mark. rewrite H3. apply Z.leb_gt. lia.
  - done.
  - apply NoDup_app. split_and!; [apply (si_events d Hi)| |apply NoDup_singleton]. set_solver.
  - apply Forall_app. split; [apply (si_describes d Hi)|by constructor].
Qed.

Lemma inv_insert (d d' : db) (r : orow) (id : string) (t : Task) :
  store_inv d -> changed d d' r -> tasks d' = <[id := t]> (tasks d) -> ID t = id ->
  1 <= Version t <= Go.int64_max ->
  (forall k x, keys d' !! k = Some x -> keys d !! k = Some x \/ task_id x = id) -> store_inv d'.
Proof.
  intros Hi Hc Ht Hid Hv Hk. destruct (changed_outbox d d' r Hi Hc) as (? & ? & ? & ?).
  split; try done; rewrite Ht.
  - intros i u [[<- <-]|[Hne Hu]]%lookup_insert_Some; [done|by apply (si_id d Hi)].
  - intros i u [[<- <-]|[Hne Hu]]%lookup_insert_Some; [done|by eapply (si_version d Hi)].
  - intros k x [Hx|Hx]%Hk.
    + destruct (decide (task_id x = id)) as [->|Hne]; [by rewrite lookup_insert_eq|].
      rewrite lookup_insert_ne by congruence. by apply (si_keys d Hi k).
    + by rewrite Hx, lookup_insert_eq.
Qed.

Lemma inv_delete (d d' : db) (r : orow) (id : string) :
  store_inv d -> changed d d' r -> tasks d' = delete id (tasks d) ->
  keys d' = filter (fun kr => task_id kr.2 <> id) (keys d) -> store_inv d'.
Proof.
  intros Hi Hc Ht Hk. destruct (changed_outbox d d' r Hi Hc) as (? & ? & ? & ?).
  split; try done; rewrite Ht.
  - intros i u [Hne Hu]%lookup_delete_Some. by apply (si_id d Hi).
  - intros i u [Hne Hu]%lookup_delete_Some. by eapply (si_version d Hi).
  - rewrite Hk. intros k x [Hx Hne]%map_lookup_filter_Some. cbn in Hne.
    rewrite lookup_delete_ne by congruence. by apply (si_keys d Hi k).
Qed.

(** Rows, still there or not, that were given their numbers in the order of their tasks; new
    rows keep it so. *)
Definition ordered_rows (q : identity) (l : list orow) : Prop := StronglySorted task_order l /\ Forall (given q) l.
Definition numbered (d d' : db) (rows : list orow) : Prop :=
  identity_ok (ids d) -> identity_ok (ids d') /\ forall l, ordered_rows (ids d) l -> ordered_rows (ids d') (l ++ rows).

(** [d'] follows [d] by the events it added: the state of the tasks is what these
    events make of the one before. *)
Definition follows (d d' : db) : Prop :=
  exists rows, outbox d' = outbox d ++ rows /\ replay (tasks d) (o_payload <$> rows) = Some (tasks d') /\ numbered d d' rows.

Lemma follows_same (d d' : db) : tasks d' = tasks d -> outbox d' = outbox d -> ids d' = ids d -> follows d d'.
Proof.
  intros Ht Ho Hn. exists []. rewrite Ho, app_nil_r, Ht. split_and!; [done..|]. intros Hok. rewrite Hn. split; [done|].
  intros l Hl. by rewrite app_nil_r.
Qed.

Lemma follows_changed (d d' : db) (r : orow) : changed d d' r -> follows d d'.
Proof.
  intros [Ho Ht _ _ Hid]. exists [r]. split_and!; [done|cbn; by rewrite Ht|]. intros Hok. destruct (Hid Hok) as [Hok' Hnew Hkept Hlater].
  split; [done|]. intros l [Hs Hg]. rewrite Forall_forall in Hg. split.
  - apply sorted_snoc. split; [done|]. apply Forall_forall. intros x Hx. apply (Hlater x (Hg x Hx)).
  - apply Forall_app. split; [apply Forall_forall; intros x Hx; apply Hkept, Hg, Hx|]. constructor; [|constructor].
    destruct Hnew as (H1 & H2 & H3). split_and!; [done..|]. unfold past_mark. rewrite H3. apply Z.leb_gt. lia.
Qed.

Lemma follows_trans (d1 d2 d3 : db) : follows d1 d2 -> follows d2 d3 -> follows d1 d3.
Proof.
  intros (r1 & Ho1 & Ht1 & Hn1) (r2 & Ho2 & Ht2 & Hn2). exists (r1 ++ r2).
  rewrite Ho2, Ho1, <- app_assoc. split_and!; [done|by rewrite fmap_app, replay_app, Ht1|].
  intros Hok. destruct (Hn1 Hok) as [Hok2 H1]. destruct (Hn2 Hok2) as [Hok3 H2]. split; [done|].
  intros l Hl. rewrite app_assoc. auto.
Qed.

(** The tables a create can leave. *)
Lemma Create_db (E : env) (gf : option string) (h : gmap string string) (eid id title : string)
    (idem : option IdempotencyKey) (d : db) :
  let d' := snd (Create E (fun d => d) gf h eid id title idem d) in
  d' = d \/ exists s, create_tx E h eid id title idem
    {| t_db := d; t_n := 0; t_aborted := false; t_loc := {| c_task := None; c_replayID := "" |} |} = (inl tt, s)
    /\ d' = t_db s.
Proof.
  unfold Create. pose proof (inTx_cases E {| c_task := None; c_replayID := "" |}
    (create_tx E h eid id title idem) d) as H. cbn zeta in H |- *.
  destruct (inTx _ _ _ _) as [[err v] d'].
  assert (Hs : snd (match err with
    | Some e => if is_replay e then match Get gf (c_replayID v) d' with
        | inl t => (t, true, None, d')
        | inr ge => (zero_task, false, Some (Wrapped "store: replay idempotent create" ge), d') end
        else (zero_task, false, Some e, d')
    | None => (default zero_task (c_task v), false, None, d') end) = d').
  { destruct err as [e|]; [destruct (is_replay e); [destruct (Get _ _ _)|]|]; done. }
  rewrite Hs. destruct H as [[-> _]|(s & Hf & _ & -> & _)]; [by left|right; eauto].
Qed.

(** Every call keeps the invariant, and what it changed is what its event says. *)
Lemma exec_follows (d : db) (o : op) : store_inv d -> store_inv (exec d o) /\ follows d (exec d o).
Proof.
  intros Hi. destruct o as [E gf h eid id title idem|E h eid id p x|E h eid id x|now ttl f l]; cbn [exec].
  - destruct (Create_db E gf h eid id title idem d) as [->|(s & Hs & ->)]; [split; [done|by apply follows_same]|].
    apply create_tx_changed in Hs as ([r Hc] & Hn & Ht & _ & Hk).
    split; [|by eapply follows_changed]. eapply inv_insert; [done..| |].
    + cbn. unfold Go.int64_max. lia.
    + destruct idem as [k|]; [destruct Hk as [_ Hk]|]; rewrite Hk; [|by left].
      intros k' y [[<- <-]|[_ Hy]]%lookup_insert_Some; [by right|by left].
  - unfold Update. pose proof (inTx_cases E None (update_tx E h eid id p x) d) as H. cbn zeta in H.
    destruct (inTx _ _ _ _) as [[err v] d']. cbn [snd].
    destruct H as [[-> _]|(s & Hs & _ & -> & _)]; [split; [done|by apply follows_same]|].
    apply update_tx_changed in Hs as (t & Hid & _ & Hmax & [r Hc] & Ht & Hk & _); [|by apply (si_id d Hi)].
    split; [|by eapply follows_changed]. pose proof (si_version d Hi id t Hid).
    eapply inv_insert; [done..| |rewrite Hk; by left]. cbn. unfold Go.int64_max in *. lia.
  - unfold Delete. pose proof (inTx_cases E tt (delete_tx E h eid id x) d) as H. cbn zeta in H.
    destruct (inTx _ _ _ _) as [[err v] d']. cbn [snd].
    destruct H as [[-> _]|(s & Hs & _ & -> & _)]; [split; [done|by apply follows_same]|].
    apply delete_tx_changed in Hs as (t & Hid & _ & [r Hc] & Ht & Hk).
    split; [by eapply inv_delete|by eapply follows_changed].
  - unfold PurgeIdempotencyKeys. destruct f; [split; [done|by apply follows_same]|].
    destruct l; (split; [|by apply follows_same]); destruct Hi; split; try done; cbn;
      intros k y [Hy _]%map_lookup_filter_Some; eauto.
Qed.

Lemma run_follows (ops : list op) (d : db) :
  store_inv d -> store_inv (foldl exec d ops) /\ follows d (foldl exec d ops).
Proof.
  revert d. induction ops as [|o ops IH]; intros d Hi; [split; [done|by apply follows_same]|].
  cbn [foldl]. destruct (exec_follows d o Hi) as [Hi' Hf]. destruct (IH _ Hi') as [H1 H2].
  split; [done|by eapply follows_trans].
Qed.

(** The database and the event stream cannot disagree. After any sequence of
    creates, updates, deletes and purges, whatever statements and commits failed
    or lost their answer, the tasks are exactly what replaying the outbox from
    nothing gives, where the replay refuses any event that does not fit (a create
    of an existing task, a version that does not follow, a delete of another
    version); the rows have distinct numbers, in order for each task, and distinct event ids. *)
Theorem tasks_are_replay_of_events (ops : list op) :
  let d := foldl exec empty_db ops in
  replay ∅ (o_payload <$> outbox d) = Some (tasks d) /\ store_inv d.
Proof.
  destruct (run_follows ops empty_db store_inv_empty) as [Hi (rows & Ho & Hr & _)].
  split; [|done]. rewrite Ho. exact Hr.
Qed.

(** ** Atomicity *)

(** Whether the answer of a commit that was applied got lost. *)
Definition lost (E : env) : bool := match e_commit E with CommitLost _ => true | _ => false end.

Lemma inTx_error {L} (E : env) (l0 : L) (fn : M L unit) (d : db) :
  let '(err, _, d') := inTx E l0 fn d in err <> None -> lost E = false -> d' = d.
Proof.
  unfold inTx, commit, lost. destruct (e_begin E); [done|]. destruct (fn _) as [[[]|e] s]; [|done].
  destruct (t_aborted s); [done|]. by destruct (e_commit E).
Qed.

Definition op_result (d : db) (o : op) : option serror :=
  match o with
  | OpCreate E gf h eid id title idem => snd (fst (Create E (fun d => d) gf h eid id title idem d))
  | OpUpdate E h eid id patch expect => snd (fst (Update E h eid id patch expect d))
  | OpDelete E h eid id expect => fst (Delete E h eid id expect d)
  | OpPurge now ttl f l => match fst (PurgeIdempotencyKeys now ttl f l d) with inl _ => None | inr e => Some e end
  end.

Definition op_lost (o : op) : bool :=
  match o with
  | OpCreate E _ _ _ _ _ _ => lost E
  | OpUpdate E _ _ _ _ _ => lost E
  | OpDelete E _ _ _ _ => lost E
  | OpPurge _ _ _ l => match l with Some _ => true | None => false end
  end.

Lemma Create_success (E : env) (gf : option string) (h : gmap string string) (eid id title : string)
    (idem : option IdempotencyKey) (d : db) :
  let '((_, replayed, err), d') := Create E (fun d => d) gf h eid id title idem d in
  err = None -> (replayed = true /\ d' = d) \/ (replayed = false /\ exists r, changed d d' r).
Proof.
  unfold Create, inTx, commit. destruct (e_begin E); [done|].
  destruct (create_tx _ _ _ _ _ _ _) as [[[]|e] s] eqn:Hs.
  - apply create_tx_changed in Hs as (Hr & _). destruct (t_aborted s); [done|].
    destruct (e_commit E); [|done..]. intros _. by right.
  - destruct (is_replay e); [|done]. destruct (Get gf _ d); [|done]. intros _. by left.
Qed.

(** A change and its event are written together or not at all: a call that
    returns an error (and whose commit was not applied behind a lost answer) leaves
    every table as it was; one that returns no error added exactly one event row,
    whose payload turns the tasks before into the tasks after (a replayed create
    changed nothing). *)
Theorem change_is_atomic (d : db) (o : op) :
  store_inv d ->
  (op_result d o <> None -> op_lost o = false -> exec d o = d) /\
  (op_result d o = None ->
   match o with
   | OpCreate E gf h eid id title idem =>
       let replayed := snd (fst (fst (Create E (fun d => d) gf h eid id title idem d))) in
       (replayed = true /\ exec d o = d) \/ (replayed = false /\ exists r, changed d (exec d o) r)
   | OpUpdate _ _ _ _ _ _ | OpDelete _ _ _ _ _ => exists r, changed d (exec d o) r
   | OpPurge _ _ _ _ => tasks (exec d o) = tasks d /\ outbox (exec d o) = outbox d
   end).
Proof.
  intros Hi. destruct o as [E gf h eid id title idem|E h eid id p x|E h eid id x|now ttl f l];
    cbn [exec op_result op_lost].
  - split.
    2: { pose proof (Create_success E gf h eid id title idem d) as H.
      destruct (Create _ _ _ _ _ _ _ _ _) as [[[t rp] err] d']. exact H. }
    intros He Hl. unfold Create in *.
    pose proof (inTx_error E {| c_task := None; c_replayID := "" |} (create_tx E h eid id title idem) d) as H.
    destruct (inTx _ _ _ _) as [[[e|] v] d']; [|done].
    specialize (H ltac:(done) Hl) as ->. destruct (is_replay e); [|done].
    by destruct (Get gf (c_replayID v) d).
  - unfold Update in *. pose proof (inTx_error E None (update_tx E h eid id p x) d) as H.
    pose proof (inTx_cases E None (update_tx E h eid id p x) d) as Hc. cbn zeta in Hc.
    destruct (inTx _ _ _ _) as [[err v] d']. cbn in *. split; [by intros; apply H|].
    intros ->. destruct Hc as [[_ Hc]|(s & Hs & _ & -> & _)]; [done|].
    apply update_tx_changed in Hs as (t & _ & _ & _ & Hr & _); [done|by apply (si_id d Hi)].
  - unfold Delete in *. pose proof (inTx_error E tt (delete_tx E h eid id x) d) as H.
    pose proof (inTx_cases E tt (delete_tx E h eid id x) d) as Hc. cbn zeta in Hc.
    destruct (inTx _ _ _ _) as [[err v] d']. cbn in *. split; [by intros; apply H|].
    intros ->. destruct Hc as [[_ Hc]|(s & Hs & _ & -> & _)]; [done|].
    by apply delete_tx_changed in Hs as (t & _ & _ & Hr & _).
  - unfold PurgeIdempotencyKeys. destruct f; [done|]. by destruct l.
Qed.

Lemma change_is_atomic_witness :
  exec empty_db (OpUpdate (quiet 5) ∅ "e" "nope" {| PTitle := None; PDone := Some true |} None) = empty_db.
Proof. apply change_is_atomic; [apply store_inv_empty|vm_compute; discriminate|reflexivity]. Defined.

(** ** Idempotent creation *)

Lemma create_tx_key (E : env) (h : gmap string string) (eid id title : string) (k : IdempotencyKey)
    (d : db) (v : create_vars) (r : irow) :
  keys d !! Key k = Some r ->
  let '(res, s) := create_tx E h eid id title (Some k)
    {| t_db := d; t_n := 0; t_aborted := false; t_loc := v |} in
  exists e, res = inr e /\ (e = Replay -> c_replayID (t_loc s) = task_id r /\ request_hash r = Hash k) /\
    (is_replay e = true -> e = Replay).
Proof.
  intros Hk. unfold create_tx, query, bind, stmt, insert_task. cbn.
  destruct (e_stmt E 0); cbn; [by eexists|]. destruct (tasks d !! id); cbn; [by eexists|].
  destruct (e_stmt E 1); cbn; [by eexists|]. unfold insert_key. cbn. rewrite Hk. cbn.
  destruct (String.eqb_spec (request_hash r) (Hash k)); cbn; by eexists.
Qed.

Lemma create_tx_nokey (E : env) (h : gmap string string) (eid id title : string)
    (idem : option IdempotencyKey) (d : db) (v : create_vars) :
  match idem with Some k => keys d !! Key k = None | None => True end ->
  match fst (create_tx E h eid id title idem
    {| t_db := d; t_n := 0; t_aborted := false; t_loc := v |}) with
  | inr e => is_replay e = false
  | inl _ => True
  end.
Proof.
  intros Hk. unfold create_tx, query, bind, stmt, insert_task. cbn.
  destruct (e_stmt E 0); cbn; [done|]. destruct (tasks d !! id); cbn; [done|].
  unfold createdEvent. destruct idem as [k|]; cbn.
  - destruct (e_stmt E 1); cbn; [done|]. unfold insert_key. cbn. rewrite Hk. cbn.
    destruct (json_time_ok (e_now E)); [|done]. unfold Enqueue, query, stmt, bind. cbn.
    destruct (e_stmt E 2); cbn; [done|]. by destruct (insert_outbox _ _ _ _ _) as [[]|].
  - destruct (json_time_ok (e_now E)); [|done]. unfold Enqueue, query, stmt, bind. cbn.
    destruct (e_stmt E 1); cbn; [done|]. by destruct (insert_outbox _ _ _ _ _) as [[]|].
Qed.

(** One create with a key, by whether the key is taken. *)
Lemma Create_key (E : env) (gf : option string) (h : gmap string string) (eid id title : string)
    (k : IdempotencyKey) (d : db) :
  let '((t, replayed, err), d') := Create E (fun d => d) gf h eid id title (Some k) d in
  match keys d !! Key k with
  | Some r => d' = d /\ (err = None -> replayed = true /\ request_hash r = Hash k /\ tasks d !! task_id r = Some t)
  | None =>
      (d' = d /\ err <> None) \/
      (exists t', tasks d' = <[id := t']> (tasks d) /\ tasks d !! id = None /\
        keys d' !! Key k = Some {| request_hash := Hash k; task_id := id; i_created_at := e_now E |} /\
        (exists row, changed d d' row) /\ (err = None -> t = t' /\ replayed = false))
  end.
Proof.
  unfold Create, inTx, commit. destruct (keys d !! Key k) as [r|] eqn:Hk.
  - pose proof (create_tx_key E h eid id title k d {| c_task := None; c_replayID := "" |} r Hk) as Ht.
    destruct (e_begin E); [done|].
    destruct (create_tx _ _ _ _ _ _ _) as [res s]. destruct Ht as (e & -> & He & Hr).
    destruct (is_replay e) eqn:Hre; [|done]. specialize (Hr eq_refl) as ->.
    destruct (He eq_refl) as [Hid Hh]. rewrite Hid. unfold Get. destruct gf; [done|].
    destruct (tasks d !! task_id r) eqn:Hx; [|done]. split; [done|]. intros _. by simplify_eq.
  - destruct (e_begin E); [by left|].
    pose proof (create_tx_nokey E h eid id title (Some k) d {| c_task := None; c_replayID := "" |} Hk) as Hn.
    destruct (create_tx _ _ _ _ _ _ _) as [[[]|e] s] eqn:Hs; cbn [fst] in Hn; [|rewrite Hn; by left].
    apply create_tx_changed in Hs as (Hr & Hid & Ht & Htask & _ & Hkeys).
    destruct (t_aborted s); [by left|]. destruct (e_commit E); [right|by left|right]; cbn;
      (eexists; split_and!; [exact Ht|exact Hid|rewrite Hkeys; apply lookup_insert_eq|exact Hr|]);
      [by rewrite Htask|done].
Qed.

(** A client that repeats a create under one key: each attempt with its own new
    ids and its own faults. *)
Record attempt := {
  a_env : env; a_get : option string; a_hdrs : gmap string string;
  a_event : string; a_id : string; a_title : string
}.

Fixpoint attempts (l : list attempt) (k : IdempotencyKey) (d : db)
    : list (Task * bool * option serror) * db :=
  match l with
  | [] => ([], d)
  | a :: l =>
      let '(r, d) := Create (a_env a) (fun d => d) (a_get a) (a_hdrs a) (a_event a) (a_id a) (a_title a) (Some k) d in
      let '(rs, d) := attempts l k d in (r :: rs, d)
  end.

Lemma attempts_taken (l : list attempt) (k : IdempotencyKey) (d : db) (r : irow) :
  keys d !! Key k = Some r ->
  let '(rs, d') := attempts l k d in
  d' = d /\ Forall (fun x => snd x = None ->
    snd (fst x) = true /\ request_hash r = Hash k /\ tasks d !! task_id r = Some (fst (fst x))) rs.
Proof.
  intros Hk. induction l as [|a l IH]; cbn [attempts]; [by split|].
  pose proof (Create_key (a_env a) (a_get a) (a_hdrs a) (a_event a) (a_id a) (a_title a) k d) as H.
  destruct (Create _ _ _ _ _ _ _ _ _) as [[[t rep] err] d1]. rewrite Hk in H. destruct H as [-> H].
  destruct (attempts l k d) as [rs d2]. destruct IH as [-> IH]. split; [done|]. by constructor.
Qed.

Lemma attempts_once (l : list attempt) (k : IdempotencyKey) (d : db) :
  keys d !! Key k = None ->
  let '(rs, d') := attempts l k d in
  (d' = d /\ Forall (fun x => snd x <> None) rs) \/
  (exists id t row, tasks d !! id = None /\ tasks d' = <[id := t]> (tasks d) /\ changed d d' row /\
    Forall (fun x => snd x = None -> fst (fst x) = t) rs).
Proof.
  intros Hk. induction l as [|a l IH]; cbn [attempts]; [by left|].
  pose proof (Create_key (a_env a) (a_get a) (a_hdrs a) (a_event a) (a_id a) (a_title a) k d) as H.
  destruct (Create _ _ _ _ _ _ _ _ _) as [[[t rep] err] d1]. rewrite Hk in H.
  destruct H as [[-> He]|(t' & Ht & Hid & Hk' & [row Hr] & He)].
  - destruct (attempts l k d) as [rs d2]. destruct IH as [[-> IH]|(id & u & row & H1 & H2 & H3 & H4)].
    + left. split; [done|by constructor].
    + right. exists id, u, row. split_and!; try done. by constructor.
  - clear IH. pose proof (attempts_taken l k d1 _ Hk') as Hl.
    destruct (attempts l k d1) as [rs d2]. destruct Hl as [-> Hl]. right.
    exists (a_id a), t', row. split_and!; try done. constructor; [by intros [-> _]%He|].
    eapply Forall_impl; [exact Hl|]. intros x Hx Hn. destruct (Hx Hn) as (_ & _ & Hx').
    cbn in Hx'. rewrite Ht, lookup_insert_eq in Hx'. congruence.
Qed.

(** C8: however often a create is repeated under one idempotency key, and
    whatever statements fail, commits fail or lose their answers, at most one task
    and one event come out of it, and every attempt that answers without an error
    returns that same task. *)
Theorem repeated_create_is_once (l : list attempt) (k : IdempotencyKey) (d : db) :
  keys d !! Key k = None ->
  let '(rs, d') := attempts l k d in
  (length (outbox d') <= S (length (outbox d)))%nat /\ (size (tasks d') <= S (size (tasks d)))%nat /\
  (forall x y, x ∈ rs -> y ∈ rs -> snd x = None -> snd y = None -> fst (fst x) = fst (fst y)) /\
  (forall x, x ∈ rs -> snd x = None -> exists id, tasks d !! id = None /\ tasks d' !! id = Some (fst (fst x))).
Proof.
  intros Hk. pose proof (attempts_once l k d Hk) as H. destruct (attempts l k d) as [rs d'].
  destruct H as [[-> H]|(id & t & row & Hid & Ht & Hr & H)]; rewrite Forall_forall in H.
  - split_and!; [lia..| |]; intros x; [intros y Hx _ Hn|intros Hx Hn]; by apply H in Hx.
  - rewrite (ch_outbox _ _ _ Hr), length_app, Ht, map_size_insert_None by done. cbn.
    split_and!; [lia..| |].
    + intros x y Hx Hy Hx' Hy'. by rewrite (H x Hx Hx'), (H y Hy Hy').
    + intros x Hx Hn. exists id. by rewrite lookup_insert_eq, (H x Hx Hn).
Qed.

Lemma repeated_create_is_once_witness :
  let '(rs, d') := attempts
    [{| a_env := {| e_now := 7; e_gap := 0; e_early := None; e_begin := None; e_stmt := fun _ => None; e_commit := CommitLost "timeout" |};
        a_get := None; a_hdrs := ∅; a_event := "e1"; a_id := "t1"; a_title := "x" |};
     {| a_env := quiet 8; a_get := None; a_hdrs := ∅; a_event := "e2"; a_id := "t2"; a_title := "x" |}]
    {| Key := "k"; Hash := "h" |} empty_db in
  (length (outbox d') <= 1)%nat /\ length rs = 2%nat.
Proof.
  split; [|reflexivity].
  pose proof (repeated_create_is_once
    [{| a_env := {| e_now := 7; e_gap := 0; e_early := None; e_begin := None; e_stmt := fun _ => None; e_commit := CommitLost "timeout" |};
        a_get := None; a_hdrs := ∅; a_event := "e1"; a_id := "t1"; a_title := "x" |};
     {| a_env := quiet 8; a_get := None; a_hdrs := ∅; a_event := "e2"; a_id := "t2"; a_title := "x" |}]
    {| Key := "k"; Hash := "h" |} empty_db eq_refl) as H. destruct H as [H _]. exact H.
Defined.

(** The replayed answer of a repeat, computed. *)
Example replay_answer :
  let d := snd (Create (quiet 7) (fun d => d) None ∅ "e1" "t1" "x" (Some {| Key := "k"; Hash := "h" |}) empty_db) in
  fst (Create (quiet 8) (fun d => d) None ∅ "e2" "t2" "x" (Some {| Key := "k"; Hash := "h" |}) d)
    = ({| ID := "t1"; Title := "x"; Done := false; Version := 1; CreatedAt := 7 |}, true, None) /\
  snd (fst (Create (quiet 8) (fun d => d) None ∅ "e2" "t2" "x" (Some {| Key := "k"; Hash := "other" |}) d))
    = Some (Dom ErrIdempotencyKeyReused).
Proof. vm_compute. done. Qed.

(** ** Optimistic concurrency *)

Lemma insert_outbox_quiet (now : Z) (gap : nat) (early : option Z) (e : Event) (h : gmap string string) (d : db) :
  EvID e ∉ (event_id <$> outbox d) -> exists d', insert_outbox now gap early e h d = inl (tt, d').
Proof.
  intros He. unfold insert_outbox. destruct (existsb _ _) eqn:Hx; [|destruct (allot _ _ _ _); eauto].
  exfalso. apply He. apply existsb_exists in Hx as (r & Hr & Hx). apply String.eqb_eq in Hx as <-.
  apply list_elem_of_fmap. exists r. split; [done|by apply list_elem_of_In].
Qed.

Lemma update_tx_quiet (d : db) (now : Z) (h : gmap string string) (eid id : string) (p : Patch)
    (x : option Z) (t : Task) :
  tasks d !! id = Some t -> version_matches x t = true -> Version t <> Go.int64_max ->
  eid ∉ (event_id <$> outbox d) ->
  exists s, update_tx (quiet now) h eid id p x
    {| t_db := d; t_n := 0; t_aborted := false; t_loc := None |} = (inl tt, s) /\ t_aborted s = false.
Proof.
  intros Hid Hv Hm He. unfold update_tx, query, bind, stmt, update_task. cbn. rewrite Hid. cbn.
  rewrite Hv. cbn. rewrite (proj2 (Z.eqb_neq _ _) Hm). cbn.
  unfold Enqueue, query, bind, stmt. cbn.
  match goal with |- context [insert_outbox now 0 None ?e h ?d'] =>
    destruct (insert_outbox_quiet now 0 None e h d' He) as [d'' ->] end.
  by eexists.
Qed.

(** An update without faults, on every branch: an unknown id is
    [ErrNotFound], a version other than the expected one [ErrVersionMismatch], and
    neither changes anything; otherwise the fields the patch sets are written, the
    version grows by one, the creation time stays, and the new row is returned. *)
Theorem update_exact (d : db) (now : Z) (h : gmap string string) (eid id : string) (p : Patch) (x : option Z) :
  store_inv d -> eid ∉ (event_id <$> outbox d) ->
  let '((t', err), d') := Update (quiet now) h eid id p x d in
  match tasks d !! id with
  | None => err = Some (Dom ErrNotFound) /\ d' = d
  | Some t =>
      if negb (version_matches x t) then err = Some (Dom ErrVersionMismatch) /\ d' = d
      else if Version t =? Go.int64_max then err <> None /\ d' = d
      else err = None /\ Version t' = Version t + 1 /\ t' = {| ID := id;
             Title := Title (Apply p t); Done := Done (Apply p t); Version := Version t'; CreatedAt := CreatedAt t |} /\
           tasks d' = <[id := t']> (tasks d) /\ exists r, changed d d' r
  end.
Proof.
  intros Hi He. destruct (tasks d !! id) as [t|] eqn:Hid;
    [destruct (version_matches x t) eqn:Hv; cbn [negb];
      [destruct (Z.eqb_spec (Version t) Go.int64_max) as [Hm|Hm]|]|].
  2: { destruct (update_tx_quiet d now h eid id p x t Hid Hv Hm He) as [s [Hs Ha]].
    unfold Update, inTx, commit. cbn [e_begin quiet]. rewrite Hs, Ha. cbn [e_commit quiet].
    apply update_tx_changed in Hs as (t0 & Ht0 & _ & _ & Hr & Ht & _ & Hl); [|by apply (si_id d Hi)].
    simplify_eq. rewrite Hl. cbn. split_and!; try done. }
  all: unfold Update, inTx, update_tx, missOrMismatch, query, bind, stmt, update_task, task_exists; cbn;
    rewrite Hid; cbn; rewrite ?Hv; cbn; rewrite ?Hid; try done.
  by rewrite (proj2 (Z.eqb_eq _ _) Hm).
Qed.

Lemma update_exact_witness :
  let d := exec empty_db (OpCreate (quiet 7) None ∅ "e1" "t1" "x" None) in
  let '((t, err), d') := Update (quiet 8) ∅ "e2" "t1" {| PTitle := Some "y"; PDone := None |} (Some 1) d in
  err = None /\ Version t = 2.
Proof.
  pose proof (update_exact (exec empty_db (OpCreate (quiet 7) None ∅ "e1" "t1" "x" None)) 8 ∅ "e2" "t1"
    {| PTitle := Some "y"%string; PDone := None |} (Some 1)
    (proj1 (exec_follows _ _ store_inv_empty)) ltac:(vm_compute; set_solver)) as H.
  vm_compute in H |- *. destruct H as (H1 & H2 & _). by split.
Defined.

(** A call on [id] that is not its deletion never takes its version back. *)
Lemma exec_version (d : db) (o : op) (id : string) (t : Task) :
  store_inv d -> tasks d !! id = Some t ->
  match o with OpDelete _ _ _ i _ => i <> id | _ => True end ->
  exists t', tasks (exec d o) !! id = Some t' /\ Version t <= Version t'.
Proof.
  intros Hi Ht Ho. destruct o as [E gf h eid i title idem|E h eid i p x|E h eid i x|now ttl f l]; cbn [exec].
  - destruct (Create_db E gf h eid i title idem d) as [->|(s & Hs & ->)]; [eauto with lia|].
    apply create_tx_changed in Hs as (_ & Hn & -> & _). rewrite lookup_insert_ne by congruence. eauto with lia.
  - unfold Update. pose proof (inTx_cases E None (update_tx E h eid i p x) d) as H. cbn zeta in H.
    destruct (inTx _ _ _ _) as [[err v] d']. cbn [snd].
    destruct H as [[-> _]|(s & Hs & _ & -> & _)]; [eauto with lia|].
    apply update_tx_changed in Hs as (u & Hu & _ & _ & _ & -> & _); [|by apply (si_id d Hi)].
    destruct (decide (i = id)) as [->|Hne].
    + rewrite lookup_insert_eq. simplify_eq. eexists. split; [done|]. cbn. lia.
    + rewrite lookup_insert_ne by done. eauto with lia.
  - unfold Delete. pose proof (inTx_cases E tt (delete_tx E h eid i x) d) as H. cbn zeta in H.
    destruct (inTx _ _ _ _) as [[err v] d']. cbn [snd].
    destruct H as [[-> _]|(s & Hs & _ & -> & _)]; [eauto with lia|].
    apply delete_tx_changed in Hs as (u & Hu & _ & _ & -> & _). rewrite lookup_delete_ne by done. eauto with lia.
  - unfold PurgeIdempotencyKeys. destruct f; [eauto with lia|]. destruct l; cbn; eauto with lia.
Qed.

Lemma run_version (ops : list op) (d : db) (id : string) (t : Task) :
  store_inv d -> tasks d !! id = Some t ->
  Forall (fun o => match o with OpDelete _ _ _ i _ => i <> id | _ => True end) ops ->
  exists t', tasks (foldl exec d ops) !! id = Some t' /\ Version t <= Version t'.
Proof.
  revert d t. induction ops as [|o ops IH]; intros d t Hi Ht Hops; [eauto with lia|].
  inversion_clear Hops as [|? ? Ho Hos]. cbn [foldl].
  destruct (exec_version d o id t Hi Ht Ho) as (t' & Ht' & Hv).
  destruct (IH _ t' (proj1 (exec_follows d o Hi)) Ht' Hos) as (u & Hu & Hv').
  exists u. split; [done|lia].
Qed.

(** A conditional update that went through ran at the version it named. *)
Lemma update_success (d d' : db) (E : env) (h : gmap string string) (eid id : string) (p : Patch) (v : Z) (t : Task) :
  store_inv d -> Update E h eid id p (Some v) d = ((t, None), d') ->
  (exists u, tasks d !! id = Some u /\ Version u = v) /\ tasks d' !! id = Some t /\ Version t = v + 1.
Proof.
  intros Hi. unfold Update. pose proof (inTx_cases E None (update_tx E h eid id p (Some v)) d) as H.
  cbn zeta in H. destruct (inTx _ _ _ _) as [[err o] d0]. intros [= <- -> <-].
  destruct H as [[_ H]|(s & Hs & _ & -> & ->)]; [done|].
  apply update_tx_changed in Hs as (u & Hu & Hv & _ & _ & -> & _ & ->); [|by apply (si_id d Hi)].
  cbn in *. apply Z.eqb_eq in Hv. rewrite lookup_insert_eq. eauto with lia.
Qed.

(** C10: no update is lost. Once a conditional update has gone through at a
    version, every later conditional update or delete that still names that version
    fails and changes nothing, whatever the service did in between (unless the task
    itself was deleted). *)
Theorem no_lost_update (d d1 : db) (E E' : env) (h h' : gmap string string) (eid eid' id : string)
    (p p' : Patch) (v : Z) (t : Task) (ops : list op) :
  store_inv d -> Update E h eid id p (Some v) d = ((t, None), d1) ->
  Forall (fun o => match o with OpDelete _ _ _ i _ => i <> id | _ => True end) ops ->
  let d2 := foldl exec d1 ops in
  (snd (fst (Update E' h' eid' id p' (Some v) d2)) <> None /\ snd (Update E' h' eid' id p' (Some v) d2) = d2) /\
  (fst (Delete E' h' eid' id (Some v) d2) <> None /\ snd (Delete E' h' eid' id (Some v) d2) = d2).
Proof.
  intros Hi Hu Hops. cbn zeta.
  assert (Hi1 : store_inv d1).
  { replace d1 with (exec d (OpUpdate E h eid id p (Some v))) by (cbn [exec]; by rewrite Hu).
    by apply exec_follows. }
  destruct (update_success d d1 E h eid id p v t Hi Hu) as (_ & Ht & Hv).
  destruct (run_version ops d1 id t Hi1 Ht Hops) as (u & Hu2 & Hv2).
  destruct (run_follows ops d1 Hi1) as [Hi2 _]. set (d2 := foldl exec d1 ops) in *.
  assert (Hne : version_matches (Some v) u = false) by (cbn; apply Z.eqb_neq; lia).
  split.
  - unfold Update. pose proof (inTx_cases E' None (update_tx E' h' eid' id p' (Some v)) d2) as H.
    cbn zeta in H. destruct (inTx _ _ _ _) as [[err o] d0]. cbn.
    destruct H as [[-> H]|(s & Hs & _)]; [done|].
    apply update_tx_changed in Hs as (u' & Hu' & Hv' & _); [congruence|by apply (si_id d2 Hi2)].
  - unfold Delete. pose proof (inTx_cases E' tt (delete_tx E' h' eid' id (Some v)) d2) as H.
    cbn zeta in H. destruct (inTx _ _ _ _) as [[err o] d0]. cbn.
    destruct H as [[-> H]|(s & Hs & _)]; [done|].
    apply delete_tx_changed in Hs as (u' & Hu' & Hv' & _). congruence.
Qed.

Lemma no_lost_update_witness :
  let d := exec empty_db (OpCreate (quiet 7) None ∅ "e1" "t1" "x" None) in
  let d1 := snd (Update (quiet 8) ∅ "e2" "t1" {| PTitle := Some "y"; PDone := None |} (Some 1) d) in
  snd (Update (quiet 9) ∅ "e3" "t1" {| PTitle := Some "z"; PDone := None |} (Some 1) d1) = d1.
Proof.
  cbv zeta. apply (no_lost_update (exec empty_db (OpCreate (quiet 7) None ∅ "e1" "t1" "x" None)) _
    (quiet 8) (quiet 9) ∅ ∅ "e2" "e3" "t1" {| PTitle := Some "y"%string; PDone := None |}
    {| PTitle := Some "z"%string; PDone := None |} 1
    {| ID := "t1"; Title := "y"; Done := false; Version := 2; CreatedAt := 7 |} []).
  - apply exec_follows, store_inv_empty.
  - vm_compute. reflexivity.
  - constructor.
Defined.

End Store.
