(* ===== verification/Paging.v ===== *)
(** Keyset pagination of the tasks (services/tasks/internal/store/store.go,
    [List]; services/tasks/internal/domain/page.go): pages in (created_at DESC,
    id DESC) order, continued after a cursor. *)
From stdpp Require Import sorting.
From S2P Require Import Prelude GoStr Domain Database Store.

Module Paging.
Import Domain Database Store.

(** What the database promises of the comparison of two TEXT values: a total
    order (its collation is deterministic). *)
Class Collation := {
  id_le : relation string;
  id_le_dec :: RelDecision id_le;
  id_le_po :: PartialOrder id_le;
  id_le_total :: Total id_le
}.

(** The "C" collation compares bytes. *)
#[export] Instance c_collation : Collation := {| id_le := String.le |}.

Section Paging.
Context `{Collation}.

(** ** The order *)

(** Row values [(created_at, id)]. *)
Definition pos : Type := Z * string.
Definition pos_of (t : Task) : pos := (CreatedAt t, ID t).
Definition pos_of_cursor (c : Cursor) : pos := (CCreatedAt c, CID c).

Definition pos_le (p q : pos) : Prop := p.1 < q.1 \/ (p.1 = q.1 /\ id_le p.2 q.2).
Definition pos_lt (p q : pos) : Prop := pos_le p q /\ p <> q.

#[export] Instance pos_le_dec : RelDecision pos_le.
Proof. intros p q. apply _. Defined.
#[export] Instance pos_lt_dec : RelDecision pos_lt.
Proof. intros p q. apply _. Defined.

(** [ORDER BY created_at DESC, id DESC] *)
Definition newer_eq (a b : Task) : Prop := pos_le (pos_of b) (pos_of a).
Definition newer (a b : Task) : Prop := pos_lt (pos_of b) (pos_of a).

#[export] Instance newer_eq_dec : RelDecision newer_eq.
Proof. intros a b. unfold newer_eq. apply _. Defined.

(** ** List *)

Definition after (c : option Cursor) (t : Task) : Prop :=
  match c with None => True | Some c => pos_lt (pos_of t) (pos_of_cursor c) end.

#[export] Instance after_dec (c : option Cursor) (t : Task) : Decision (after c t).
Proof. destruct c; apply _. Defined.

(** The rows a query selects, in order; [LIMIT n] keeps the first [n]. *)
Definition selected (c : option Cursor) (d : db) : list Task :=
  merge_sort newer_eq (filter (after c) ((map_to_list (tasks d)).*2)).

Definition page_limit (limit : Z) : Z :=
  if (limit <=? 0) || (MaxPageSize <? limit) then DefaultPageSize else limit.

Definition List (fault : option string) (req : PageRequest) (d : db) : Page + serror :=
  let limit := Z.to_nat (page_limit (Limit req)) in
  match fault with
  | Some e => inr (Driver "store: list tasks" e)
  | None =>
      let ts := take (limit + 1) (selected (RCursor req) d) in
      if (limit <? length ts)%nat then
        let ts := take limit ts in
        inl {| Tasks := ts; Next := CursorAfter <$> last ts |}
      else inl {| Tasks := ts; Next := None |}
  end.

(** A client that walks the pages, each read from the database as it then is;
    the tasks it saw, and whether the walk reached the last page. *)
Fixpoint walk (ds : list db) (limit : Z) (c : option Cursor) : list Task * bool :=
  match ds with
  | [] => ([], false)
  | d :: ds =>
      match List None {| Limit := limit; RCursor := c |} d with
      | inr _ => ([], false)
      | inl p =>
          match Next p with
          | None => (Tasks p, true)
          | Some c' => let '(ts, fin) := walk ds limit (Some c') in (Tasks p ++ ts, fin)
          end
      end
  end.

(** ** The order is total *)

#[local] Instance pos_le_po : PartialOrder pos_le.
Proof.
  split; [split|].
  - intros p. right. by split.
  - intros p q r [Hp|[Hp Hi]] [Hq|[Hq Hj]]; [left; lia..|]. right. split; [lia|by etrans].
  - intros [a s] [b t] [Hp|[Hp Hi]] [Hq|[Hq Hj]]; cbn in *; try lia. f_equal; [done|].
    by apply (anti_symm id_le).
Qed.

#[local] Instance pos_le_total : Total pos_le.
Proof.
  intros p q. unfold pos_le. destruct (Z.lt_trichotomy p.1 q.1) as [?|[?|?]]; [by left; left| |by right; left].
  destruct (total id_le p.2 q.2); [left|right]; right; auto.
Qed.

#[local] Instance newer_eq_total : Total newer_eq.
Proof. intros a b. unfold newer_eq. destruct (total pos_le (pos_of a) (pos_of b)); auto. Qed.

#[local] Instance newer_eq_trans : Transitive newer_eq.
Proof. intros a b c. unfold newer_eq. intros H1 H2. by etrans. Qed.

Lemma pos_lt_le (p q r : pos) : pos_lt p q -> pos_le q r -> pos_lt p r.
Proof.
  intros [Hl Hn] Hr. split; [by etrans|]. intros ->. apply Hn. by apply (anti_symm pos_le).
Qed.

Lemma pos_le_lt (p q r : pos) : pos_le p q -> pos_lt q r -> pos_lt p r.
Proof.
  intros Hl [Hr Hn]. split; [by etrans|]. intros ->. apply Hn. by apply (anti_symm pos_le).
Qed.

Lemma not_pos_lt (p q : pos) : ~ pos_lt p q -> pos_le q p.
Proof.
  intros Hn. destruct (total pos_le q p) as [|Hle]; [done|].
  destruct (decide (p = q)) as [->|Hne]; [done|]. exfalso. apply Hn. by split.
Qed.

(** ** The rows of a page *)

Lemma elem_of_selected (c : option Cursor) (d : db) (t : Task) :
  t ∈ selected c d <-> after c t /\ exists id, tasks d !! id = Some t.
Proof.
  unfold selected. rewrite merge_sort_Permutation, list_elem_of_filter, list_elem_of_fmap.
  split; intros [Ha Ht]; (split; [done|]).
  - destruct Ht as ([id u] & -> & Ht%elem_of_map_to_list). by exists id.
  - destruct Ht as [id Ht]. exists (id, t). by rewrite elem_of_map_to_list.
Qed.

Lemma selected_nodup (c : option Cursor) (d : db) :
  store_inv d -> NoDup (pos_of <$> selected c d).
Proof.
  intros Hi. unfold selected. rewrite merge_sort_Permutation.
  assert (Hn : NoDup (ID <$> (map_to_list (tasks d)).*2)).
  { replace (ID <$> (map_to_list (tasks d)).*2) with ((map_to_list (tasks d)).*1); [apply NoDup_fst_map_to_list|].
    rewrite <- list_fmap_compose. apply list_fmap_ext. intros i [id t] Ht. cbn.
    symmetry. apply (si_id d Hi), elem_of_map_to_list. by eapply list_elem_of_lookup_2. }
  revert Hn. generalize ((map_to_list (tasks d)).*2) as l. induction l as [|t l IH]; intros Hn; [constructor|].
  cbn in Hn. inversion_clear Hn as [|? ? Ht Hl]. rewrite filter_cons.
  destruct (decide (after c t)); [|by apply IH]. cbn. constructor; [|by apply IH].
  intros (u & Hu & Hin)%list_elem_of_fmap. apply list_elem_of_filter in Hin as [_ Hin].
  apply Ht, list_elem_of_fmap. exists u. split; [|done]. by injection Hu.
Qed.

Lemma sorted_strict (l : list Task) :
  StronglySorted newer_eq l -> NoDup (pos_of <$> l) -> StronglySorted newer l.
Proof.
  induction 1 as [|t l Hs IH Hf]; intros Hn; [constructor|]. cbn in Hn.
  inversion_clear Hn as [|? ? Ht Hl]. constructor; [by apply IH|].
  rewrite Forall_forall in Hf |- *. intros u Hu. split; [by apply Hf|].
  intros He. apply Ht. rewrite <- He. apply list_elem_of_fmap. eauto.
Qed.

Lemma selected_sorted (c : option Cursor) (d : db) :
  store_inv d -> StronglySorted newer (selected c d).
Proof.
  intros Hi. apply sorted_strict; [|by apply selected_nodup].
  apply StronglySorted_merge_sort; apply _.
Qed.

(** A page: all that is left, or a full page whose cursor separates it from the
    rest. *)
Lemma List_page (limit : Z) (c : option Cursor) (d : db) :
  store_inv d ->
  exists p, List None {| Limit := limit; RCursor := c |} d = inl p /\
  StronglySorted newer (Tasks p) /\ Forall (after c) (Tasks p) /\
  Forall (fun t => exists id, tasks d !! id = Some t) (Tasks p) /\
  match Next p with
  | None => Tasks p = selected c d
  | Some c' =>
      length (Tasks p) = Z.to_nat (page_limit limit) /\
      Forall (fun t => pos_le (pos_of_cursor c') (pos_of t)) (Tasks p) /\
      (exists u, u ∈ Tasks p /\ c' = CursorAfter u) /\
      exists rest, selected c d = Tasks p ++ rest /\ Forall (after (Some c')) rest
  end.
Proof.
  intros Hi. unfold List. cbn [Limit RCursor]. set (n := Z.to_nat (page_limit limit)).
  assert (Hn : (0 < n)%nat).
  { unfold n, page_limit, DefaultPageSize, MaxPageSize.
    destruct (Z.leb_spec limit 0), (Z.ltb_spec 200 limit); cbn; lia. }
  pose proof (selected_sorted c d Hi) as Hs.
  assert (Hall : Forall (fun t => after c t /\ exists id, tasks d !! id = Some t) (selected c d)).
  { apply Forall_forall. intros t. apply elem_of_selected. }
  revert Hs Hall. generalize (selected c d) as l. intros l Hs Hall.
  destruct (Nat.ltb_spec n (length (take (n + 1) l))) as [Hlt|Hge]; rewrite length_take in *.
  - eexists. split; [done|]. cbn [Tasks Next]. rewrite take_take, Nat.min_l by lia.
    rewrite <- (take_drop n l) in Hs, Hall. apply Forall_app in Hall as [Hall _].
    assert (Hlen : length (take n l) = n) by (rewrite length_take; lia).
    destruct (last (take n l)) as [u|] eqn:Hu;
      [|apply last_None in Hu; rewrite Hu in Hlen; cbn in Hlen; lia].
    apply last_Some in Hu as [l' Hl']. cbn [fmap option_fmap option_map].
    assert (Hss : StronglySorted newer (take n l) /\
      (forall x y, x ∈ take n l -> y ∈ drop n l -> newer x y)).
    { revert Hs. clear. generalize (take n l) as a, (drop n l) as b. intros a b.
      induction a as [|x a IH]; cbn; [intros _; split; [constructor|intros ? ? H'; by apply elem_of_nil in H']|].
      intros Hs. inversion_clear Hs as [|? ? Hs' Hf]. apply Forall_app in Hf as [Hf1 Hf2].
      destruct (IH Hs') as [IH1 IH2]. split; [by constructor|].
      intros p q [->|Hp]%elem_of_cons Hq; [|by apply IH2]. rewrite Forall_forall in Hf2. by apply Hf2. }
    destruct Hss as [Hs1 Hs2]. split_and!; [done|..|done| | |].
    + eapply Forall_impl; [exact Hall|]. by intros ? [].
    + eapply Forall_impl; [exact Hall|]. by intros ? [].
    + rewrite Hl' in Hs1 |- *. apply sorted_snoc in Hs1 as [_ Hf]. apply Forall_app. split.
      * eapply Forall_impl; [exact Hf|]. by intros x [Hx _].
      * constructor; [|constructor]. change (pos_le (pos_of u) (pos_of u)). done.
    + exists u. split; [|done]. rewrite Hl'. set_solver.
    + exists (drop n l). split; [by rewrite take_drop|]. apply Forall_forall. intros y Hy.
      change (newer u y). apply Hs2; [|done]. rewrite Hl'. set_solver.
  - eexists. split; [done|]. cbn [Tasks Next]. rewrite take_ge by lia. split_and!; try done;
      (eapply Forall_impl; [exact Hall|]); by intros ? [].
Qed.

Lemma sorted_app (l k : list Task) :
  StronglySorted newer l -> StronglySorted newer k ->
  (forall x y, x ∈ l -> y ∈ k -> newer x y) -> StronglySorted newer (l ++ k).
Proof.
  induction 1 as [|x l Hs IH Hf]; intros Hk Hc; [done|]. cbn. constructor.
  - apply IH; [done|]. intros a b Ha. apply Hc. set_solver.
  - apply Forall_app. split; [done|]. apply Forall_forall. intros y Hy. apply Hc; set_solver.
Qed.

(** A strictly sorted list is determined by its elements. *)
Lemma sorted_unique_newer (l k : list Task) :
  StronglySorted newer l -> StronglySorted newer k -> (forall t, t ∈ l <-> t ∈ k) -> l = k.
Proof.
  intros Hl. revert k. induction Hl as [|x l Hl IH Hf]; intros k Hk He.
  - destruct k as [|y k]; [done|]. assert (y ∈ []) as Hy by (apply He; set_solver). by apply elem_of_nil in Hy.
  - destruct k as [|y k]; [assert (x ∈ []) as Hx by (apply He; set_solver); by apply elem_of_nil in Hx|].
    inversion_clear Hk as [|? ? Hk' Hg]. rewrite Forall_forall in Hf, Hg.
    assert (x = y) as ->.
    { destruct (decide (x = y)) as [|Hne]; [done|]. exfalso.
      assert (Hx : x ∈ k) by (assert (x ∈ y :: k) by (apply He; set_solver); set_solver).
      assert (Hy : y ∈ l) by (assert (y ∈ x :: l) by (apply He; set_solver); set_solver).
      destruct (Hf y Hy) as [H1 H2], (Hg x Hx) as [H3 _]. apply H2. by apply (anti_symm pos_le). }
    f_equal. apply IH; [done|]. intros t. split; intros Ht.
    + assert (t ∈ y :: k) as [->|]%elem_of_cons by (apply He; set_solver); [|done].
      by destruct (Hf y Ht).
    + assert (t ∈ y :: l) as [->|]%elem_of_cons by (apply He; set_solver); [|done].
      by destruct (Hg y Ht).
Qed.

(** The whole walk, from a cursor. *)
Lemma walk_from (ds : list db) (limit : Z) (c : option Cursor) :
  Forall store_inv ds ->
  let '(ts, fin) := walk ds limit c in
  StronglySorted newer ts /\ Forall (after c) ts /\
  Forall (fun t => exists d id, d ∈ ds /\ tasks d !! id = Some t) ts /\
  (fin = true -> forall id at_,
    (forall d, d ∈ ds -> exists t, tasks d !! id = Some t /\ CreatedAt t = at_) ->
    (forall t, ID t = id -> CreatedAt t = at_ -> after c t) -> exists t, t ∈ ts /\ ID t = id).
Proof.
  intros Hi. revert c. induction Hi as [|d ds Hd Hds IH]; intros c; cbn [walk]; [repeat constructor; done|].
  destruct (List_page limit c d Hd) as (p & -> & Hs & Ha & Hin & Hn). cbn zeta.
  destruct (Next p) as [c'|].
  - specialize (IH (Some c')). destruct (walk ds limit (Some c')) as [ts fin].
    destruct IH as (Hs' & Ha' & Hin' & Hfin). destruct Hn as (_ & Hle & (u & Hu & ->) & rest & Hsel & Hrest).
    rewrite Forall_forall in Hle, Ha', Hrest. split_and!.
    + apply sorted_app; [done..|]. intros x y Hx Hy. unfold newer.
      eapply pos_lt_le; [apply (Ha' y Hy)|by apply Hle].
    + apply Forall_app. split; [done|]. apply Forall_forall. intros y Hy. specialize (Ha' y Hy).
      destruct c as [c|]; [|done]. rewrite Forall_forall in Ha. destruct (Ha u Hu) as [Hle' _].
      by eapply pos_lt_le.
    + apply Forall_app. split; (eapply Forall_impl; [done|]); [intros t [id Ht]|intros t (d' & id & Hd' & Ht)];
        [exists d, id|exists d', id]; set_solver.
    + intros Hf id at_ Hall Hc. destruct (Hall d ltac:(set_solver)) as (t & Ht & Hat).
      assert (Hts : t ∈ selected c d) by (apply elem_of_selected; split; [apply Hc; [by apply (si_id d Hd)|done]|eauto]).
      rewrite Hsel in Hts. apply elem_of_app in Hts as [Hts|Hts].
      { exists t. split; [set_solver|by apply (si_id d Hd)]. }
      destruct (Hfin Hf id at_) as (w & Hw & Hid); [set_solver| |exists w; split; [set_solver|done]].
      intros w Hu1 Hu2. specialize (Hrest t Hts). cbn in Hrest |- *.
      replace (pos_of w) with (pos_of t); [done|]. unfold pos_of. f_equal; [congruence|].
      rewrite Hu1. by apply (si_id d Hd).
  - split_and!; try done.
    + eapply Forall_impl; [done|]. intros t [id Ht]. exists d, id. set_solver.
    + intros _ id at_ Hall Hc. destruct (Hall d ltac:(set_solver)) as (t & Ht & Hat).
      exists t. rewrite Hn, elem_of_selected. pose proof (si_id d Hd id t Ht).
      split; [|done]. split; [by apply Hc|eauto].
Qed.

(** C17: walking the pages, each read from the database as it is by then, gives
    the tasks newest first and never one twice (no position comes up again), only
    tasks the database held; and a walk that reached the last page has seen every
    task that was there all along, whatever was inserted, changed or deleted
    meanwhile. *)
Theorem walk_sees_every_task_once (ds : list db) (limit : Z) :
  Forall store_inv ds ->
  let '(ts, fin) := walk ds limit None in
  StronglySorted newer ts /\ NoDup ts /\
  Forall (fun t => exists d id, d ∈ ds /\ tasks d !! id = Some t) ts /\
  (fin = true -> forall id at_,
    (forall d, d ∈ ds -> exists t, tasks d !! id = Some t /\ CreatedAt t = at_) ->
    exists t, t ∈ ts /\ ID t = id).
Proof.
  intros Hi. pose proof (walk_from ds limit None Hi) as Hw.
  destruct (walk ds limit None) as [ts fin]. destruct Hw as (Hs & _ & Hin & Hfin).
  split_and!; [done| |done|].
  - clear -Hs. induction Hs as [|t l Hs IH Hf]; constructor; [|done].
    rewrite Forall_forall in Hf. intros Ht. by destruct (Hf t Ht).
  - intros Hf id at_ Hall. by apply (Hfin Hf id at_).
Qed.

(** A quiet database: enough pages reach the end. *)
Lemma walk_quiet (n : nat) (d : db) (limit : Z) (c : option Cursor) :
  store_inv d -> (length (selected c d) < n)%nat ->
  walk (replicate n d) limit c = (selected c d, true).
Proof.
  intros Hi. revert c. induction n as [|n IH]; intros c Hn; [lia|]. cbn [replicate walk].
  destruct (List_page limit c d Hi) as (p & -> & Hs & Ha & Hin & Hp). cbn zeta.
  destruct (Next p) as [c'|]; [|by rewrite Hp].
  destruct Hp as (_ & Hle & (u & Hu & ->) & rest & Hsel & Hrest).
  assert (He : selected (Some (CursorAfter u)) d = rest).
  { apply (sorted_unique_newer _ _); [by apply selected_sorted| |].
    - pose proof (selected_sorted c d Hi) as Hss. rewrite Hsel in Hss. clear -Hss.
      induction (Tasks p) as [|x l IHl]; [done|]. cbn in Hss. inversion_clear Hss. by apply IHl.
    - intros t. rewrite elem_of_selected. rewrite Forall_forall in Hle, Hrest.
      split.
      + intros [Haft [id Ht]]. assert (Hts : t ∈ selected c d).
        { apply elem_of_selected. split; [|eauto]. destruct c as [c|]; [|done].
          rewrite Forall_forall in Ha. destruct (Ha u Hu) as [Hl _]. by eapply pos_lt_le. }
        rewrite Hsel in Hts. apply elem_of_app in Hts as [Hts|Hts]; [|done].
        destruct Haft as [H1 H2]. exfalso. apply H2. apply (anti_symm pos_le); [done|by apply Hle].
      + intros Ht. split; [by apply Hrest|].
        assert (Hts : t ∈ selected c d) by (rewrite Hsel; set_solver).
        by apply elem_of_selected in Hts as [_ ?]. }
  rewrite IH; rewrite He; [by rewrite Hsel|].
  rewrite Hsel, length_app in Hn. assert (Tasks p <> []) by (by intros E; rewrite E in Hu; apply elem_of_nil in Hu).
  destruct (Tasks p); [done|cbn in Hn; lia].
Qed.

(** On a database that stays as it is, the walk ends after at most one page
    more than there are tasks, and its pages put together are exactly the tasks of
    the database. *)
Theorem walk_is_complete (d : db) (limit : Z) :
  store_inv d ->
  let '(ts, fin) := walk (replicate (S (size (tasks d))) d) limit None in
  fin = true /\ ts ≡ₚ (map_to_list (tasks d)).*2 /\ StronglySorted newer ts.
Proof.
  intros Hi. assert (Hp : selected None d ≡ₚ (map_to_list (tasks d)).*2).
  { unfold selected. rewrite merge_sort_Permutation.
    rewrite filter_id; [done|]. by apply Forall_true. }
  rewrite walk_quiet; [|done|].
  - split_and!; [done|done|by apply selected_sorted].
  - rewrite Hp, length_fmap, length_map_to_list. lia.
Qed.

End Paging.

(** ** Concrete pages *)

Definition three_tasks : db :=
  foldl exec empty_db
    [OpCreate (quiet 10) None ∅ "e1" "a" "one" None;
     OpCreate (quiet 20) None ∅ "e2" "b" "two" None;
     OpCreate (quiet 20) None ∅ "e3" "c" "three" None].

Lemma three_tasks_inv : store_inv three_tasks.
Proof. apply run_follows, store_inv_empty. Qed.

Lemma walk_sees_every_task_once_witness :
  ID <$> fst (walk [three_tasks; exec three_tasks (OpDelete (quiet 30) ∅ "e4" "b" None)] 2 None) = ["c"; "b"; "a"]%string /\
  NoDup (fst (walk [three_tasks; exec three_tasks (OpDelete (quiet 30) ∅ "e4" "b" None)] 2 None)).
Proof.
  split; [vm_compute; reflexivity|].
  pose proof (walk_sees_every_task_once [three_tasks; exec three_tasks (OpDelete (quiet 30) ∅ "e4" "b" None)] 2
    (Forall_cons_2 _ _ _ three_tasks_inv (Forall_cons_2 _ _ _ (proj1 (exec_follows _ _ three_tasks_inv)) (Forall_nil_2 _)))) as Hw.
  destruct (walk _ 2 None) as [ts fin]. exact (proj1 (proj2 Hw)).
Defined.

Lemma walk_is_complete_witness :
  fst (walk (replicate 4 three_tasks) 2 None) ≡ₚ (map_to_list (tasks three_tasks)).*2.
Proof.
  pose proof (walk_is_complete three_tasks 2 three_tasks_inv) as Hw.
  change (S (size (tasks three_tasks))) with 4%nat in Hw.
  destruct (walk (replicate 4 three_tasks) 2 None) as [ts fin]. exact (proj1 (proj2 Hw)).
Defined.

End Paging.
