(* ===== verification/Relay.v ===== *)
(** The outbox relay (services/tasks/internal/outbox/relay.go): passes that
    publish the due rows of the outbox to Kafka and delete those the broker
    acknowledged, and the loop that runs them. *)
From stdpp Require Import sorting.
From S2P Require Import Prelude GoError GoStr KafkaMessage Domain Database Store.

Module Relay.
Import GoStr Domain Database Store.
#[local] Open Scope tx_scope.

(** ** Config *)

Record Config := {
  Topic : string;
  PollInterval : Z;
  BatchSize : Z;
  MaxBackoff : Z;
  MaxAttempts : Z;
  RejectBackoff : Z
}.

Definition maxRejectDelay : Z := Go.hour.

Definition withDefaults (c : Config) : Config :=
  {| Topic := Topic c;
     PollInterval := if PollInterval c <=? 0 then Go.second else PollInterval c;
     BatchSize := if BatchSize c <=? 0 then 100 else BatchSize c;
     MaxBackoff := if MaxBackoff c <=? 0 then 30 * Go.second else MaxBackoff c;
     MaxAttempts := if MaxAttempts c <=? 0 then 10 else MaxAttempts c;
     RejectBackoff := if RejectBackoff c <=? 0 then Go.second else RejectBackoff c |}.

(** ** backoff *)

(** [i] runs from 1 while it is below [n]. *)
Definition backoff (N : Z -> Z) (n interval maxDelay : Z) : Z :=
  let d := KafkaMessage.double (Z.to_nat (n - 1)) interval maxDelay in
  let d := Z.min d maxDelay in
  let half := Z.quot d 2 in
  if half <=? 0 then d else half + N (half + 1).

(** ** truncate *)

(** [strings.ToValidUTF8 s ""]: the valid runes of [s]. *)
Fixpoint to_valid_fuel (fuel : nat) (p : list Z) : list Z :=
  match fuel, p with
  | S fuel, _ :: _ =>
      let '(r, size) := DecodeRune p in
      if (r =? RuneError) && Nat.eqb size 1 then to_valid_fuel fuel (drop 1 p)
      else take size p ++ to_valid_fuel fuel (drop size p)
  | _, _ => []
  end.
Definition ToValidUTF8 (p : list Z) : list Z := to_valid_fuel (length p) p.

Definition truncate (s : string) (n : nat) : string :=
  if (length (bytes s) <=? n)%nat then s else of_bytes (ToValidUTF8 (take n (bytes s))).

(** ** Publishing *)

Section Relay.
(** The JSON text of a payload, and the text of an error. *)
Context (json : payload -> string) (error_text : KafkaMessage.error -> string).
Context (cfg : Config).

(** The record of a row. *)
Definition publish (x : orow) : KafkaMessage.Message :=
  {| KafkaMessage.Topic := Topic cfg;
     KafkaMessage.MKey := Some (aggregate_id x);
     KafkaMessage.MValue := json (o_payload x);
     KafkaMessage.Partition := 0;
     KafkaMessage.Offset := 0;
     KafkaMessage.Headers :=
       [ {| KafkaMessage.Key := KafkaMessage.HeaderEventID; KafkaMessage.Value := event_id x |};
         {| KafkaMessage.Key := KafkaMessage.HeaderEventType; KafkaMessage.Value := event_type x |};
         {| KafkaMessage.Key := KafkaMessage.HeaderContentType; KafkaMessage.Value := "application/json" |} ]
       ++ concat ((fun k => match default ""%string (headers x !! k) with
                            | ""%string => []
                            | v => [{| KafkaMessage.Key := k; KafkaMessage.Value := v |}]
                            end) <$> [KafkaMessage.HeaderTraceparent; "tracestate"%string]);
     KafkaMessage.Timestamp := 0;
     KafkaMessage.Attempt := 0 |}.

(** ** Statements of a pass *)

Definition due (now : Z) (x : orow) : bool :=
  (rejections x <? MaxAttempts cfg) &&
  match next_attempt_at x with None => true | Some t => t <=? now end.

(** [ORDER BY id] *)
Definition id_le (x y : orow) : Prop := o_id x <= o_id y.
#[local] Instance id_le_dec : RelDecision id_le.
Proof. intros x y. unfold id_le. apply _. Defined.
#[local] Instance id_le_total : Total id_le.
Proof. intros x y. unfold id_le. lia. Qed.
#[local] Instance id_le_trans : Transitive id_le.
Proof. intros x y z. unfold id_le. lia. Qed.
Definition by_id (l : list orow) : list orow := merge_sort id_le l.

(** [SELECT ... ORDER BY id LIMIT BatchSize FOR UPDATE SKIP LOCKED]; [locked] are
    the rows other transactions hold. Reading the rows can fail as the statement
    can. *)
Definition select_batch (now : Z) (locked : Z -> bool) (d : db) : (list orow * db) + string :=
  inl (take (Z.to_nat (BatchSize cfg))
        (by_id (filter (fun x => due now x && negb (locked (o_id x)) = true) (outbox d))), d).

Definition set_outbox (l : list orow) (d : db) : db :=
  {| tasks := tasks d; outbox := l; keys := keys d; ids := ids d |}.

Definition account (x : orow) (rej : Z) (next : option Z) (err : string) : orow :=
  {| o_id := o_id x; event_id := event_id x; aggregate_id := aggregate_id x;
     event_type := event_type x; o_payload := o_payload x; headers := headers x;
     o_created_at := o_created_at x; rejections := rej; next_attempt_at := next;
     last_error := Some err |}.

(** [least(RejectBackoff * power(2, rejections), 1h)], which overflows a float8
    from 2^1024 seconds on. *)
Definition reject_delay (rej : Z) : option Z :=
  let d := RejectBackoff cfg * 2 ^ rej in
  if (1024 <=? rej) || (2 ^ 1024 * Go.second <=? d) then None
  else Some (Z.min d maxRejectDelay).

Definition on_row (id : Z) (f : orow -> orow) (l : list orow) : list orow :=
  (fun x => if o_id x =? id then f x else x) <$> l.

(** [UPDATE outbox SET rejections = rejections + 1, last_error = $2,
    next_attempt_at = ... WHERE id = $1 RETURNING rejections] *)
Definition record_rejection (now id : Z) (err : string) (d : db) : (Z * db) + string :=
  match list_find (fun x => o_id x = id) (outbox d) with
  | None => inr "no rows in result set"%string
  | Some (i, x) =>
      match reject_delay (rejections x) with
      | None => inr "value out of range: overflow"%string
      | Some delay =>
          inl (rejections x + 1,
               set_outbox (<[i := account x (rejections x + 1) (Some (now + delay)) err]> (outbox d)) d)
      end
  end.

(** [UPDATE outbox SET last_error = $2 WHERE id = $1] *)
Definition record_failure (id : Z) (err : string) (d : db) : (unit * db) + string :=
  inl (tt, set_outbox (on_row id (fun x => account x (rejections x) (next_attempt_at x) err) (outbox d)) d).

(** [DELETE FROM outbox WHERE id = ANY($1)] *)
Definition delete_published (ids : list Z) (d : db) : (unit * db) + string :=
  inl (tt, set_outbox (filter (fun x => o_id x ∉ ids) (outbox d)) d).

(** A statement of the pass, its failure as a value. *)
Definition sql {L A} (E : env) (q : db -> (A * db) + string) (s : txst L) : (A + string) * txst L :=
  match stmt E q s with
  | (inl r, s) => (r, s)
  | (inr _, s) => (inr ""%string, s)
  end.

(** ** A pass *)

Inductive rerror :=
| RDriver (op cause : string)
| RPublish (x : orow) (e : KafkaMessage.error)
| RJoin (a : option rerror) (b : rerror).

(** What happens to one pass: the database's side, whether the advisory lock is
    free, the rows others hold, the answer of [Send] for the record at each
    position of the batch, and whether the service is shutting down by then. *)
Record penv := {
  p_env : env;
  p_leader : bool;
  p_locked : Z -> bool;
  p_send : nat -> option KafkaMessage.error;
  p_stop : nat -> bool
}.

(** The pass's variables, and the records the broker acknowledged. *)
Record vars := {
  v_done : list Z;
  v_taken : Z;
  v_pubErr : option rerror;
  v_acked : list KafkaMessage.Message
}.

Definition acked (x : orow) (v : vars) : vars :=
  {| v_done := v_done v ++ [o_id x]; v_taken := v_taken v + 1; v_pubErr := v_pubErr v;
     v_acked := v_acked v ++ [publish x] |}.
Definition taken (v : vars) : vars :=
  {| v_done := v_done v; v_taken := v_taken v + 1; v_pubErr := v_pubErr v; v_acked := v_acked v |}.
Definition set_pubErr (e : rerror) (v : vars) : vars :=
  {| v_done := v_done v; v_taken := v_taken v; v_pubErr := Some e; v_acked := v_acked v |}.

(** The loop over the batch, at position [i]. *)
Fixpoint pass_loop (P : penv) (i : nat) (batch : list orow) : M vars unit :=
  match batch with
  | [] => ret tt
  | x :: batch =>
      if p_stop P i then ret tt
      else match p_send P i with
      | None => let! _ := assign (acked x) in pass_loop P (S i) batch
      | Some err =>
          let text := truncate (error_text err) 1000 in
          if KafkaMessage.Rejected err then
            let! _ := assign taken in
            let! r := stmt (p_env P) (record_rejection (e_now (p_env P)) (o_id x) text) in
            match r with
            | inr uerr => assign (set_pubErr (RDriver "outbox: record rejection" uerr))
            | inl _ => pass_loop P (S i) batch
            end
          else
            let! _ := assign (set_pubErr (RPublish x err)) in
            let! r := stmt (p_env P) (record_failure (o_id x) text) in
            match r with
            | inr uerr => assign (fun v => set_pubErr (RJoin (v_pubErr v) (RDriver "outbox: record failure" uerr)) v)
            | inl _ => ret tt
            end
      end
  end.

(** What a pass answers: sent, taken, the error; what the broker acknowledged;
    the tables. [pub] is whether there is a publisher. *)
Record outcome := {
  x_sent : Z;
  x_taken : Z;
  x_err : option rerror;
  x_acked : list KafkaMessage.Message;
  x_db : db
}.

Definition nothing (err : option rerror) (d : db) : outcome :=
  {| x_sent := 0; x_taken := 0; x_err := err; x_acked := []; x_db := d |}.

Definition relayOnce (pub : bool) (P : penv) (d : db) : outcome :=
  let E := p_env P in
  if negb pub then nothing None d
  else match e_begin E with
  | Some e => nothing (Some (RDriver "outbox: begin" e)) d
  | None =>
      let s := {| t_db := d; t_n := 0; t_aborted := false;
                  t_loc := {| v_done := []; v_taken := 0; v_pubErr := None; v_acked := [] |} |} in
      let '(lock, s) := sql E (fun d => inl (p_leader P, d)) s in
      match lock with
      | inr e => nothing (Some (RDriver "outbox: relay lock" e)) d
      | inl false => nothing None d
      | inl true =>
          let '(sel, s) := sql E (select_batch (e_now E) (p_locked P)) s in
          match sel with
          | inr e => nothing (Some (RDriver "outbox: select batch" e)) d
          | inl [] => nothing None d
          | inl batch =>
              let '(_, s) := pass_loop P 0 batch s in
              let v := t_loc s in
              let '(del, s) := match v_done v with
                               | [] => (inl tt, s)
                               | ids => sql E (delete_published ids) s
                               end in
              match del with
              | inr e =>
                  {| x_sent := 0; x_taken := 0;
                     x_err := Some (RJoin (v_pubErr v) (RDriver "outbox: delete published" e));
                     x_acked := v_acked v; x_db := d |}
              | inl _ =>
                  match commit E d s with
                  | (Some e, d') =>
                      {| x_sent := 0; x_taken := 0;
                         x_err := Some (RJoin (v_pubErr v) (RDriver "outbox: commit" e));
                         x_acked := v_acked v; x_db := d' |}
                  | (None, d') =>
                      {| x_sent := Z.of_nat (length (v_done v)); x_taken := v_taken v;
                         x_err := v_pubErr v; x_acked := v_acked v; x_db := d' |}
                  end
              end
          end
      end
  end.

Definition RelayOnce (pub : bool) (P : penv) (d : db) : Z * option rerror :=
  let o := relayOnce pub P d in (x_sent o, x_err o).

(** ** Statistics *)

Definition pending_rows (d : db) : list orow := filter (fun x => rejections x < MaxAttempts cfg) (outbox d).
Definition dead_rows (d : db) : list orow := filter (fun x => MaxAttempts cfg <= rejections x) (outbox d).

(** The counts of pending and dead rows, and the age of the oldest pending one. *)
Definition statsSQL (now : Z) (d : db) : Z * Z * Z :=
  (Z.of_nat (length (pending_rows d)), Z.of_nat (length (dead_rows d)),
   match pending_rows d with
   | [] => 0
   | x :: l => now - foldr (fun y m => Z.min (o_created_at y) m) (o_created_at x) l
   end).

Record gauges := { g_pending : Z; g_dead : Z; g_oldestAge : Z }.

Definition refreshGauges (now : Z) (fault : option string) (g : gauges) (d : db) : gauges :=
  match fault with
  | Some _ => g
  | None =>
      let '(n, dead, lag) := statsSQL now d in
      {| g_pending := n; g_dead := dead; g_oldestAge := Z.max lag 0 |}
  end.

(** ** Run *)

(** After a pass: the failures in a row, how long to wait, and whether [Wake]
    cuts the wait short. [N] is the jitter. *)
Definition after_pass (N : Z -> Z) (failures : Z) (o : outcome) : Z * Z * bool :=
  match x_err o with
  | Some _ =>
      let failures := failures + 1 in
      (failures, backoff N failures (PollInterval cfg) (MaxBackoff cfg), false)
  | None =>
      if x_taken o =? BatchSize cfg then (0, 0, true)
      else (0, PollInterval cfg, true)
  end.

(** How a wait of the loop ends. *)
Inductive wakeup := Cancelled | Timer | Woken.

(** [Wake]: the channel holds at most one request; a call never blocks. *)
Definition Wake (wake : bool) : bool := if wake then wake else true.

(** One turn of the loop: a pass, the reading of the statistics (its clock and
    its failure), the calls of [Wake] by then, what ended the wait. A request is
    only taken from the channel by a wait that listens to it. *)
Record turn := {
  u_pass : penv; u_jitter : Z -> Z; u_stats : Z * option string; u_wakes : nat; u_end : wakeup
}.

(** [watch]: without a publisher only the gauges are kept current. *)
Fixpoint watch (turns : list turn) (g : gauges) (d : db) : gauges * bool :=
  match turns with
  | [] => (g, false)
  | u :: turns =>
      let g := refreshGauges (fst (u_stats u)) (snd (u_stats u)) g d in
      match u_end u with
      | Cancelled => (g, true)
      | _ => watch turns g d
      end
  end.

(** The loop of [Run] over the turns the environment gives it: the outcome of
    each pass and the wait after it, the gauges, the tables, and whether it
    returned (its context was cancelled). *)
Fixpoint run_loop (turns : list turn) (failures : Z) (wake : bool) (g : gauges) (d : db)
    : list (outcome * Z) * gauges * db * bool :=
  match turns with
  | [] => ([], g, d, false)
  | u :: turns =>
      let o := relayOnce true (u_pass u) d in
      let g := refreshGauges (fst (u_stats u)) (snd (u_stats u)) g (x_db o) in
      let '(failures, wait, listens) := after_pass (u_jitter u) failures o in
      let wake := Nat.iter (u_wakes u) Wake wake in
      match u_end u with
      | Cancelled => ([(o, wait)], g, x_db o, true)
      | e =>
          let wake := match e with
                      | Woken => if negb (wait =? 0) && listens then false else wake
                      | _ => wake
                      end in
          let '(os, g, d, fin) := run_loop turns failures wake g (x_db o) in ((o, wait) :: os, g, d, fin)
      end
  end.

Definition Run (pub : bool) (turns : list turn) (g : gauges) (d : db)
    : list (outcome * Z) * gauges * db * bool :=
  if negb pub then let '(g, fin) := watch turns g d in ([], g, d, fin)
  else run_loop turns 0 false g d.

(** ** What a pass does to the rows *)

(** A row without the columns a pass writes. *)
Definition core (x : orow) : orow :=
  {| o_id := o_id x; event_id := event_id x; aggregate_id := aggregate_id x;
     event_type := event_type x; o_payload := o_payload x; headers := headers x;
     o_created_at := o_created_at x; rejections := 0; next_attempt_at := None; last_error := None |}.

Lemma publish_core (x y : orow) : core x = core y -> publish x = publish y.
Proof. intros [= _ H1 H2 H3 H4 H5 _]. unfold publish. by rewrite H1, H2, H3, H4, H5. Qed.

Lemma core_id (x y : orow) : core x = core y -> o_id x = o_id y.
Proof. by intros [=]. Qed.

(** The accounting of one row: nothing, the error of an outage noted, or one
    more rejection with the next attempt scheduled. *)
Definition accounted (P : penv) (x x' : orow) : Prop :=
  (exists e, x' = account x (rejections x) (next_attempt_at x) e) \/
  (exists e delay i err, x' = account x (rejections x + 1) (Some (e_now (p_env P) + delay)) e /\
    reject_delay (rejections x) = Some delay /\ p_send P i = Some err /\ KafkaMessage.Rejected err = true).

Definition touched (P : penv) (ids : list Z) (x x' : orow) : Prop :=
  x' = x \/ (o_id x ∈ ids /\ accounted P x x').

Lemma touched_core (P : penv) (ids : list Z) (x x' : orow) : touched P ids x x' -> core x' = core x.
Proof. intros [->|[_ [[e ->]|(e & dl & i & err & -> & _)]]]; done. Qed.

Lemma touched_refl (P : penv) (ids : list Z) (l : list orow) : Forall2 (touched P ids) l l.
Proof. apply Forall2_same_length_lookup_2; [done|]. intros i x y Hx Hy. left. congruence. Qed.

Lemma touched_on_row (P : penv) (id : Z) (f : orow -> orow) (l : list orow) :
  (forall x, x ∈ l -> o_id x = id -> accounted P x (f x)) ->
  Forall2 (touched P [id]) l (on_row id f l).
Proof.
  intros Hf. unfold on_row. induction l as [|x l IH]; constructor.
  - destruct (Z.eqb_spec (o_id x) id) as [He|]; [|by left].
    right. split; [by apply list_elem_of_singleton|]. apply Hf; [set_solver|done].
  - apply IH. intros y Hy. apply Hf. set_solver.
Qed.

Lemma touched_mono (P : penv) (ids ids' : list Z) (l l' : list orow) :
  ids ⊆ ids' -> Forall2 (touched P ids) l l' -> Forall2 (touched P ids') l l'.
Proof.
  intros Hs Hf. eapply Forall2_impl; [exact Hf|]. intros x x' [->|[Hin Ha]]; [by left|right].
  split; [by apply Hs|done].
Qed.

Lemma touched_insert (P : penv) (l : list orow) (p : nat) (x x' : orow) :
  l !! p = Some x -> accounted P x x' -> Forall2 (touched P [o_id x]) l (<[p := x']> l).
Proof.
  intros Hp Ha. apply Forall2_same_length_lookup_2; [by rewrite length_insert|].
  intros i y y' Hy Hy'. destruct (decide (i = p)) as [->|Hne].
  - rewrite list_lookup_insert_eq in Hy' by (by eapply lookup_lt_Some). simplify_eq.
    right. split; [by apply list_elem_of_singleton|done].
  - rewrite list_lookup_insert_ne in Hy' by done. left. congruence.
Qed.

(** Two rounds of accounting on disjoint rows. *)
Lemma touched_trans (P : penv) (id : Z) (ids : list Z) (l1 l2 l3 : list orow) :
  id ∉ ids -> Forall2 (touched P [id]) l1 l2 -> Forall2 (touched P ids) l2 l3 ->
  Forall2 (touched P (id :: ids)) l1 l3.
Proof.
  intros Hn H1. revert l3. induction H1 as [|x y l1 l2 Hxy H1 IH]; intros l3 H2;
    inversion_clear H2 as [|? z ? l3' Hyz H2']; constructor; [|by apply IH].
  destruct Hxy as [->|[Hx Ha]].
  - destruct Hyz as [->|[Hin Ha]]; [by left|right]. split; [set_solver|done].
  - apply list_elem_of_singleton in Hx. right. split; [set_solver|].
    assert (Hid : o_id y = o_id x).
    { apply core_id. eapply (touched_core P [id]). right. split; [by apply list_elem_of_singleton|done]. }
    destruct Hyz as [->|[Hin _]]; [done|]. exfalso. apply Hn. by rewrite <- Hx, <- Hid.
Qed.

(** Only the outbox changes, and only by accounting. *)
Definition outbox_only (d d' : db) : Prop :=
  tasks d' = tasks d /\ keys d' = keys d /\ ids d' = ids d.

Lemma pass_loop_spec (P : penv) (batch : list orow) (i : nat) (s s' : txst vars) (r : unit + serror) :
  NoDup (o_id <$> batch) -> pass_loop P i batch s = (r, s') ->
  outbox_only (t_db s) (t_db s') /\
  Forall2 (touched P (o_id <$> batch)) (outbox (t_db s)) (outbox (t_db s')) /\
  exists A, A `sublist_of` batch /\ v_done (t_loc s') = v_done (t_loc s) ++ (o_id <$> A) /\
    v_acked (t_loc s') = v_acked (t_loc s) ++ (publish <$> A) /\
    ((forall j err, p_send P j = Some err -> KafkaMessage.Rejected err = false) -> exists n, A = take n batch).
Proof.
  revert i s. induction batch as [|x batch IH]; intros i s Hnd H; cbn [pass_loop] in H.
  { injection H as <- <-. split_and!; try done; [apply touched_refl|].
    exists []. rewrite !app_nil_r. split_and!; try done. by exists 0%nat. }
  cbn in Hnd. inversion_clear Hnd as [|? ? Hx Hnd'].
  assert (Hstop : forall t, t_db t = t_db s -> v_done (t_loc t) = v_done (t_loc s) ->
    v_acked (t_loc t) = v_acked (t_loc s) ->
    outbox_only (t_db s) (t_db t) /\
    Forall2 (touched P (o_id <$> x :: batch)) (outbox (t_db s)) (outbox (t_db t)) /\
    exists A, A `sublist_of` x :: batch /\ v_done (t_loc t) = v_done (t_loc s) ++ (o_id <$> A) /\
      v_acked (t_loc t) = v_acked (t_loc s) ++ (publish <$> A) /\
      ((forall j err, p_send P j = Some err -> KafkaMessage.Rejected err = false) -> exists n, A = take n (x :: batch))).
  { intros t -> -> ->. split_and!; try done; [apply touched_refl|]. exists [].
    rewrite !app_nil_r. split_and!; try done; [by apply sublist_nil_l|]. by exists 0%nat. }
  destruct (p_stop P i); [injection H as <- <-; by apply Hstop|].
  destruct (p_send P i) as [err|] eqn:Hsend.
  - destruct (KafkaMessage.Rejected err) eqn:Hrej.
    + unfold bind, assign, stmt in H. cbn in H.
      destruct (t_aborted s); [injection H as <- <-; by apply Hstop|].
      destruct (e_stmt _ _); [injection H as <- <-; by apply Hstop|].
      destruct (record_rejection _ _ _ _) as [[n d1]|e] eqn:Hrr; [|injection H as <- <-; by apply Hstop].
      apply IH in H as ((Ht & Hk & Hn) & Hf & A & HA & Hd & Hack & Hpre); [|done]. cbn in *.
      unfold record_rejection in Hrr. destruct (list_find _ _) as [[p y]|] eqn:Hy; [|done].
      apply list_find_Some in Hy as (Hy & Hid & Hfirst).
      destruct (reject_delay (rejections y)) as [delay|] eqn:Hdel; [|done]. simplify_eq/=.
      split_and!; [done| |].
      * eapply touched_trans; [exact Hx| |exact Hf]. rewrite <- Hid. apply touched_insert; [done|].
        right. eauto 10.
      * exists A. split_and!; try done; [by apply sublist_cons|].
        intros Hno. by rewrite (Hno i err Hsend) in Hrej.
    + unfold bind, assign, stmt in H. cbn in H.
      destruct (t_aborted s); [injection H as <- <-; by apply Hstop|].
      destruct (e_stmt _ _); [injection H as <- <-; by apply Hstop|].
      injection H as <- <-. cbn. split_and!; try done.
      * eapply touched_mono; [|apply touched_on_row];
          [intros z ->%list_elem_of_singleton; apply elem_of_cons; by left|].
        intros y _ _. left. eauto.
      * exists []. rewrite !app_nil_r. split_and!; try done; [by apply sublist_nil_l|]. by exists 0%nat.
  - apply IH in H as ((Ht & Hk & Hn) & Hf & A & HA & Hd & Hack & Hpre); [|done]. cbn in *.
    split_and!; try done.
    + eapply touched_mono; [|exact Hf]. set_solver.
    + exists (x :: A). rewrite Hd, Hack, <- !app_assoc. split_and!; try done; [by apply sublist_skip|].
      intros Hno. destruct (Hpre Hno) as [n ->]. by exists (S n).
Qed.

(** Sorting by id. *)
Lemma by_id_perm (l : list orow) : by_id l ≡ₚ l.
Proof. apply merge_sort_Permutation. Qed.

Lemma by_id_sorted (l : list orow) : NoDup (o_id <$> l) -> StronglySorted Z.lt (o_id <$> by_id l).
Proof.
  intros Hn. rewrite <- (by_id_perm l) in Hn. pose proof (StronglySorted_merge_sort id_le l) as Hs. fold (by_id l) in Hs.
  induction Hs as [|x k Hs IH Hf]; [constructor|]. rewrite fmap_cons in *. apply NoDup_cons in Hn as [Hx Hn].
  constructor; [by apply IH|]. apply Forall_fmap. rewrite Forall_forall in *. intros y Hy. specialize (Hf y Hy). cbn. unfold id_le in Hf.
  assert (o_id y <> o_id x); [|lia]. intros E. apply Hx. rewrite <- E. by apply list_elem_of_fmap_2.
Qed.

Lemma by_id_unique (l k : list orow) : StronglySorted Z.lt (o_id <$> k) -> k ≡ₚ l -> by_id l = k.
Proof.
  intros Hk Hp. assert (Hn : NoDup (o_id <$> l)).
  { rewrite <- Hp. clear Hp. induction k as [|x k IH]; [constructor|]. cbn in *. inversion_clear Hk as [|? ? Hk' Hf]. constructor; [|by apply IH].
    rewrite Forall_forall in Hf. intros Hx. specialize (Hf _ Hx). lia. }
  pose proof (by_id_sorted l Hn) as Hs.
  assert (Hu : StronglySorted id_le (by_id l) /\ StronglySorted id_le k).
  { split; [apply (StronglySorted_merge_sort id_le)|]. clear Hp Hn Hs. induction k as [|x k IH]; [constructor|]. cbn in Hk. inversion_clear Hk as [|? ? Hk' Hf].
    constructor; [by apply IH|]. rewrite Forall_fmap in Hf. eapply Forall_impl; [exact Hf|]. cbn. unfold id_le. lia. }
  destruct Hu as [H1 H2]. eapply (StronglySorted_unique_strong id_le); [|done|done|by rewrite by_id_perm].
  intros x y Hx Hy Hxy Hyx. rewrite (by_id_perm l) in Hx. rewrite Hp in Hy. unfold id_le in *.
  assert (E : o_id x = o_id y) by lia. clear -Hn Hx Hy E. induction l as [|z l IH]; [by apply elem_of_nil in Hx|].
  cbn in Hn. apply NoDup_cons in Hn as [Hz Hn]. apply elem_of_cons in Hx as [->|Hx], Hy as [->|Hy]; [done|..|by apply IH].
  - exfalso. apply Hz. rewrite E. by apply list_elem_of_fmap_2.
  - exfalso. apply Hz. rewrite <- E. by apply list_elem_of_fmap_2.
Qed.

Lemma by_id_filter (Q : orow -> Prop) `{!forall x, Decision (Q x)} (l : list orow) :
  NoDup (o_id <$> l) -> by_id (filter Q l) = filter Q (by_id l).
Proof.
  intros Hn. apply by_id_unique; [|by rewrite by_id_perm].
  eapply sorted_sublist; [apply sublist_fmap, sublist_filter|by apply by_id_sorted].
Qed.

(** The rows a pass may take. *)
Definition takes (P : penv) (d : db) : list orow :=
  take (Z.to_nat (BatchSize cfg))
    (by_id (filter (fun x => due (e_now (p_env P)) x && negb (p_locked P (o_id x)) = true) (outbox d))).

Lemma takes_elem (P : penv) (d : db) (x : orow) : x ∈ takes P d -> x ∈ outbox d /\ due (e_now (p_env P)) x = true.
Proof.
  unfold takes. intros (q & Hq%list_elem_of_lookup_2 & _)%elem_of_take. rewrite by_id_perm in Hq.
  apply list_elem_of_filter in Hq as [[H _]%andb_true_iff Hin]. done.
Qed.

Lemma takes_nodup (P : penv) (d : db) : store_inv d -> NoDup (o_id <$> takes P d).
Proof.
  intros Hi. unfold takes. eapply sublist_NoDup; [|apply sublist_fmap, sublist_take]. rewrite by_id_perm.
  eapply sublist_NoDup; [|apply sublist_fmap, sublist_filter]. apply (si_ordered d Hi).
Qed.

Lemma sql_ok {L A} (E : env) (q : db -> (A * db) + string) (s s' : txst L) (a : A) :
  sql E q s = (inl a, s') ->
  exists d, q (t_db s) = inl (a, d) /\ t_aborted s = false /\
    s' = {| t_db := d; t_n := S (t_n s); t_aborted := false; t_loc := t_loc s |}.
Proof.
  unfold sql, stmt. destruct (t_aborted s); [done|]. destruct (e_stmt E (t_n s)); [done|].
  destruct (q (t_db s)) as [[b d]|e]; [|done]. intros [= -> <-]. eauto.
Qed.

(** What a pass did: the records the broker acknowledged are those of rows of
    the batch, in order; the tables are untouched, or the acknowledged rows, and no
    others, are gone and the others of the batch accounted for. *)
Record pass_effect (P : penv) (d : db) (o : outcome) (A : list orow) : Prop := {
  pe_batch : A `sublist_of` takes P d;
  pe_acked : x_acked o = publish <$> A;
  pe_prefix : (forall j err, p_send P j = Some err -> KafkaMessage.Rejected err = false) ->
    exists n, A = take n (takes P d);
  pe_db : x_db o = d \/
    exists l, Forall2 (touched P (o_id <$> takes P d)) (outbox d) l /\
      x_db o = set_outbox (filter (fun x => o_id x ∉ (o_id <$> A)) l) d
}.

Lemma set_outbox_only (d d' : db) : outbox_only d d' -> d' = set_outbox (outbox d') d.
Proof. intros (H1 & H2 & H3). unfold set_outbox. rewrite <- H1, <- H2, <- H3. by destruct d'. Qed.

Lemma relayOnce_effect (pub : bool) (P : penv) (d : db) :
  store_inv d -> exists A, pass_effect P d (relayOnce pub P d) A.
Proof.
  intros Hi. assert (Hnone : forall e, exists A, pass_effect P d (nothing e d) A).
  { intros e. exists []. split; [by apply sublist_nil_l|done|by exists 0%nat|by left]. }
  unfold relayOnce. destruct pub; [|apply Hnone]. cbn [negb].
  destruct (e_begin (p_env P)); [apply Hnone|]. cbn zeta.
  destruct (sql _ (fun d0 => inl (p_leader P, d0)) _) as [lock s] eqn:Hlock.
  destruct lock as [[]|e]; [|apply Hnone..]. apply sql_ok in Hlock as (d1 & Hd1 & _ & ->).
  cbn in Hd1. injection Hd1 as _ <-. 
  destruct (sql _ (select_batch _ _) _) as [sel s] eqn:Hsel.
  destruct sel as [batch|e]; [|apply Hnone]. apply sql_ok in Hsel as (d1 & Hd1 & _ & ->). cbn in Hd1.
  unfold select_batch in Hd1. injection Hd1 as Hb <-. fold (takes P d) in Hb.
  destruct batch as [|x batch]; [apply Hnone|].
  destruct (pass_loop P 0 (x :: batch) _) as [r s] eqn:Hloop. rewrite <- Hb in Hloop.
  apply pass_loop_spec in Hloop as (Hoo & Hf & A & HA & Hd & Hack & Hpre); [|by apply takes_nodup].
  cbn in *. exists A.
  assert (Hdel : match v_done (t_loc s) with
    | [] => (inl tt, s) | i :: l => sql (p_env P) (delete_published (i :: l)) s end =
    (if decide (A = []) then (inl tt, s) else sql (p_env P) (delete_published (o_id <$> A)) s)).
  { rewrite Hd. by destruct A. }
  rewrite Hdel. clear Hdel.
  assert (Hfinish : forall s1, t_loc s1 = t_loc s ->
    t_db s1 = set_outbox (filter (fun x => o_id x ∉ (o_id <$> A)) (outbox (t_db s))) d ->
    pass_effect P d (match commit (p_env P) d s1 with
      | (Some e, d') => {| x_sent := 0; x_taken := 0;
          x_err := Some (RJoin (v_pubErr (t_loc s)) (RDriver "outbox: commit" e));
          x_acked := v_acked (t_loc s); x_db := d' |}
      | (None, d') => {| x_sent := Z.of_nat (length (v_done (t_loc s))); x_taken := v_taken (t_loc s);
          x_err := v_pubErr (t_loc s); x_acked := v_acked (t_loc s); x_db := d' |}
      end) A).
  { intros s1 _ Hs1. destruct (commit (p_env P) d s1) as [e d'] eqn:Hc.
    assert (Hd' : d' = d \/ d' = t_db s1).
    { unfold commit in Hc. destruct (t_aborted s1); [by left; congruence|].
      destruct (e_commit (p_env P)); injection Hc as _ <-; auto. }
    destruct e; split; cbn; try done;
      (destruct Hd' as [->| ->]; [by left|right; exists (outbox (t_db s)); by split]). }
  destruct (decide (A = [])) as [->|HneA].
  - apply Hfinish; [done|]. rewrite filter_id by (apply Forall_forall; intros y _; apply not_elem_of_nil).
    by apply set_outbox_only.
  - destruct (sql (p_env P) (delete_published _) s) as [del s1] eqn:Hdp.
    destruct del as [[]|e].
    + apply sql_ok in Hdp as (d1 & Hd1 & _ & ->). cbn in Hd1. unfold delete_published in Hd1.
      injection Hd1 as <-. apply Hfinish; [done|]. cbn. unfold set_outbox.
      destruct Hoo as (-> & -> & ->). done.
    + split; cbn; try done. by left.
Qed.

Lemma touched_keeps (P : penv) (ids : list Z) (l l' : list orow) :
  Forall2 (touched P ids) l l' -> core <$> l' = core <$> l.
Proof.
  induction 1 as [|x y l l' Hx Hl IH]; [done|]. cbn. by rewrite (touched_core _ _ _ _ Hx), IH.
Qed.

(** What is left of the outbox after a pass, its rows without accounting. *)
Lemma effect_core (P : penv) (d : db) (o : outcome) (A : list orow) :
  pass_effect P d o A ->
  outbox_only d (x_db o) /\
  (core <$> outbox (x_db o) = core <$> outbox d \/
   core <$> outbox (x_db o) = filter (fun x => o_id x ∉ (o_id <$> A)) (core <$> outbox d)).
Proof.
  intros [_ _ _ [->|(l & Hf & ->)]]; [split; [done|by left]|]. split; [done|right].
  cbn. rewrite <- (touched_keeps _ _ _ _ Hf). clear. induction l as [|x l IH]; [done|].
  rewrite fmap_cons, !filter_cons. change (o_id (core x)) with (o_id x).
  destruct (decide (o_id x ∉ (o_id <$> A))); by rewrite ?fmap_cons, IH.
Qed.

Lemma core_ids (l : list orow) : o_id <$> (core <$> l) = o_id <$> l.
Proof. rewrite <- list_fmap_compose. done. Qed.

Lemma core_events (l : list orow) : event_id <$> (core <$> l) = event_id <$> l.
Proof. rewrite <- list_fmap_compose. done. Qed.

Lemma core_payloads (l : list orow) : o_payload <$> (core <$> l) = o_payload <$> l.
Proof. rewrite <- list_fmap_compose. done. Qed.

Lemma id_inj (l : list orow) (x y : orow) : NoDup (o_id <$> l) -> x ∈ l -> y ∈ l -> o_id x = o_id y -> x = y.
Proof.
  intros Hn (i & Hi)%list_elem_of_lookup (j & Hj)%list_elem_of_lookup He.
  assert (i = j) as -> by (eapply (NoDup_lookup (o_id <$> l)); [done|by rewrite list_lookup_fmap, Hi|by rewrite list_lookup_fmap, Hj, He]).
  congruence.
Qed.

Lemma core_task_order (l : list orow) : StronglySorted task_order (core <$> l) <-> StronglySorted task_order l.
Proof.
  induction l as [|x l IH]; [done|]. rewrite fmap_cons. split; intros H; inversion_clear H as [|? ? Hs Hf]; constructor; try (by apply IH).
  - by apply (Forall_fmap core (task_order x)).
  - by apply (Forall_fmap core (task_order (core x))).
Qed.

Lemma core_given (q : identity) (l : list orow) : Forall (given q) (core <$> l) <-> Forall (given q) l.
Proof. apply (Forall_fmap core (given q)). Qed.

(** Dropping rows and accounting keep the tables consistent. *)
Lemma inv_of_core (d d' : db) :
  store_inv d -> outbox_only d d' -> core <$> outbox d' `sublist_of` core <$> outbox d -> store_inv d'.
Proof.
  intros [H1 H2 H3 (H4 & H5 & H6) H7 H8 H9] (Ht & Hk & Hn) Hs. split; rewrite ?Ht, ?Hk, ?Hn; try done.
  - split_and!.
    + rewrite <- core_ids. eapply sublist_NoDup; [|apply sublist_fmap, Hs]. by rewrite core_ids.
    + apply core_task_order. eapply sorted_sublist; [exact Hs|]. by apply core_task_order.
    + rewrite Hn. apply core_given. eapply sublist_forall; [exact Hs|]. by apply core_given.
  - rewrite <- core_events. eapply sublist_NoDup; [|apply sublist_fmap, Hs]. by rewrite core_events.
  - apply (Forall_fmap core describes). eapply sublist_forall; [exact Hs|]. by apply Forall_fmap.
Qed.

Lemma relay_inv (pub : bool) (P : penv) (d : db) : store_inv d -> store_inv (x_db (relayOnce pub P d)).
Proof.
  intros Hi. destruct (relayOnce_effect pub P d Hi) as [A HA]. apply effect_core in HA as [Hoo Hc].
  eapply inv_of_core; [done..|]. destruct Hc as [-> | ->]; [done|]. apply sublist_filter.
Qed.

(** ** The service: store and relay together *)

(** The database, what the broker acknowledged so far, and the event rows
    committed so far (which no table keeps: the relay deletes them). *)
Record sys := { s_db : db; s_broker : list KafkaMessage.Message; s_committed : list orow }.

Inductive action := AStore (o : op) | ARelay (pub : bool) (P : penv).

Definition sys_step (s : sys) (a : action) : sys :=
  match a with
  | AStore o =>
      let d' := exec (s_db s) o in
      {| s_db := d'; s_broker := s_broker s;
         s_committed := s_committed s ++ (core <$> drop (length (outbox (s_db s))) (outbox d')) |}
  | ARelay pub P =>
      let o := relayOnce pub P (s_db s) in
      {| s_db := x_db o; s_broker := s_broker s ++ x_acked o; s_committed := s_committed s |}
  end.

Definition sys_init : sys := {| s_db := empty_db; s_broker := []; s_committed := [] |}.
Definition sys_run (acts : list action) : sys := foldl sys_step sys_init acts.

Record sys_inv (s : sys) : Prop := {
  yi_store : store_inv (s_db s);
  yi_replay : replay ∅ (o_payload <$> s_committed s) = Some (tasks (s_db s));
  yi_kept : forall r, r ∈ s_committed s -> r ∈ core <$> outbox (s_db s) \/ publish r ∈ s_broker s;
  yi_rows : core <$> outbox (s_db s) ⊆ s_committed s;
  yi_broker : forall m, m ∈ s_broker s -> exists r, r ∈ s_committed s /\ m = publish r
}.

Lemma elem_of_core (x : orow) (l : list orow) : x ∈ l -> core x ∈ core <$> l.
Proof. intros H. apply list_elem_of_fmap. eauto. Qed.

Lemma sys_step_inv (s : sys) (a : action) : sys_inv s -> sys_inv (sys_step s a).
Proof.
  intros [Hi Hr Hk Hrows Hb]. destruct a as [o|pub P]; cbn [sys_step].
  - destruct (exec_follows (s_db s) o Hi) as [Hi' (rows & Ho & Hre & _)].
    rewrite Ho, drop_app_length. split; cbn; try done.
    + by rewrite fmap_app, core_payloads, replay_app, Hr.
    + intros r. rewrite Ho, fmap_app. set_solver.
    + rewrite Ho, fmap_app. set_solver.
    + intros m Hm. destruct (Hb m Hm) as (r & Hr' & ->). exists r. set_solver.
  - pose proof (relay_inv pub P (s_db s) Hi) as Hi'.
    destruct (relayOnce_effect pub P (s_db s) Hi) as [A HA].
    pose proof (effect_core _ _ _ _ HA) as [(Ht & _ & _) Hc].
    assert (HAin : forall x, x ∈ A -> core x ∈ core <$> outbox (s_db s)).
    { intros x Hx. apply elem_of_core. apply (takes_elem P). eapply sublist_elem; [apply (pe_batch _ _ _ _ HA)|exact Hx]. }
    split; cbn; try done.
    + by rewrite Ht.
    + intros r Hrc. rewrite (pe_acked _ _ _ _ HA). destruct (Hk r Hrc) as [Hin|]; [|set_solver].
      destruct Hc as [-> | ->]; [by left|]. destruct (decide (o_id r ∈ (o_id <$> A))) as [HA'|HA'].
      * right. apply elem_of_app. right. apply list_elem_of_fmap in HA' as (x & Hid & Hx).
        apply list_elem_of_fmap. exists x. split; [|done].
        apply list_elem_of_fmap in Hin as (y & -> & Hy). cbn in Hid.
        apply publish_core. change (core (core y)) with (core y).
        assert (y = x) as ->; [|done].
        eapply (id_inj (outbox (s_db s))); [apply (si_ordered _ Hi)|done| |done].
        apply (takes_elem P). eapply sublist_elem; [apply (pe_batch _ _ _ _ HA)|exact Hx].
      * left. by apply list_elem_of_filter.
    + destruct Hc as [-> | ->]; [done|]. intros x [_ Hx]%list_elem_of_filter. by apply Hrows.
    + intros m [Hm|Hm]%elem_of_app; [by apply Hb|]. rewrite (pe_acked _ _ _ _ HA) in Hm.
      apply list_elem_of_fmap in Hm as (x & -> & Hx). exists (core x). split; [by apply Hrows, HAin|].
      by apply publish_core.
Qed.

Lemma sys_run_inv (acts : list action) : sys_inv (sys_run acts).
Proof.
  unfold sys_run. assert (H0 : sys_inv sys_init).
  { split; cbn; try done; [apply store_inv_empty|..]; set_solver. }
  revert H0. generalize sys_init. induction acts as [|a acts IH]; intros s Hs; [done|].
  by apply IH, sys_step_inv.
Qed.

(** C1: no event is lost and none is made up. After any sequence of changes and
    relay passes, whatever failed on the way (statements, commits, lost answers,
    the broker, shutdowns in the middle of a batch), every committed event is still
    in the outbox or was acknowledged by the broker as the record its row makes;
    every acknowledged record is that of a committed event; and the tasks are what
    replaying the committed events gives. *)
Theorem no_event_lost (acts : list action) :
  let s := sys_run acts in
  (forall r, r ∈ s_committed s -> r ∈ core <$> outbox (s_db s) \/ publish r ∈ s_broker s) /\
  (forall m, m ∈ s_broker s -> exists r, r ∈ s_committed s /\ m = publish r) /\
  replay ∅ (o_payload <$> s_committed s) = Some (tasks (s_db s)).
Proof. destruct (sys_run_inv acts) as [H1 H2 H3 H4 H5]. by split_and!. Qed.

(** C33: the tables are always well formed, after any calls and passes with any faults:
    a task is stored under its id with a version of at least one that fits its column, an
    idempotency key names a task that exists, the numbers of the outbox are distinct, given
    by its sequence and increasing among the events of one task, the events are distinct, and
    every event describes the task it is about. *)
Theorem tables_well_formed (acts : list action) :
  let d := s_db (sys_run acts) in
  (forall id t, tasks d !! id = Some t -> ID t = id /\ 1 <= Version t <= Go.int64_max) /\
  (forall k r, keys d !! k = Some r -> is_Some (tasks d !! task_id r)) /\
  outbox_ordered d /\ NoDup (event_id <$> outbox d) /\ Forall describes (outbox d).
Proof.
  destruct (sys_run_inv acts) as [[Hid Hv Hk Ho _ He Hd] _ _ _ _]. split_and!; [|done..].
  intros id t Ht. split; [by apply Hid|by apply (Hv id)].
Qed.

(** ** Order *)

(** A batch that only outages can stop, with no row held by others. *)
Definition orderly (a : action) : Prop :=
  match a with
  | AStore _ => True
  | ARelay _ P => (forall j err, p_send P j = Some err -> KafkaMessage.Rejected err = false) /\
                  (forall id, p_locked P id = false)
  end.

Definition fresh_row (x : orow) : Prop := rejections x = 0 /\ next_attempt_at x = None.

(** Every record in [b] comes after those of the earlier events of [l] about the same task. *)
Definition in_order (l : list orow) (b : list KafkaMessage.Message) : Prop :=
  forall b1 m b2, b = b1 ++ m :: b2 ->
  exists j r, l !! j = Some r /\ m = publish r /\
    forall i r', (i < j)%nat -> l !! i = Some r' -> aggregate_id r' = aggregate_id r -> publish r' ∈ b1.

Lemma filter_published (l : list orow) (n : nat) :
  StronglySorted Z.lt (o_id <$> l) ->
  filter (fun x => o_id x ∉ (o_id <$> take n l)) l = drop n l.
Proof.
  revert n. induction l as [|x l IH]; intros n Hs; [by rewrite drop_nil|].
  cbn in Hs. inversion_clear Hs as [|? ? Hs' Hf]. rewrite Forall_fmap, Forall_forall in Hf.
  destruct n as [|n]; [apply filter_id, Forall_forall; intros y _; cbn; apply not_elem_of_nil|].
  cbn [take drop]. rewrite fmap_cons, filter_cons_False by (rewrite elem_of_cons; tauto).
  rewrite <- (IH n Hs'). apply filter_ext_in. intros y Hy. rewrite elem_of_cons.
  specialize (Hf y Hy). cbn in Hf. split; [tauto|]. intros Hn [He|]; [lia|done].
Qed.

(** In a list sorted by id a smaller id is further ahead. *)
Lemma sorted_ahead (l : list orow) (q : nat) (x y : orow) :
  StronglySorted Z.lt (o_id <$> l) -> l !! q = Some x -> y ∈ l -> o_id y < o_id x -> y ∈ take q l.
Proof.
  revert q. induction l as [|z l IH]; intros q Hs Hq Hy Hlt; [done|].
  cbn in Hs. inversion_clear Hs as [|? ? Hs' Hf]. rewrite Forall_fmap, Forall_forall in Hf.
  destruct q as [|q]; cbn in Hq |- *.
  - injection Hq as ->. apply elem_of_cons in Hy as [->|Hy]; [lia|]. specialize (Hf y Hy). cbn in Hf. lia.
  - apply elem_of_cons in Hy as [->|Hy]; [left|right]. by apply IH.
Qed.

Lemma sorted_lookup {A} (R : A -> A -> Prop) (l : list A) (i j : nat) (x y : A) :
  StronglySorted R l -> (i < j)%nat -> l !! i = Some x -> l !! j = Some y -> R x y.
Proof.
  intros Hs. revert i j. induction Hs as [|z l Hs IH Hf]; intros [|i] [|j] Hij Hi Hj; try done; try lia; cbn in *.
  - injection Hi as ->. rewrite Forall_forall in Hf. apply Hf. by eapply list_elem_of_lookup_2.
  - eapply (IH i j); [lia|done|done].
Qed.

Lemma all_due (P : penv) (d : db) :
  0 < MaxAttempts cfg -> (forall id, p_locked P id = false) -> Forall fresh_row (outbox d) ->
  takes P d = take (Z.to_nat (BatchSize cfg)) (by_id (outbox d)).
Proof.
  intros Hm Hl Hf. unfold takes. do 2 f_equal. apply filter_id. eapply Forall_impl; [exact Hf|].
  intros x [Hr Hn]. unfold due. rewrite Hr, Hn, Hl. cbn. by rewrite (proj2 (Z.ltb_lt _ _) Hm).
Qed.

Lemma touched_fresh (P : penv) (ids : list Z) (l l' : list orow) :
  (forall j err, p_send P j = Some err -> KafkaMessage.Rejected err = false) ->
  Forall2 (touched P ids) l l' -> Forall fresh_row l -> Forall fresh_row l'.
Proof.
  intros Hno Hf. induction Hf as [|x y l l' Hx Hl IH]; intros Hr; [constructor|].
  inversion_clear Hr as [|? ? [H1 H2] Hr']. constructor; [|by apply IH].
  destruct Hx as [->|[_ [[e ->]|(e & dl & i & err & _ & _ & Hs & Hrej)]]]; [done|by split|].
  by rewrite (Hno i err Hs) in Hrej.
Qed.

(** Publishing the head of the outbox keeps the order of every task. *)
Lemma in_order_head (l L : list orow) (b : list KafkaMessage.Message) (n : nat) :
  StronglySorted task_order l -> StronglySorted Z.lt (o_id <$> L) -> (forall x, x ∈ L -> core x ∈ l) ->
  (forall r, r ∈ l -> (exists y, y ∈ L /\ r = core y) \/ publish r ∈ b) ->
  in_order l b -> in_order l (b ++ (publish <$> take n L)).
Proof.
  intros Ht HL Hrows Hkept Ho b1 m b2 He. destruct (decide (length b1 < length b)%nat) as [Hlt|Hge].
  { assert (Hb : b = b1 ++ m :: take (length b - S (length b1)) b2).
    { apply (f_equal (take (length b))) in He. rewrite take_app_length in He. rewrite He at 1.
      rewrite take_app_ge by lia.
      by replace (length b - length b1)%nat with (S (length b - S (length b1))) by lia. }
    exact (Ho _ _ _ Hb). }
  pose proof He as He'. apply (f_equal (fun x => x !! length b1)) in He'.
  rewrite lookup_app_r in He' by lia. rewrite (lookup_app_r b1), Nat.sub_diag in He' by lia.
  cbn in He'. rewrite list_lookup_fmap in He'. set (q := (length b1 - length b)%nat) in *.
  destruct (take n L !! q) as [x|] eqn:Hx; [|done]. cbn in He'. injection He' as <-. apply lookup_take_Some in Hx as [Hx Hn].
  assert (Hb1 : b1 = b ++ (publish <$> take q L)).
  { apply (f_equal (take (length b1))) in He. rewrite take_app_length in He.
    rewrite take_app_ge, <- fmap_take, take_take in He by lia. fold q in He. rewrite Nat.min_l in He by lia. by symmetry. }
  destruct (proj1 (list_elem_of_lookup _ _) (Hrows x ltac:(by eapply list_elem_of_lookup_2))) as [j Hj].
  exists j, (core x). split_and!; [done|by apply publish_core|]. intros i r' Hij Hr' Ha.
  pose proof (sorted_lookup _ _ _ _ _ _ Ht Hij Hr' Hj Ha) as Hid. change (o_id (core x)) with (o_id x) in Hid. rewrite Hb1. apply elem_of_app.
  destruct (Hkept r' ltac:(by eapply list_elem_of_lookup_2)) as [(y & Hy & ->)|Hb]; [right|by left].
  apply list_elem_of_fmap. exists y. split; [by apply publish_core|]. by eapply sorted_ahead.
Qed.

(** Committed events have their numbers in the order of their tasks, and what the broker has
    of a task is in that order. *)
Record order_inv (s : sys) : Prop := {
  oi_sys : sys_inv s;
  oi_fresh : Forall fresh_row (outbox (s_db s));
  oi_rows : ordered_rows (ids (s_db s)) (s_committed s);
  oi_order : in_order (s_committed s) (s_broker s)
}.

Lemma exec_rows_fresh (d : db) (o : op) :
  store_inv d -> Forall fresh_row (outbox d) -> Forall fresh_row (outbox (exec d o)).
Proof.
  intros Hi Hf.
  assert (Hins : forall now gap early e h d0 d1, insert_outbox now gap early e h d0 = inl (tt, d1) ->
    outbox d0 = outbox d -> Forall fresh_row (outbox d1)).
  { intros now gap early e h d0 d1 H Ho. apply insert_outbox_inl in H as (r & Hr & _ & _ & _ & _ & _ & _ & H1 & H2 & _).
    rewrite Hr, Ho. apply Forall_app. split; [done|]. constructor; [by split|constructor]. }
  destruct o as [E gf h eid id title idem|E h eid id p x|E h eid id x|now ttl f l]; cbn [exec].
  - destruct (Create_db E gf h eid id title idem d) as [->|(s & Hs & ->)]; [done|].
    unfold create_tx in Hs. tx_inv. cbn in *. unfold insert_task in Hq.
    destruct (tasks d !! id); [done|]. simplify_eq/=.
    assert (Ho : outbox (t_db s1) = outbox d).
    { destruct idem as [k|]; tx_inv; [|done]. unfold insert_key in Hq. cbn in Hq.
      destruct (keys d !! Key k) as [r|]; simplify_eq/=; [destruct (negb _); tx_inv; done|by tx_inv]. }
    destruct (createdEvent eid _) as [py|]; [|done]. tx_inv. cbn in *. by eapply Hins.
  - unfold Update. pose proof (inTx_cases E None (update_tx E h eid id p x) d) as H. cbn zeta in H.
    destruct (inTx _ _ _ _) as [[err v] d']. cbn [snd].
    destruct H as [[-> _]|(s & Hs & _ & -> & _)]; [done|]. unfold update_tx in Hs. tx_inv. cbn in *.
    unfold update_task in Hq. destruct (tasks d !! id) as [t|]; simplify_eq/=;
      [|by apply missOrMismatch_fails in Hs].
    destruct (negb _); simplify_eq/=; [by apply missOrMismatch_fails in Hs|].
    destruct (_ =? _); simplify_eq/=. tx_inv. cbn in *. by eapply Hins.
  - unfold Delete. pose proof (inTx_cases E tt (delete_tx E h eid id x) d) as H. cbn zeta in H.
    destruct (inTx _ _ _ _) as [[err v] d']. cbn [snd].
    destruct H as [[-> _]|(s & Hs & _ & -> & _)]; [done|]. unfold delete_tx in Hs. tx_inv. cbn in *.
    unfold delete_task in Hq. destruct (tasks d !! id) as [t|]; simplify_eq/=;
      [|by apply missOrMismatch_fails in Hs].
    destruct (negb _); simplify_eq/=; [by apply missOrMismatch_fails in Hs|].
    tx_inv. cbn in *. by eapply Hins.
  - unfold PurgeIdempotencyKeys. destruct f; [done|]. by destruct l.
Qed.

Lemma in_order_more (l k : list orow) (b : list KafkaMessage.Message) : in_order l b -> in_order (l ++ k) b.
Proof.
  intros Ho b1 m b2 He. destruct (Ho b1 m b2 He) as (j & r & Hj & Hm & Hi).
  pose proof (lookup_lt_Some _ _ _ Hj). exists j, r.
  rewrite lookup_app_l by done. split_and!; try done. intros i r' Hij Hr'.
  rewrite lookup_app_l in Hr' by lia. by eapply Hi.
Qed.

Lemma order_step (s : sys) (a : action) :
  0 < MaxAttempts cfg -> orderly a -> order_inv s -> order_inv (sys_step s a).
Proof.
  intros Hm Hor [Hy Hf [Ht Hg] Hord]. pose proof (yi_store _ Hy) as Hi. split; [by apply sys_step_inv|..]; destruct a as [o|pub P]; cbn [sys_step].
  - by apply exec_rows_fresh.
  - destruct Hor as [Hno _]. destruct (relayOnce_effect pub P (s_db s) Hi) as [A HA]. cbn.
    destruct (pe_db _ _ _ _ HA) as [->|(l & Hfl & ->)]; [done|]. cbn.
    eapply sublist_forall; [apply sublist_filter|]. by eapply touched_fresh.
  - destruct (exec_follows (s_db s) o Hi) as [_ (rows & Ho & _ & Hn)]. destruct (Hn (si_identity _ Hi)) as [_ Hn'].
    cbn. rewrite Ho, drop_app_length. destruct (Hn' (s_committed s) (conj Ht Hg)) as [H1 H2]. split.
    + apply core_task_order in H1. rewrite fmap_app in H1. apply core_task_order. by rewrite fmap_app, <- list_fmap_compose.
    + apply core_given in H2. rewrite fmap_app in H2. apply core_given. by rewrite fmap_app, <- list_fmap_compose.
  - cbn. destruct (relayOnce_effect pub P (s_db s) Hi) as [A HA]. apply effect_core in HA as [(_ & _ & ->) _]. done.
  - by apply in_order_more.
  - destruct Hor as [Hno Hlock]. destruct (relayOnce_effect pub P (s_db s) Hi) as [A HA]. cbn. rewrite (pe_acked _ _ _ _ HA).
    destruct (pe_prefix _ _ _ _ HA Hno) as [n0 ->]. rewrite all_due, take_take by done.
    apply in_order_head; [done|apply by_id_sorted, (si_ordered _ Hi)| | |done].
    + intros x Hx. rewrite by_id_perm in Hx. by apply (yi_rows _ Hy), elem_of_core.
    + intros r Hr. destruct (yi_kept _ Hy r Hr) as [(y & -> & Hy')%list_elem_of_fmap|]; [left|by right].
      exists y. by rewrite by_id_perm.
Qed.

(** C7: the events of one task reach the broker in commit order, although the numbers of the
    outbox, by which the relay sorts, are given before the commit. As long as the broker only
    has outages (it never refuses a record for good) and no one outside the relay locks rows
    of the outbox, no record is ever acknowledged before those of all the events of its task
    committed before it, whatever crashes and retries make of the passes (an event may be
    sent again, never ahead). *)
Theorem published_in_commit_order (acts : list action) :
  0 < MaxAttempts cfg -> Forall orderly acts ->
  in_order (s_committed (sys_run acts)) (s_broker (sys_run acts)).
Proof.
  intros Hm Hor. unfold sys_run.
  assert (H0 : order_inv sys_init).
  { split; [apply (sys_run_inv [])|constructor|split; constructor|]. intros b1 m b2 He. by destruct b1. }
  revert H0. generalize sys_init. induction Hor as [|a acts Ha Hor IH]; intros s Hk; cbn [foldl].
  - apply (oi_order _ Hk).
  - apply IH. by apply order_step.
Qed.

(** ** Accounting *)

(** One pass accounts for every row of the outbox. A row is deleted only
    when the broker acknowledged its record; any other row keeps its event, and its
    count of rejections grows by one only when it was due and the broker rejected a
    record, in which case the next attempt is at most an hour away; an outage
    never counts. A row that is dead (or waiting, or held by another) is neither
    sent nor changed. *)
Theorem pass_accounting (pub : bool) (P : penv) (d : db) (x : orow) :
  store_inv d -> 0 < RejectBackoff cfg -> x ∈ outbox d -> 0 <= rejections x ->
  let o := relayOnce pub P d in
  (publish x ∈ x_acked o /\ x ∈ takes P d /\ o_id x ∉ (o_id <$> outbox (x_db o))) \/
  (exists x', x' ∈ outbox (x_db o) /\ core x' = core x /\
    (x' = x \/
     (x ∈ takes P d /\
      ((rejections x' = rejections x /\ next_attempt_at x' = next_attempt_at x) \/
       (rejections x' = rejections x + 1 /\ rejections x < MaxAttempts cfg /\
        (exists t, next_attempt_at x' = Some t /\ e_now (p_env P) < t <= e_now (p_env P) + Go.hour) /\
        exists i err, p_send P i = Some err /\ KafkaMessage.Rejected err = true))))).
Proof.
  intros Hi Hrb Hx Hr o. destruct (relayOnce_effect pub P d Hi) as [A HA]. fold o in HA.
  destruct (pe_db _ _ _ _ HA) as [->|(l & Hf & Hd)]; [right; exists x; auto|].
  apply list_elem_of_lookup in Hx as [i Hx].
  destruct (Forall2_lookup_l _ _ _ _ _ Hf Hx) as (x' & Hx' & Ht).
  pose proof (touched_core _ _ _ _ Ht) as Hcore.
  assert (Hin : forall y, y ∈ takes P d -> o_id x = o_id y -> x = y).
  { intros y Hy He. eapply (id_inj (outbox d)); [apply (si_ordered _ Hi)|by eapply list_elem_of_lookup_2| |done].
    by apply (takes_elem P). }
  destruct (decide (o_id x ∈ (o_id <$> A))) as [HinA|HnA].
  - left. apply list_elem_of_fmap in HinA as (y & He & Hy).
    assert (Hyt : y ∈ takes P d) by (eapply sublist_elem; [apply (pe_batch _ _ _ _ HA)|done]).
    assert (x = y) as -> by by apply Hin. split_and!; [|done|].
    + rewrite (pe_acked _ _ _ _ HA). apply list_elem_of_fmap. eauto.
    + rewrite Hd. cbn. intros (z & Hz & [Hnz _]%list_elem_of_filter)%list_elem_of_fmap.
      apply Hnz. rewrite <- Hz. apply list_elem_of_fmap. eauto.
  - right. exists x'. split_and!; [|done|].
    + rewrite Hd. cbn. apply list_elem_of_filter. split; [by rewrite (core_id _ _ Hcore)|].
      by eapply list_elem_of_lookup_2.
    + destruct Ht as [->|[Hid Ha]]; [by left|right].
      apply list_elem_of_fmap in Hid as (y & He & Hy). assert (x = y) as <- by by apply Hin.
      split; [done|]. destruct Ha as [[e ->]|(e & delay & j & err & -> & Hdel & Hs & Hrej)]; [by left|right].
      cbn. split_and!; [done| | |eauto].
      * apply takes_elem in Hy as [_ Hy]. unfold due in Hy. zbool. done.
      * eexists. split; [done|]. unfold reject_delay, maxRejectDelay in Hdel.
        destruct (_ || _); [done|]. injection Hdel as <-.
        pose proof (Z.pow_pos_nonneg 2 (rejections x) ltac:(lia) Hr).
        unfold Go.hour, Go.minute, Go.second. nia.
Qed.

(** ** Progress *)

(** A pass nothing disturbs. *)
Definition quiet_pass (now : Z) : penv :=
  {| p_env := quiet now; p_leader := true; p_locked := fun _ => false;
     p_send := fun _ => None; p_stop := fun _ => false |}.

Lemma quiet_loop (now : Z) (batch : list orow) (i : nat) (s : txst vars) :
  pass_loop (quiet_pass now) i batch s =
  (inl tt, {| t_db := t_db s; t_n := t_n s; t_aborted := t_aborted s;
    t_loc := {| v_done := v_done (t_loc s) ++ (o_id <$> batch);
                v_taken := v_taken (t_loc s) + Z.of_nat (length batch);
                v_pubErr := v_pubErr (t_loc s);
                v_acked := v_acked (t_loc s) ++ (publish <$> batch) |} |}).
Proof.
  revert i s. induction batch as [|x batch IH]; intros i s.
  - cbn. unfold ret. rewrite !app_nil_r, Z.add_0_r. by destruct s as [? ? ? []].
  - cbn [pass_loop quiet_pass p_stop p_send]. unfold bind, assign. cbn.
    rewrite IH. cbn. rewrite <- !app_assoc. cbn. do 3 f_equal. lia.
Qed.

Lemma quiet_pass_done (now : Z) (d : db) :
  store_inv d -> 0 < BatchSize cfg -> Forall (fun x => due now x = true) (outbox d) ->
  let o := relayOnce true (quiet_pass now) d in
  let n := Z.to_nat (BatchSize cfg) in
  x_err o = None /\ x_acked o = publish <$> take n (by_id (outbox d)) /\
  x_sent o = Z.of_nat (length (take n (by_id (outbox d)))) /\ x_taken o = x_sent o /\
  exists l, by_id l = drop n (by_id (outbox d)) /\ l `sublist_of` outbox d /\ x_db o = set_outbox l d.
Proof.
  intros Hi Hb Hdue. cbn zeta. set (n := Z.to_nat (BatchSize cfg)).
  assert (Ht : select_batch now (fun _ => false) d = inl (take n (by_id (outbox d)), d)).
  { unfold select_batch. do 4 f_equal. apply filter_id. eapply Forall_impl; [exact Hdue|]. intros x ->. done. }
  pose proof (proj1 (si_ordered _ Hi)) as Hnd. pose proof (by_id_sorted _ Hnd) as Hsorted.
  set (left := filter (fun x => o_id x ∉ (o_id <$> take n (by_id (outbox d)))) (outbox d)).
  assert (Hleft : by_id left = drop n (by_id (outbox d))) by (unfold left; rewrite by_id_filter by done; by apply filter_published).
  unfold relayOnce, sql, stmt. cbn [quiet_pass p_env quiet e_begin negb e_stmt t_aborted t_db p_leader p_locked t_n e_now].
  rewrite Ht. destruct (take n (by_id (outbox d))) as [|x batch] eqn:Htk.
  - assert (He : by_id (outbox d) = []).
    { destruct (by_id (outbox d)) as [|y l]; [done|]. destruct n eqn:Hn; [lia|done]. }
    assert (Ho : outbox d = []) by (apply Permutation_nil_r; by rewrite <- (by_id_perm (outbox d)), He).
    cbn. split_and!; try done. exists []. rewrite He, drop_nil. split_and!; [done|by apply sublist_nil_l|]. unfold set_outbox. rewrite <- Ho. by destruct d.
  - fold (quiet_pass now). rewrite quiet_loop. cbn [t_loc v_done app fmap list_fmap].
    cbn [t_aborted t_db]. unfold delete_published, commit. cbn [t_aborted e_commit quiet t_db]. cbn.
    split_and!; try done; try (rewrite length_fmap; lia). exists left. split_and!; [done|apply sublist_filter|done].
Qed.

(** [n] passes in a row, and what they got acknowledged. *)
Fixpoint drain (n : nat) (now : Z) (d : db) : list KafkaMessage.Message * db :=
  match n with
  | O => ([], d)
  | S n =>
      let o := relayOnce true (quiet_pass now) d in
      let '(ms, d) := drain n now (x_db o) in (x_acked o ++ ms, d)
  end.

(** C30: with the database and the broker up, the relay empties the outbox: as
    many passes as it takes batches to cover the due rows publish every one of
    them, each exactly once and in the order of their numbers, and leave the outbox empty
    and the tasks as they were. *)
Theorem relay_drains (n : nat) (now : Z) (d : db) :
  store_inv d -> 0 < BatchSize cfg -> Forall (fun x => due now x = true) (outbox d) ->
  Z.of_nat (length (outbox d)) <= Z.of_nat n * BatchSize cfg ->
  drain n now d = (publish <$> by_id (outbox d), set_outbox [] d).
Proof.
  revert d. induction n as [|n IH]; intros d Hi Hb Hdue Hlen.
  - assert (He : outbox d = []) by (destruct (outbox d); [done|cbn in Hlen; lia]).
    cbn. rewrite He. f_equal. unfold set_outbox. rewrite <- He. by destruct d.
  - cbn [drain]. pose proof (relay_inv true (quiet_pass now) d Hi) as Hi'.
    destruct (quiet_pass_done now d Hi Hb Hdue) as (_ & Ha & _ & _ & l & Hl & Hsub & Hd).
    set (k := Z.to_nat (BatchSize cfg)) in *. rewrite Hd in Hi' |- *.
    rewrite IH; [|done|done| |].
    + rewrite Ha. cbn [outbox set_outbox]. by rewrite Hl, <- fmap_app, take_drop.
    + cbn. by eapply sublist_forall.
    + cbn [outbox set_outbox]. rewrite <- (by_id_perm l), Hl, length_drop, (by_id_perm (outbox d)). lia.
Qed.

(** ** The loop *)

(** Between passes, with the defaults filled in: a failed pass is followed
    by a wait between half of and the whole of [PollInterval * 2^(failures-1)]
    capped at [MaxBackoff], during which [Wake] is not heard; a full batch is
    followed by the next at once; any other pass resets the failures and waits
    [PollInterval], which [Wake] cuts short. *)
Theorem waits_between_passes (N : Z -> Z) (failures : Z) (o : outcome) :
  (forall k, 0 < k -> 0 <= N k < k) -> 0 <= failures ->
  0 < PollInterval cfg < 2 ^ 63 -> 0 < MaxBackoff cfg <= 2 ^ 62 ->
  let '(failures', wait, listens) := after_pass N failures o in
  match x_err o with
  | Some _ =>
      let d := Z.min (PollInterval cfg * 2 ^ failures) (MaxBackoff cfg) in
      failures' = failures + 1 /\ d / 2 <= wait <= d /\ listens = false
  | None => failures' = 0 /\ listens = true /\
      wait = if x_taken o =? BatchSize cfg then 0 else PollInterval cfg
  end.
Proof.
  intros HN Hf Hp Hm. unfold after_pass. destruct (x_err o) as [e|].
  - split_and!; [done|..|done]; unfold backoff;
      change (let d := KafkaMessage.double (Z.to_nat (failures + 1 - 1)) (PollInterval cfg) (MaxBackoff cfg) in _)
        with (KafkaMessage.backoff N (failures + 1 - 1) (PollInterval cfg) (MaxBackoff cfg));
      replace (failures + 1 - 1) with failures by lia;
      apply (KafkaMessage.backoff_bounds N failures (PollInterval cfg) (MaxBackoff cfg)); auto; lia.
  - by destruct (x_taken o =? BatchSize cfg).
Qed.

(** Every row of the outbox counts as pending or dead, never as both. *)
Theorem stats_partition (now : Z) (d : db) :
  let '(pending, dead, _) := statsSQL now d in pending + dead = Z.of_nat (length (outbox d)).
Proof.
  unfold statsSQL, pending_rows, dead_rows. induction (outbox d) as [|x l IH]; [done|].
  rewrite !filter_cons, length_cons.
  destruct (decide (rejections x < MaxAttempts cfg)), (decide (MaxAttempts cfg <= rejections x)); try lia;
    rewrite length_cons; lia.
Qed.

End Relay.

(** ** Concrete passes *)

Definition demo_cfg : Config :=
  withDefaults {| Topic := "tasks"; PollInterval := 0; BatchSize := 2; MaxBackoff := 0; MaxAttempts := 0; RejectBackoff := 0 |}.
Definition demo_json (p : payload) : string :=
  match p with
  | TaskCreatedEvent id _ _ _ _ => "created " ++ id
  | TaskUpdatedEvent _ id _ _ _ => "updated " ++ id
  | TaskDeletedEvent _ id _ => "deleted " ++ id
  end%string.
Definition demo_text (e : KafkaMessage.error) : string := "broker error".

Definition demo_db : db :=
  foldl exec empty_db
    [OpCreate (quiet 10) None ∅ "e1" "a" "one" None; OpCreate (quiet 20) None ∅ "e2" "b" "two" None;
     OpDelete (quiet 30) ∅ "e3" "a" None].

Lemma demo_db_inv : store_inv demo_db.
Proof. apply run_follows, store_inv_empty. Qed.

(** The second record meets an outage. *)
Definition demo_outage : penv :=
  {| p_env := quiet 40; p_leader := true; p_locked := fun _ => false;
     p_send := fun i => match i with
                        | 1%nat => Some (KafkaMessage.NewSendError KafkaMessage.KindUnavailable 0 (Errors.Node (KafkaMessage.TText "down") []))
                        | _ => None
                        end;
     p_stop := fun _ => false |}.

Definition demo_acts : list action :=
  [AStore (OpCreate (quiet 10) None ∅ "e1" "a" "one" None);
   AStore (OpCreate (quiet 20) None ∅ "e2" "b" "two" None);
   ARelay true demo_outage; ARelay true (quiet_pass 50)].

(** The create of [b] took its number before that of [a], and commits after it: the relay sends
    [b] first, and the events of [a] in their order. *)
Definition demo_crossed : list action :=
  [AStore (OpCreate {| e_now := 10; e_gap := 1; e_early := None; e_begin := None; e_stmt := fun _ => None; e_commit := Commits |} None ∅ "e1" "a" "one" None);
   AStore (OpCreate {| e_now := 20; e_gap := 0; e_early := Some 1; e_begin := None; e_stmt := fun _ => None; e_commit := Commits |} None ∅ "e2" "b" "two" None);
   AStore (OpDelete (quiet 30) ∅ "e3" "a" None);
   ARelay true demo_outage; ARelay true (quiet_pass 50)].

Lemma published_in_commit_order_witness :
  in_order demo_json demo_cfg
    (s_committed (sys_run demo_json demo_text demo_cfg demo_crossed))
    (s_broker (sys_run demo_json demo_text demo_cfg demo_crossed)) /\
  aggregate_id <$> s_committed (sys_run demo_json demo_text demo_cfg demo_crossed) = ["a"; "b"; "a"]%string /\
  KafkaMessage.MValue <$> s_broker (sys_run demo_json demo_text demo_cfg demo_crossed) = ["created b"; "created a"; "deleted a"]%string.
Proof.
  split; [|split; vm_compute; reflexivity].
  apply (published_in_commit_order demo_json demo_text demo_cfg demo_crossed).
  - vm_compute. reflexivity.
  - do 3 (apply Forall_cons_2; [done|]).
    apply Forall_cons_2; [|apply Forall_cons_2; [|apply Forall_nil_2]]; split; try (intros; reflexivity).
    + intros [|[|j]] err H; [discriminate| |discriminate]. injection H as <-. vm_compute. reflexivity.
    + discriminate.
Defined.

Lemma pass_accounting_witness :
  exists x, head (outbox demo_db) = Some x /\
  ((publish demo_json demo_cfg x ∈ x_acked (relayOnce demo_json demo_text demo_cfg true demo_outage demo_db)) \/
  (exists x', x' ∈ outbox (x_db (relayOnce demo_json demo_text demo_cfg true demo_outage demo_db)) /\ core x' = core x)).
Proof.
  destruct (outbox demo_db) as [|x l] eqn:Ho; [vm_compute in Ho; discriminate|].
  exists x. split; [reflexivity|].
  pose proof (pass_accounting demo_json demo_text demo_cfg true demo_outage demo_db x demo_db_inv
    ltac:(vm_compute; reflexivity) ltac:(rewrite Ho; left) ltac:(vm_compute in Ho; injection Ho as <- _; vm_compute; discriminate)) as H.
  cbv zeta in H. destruct H as [[H _]|(x' & H1 & H2 & _)]; [left; exact H|right; exists x'; split; assumption].
Defined.

Lemma relay_drains_witness :
  drain demo_json demo_text demo_cfg 2 50 demo_db = (publish demo_json demo_cfg <$> by_id (outbox demo_db), set_outbox [] demo_db).
Proof.
  apply (relay_drains demo_json demo_text demo_cfg 2 50 demo_db demo_db_inv).
  - vm_compute. reflexivity.
  - vm_compute. repeat constructor.
  - vm_compute. discriminate.
Defined.

Lemma waits_between_passes_witness :
  let '(failures, wait, listens) := after_pass demo_cfg (fun _ => 0) 2 (nothing (Some (RDriver "outbox: begin" "down")) demo_db) in
  failures = 3 /\ listens = false.
Proof.
  pose proof (waits_between_passes demo_cfg (fun _ => 0) 2 (nothing (Some (RDriver "outbox: begin" "down")) demo_db)
    ltac:(intros; lia) ltac:(lia) ltac:(vm_compute; split; reflexivity) ltac:(vm_compute; split; [reflexivity|discriminate])) as H.
  destruct (after_pass _ _ _ _) as [[f w] l]. cbn in H. destruct H as (H1 & _ & H2). split; assumption.
Defined.

End Relay.
