(* ===== verification/Worker.v ===== *)
(** The consumer service's worker (services/consumer/internal/worker): the LRU
    set of applied event ids and the handler that applies each event once. *)
From S2P Require Import Prelude GoError GoStr KafkaMessage.

Module Worker.
Import KafkaMessage.

(** ** lru *)

(** The doubly linked list (front = most recent) as the list of its values, and
    the index into it: [items] has an entry exactly for the values linked. *)
Record lru := { size : Z; order : list string; items : gset string }.

Definition newLRU (n : Z) : lru := {| size := n; order := []; items := ∅ |}.

(** [list.MoveToFront] of the element the index holds for [id]. *)
Definition move_to_front (id : string) (l : list string) : list string :=
  id :: filter (fun x => x <> id) l.

Definition contains (l : lru) (id : string) : bool * lru :=
  if bool_decide (id ∈ items l)
  then (true, {| size := size l; order := move_to_front id (order l); items := items l |})
  else (false, l).

Definition add (l : lru) (id : string) : lru :=
  if bool_decide (id ∈ items l)
  then {| size := size l; order := move_to_front id (order l); items := items l |}
  else
    let order' := id :: order l in
    let items' := {[id]} ∪ items l in
    if size l <? Z.of_nat (length order') then
      match last order' with
      | Some oldest => {| size := size l; order := removelast order'; items := items' ∖ {[oldest]} |}
      | None => {| size := size l; order := order'; items := items' |}
      end
    else {| size := size l; order := order'; items := items' |}.

Definition len (l : lru) : Z := Z.of_nat (length (order l)).

(** ** Worker *)

Definition TaskCreated : string := "task.created".
Definition TaskUpdated : string := "task.updated".
Definition TaskDeleted : string := "task.deleted".

Definition DefaultDedupeSize : Z := 10000.

(** The part of the payload the worker reads. *)
Record taskEvent := {
  EventID : string;
  EventType : string;
  ID : string;
  TaskID : string;
  Task_ : option string
}.

Definition taskID (e : taskEvent) : string :=
  if negb (String.eqb (ID e) "") then ID e
  else if negb (String.eqb (TaskID e) "") then TaskID e
  else match Task_ e with Some i => i | None => "" end.

(** The ids it has applied, and its counters. *)
Record worker := {
  seen : lru;
  byType : gmap string Z;
  duplicates : Z;
  rejected : gmap string Z
}.

Definition New (dedupeSize : Z) : worker :=
  {| seen := newLRU (if dedupeSize <=? 0 then DefaultDedupeSize else dedupeSize);
     byType := ∅; duplicates := 0; rejected := ∅ |}.

Definition inc (k : string) (m : gmap string Z) : gmap string Z := <[k := default 0 (m !! k) + 1]> m.

Definition known_type (t : string) : bool :=
  String.eqb t TaskCreated || String.eqb t TaskUpdated || String.eqb t TaskDeleted.

Section Handle.
(** [json.Unmarshal] of a payload, and the hook that runs before an event is
    applied ([None] answers: no error). *)
Context (Unmarshal : string -> option taskEvent).
Context (inject : string -> Message -> option error).

(** The type and the id the handler works with. *)
Definition event_type (evt : taskEvent) (msg : Message) : string :=
  let t := match Message_Header msg HeaderEventType with Some h => h | None => EventType evt end in
  if String.eqb t "" then TaskCreated else t.

Definition event_id (evt : taskEvent) (msg : Message) : string :=
  match Message_Header msg HeaderEventID with
  | Some h => if String.eqb h "" then EventID evt else h
  | None => EventID evt
  end.

(** The handler: its error, the worker after, and the event it applied. *)
Definition Handle (w : worker) (msg : Message) : option error * worker * option string :=
  match Unmarshal (MValue msg) with
  | None =>
      (Permanent (Some (Errors.Node (TText "decode task event") [])),
       {| seen := seen w; byType := byType w; duplicates := duplicates w; rejected := inc "undecodable" (rejected w) |},
       None)
  | Some evt =>
      let eventType := event_type evt msg in
      if negb (known_type eventType) then
        (Permanent (Some (Errors.Node (TText "unknown event type") [])),
         {| seen := seen w; byType := byType w; duplicates := duplicates w; rejected := inc "unknown_type" (rejected w) |},
         None)
      else
        let eventID := event_id evt msg in
        let '(dup, l) := if String.eqb eventID "" then (false, seen w) else contains (seen w) eventID in
        if dup then
          (None, {| seen := l; byType := byType w; duplicates := duplicates w + 1; rejected := rejected w |}, None)
        else
          match inject eventType msg with
          | Some err => (Some err, {| seen := l; byType := byType w; duplicates := duplicates w; rejected := rejected w |}, None)
          | None =>
              (None,
               {| seen := if String.eqb eventID "" then l else add l eventID;
                  byType := inc eventType (byType w); duplicates := duplicates w; rejected := rejected w |},
               Some eventID)
          end
  end.

(** A stream of deliveries: the ids applied, in order. *)
Fixpoint deliver (w : worker) (msgs : list Message) : list string * worker :=
  match msgs with
  | [] => ([], w)
  | m :: msgs =>
      let '(_, w, a) := Handle w m in
      let '(l, w) := deliver w msgs in
      (match a with Some id => id :: l | None => l end, w)
  end.

End Handle.

(** ** The LRU as a recency list *)

(** All ids ever added or found again, most recent first; the LRU holds its
    first [size]. *)
Definition recent (l : lru) (h : list string) : Prop :=
  0 < size l /\ NoDup h /\ order l = take (Z.to_nat (size l)) h /\ items l = list_to_set (order l).

Lemma recent_new (n : Z) : 0 < n -> recent (newLRU n) [].
Proof. intros Hn. split_and!; [done|constructor|by rewrite take_nil|done]. Qed.

Lemma recent_items (l : lru) (h : list string) (id : string) :
  recent l h -> id ∈ items l <-> id ∈ take (Z.to_nat (size l)) h.
Proof. intros (_ & _ & Ho & Hi). rewrite Hi, Ho. apply elem_of_list_to_set. Qed.

Lemma filter_notin (id : string) (l : list string) : id ∉ l -> filter (fun x => x <> id) l = l.
Proof. intros H. apply filter_id, Forall_forall. intros x Hx ->. done. Qed.

Lemma nodup_touch (id : string) (h : list string) : NoDup h -> NoDup (move_to_front id h).
Proof.
  intros H. unfold move_to_front. constructor; [|by apply NoDup_filter].
  intros [Hn _]%list_elem_of_filter. done.
Qed.

(** Moving to the front commutes with the bound. *)
Lemma touch_take (id : string) (n : nat) (h : list string) :
  NoDup h -> id ∈ take n h -> move_to_front id (take n h) = take n (move_to_front id h).
Proof.
  intros Hnd Hin. unfold move_to_front. destruct n as [|n]; [by apply elem_of_nil in Hin|].
  cbn [take]. f_equal. revert n Hin. induction h as [|x h IH]; intros n Hin; [by apply elem_of_nil in Hin|].
  inversion_clear Hnd as [|? ? Hx Hnd']. cbn [take] in *.
  destruct (decide (x = id)) as [->|Hne].
  - rewrite !filter_cons_False, filter_notin, filter_notin; [done|done| |tauto|tauto].
    intros (i & Hi & _)%elem_of_take. by apply Hx, (list_elem_of_lookup_2 _ i).
  - rewrite !filter_cons_True by done.
    apply elem_of_cons in Hin as [->|Hin]; [done|].
    destruct n as [|n]; [by apply elem_of_nil in Hin|]. cbn [take]. f_equal. by apply IH.
Qed.

Lemma add_take (id : string) (n : nat) (h : list string) :
  id ∉ take (S n) h -> take (S n) (move_to_front id h) = id :: take n h.
Proof.
  intros Hin. unfold move_to_front. cbn [take]. f_equal. revert n Hin.
  induction h as [|x h IH]; intros n Hin; [done|]. cbn [take] in Hin.
  assert (Hx : x <> id) by set_solver. rewrite filter_cons_True by done.
  destruct n as [|n]; [done|]. cbn [take]. f_equal. apply IH. set_solver.
Qed.

Lemma contains_recent (l : lru) (h : list string) (id : string) :
  recent l h ->
  let '(hit, l') := contains l id in
  hit = bool_decide (id ∈ take (Z.to_nat (size l)) h) /\ size l' = size l /\
  recent l' (if hit then move_to_front id h else h).
Proof.
  intros Hr. pose proof (recent_items l h id Hr) as Hi. unfold contains.
  destruct (bool_decide_reflect (id ∈ items l)) as [Hin|Hin].
  - rewrite bool_decide_eq_true_2 by by apply Hi. apply Hi in Hin.
    destruct Hr as (Hs & Hnd & Ho & Hit). unfold recent. split_and!; try done; cbn.
    + by apply nodup_touch.
    + rewrite Ho. by apply touch_take.
    + rewrite Hit, Ho. apply leibniz_equiv. intros x.
      rewrite elem_of_union, elem_of_singleton, !elem_of_list_to_set, list_elem_of_filter. destruct (decide (x = id)); naive_solver.
  - rewrite bool_decide_eq_false_2 by (by rewrite <- Hi). done.
Qed.

Lemma add_recent (l : lru) (h : list string) (id : string) :
  recent l h -> size (add l id) = size l /\ recent (add l id) (move_to_front id h).
Proof.
  intros Hr. pose proof (contains_recent l h id Hr) as Hc. pose proof (recent_items l h id Hr) as Hi.
  unfold add, contains in *. destruct (bool_decide_reflect (id ∈ items l)) as [Hin|Hin]; [by destruct Hc|].
  clear Hc. rewrite Hi in Hin. destruct Hr as (Hs & Hnd & Ho & Hit).
  destruct (Z.to_nat (size l)) as [|n] eqn:Hn; [lia|].
  pose proof (add_take id n h Hin) as Ht. cbn [length].
  assert (Hlen : length (order l) = Nat.min (S n) (length h)) by by rewrite Ho, length_take.
  destruct (Z.ltb_spec (size l) (Z.of_nat (S (length (order l))))) as [Hf|Hf].
  - assert (Hh : (S n <= length h)%nat) by lia.
    assert (Hsplit : exists o, order l = take n h ++ [o]).
    { destruct (lookup_lt_is_Some_2 h n ltac:(lia)) as [o Hlo]. exists o. rewrite Ho. by apply take_S_r. }
    destruct Hsplit as [o Hoo].
    assert (Hlast : last (id :: order l) = Some o).
    { rewrite Hoo, app_comm_cons. apply last_snoc. }
    rewrite Hlast. split; [done|]. unfold recent. split_and!; cbn [size order items]; [done|by apply nodup_touch| |].
    + rewrite Hn, Ht, Hoo, app_comm_cons. apply removelast_last.
    + rewrite Hoo, app_comm_cons, removelast_last, Hit, Hoo. apply leibniz_equiv. intros x.
      rewrite elem_of_difference, elem_of_union, !elem_of_singleton, !elem_of_list_to_set, elem_of_app, !elem_of_cons, elem_of_nil.
      assert (Hno : o ∉ take n h).
      { assert (Hnd' : NoDup (order l)) by (rewrite Ho; eapply sublist_NoDup; [exact Hnd|apply sublist_take]).
        rewrite Hoo in Hnd'. apply NoDup_app in Hnd' as (_ & Hd & _). intros Hx. apply (Hd o Hx). set_solver. }
      assert (Hoi : o <> id) by (intros ->; apply Hin; rewrite <- Ho, Hoo; set_solver).
      destruct (decide (x = o)) as [->|]; naive_solver.
  - split; [done|]. unfold recent. split_and!; cbn [size order items]; [done|by apply nodup_touch| |].
    + assert (length h <= n)%nat by lia. rewrite Hn, Ht, Ho, !take_ge by lia. done.
    + by rewrite Hit.
Qed.

(** The set of applied ids is exactly the most recent ones: whatever is
    added and looked up, the LRU holds the first [size] of the list of all ids in
    order of their last addition or successful look-up, answers from it, and never
    holds more. *)
Theorem lru_holds_the_most_recent (ops : list (bool * string)) (n : Z) :
  0 < n ->
  let step (st : lru * list string) (o : bool * string) :=
    let '(l, h) := st in
    if fst o then (add l (snd o), move_to_front (snd o) h)
    else (snd (contains l (snd o)),
          if bool_decide (snd o ∈ take (Z.to_nat n) h) then move_to_front (snd o) h else h) in
  let '(l, h) := foldl step (newLRU n, []) ops in
  order l = take (Z.to_nat n) h /\ NoDup h /\ len l <= n /\
  (forall id, fst (contains l id) = bool_decide (id ∈ take (Z.to_nat n) h)).
Proof.
  intros Hn step.
  assert (H : forall l h, recent l h -> size l = n ->
    let '(l', h') := foldl step (l, h) ops in recent l' h' /\ size l' = n).
  { induction ops as [|[b id] ops IH]; intros l h Hr Hs; [by split|]. cbn [foldl]. unfold step at 2. cbn [fst snd].
    destruct b.
    - destruct (add_recent l h id Hr). apply IH; [done|congruence].
    - pose proof (contains_recent l h id Hr) as Hc. destruct (contains l id) as [hit l'].
      destruct Hc as (-> & Hs' & Hr'). rewrite Hs in Hr'. apply IH; [done|]. cbn. congruence. }
  specialize (H (newLRU n) [] (recent_new n Hn) eq_refl).
  destruct (foldl step (newLRU n, []) ops) as [l h]. destruct H as [Hr Hs].
  pose proof Hr as (_ & Hnd & Ho & _). rewrite Hs in Ho. split_and!; [done|done| |].
  - unfold len. rewrite Ho, length_take. lia.
  - intros id. pose proof (contains_recent l h id Hr) as Hc. destruct (contains l id) as [hit l'].
    rewrite Hs in Hc. by destruct Hc.
Qed.

Lemma lru_holds_the_most_recent_witness :
  let '(l, h) := foldl (fun (st : lru * list string) (o : bool * string) =>
    let '(l, h) := st in
    if fst o then (add l (snd o), move_to_front (snd o) h)
    else (snd (contains l (snd o)),
          if bool_decide (snd o ∈ take (Z.to_nat 2) h) then move_to_front (snd o) h else h))
    (newLRU 2, []) [(true, "a"); (true, "b"); (false, "a"); (true, "c")]%string in
  order l = ["c"; "a"]%string /\ len l <= 2.
Proof.
  pose proof (lru_holds_the_most_recent [(true, "a"); (true, "b"); (false, "a"); (true, "c")]%string 2 ltac:(lia)) as H.
  cbv zeta in H. vm_compute in H |- *. destruct H as (H & _ & Hl & _). split; assumption.
Defined.

(** ** Events are applied once *)

Section Once.
Context (Unmarshal : string -> option taskEvent) (inject : string -> Message -> option error).

(** The id a record is known by. *)
Definition id_of (m : Message) : string :=
  match Unmarshal (MValue m) with Some evt => event_id evt m | None => ""%string end.

(** [e] is among the first ids, with only ids of [ids] before it. *)
Definition within (e : string) (ids : list string) (w : worker) : Prop :=
  exists h p q, recent (seen w) h /\ h = p ++ e :: q /\ p ⊆ ids.

Lemma within_touch (e : string) (ids : list string) (l : lru) (h p q : list string) (id : string) :
  h = p ++ e :: q -> p ⊆ ids -> e ∉ p ->
  exists p' q', move_to_front id h = p' ++ e :: q' /\ p' ⊆ id :: ids.
Proof.
  intros -> Hp He. unfold move_to_front. destruct (decide (id = e)) as [->|Hne].
  - exists [], (filter (fun x => x <> e) (p ++ e :: q)). split; [done|]. set_solver.
  - exists (id :: filter (fun x => x <> id) p), (filter (fun x => x <> id) q).
    rewrite filter_app, filter_cons_True by done. split; [done|].
    intros x [->|[_ Hx]%list_elem_of_filter]%elem_of_cons; set_solver.
Qed.

Lemma nodup_split (e : string) (p q : list string) : NoDup (p ++ e :: q) -> e ∉ p.
Proof. intros (_ & Hd & _)%NoDup_app Hx. apply (Hd e Hx). set_solver. Qed.

Lemma handle_seen (w : worker) (m : Message) (h : list string) :
  recent (seen w) h ->
  let '(_, w', _) := Handle Unmarshal inject w m in
  size (seen w') = size (seen w) /\ (recent (seen w') h \/ recent (seen w') (move_to_front (id_of m) h)).
Proof.
  intros Hr. unfold Handle, id_of. destruct (Unmarshal (MValue m)) as [evt|]; [|cbn; auto].
  destruct (negb (known_type (event_type evt m))); [cbn; auto|].
  set (id := event_id evt m). pose proof (contains_recent (seen w) h id Hr) as Hc.
  destruct (contains (seen w) id) as [hit l]. destruct Hc as (_ & Hs & Hl).
  assert (Hl' : recent l h \/ recent l (move_to_front id h)) by (destruct hit; auto).
  destruct (String.eqb id ""); [destruct (inject _ _); cbn; auto|].
  destruct hit; [cbn; auto|]. destruct (inject _ _); [cbn; auto|]. cbn.
  destruct (add_recent l h id Hl) as [Hs' Ha]. split; [congruence|]. by right.
Qed.

Lemma deliver_within (msgs : list Message) (w : worker) (e : string) (ids : list string) :
  within e ids w ->
  let '(_, w') := deliver Unmarshal inject w msgs in
  within e ((id_of <$> msgs) ++ ids) w' /\ size (seen w') = size (seen w).
Proof.
  revert w ids. induction msgs as [|m msgs IH]; intros w ids Hw; [by split|]. cbn [deliver].
  destruct Hw as (h & p & q & Hr & Hh & Hp).
  pose proof (handle_seen w m h Hr) as Hm. destruct (Handle Unmarshal inject w m) as [[err w1] a].
  destruct Hm as [Hs Hm].
  assert (Hw1 : within e (id_of m :: ids) w1).
  { destruct Hm as [Hm|Hm].
    - exists h, p, q. split_and!; try done. set_solver.
    - destruct (within_touch e ids (seen w) h p q (id_of m)) as (p' & q' & Ht & Hp'); [done|done| |].
      + destruct Hr as (_ & Hnd & _). rewrite Hh in Hnd. by eapply nodup_split.
      + exists (move_to_front (id_of m) h), p', q'. done. }
  specialize (IH w1 (id_of m :: ids) Hw1).
  destruct (deliver Unmarshal inject w1 msgs) as [l w2]. destruct IH as [(h2 & p2 & q2 & Hr2 & Hh2 & Hp2) Hs2].
  split; [|congruence]. exists h2, p2, q2. split_and!; try done. cbn. set_solver.
Qed.

(** C19: a redelivered event is not applied again: once a record was applied, a
    record with the same event id, whatever came between with fewer than
    [DedupeSize] other event ids, is acknowledged as a duplicate and changes no
    count of applied events. *)
Theorem redelivery_not_reapplied (w : worker) (m m' : Message) (msgs : list Message) (h : list string) :
  recent (seen w) h -> id_of m <> ""%string -> id_of m' = id_of m ->
  snd (Handle Unmarshal inject w m) = Some (id_of m) ->
  (forall evt, Unmarshal (MValue m') = Some evt -> known_type (event_type evt m') = true) ->
  Z.of_nat (length (remove_dups (filter (fun x => x <> id_of m) (id_of <$> msgs)))) < size (seen w) ->
  let w1 := snd (fst (Handle Unmarshal inject w m)) in
  let w2 := snd (deliver Unmarshal inject w1 msgs) in
  let '(err, w3, applied) := Handle Unmarshal inject w2 m' in
  err = None /\ applied = None /\ byType w3 = byType w2 /\ duplicates w3 = duplicates w2 + 1.
Proof.
  intros Hr Hne Hid Happ Hknown Hlen. cbn zeta.
  assert (Hw1 : within (id_of m) [] (snd (fst (Handle Unmarshal inject w m))) /\
    size (seen (snd (fst (Handle Unmarshal inject w m)))) = size (seen w)).
  { pose proof (handle_seen w m h Hr) as Hm. unfold Handle, id_of in *.
    destruct (Unmarshal (MValue m)) as [evt|]; [|done].
    destruct (negb (known_type (event_type evt m))); [done|]. set (id := event_id evt m) in *.
    rewrite (proj2 (String.eqb_neq id ""%string) Hne) in *.
    pose proof (contains_recent (seen w) h id Hr) as Hc. destruct (contains (seen w) id) as [hit l].
    destruct Hc as (_ & Hs & Hl). destruct hit; [done|]. destruct (inject _ _); [done|]. cbn in *.
    destruct (add_recent l h id Hl) as [Hs' Ha]. split; [|congruence].
    exists (move_to_front id h), [], (filter (fun x => x <> id) h). done. }
  destruct (Handle Unmarshal inject w m) as [[err1 w1] a1]. cbn [fst snd] in *. destruct Hw1 as [Hw1 Hs1].
  pose proof (deliver_within msgs w1 (id_of m) [] Hw1) as Hd.
  destruct (deliver Unmarshal inject w1 msgs) as [l w2]. cbn [snd]. destruct Hd as [(h2 & p & q & Hr2 & Hh2 & Hp) Hs2].
  assert (Hin : id_of m ∈ take (Z.to_nat (size (seen w2))) h2).
  { destruct Hr2 as (_ & Hnd & _). rewrite Hh2 in Hnd |- *.
    assert (Hle : (length p <= length (remove_dups (filter (fun x => x <> id_of m) (id_of <$> msgs))))%nat).
    { apply submseteq_length, NoDup_submseteq; [by apply NoDup_app in Hnd as (? & _ & _)|].
      intros x Hx. apply elem_of_remove_dups, list_elem_of_filter. split.
      - intros ->. by apply nodup_split in Hnd.
      - specialize (Hp x Hx). by rewrite app_nil_r in Hp. }
    apply elem_of_take. exists (length p). split; [|lia]. by apply list_lookup_middle. }
  unfold id_of in Hid at 1. unfold Handle. destruct (Unmarshal (MValue m')) as [evt|] eqn:Hu; [|by rewrite <- Hid in Hne].
  rewrite (Hknown evt eq_refl). cbn [negb]. rewrite Hid, (proj2 (String.eqb_neq _ ""%string) Hne).
  pose proof (contains_recent (seen w2) h2 (id_of m) Hr2) as Hc.
  destruct (contains (seen w2) (id_of m)) as [hit l2]. destruct Hc as (-> & _ & _).
  by rewrite bool_decide_eq_true_2.
Qed.
End Once.

(** ** Concrete deliveries *)

Definition demo_event (eid : string) : taskEvent :=
  {| EventID := eid; EventType := TaskCreated; ID := "t"; TaskID := ""; Task_ := None |}.
Definition demo_message (eid : string) : Message :=
  {| Topic := "tasks.events"; MKey := None; MValue := eid; Partition := 0; Offset := 0; Headers := [];
     Timestamp := 0; Attempt := 1 |}.

Lemma redelivery_not_reapplied_witness :
  let H := Handle (fun s => Some (demo_event s)) (fun _ _ => None) in
  let w1 := snd (fst (H (New 2) (demo_message "a"))) in
  let w2 := snd (deliver (fun s => Some (demo_event s)) (fun _ _ => None) w1 [demo_message "b"]) in
  let '(err, w3, applied) := H w2 (demo_message "a") in
  err = None /\ applied = None /\ byType w3 = byType w2 /\ duplicates w3 = duplicates w2 + 1.
Proof.
  apply (redelivery_not_reapplied (fun s => Some (demo_event s)) (fun _ _ => None)
    (New 2) (demo_message "a") (demo_message "a") [demo_message "b"] []).
  - apply recent_new. reflexivity.
  - discriminate.
  - reflexivity.
  - reflexivity.
  - intros evt He. injection He as <-. reflexivity.
  - vm_compute. reflexivity.
Defined.

End Worker.
