(* ===== verification/Wire.v ===== *)
(** The events of the tasks service on the wire: the contract types of libs/contracts/events
    as [json.Marshal] writes them, the column of the outbox that keeps them (PostgreSQL
    renders a JSONB document anew), and what the consumer's worker reads of them. *)
From stdpp Require Import sorting.
From S2P Require Import Prelude GoStr GoTime GoJSON Database Worker.

(** * The column *)

(** An object of scalars whose numbers are integers of 64 bits in decimal. *)
Definition flat (kv : list Z * GoJSON.json) : Prop :=
  match kv.2 with
  | GoJSON.JNum t => exists z, Go.in_int64 z /\ t = GoStr.FormatInt z
  | GoJSON.JArr _ | GoJSON.JObj _ => False
  | _ => True
  end.

(** What storing a text in a JSONB column and reading it gives; [None] when the server refuses
    it (text that is not UTF-8, U+0000, strings beyond its limits). As documented, the order
    of members and the space between tokens are not kept; strings are, and so are integers
    written in decimal. Nothing is said of other numbers, of duplicate keys or of nesting. *)
Class Jsonb (store : string -> option string) := {
  jsonb_object t t' l : store t = Some t' -> GoJSON.Parse (GoStr.bytes t) = Some (GoJSON.JObj l) -> NoDup l.*1 -> Forall flat l ->
    exists l', GoJSON.Parse (GoStr.bytes t') = Some (GoJSON.JObj l') /\ l' ≡ₚ l
}.

Module Wire.
Import GoStr GoTime GoJSON Database.

(** A column that behaves so: it refuses U+0000 and nesting, and orders members by the length
    of their keys, then by their bytes. *)
Fixpoint bytes_le (a b : list Z) : bool :=
  match a, b with
  | [], _ => true
  | _ :: _, [] => false
  | x :: a, y :: b => (x <? y) || (x =? y) && bytes_le a b
  end.
Definition key_le (a b : list Z * json) : Prop :=
  ((length a.1 <? length b.1)%nat || (length a.1 =? length b.1)%nat && bytes_le a.1 b.1) = true.
#[local] Instance key_le_dec : RelDecision key_le.
Proof. intros a b. unfold key_le. apply _. Defined.

Definition storable (s : list Z) : bool := forallb (fun b => (1 <=? b) && (b <? 256)) s && Valid s.
Definition storable_member (kv : list Z * json) : bool :=
  storable kv.1 && match kv.2 with JStr s => storable s | JArr _ | JObj _ => false | _ => true end.
Definition sorted_column (t : string) : option string :=
  match Parse (bytes t) with
  | Some (JObj l) => if forallb storable_member l then Some (of_bytes (Marshal (JObj (merge_sort key_le l)))) else None
  | _ => None
  end.

Lemma storable_good (s : list Z) : storable s = true -> good_string s.
Proof.
  intros [H Hv]%andb_true_iff. split; [|done]. rewrite forallb_forall in H. apply Forall_forall. intros b Hb%list_elem_of_In.
  specialize (H b Hb). apply andb_true_iff in H as [H1%Z.leb_le H2%Z.ltb_lt]. unfold is_byte. lia.
Qed.

Lemma flat_object (l : list (list Z * json)) :
  forallb storable_member l = true -> Forall flat l -> good (JObj l) /\ depth (JObj l) <= maxNestingDepth.
Proof.
  intros Hs Hf. cut (good (JObj l) /\ depth (JObj l) <= 1); [intros [? ?]; split; [done|]; unfold maxNestingDepth; lia|].
  induction Hf as [|[k v] l Hv _ IH]; [done|]. cbn [forallb] in Hs. apply andb_true_iff in Hs as [[Hk Hm]%andb_true_iff Hs].
  destruct (IH Hs) as [Hg Hd]. split.
  - cbn. split_and!; [by apply storable_good| |exact Hg]. unfold flat in Hv. cbn [fst snd] in *. destruct v; try done. by apply storable_good.
  - cbn [depth] in *. unfold flat in Hv. cbn [snd] in Hv. destruct v; try done; cbn [depth]; lia.
Qed.

#[export] Instance sorted_column_jsonb : Jsonb sorted_column.
Proof.
  split. intros t t' l E Hp _ Hf. unfold sorted_column in E. rewrite Hp in E. destruct (forallb storable_member l) eqn:Hs; [|done].
  injection E as <-. pose proof (merge_sort_Permutation key_le l) as Hperm.
  destruct (flat_object (merge_sort key_le l)) as [Hg Hd].
  - rewrite forallb_forall in *. intros x Hx. apply Hs. apply list_elem_of_In. rewrite <- Hperm. by apply list_elem_of_In.
  - by rewrite Hperm.
  - eexists. split; [|exact Hperm]. rewrite bytes_of_bytes by exact (marshal_bytes _ Hg). exact (parse_marshal _ Hg Hd).
Qed.

(** * Writing *)

Definition str (s : string) : json := JStr (bytes s).
Definition int (z : Z) : json := JNum (FormatInt z).

(** The structs with their json tags, in the order of their fields; an optional field that
    is nil is left out. *)
Definition TaskCreatedEvent_json (CreatedAt : Z) (EventId : option string) (Id Title : string) (Version : option Z) : json :=
  JObj ([(bytes "created_at", str (rfc3339 CreatedAt))] ++
        (match EventId with Some e => [(bytes "event_id", str e)] | None => [] end) ++
        [(bytes "id", str Id); (bytes "title", str Title)] ++
        (match Version with Some v => [(bytes "version", int v)] | None => [] end)).
Definition TaskUpdatedEvent_json (Done : bool) (EventId Id Title : string) (Version : Z) : json :=
  JObj [(bytes "done", JBool Done); (bytes "event_id", str EventId); (bytes "id", str Id); (bytes "title", str Title); (bytes "version", int Version)].
Definition TaskDeletedEvent_json (EventId Id : string) (Version : Z) : json :=
  JObj [(bytes "event_id", str EventId); (bytes "id", str Id); (bytes "version", int Version)].

(** What the store marshals for each change. *)
Definition event_json (p : payload) : json :=
  match p with
  | TaskCreatedEvent id title created eid version => TaskCreatedEvent_json created (Some eid) id title (Some version)
  | TaskUpdatedEvent eid id title done version => TaskUpdatedEvent_json done eid id title version
  | TaskDeletedEvent eid id version => TaskDeletedEvent_json eid id version
  end.

(** The value of a record: the payload as the column gives it back. A payload the column
    refuses fails its transaction. *)
Definition column_text (store : string -> option string) (p : payload) : option string := store (of_bytes (Marshal (event_json p))).
Definition event_text (store : string -> option string) (p : payload) : string := default "" (column_text store p).

(** * Reading *)

(** [json.Unmarshal] into the worker's [taskEvent]: members match their field whatever the
    case, in order; null changes nothing; a value of another type is an error. *)
Definition is_field (name : string) (key : list Z) : bool := EqualFold (of_bytes key) name.

Definition set_string (v : json) (old : string) : string * bool :=
  match v with JStr s => (of_bytes s, true) | JNull => (old, true) | _ => (old, false) end.

Definition task_member (acc : string * bool) (kv : list Z * json) : string * bool :=
  let '(id, ok) := acc in
  if is_field "id" kv.1 then let '(id, fine) := set_string kv.2 id in (id, ok && fine) else acc.
Definition set_task (v : json) (old : option string) : option string * bool :=
  match v with
  | JNull => (None, true)
  | JObj l => let '(id, ok) := foldl task_member (default "" old, true) l in (Some id, ok)
  | _ => (old, false)
  end.

Definition event_member (acc : Worker.taskEvent * bool) (kv : list Z * json) : Worker.taskEvent * bool :=
  let '(e, ok) := acc in
  let '(k, v) := kv in
  if is_field "event_id" k then
    let '(s, fine) := set_string v (Worker.EventID e) in
    ({| Worker.EventID := s; Worker.EventType := Worker.EventType e; Worker.ID := Worker.ID e; Worker.TaskID := Worker.TaskID e; Worker.Task_ := Worker.Task_ e |}, ok && fine)
  else if is_field "event_type" k then
    let '(s, fine) := set_string v (Worker.EventType e) in
    ({| Worker.EventID := Worker.EventID e; Worker.EventType := s; Worker.ID := Worker.ID e; Worker.TaskID := Worker.TaskID e; Worker.Task_ := Worker.Task_ e |}, ok && fine)
  else if is_field "id" k then
    let '(s, fine) := set_string v (Worker.ID e) in
    ({| Worker.EventID := Worker.EventID e; Worker.EventType := Worker.EventType e; Worker.ID := s; Worker.TaskID := Worker.TaskID e; Worker.Task_ := Worker.Task_ e |}, ok && fine)
  else if is_field "task_id" k then
    let '(s, fine) := set_string v (Worker.TaskID e) in
    ({| Worker.EventID := Worker.EventID e; Worker.EventType := Worker.EventType e; Worker.ID := Worker.ID e; Worker.TaskID := s; Worker.Task_ := Worker.Task_ e |}, ok && fine)
  else if is_field "task" k then
    let '(t, fine) := set_task v (Worker.Task_ e) in
    ({| Worker.EventID := Worker.EventID e; Worker.EventType := Worker.EventType e; Worker.ID := Worker.ID e; Worker.TaskID := Worker.TaskID e; Worker.Task_ := t |}, ok && fine)
  else acc.

Definition zero_event : Worker.taskEvent := {| Worker.EventID := ""; Worker.EventType := ""; Worker.ID := ""; Worker.TaskID := ""; Worker.Task_ := None |}.

Definition decode_event (v : json) : option Worker.taskEvent :=
  match v with
  | JNull => Some zero_event
  | JObj l => match foldl event_member (zero_event, true) l with (e, true) => Some e | (_, false) => None end
  | _ => None
  end.
Definition Unmarshal (text : string) : option Worker.taskEvent := v ← Parse (bytes text); decode_event v.

(** Another case, the long s, members the worker does not know: all read. *)
Example decode_any_case :
  decode_event (JObj [(bytes "EVENT_ID", str "e1"); (bytes "ta" ++ [0xC5; 0xBF] ++ bytes "k", JObj [(bytes "iD", str "t")]); (bytes "title", JArr [])]) =
  Some {| Worker.EventID := "e1"; Worker.EventType := ""; Worker.ID := ""; Worker.TaskID := ""; Worker.Task_ := Some "t" |}.
Proof. vm_compute. reflexivity. Qed.

(** ** The worker reads what the store wrote *)

Definition event_of (p : payload) : string :=
  match p with TaskCreatedEvent _ _ _ eid _ | TaskUpdatedEvent eid _ _ _ _ | TaskDeletedEvent eid _ _ => eid end.
Definition task_of (p : payload) : string :=
  match p with TaskCreatedEvent id _ _ _ _ | TaskUpdatedEvent _ id _ _ _ | TaskDeletedEvent _ id _ => id end.

Section Roundtrip.
Context (store : string -> option string) `{!Jsonb store}.

(** Texts of valid UTF-8, an instant and a version of 64 bits. *)
Definition wire_ok (p : payload) : Prop :=
  match p with
  | TaskCreatedEvent id title created eid v =>
      Valid (bytes id) = true /\ Valid (bytes title) = true /\ Valid (bytes eid) = true /\ Go.in_int64 v /\ Go.in_int64 created
  | TaskUpdatedEvent eid id title _ v =>
      Valid (bytes id) = true /\ Valid (bytes title) = true /\ Valid (bytes eid) = true /\ Go.in_int64 v
  | TaskDeletedEvent eid id v => Valid (bytes id) = true /\ Valid (bytes eid) = true /\ Go.in_int64 v
  end.

Lemma time_valid (t : Z) : Go.in_int64 t -> Valid (bytes (rfc3339 t)) = true.
Proof.
  intros Ht. unfold rfc3339. rewrite bytes_of_bytes by by apply format_bytes. by apply Valid_ascii, format_ascii.
Qed.

Lemma event_good (p : payload) : wire_ok p -> good (event_json p).
Proof.
  assert (Hs : forall s, Valid (bytes s) = true -> good_string (bytes s)) by (intros s H; split; [apply bytes_range|done]).
  assert (Hi : forall z, Go.in_int64 z -> exists z', Go.in_int64 z' /\ FormatInt z = FormatInt z') by eauto.
  destruct p; cbn -[bytes good_string]; intros H; decompose [and] H; clear H; split_and!; try done; eauto; apply Hs; try done; by apply time_valid.
Qed.

(** Steps that commute give the same in any order. *)
Lemma foldl_any_order {A B} (f : B -> A -> B) (l l' : list A) (acc : B) :
  l ≡ₚ l' -> NoDup l -> (forall x y acc, x ∈ l -> y ∈ l -> x <> y -> f (f acc x) y = f (f acc y) x) -> foldl f acc l = foldl f acc l'.
Proof.
  intros Hp. revert acc. induction Hp as [|x l l' _ IH|x y l|l1 l2 l3 H12 IH1 H23 IH2]; intros acc Hn Hc; cbn.
  - done.
  - apply NoDup_cons in Hn as [_ Hn]. apply IH; [done|]. intros; apply Hc; set_solver.
  - apply NoDup_cons in Hn as [Hx _]. rewrite Hc; [done|set_solver..].
  - rewrite IH1 by done. apply IH2; [by rewrite <- H12|]. intros a b c Ha Hb. apply Hc; by rewrite H12.
Qed.

(** The members of an event are of different fields, so they are read in any order. *)
Definition field_of (k : list Z) : nat :=
  if is_field "event_id" k then 1 else if is_field "event_type" k then 2 else if is_field "id" k then 3
  else if is_field "task_id" k then 4 else if is_field "task" k then 5 else 0.

Lemma event_member_commute (x y : list Z * json) (acc : Worker.taskEvent * bool) :
  field_of x.1 <> field_of y.1 \/ field_of x.1 = 0%nat ->
  event_member (event_member acc x) y = event_member (event_member acc y) x.
Proof.
  destruct x as [k v], y as [j w], acc as [e ok]. unfold field_of, event_member. cbn [fst]. intros H.
  destruct (is_field "event_id" k), (is_field "event_id" j); try lia;
    destruct (is_field "event_type" k), (is_field "event_type" j); try lia;
    destruct (is_field "id" k), (is_field "id" j); try lia;
    destruct (is_field "task_id" k), (is_field "task_id" j); try lia;
    destruct (is_field "task" k), (is_field "task" j); try lia; cbn -[set_string set_task]; try done; clear H;
    destruct e as [a b c d t]; cbn -[set_string set_task];
    repeat match goal with
           | E : set_string ?u ?o = _ |- context [set_string ?u ?o] => rewrite E; cbn -[set_string set_task]
           | E : set_task ?u ?o = _ |- context [set_task ?u ?o] => rewrite E; cbn -[set_string set_task]
           | |- context [set_string ?u ?o] => destruct (set_string u o) as [? ?] eqn:?; cbn -[set_string set_task]
           | |- context [set_task ?u ?o] => destruct (set_task u o) as [? ?] eqn:?; cbn -[set_string set_task]
           end; try done; f_equal; destruct ok; cbn; try done; apply andb_comm.
Qed.

Lemma event_keys (p : payload) (l : list (list Z * json)) :
  event_json p = JObj l -> NoDup l.*1 /\
  forall x y, x ∈ l -> y ∈ l -> x <> y -> field_of x.1 <> field_of y.1 \/ field_of x.1 = 0%nat.
Proof.
  destruct p; intros [= <-]; (split; [apply (bool_decide_unpack _); vm_compute; exact I|]);
    intros x y Hx Hy Hne; cbn [app] in *; rewrite !elem_of_cons, elem_of_nil in Hx; rewrite !elem_of_cons, elem_of_nil in Hy;
    repeat match goal with H : _ \/ _ |- _ => destruct H as [->|H] end; try done; cbn [fst];
    first [by right; vm_compute | left; vm_compute; lia].
Qed.

Lemma event_depth (p : payload) : depth (event_json p) <= maxNestingDepth.
Proof. by destruct p. Qed.

Lemma event_flat (p : payload) (l : list (list Z * json)) : wire_ok p -> event_json p = JObj l -> Forall flat l.
Proof.
  intros Hok. destruct p; intros [= <-]; revert Hok; cbn -[bytes]; intros H; decompose [and] H; repeat constructor; unfold flat; cbn -[bytes]; eauto.
Qed.

(** Whatever text of the document the column gives back, the worker reads the ids the store
    wrote, and nothing else. *)
Lemma worker_reads_event (p : payload) (text : string) :
  wire_ok p -> column_text store p = Some text ->
  Unmarshal text =
  Some {| Worker.EventID := event_of p; Worker.EventType := ""; Worker.ID := task_of p; Worker.TaskID := ""; Worker.Task_ := None |}.
Proof.
  intros Hok Hst. assert (Hl : exists l, event_json p = JObj l) by (destruct p; by eexists). destruct Hl as [l Hl].
  pose proof (parse_marshal _ (event_good p Hok) (event_depth p)) as Hp. destruct (event_keys p l Hl) as [Hn Hf]. rewrite Hl in Hp.
  rewrite <- (bytes_of_bytes (Marshal _)) in Hp by (rewrite <- Hl; by apply marshal_bytes, event_good).
  unfold column_text in Hst. rewrite Hl in Hst.
  destruct (jsonb_object _ _ _ Hst Hp Hn (event_flat p l Hok Hl)) as (l' & Hp' & Hperm). unfold Unmarshal. rewrite Hp'. cbn [mbind option_bind decode_event].
  rewrite (foldl_any_order event_member l' l _ Hperm).
  - clear Hp Hp' Hperm Hn Hf Hst. destruct p; injection Hl as <-; cbn [app foldl]; unfold event_member;
      repeat match goal with |- context [is_field ?a ?b] => let x := eval vm_compute in (is_field a b) in change (is_field a b) with x; cbv iota end;
      cbn; by rewrite !of_bytes_bytes.
  - rewrite Hperm. by apply (NoDup_fmap_1 fst).
  - intros x y acc Hx Hy Hne. apply event_member_commute, Hf; [by rewrite <- Hperm..|done].
Qed.

End Roundtrip.

(** A title with a less-than sign, a quote, a line break and a line separator, read from a
    column that puts the id first. *)
Definition demo_payload : payload := TaskUpdatedEvent "e1" "t1" (of_bytes (bytes "a <" ++ [34; 10; 0xE2; 0x80; 0xA8])) true 7.
Definition demo_stored : string := event_text sorted_column demo_payload.

End Wire.
