(* ===== verification/Cursor.v ===== *)
(** The cursor of a page on the wire (services/tasks/internal/domain page.go): its JSON
    document with the RFC 3339 text of the instant, as [encoding/json] and package time write
    and read them. *)
From S2P Require Import Prelude GoStr GoTime GoJSON Domain Database Worker Wire.

Module CursorText.
Import GoStr GoJSON Domain Wire.

(** [json.Marshal] and [json.Unmarshal] of [cursorWire]. *)
Definition cursorWire_json (w : cursorWire) : json := JObj [(bytes "t", str (T w)); (bytes "i", str (I w))].
Definition cursor_marshal (w : cursorWire) : string := of_bytes (Marshal (cursorWire_json w)).

Definition cursor_member (acc : cursorWire * bool) (kv : list Z * json) : cursorWire * bool :=
  let '(w, ok) := acc in
  if is_field "t" kv.1 then let '(s, fine) := set_string kv.2 (T w) in ({| T := s; I := I w |}, ok && fine)
  else if is_field "i" kv.1 then let '(s, fine) := set_string kv.2 (I w) in ({| T := T w; I := s |}, ok && fine)
  else acc.
Definition cursor_unmarshal (text : string) : option cursorWire :=
  v ← Parse (bytes text);
  match v with
  | JNull => Some {| T := ""; I := "" |}
  | JObj l => match foldl cursor_member ({| T := ""; I := "" |}, true) l with (w, true) => Some w | (_, false) => None end
  | _ => None
  end.

Lemma cursor_json_roundtrip (w : cursorWire) :
  Valid (bytes (T w)) = true -> Valid (bytes (I w)) = true -> cursor_unmarshal (cursor_marshal w) = Some w.
Proof.
  intros Ht Hi. assert (Hg : good (cursorWire_json w)) by (cbn -[bytes good_string]; split_and!; try done; split; (apply bytes_range || done)).
  unfold cursor_unmarshal, cursor_marshal. rewrite bytes_of_bytes by by apply marshal_bytes. rewrite parse_marshal by done. cbn [mbind option_bind cursorWire_json foldl].
  unfold cursor_member. cbn [fst snd].
  repeat match goal with |- context [is_field ?a ?b] => let x := eval vm_compute in (is_field a b) in change (is_field a b) with x; cbv iota end.
  cbn. rewrite !of_bytes_bytes. by destruct w.
Qed.

Section Instants.
(** [time.Parse(time.RFC3339Nano, s)]: the strict reading first; what it does not take goes to
    the parser of layouts. *)
Context (parse_layout : string -> option Z).
Definition ParseNano (s : string) : option Z := match GoTime.parseRFC3339 (bytes s) with Some t => Some t | None => parse_layout s end.

Definition EncodeCursor : Cursor -> string := Encode cursor_marshal GoTime.rfc3339.
Definition DecodeCursor_ : string -> Cursor + derror := DecodeCursor cursor_unmarshal ParseNano.

(** C40: decoding the cursor a page carries gives back the position it was made from, to the
    nanosecond and for every task id that is valid UTF-8 and not empty; the encoded form is
    made only of the 64 characters of the URL-safe alphabet. *)
Theorem cursor_text_roundtrip (t : Task) :
  Go.in_int64 (CreatedAt t) -> Valid (bytes (ID t)) = true -> ID t <> "" ->
  DecodeCursor_ (EncodeCursor (CursorAfter t)) = inl (CursorAfter t) /\
  Forall (fun c => is_Some (b64val c)) (bytes (EncodeCursor (CursorAfter t))).
Proof.
  apply (cursor_roundtrip cursor_marshal cursor_unmarshal GoTime.rfc3339 ParseNano).
  - intros w. apply cursor_json_roundtrip.
  - intros z Hz. unfold ParseNano, GoTime.rfc3339. rewrite bytes_of_bytes, GoTime.rfc3339_parses by (done || by apply GoTime.format_bytes). done.
  - apply time_valid.
Qed.
End Instants.

Lemma cursor_text_roundtrip_witness :
  DecodeCursor_ (fun _ => None) (EncodeCursor (CursorAfter {| ID := "abc"; Title := "x"; Done := false; Version := 1; CreatedAt := 1758803445123456000 |}))
  = inl {| CCreatedAt := 1758803445123456000; CID := "abc" |}.
Proof.
  apply (cursor_text_roundtrip (fun _ => None) {| ID := "abc"; Title := "x"; Done := false; Version := 1; CreatedAt := 1758803445123456000 |}).
  - vm_compute. split; discriminate.
  - vm_compute. reflexivity.
  - discriminate.
Defined.
End CursorText.
