(* ===== verification/EndToEnd.v ===== *)
(** From a change of a task to its effect in the consumer: the store and the relay of the
    tasks service, the producer's headers, the text of the events, and the worker of the
    consumer service, put together. *)
From S2P Require Import Prelude GoError GoStr GoJSON KafkaMessage KafkaConsumer Group Database Store Relay Worker Wire.

Module EndToEnd.
Import KafkaMessage Database Store Relay.

(** ** Records on their way *)

(** A delivery carries what was published: partition, offset, attempt and the trace headers
    may be others. *)
Definition carries (m m0 : Message) : Prop :=
  MValue m = MValue m0 /\ Message_Header m HeaderEventID = Message_Header m0 HeaderEventID /\
  Message_Header m HeaderEventType = Message_Header m0 HeaderEventType.

Lemma carrier_set_other (hs : list Header) (k v k' : string) : k <> k' -> headerValue (carrier_Set hs k v) k' = headerValue hs k'.
Proof.
  intros Hne. induction hs as [|h hs IH]; cbn; [by rewrite (proj2 (String.eqb_neq _ _) Hne)|].
  destruct (String.eqb_spec (Key h) k) as [E|]; cbn; [|by rewrite IH]. by rewrite E, (proj2 (String.eqb_neq _ _) Hne).
Qed.

(** The producer adds only headers of the trace. *)
Lemma sent_carries {Ctx : Type} (Extract : Ctx -> list Header -> Ctx) (Inject : Ctx -> list (string * string)) (clSend : Ctx -> Message -> option error)
    (ctx : Ctx) (m : Message) :
  (forall c k v, (k, v) ∈ Inject c -> k <> HeaderEventID /\ k <> HeaderEventType) -> carries (send Extract Inject clSend ctx m).1 m.
Proof.
  intros Hk. assert (Hi : forall c hs key, key = HeaderEventID \/ key = HeaderEventType -> headerValue (inject Inject c hs) key = headerValue hs key).
  { intros c hs key Hkey. unfold inject. assert (Hl : forall k v, (k, v) ∈ Inject c -> k <> key) by (intros k v Hin; destruct (Hk c k v Hin); destruct Hkey; congruence).
    revert hs. induction (Inject c) as [|[k v] l IH]; intros hs; [done|]. cbn [foldl fst snd]. rewrite IH by (intros; eapply Hl; by right).
    apply carrier_set_other. eapply Hl. left. }
  unfold send. cbn [fst]. split_and!; [done|unfold Message_Header, with_headers; cbn [Headers]; apply Hi; auto..].
Qed.

(** ** The consumer *)

Section System.
Context (store : string -> option string) `{!Jsonb store}.
Context (error_text : error -> string) (cfg : Config).

Notation text := (Wire.event_text store).
Notation run acts := (sys_run text error_text cfg acts).
Notation publish := (publish text cfg).

(** A worker in production has no injected failures. *)
Definition no_inject (_ : string) (_ : Message) : option error := None.
Notation Handle := (Worker.Handle Wire.Unmarshal no_inject).
Notation deliver := (Worker.deliver Wire.Unmarshal no_inject).

(** A committed event the consumer can apply: its texts are valid UTF-8, as the API requires
    of titles and ids are, the column took its payload, and it has an id. *)
Definition accepted (r : orow) : Prop := Wire.wire_ok (o_payload r) /\ is_Some (Wire.column_text store (o_payload r)) /\ event_id r <> "".
Definition sendable (r : orow) : Prop := accepted r /\ describes r.

Lemma describes_core (x : orow) : describes (core x) <-> describes x.
Proof. done. Qed.

(** Every committed event describes its change. *)
Lemma committed_describe (acts : list action) : Forall describes (s_committed (run acts)).
Proof.
  assert (H : sys_inv text cfg (run acts) /\ Forall describes (s_committed (run acts))); [|apply H].
  unfold sys_run. assert (H0 : sys_inv text cfg sys_init /\ Forall describes (s_committed sys_init)).
  { split; [apply (sys_run_inv text error_text cfg [])|constructor]. }
  revert H0. generalize sys_init. induction acts as [|a acts IH]; intros s [Hi Hd]; [done|]. cbn [foldl]. apply IH. split; [by apply sys_step_inv|].
  destruct a as [o|pub P]; [|done]. cbn [sys_step s_committed]. apply Forall_app. split; [done|].
  apply (sys_step_inv text error_text cfg s (AStore o)) in Hi. destruct Hi as [Hst _ _ _ _]. cbn in Hst. apply Forall_fmap, Forall_drop.
  eapply Forall_impl; [apply (si_describes _ Hst)|]. intros x. apply describes_core.
Qed.

(** The worker's answer to the record of a committed event. *)
Lemma handle_event (w : Worker.worker) (m : Message) (r : orow) :
  sendable r -> carries m (publish r) ->
  let '(dup, l) := Worker.contains (Worker.seen w) (event_id r) in
  Handle w m =
  if dup then (None, {| Worker.seen := l; Worker.byType := Worker.byType w; Worker.duplicates := Worker.duplicates w + 1; Worker.rejected := Worker.rejected w |}, None)
  else (None, {| Worker.seen := Worker.add l (event_id r); Worker.byType := Worker.inc (event_type r) (Worker.byType w);
                 Worker.duplicates := Worker.duplicates w; Worker.rejected := Worker.rejected w |}, Some (event_id r)).
Proof.
  intros [(Hok & [tx Htx] & Hne) Hdesc] (Hv & Hid & Hty). unfold Worker.Handle. rewrite Hv. cbn [Relay.publish MValue].
  unfold Wire.event_text. rewrite Htx. change (default "" (Some tx)) with tx. rewrite (Wire.worker_reads_event store _ tx Hok Htx).
  assert (Htype : forall e, Worker.event_type e m = event_type r).
  { intros e. unfold Worker.event_type. rewrite Hty. unfold describes in Hdesc. cbn. destruct (o_payload r); destruct Hdesc as (_ & _ & ->); done. }
  assert (Heid : forall e, Worker.event_id e m = event_id r).
  { intros e. unfold Worker.event_id. rewrite Hid. cbn. by rewrite (proj2 (String.eqb_neq _ _) Hne). }
  rewrite Htype, Heid. assert (Hk : Worker.known_type (event_type r) = true).
  { unfold describes in Hdesc. destruct (o_payload r); destruct Hdesc as (_ & _ & ->); done. }
  rewrite Hk. cbn [negb]. rewrite (proj2 (String.eqb_neq _ _) Hne). destruct (Worker.contains _ _) as [[] l]; done.
Qed.
(** The id a record names. *)
Definition named (m : Message) (id : string) : Prop := Message_Header m HeaderEventID = Some id.

Lemma carried_id (m : Message) (r : orow) : carries m (publish r) -> named m (event_id r).
Proof. intros (_ & Hid & _). unfold named. by rewrite Hid. Qed.

(** An LRU that never had to forget answers from all the ids it was given. *)
Lemma recent_all (l : Worker.lru) (h ids : list string) :
  Worker.recent l h -> h ⊆ ids -> Z.of_nat (length ids) <= Worker.size l -> take (Z.to_nat (Worker.size l)) h = h.
Proof.
  intros (_ & Hnd & _) Hsub Hlen. apply take_ge.
  pose proof (submseteq_length _ _ (NoDup_submseteq _ _ Hnd Hsub)). lia.
Qed.

(** One life of the worker: it applies each event that reaches it and that it does not know
    yet, once, whatever else is delivered again. *)
Lemma deliver_once (ids : list string) (D : list Message) (w : Worker.worker) (h : list string) :
  (forall m, m ∈ D -> exists r, sendable r /\ carries m (publish r) /\ event_id r ∈ ids) ->
  Worker.recent (Worker.seen w) h -> h ⊆ ids -> Z.of_nat (length ids) <= Worker.size (Worker.seen w) ->
  let '(applied, w') := deliver w D in
  NoDup applied /\ (forall id, id ∈ applied <-> id ∉ h /\ exists m, m ∈ D /\ named m id) /\
  Worker.rejected w' = Worker.rejected w /\
  Worker.duplicates w' + Z.of_nat (length applied) = Worker.duplicates w + Z.of_nat (length D).
Proof.
  revert w h. induction D as [|m D IH]; intros w h HD Hr Hh Hlen; cbn [Worker.deliver].
  { split_and!; [constructor| |done|done]. intros id. set_solver. }
  destruct (HD m ltac:(left)) as (r & Hs & Hc & Hin). pose proof (carried_id m r Hc) as Hn.
  pose proof (handle_event w m r Hs Hc) as He. pose proof (Worker.contains_recent _ h (event_id r) Hr) as Hct.
  rewrite (recent_all _ h ids Hr Hh Hlen) in Hct. destruct (Worker.contains (Worker.seen w) (event_id r)) as [dup l].
  destruct Hct as (-> & Hsz & Hl). rewrite He. clear He.
  assert (HD' : forall m0, m0 ∈ D -> exists r0, sendable r0 /\ carries m0 (publish r0) /\ event_id r0 ∈ ids) by (intros; apply HD; by right).
  assert (Hm : forall id, named m id <-> id = event_id r) by (unfold named in *; intros; split; congruence).
  assert (Ht : forall id, id ∈ Worker.move_to_front (event_id r) h <-> id = event_id r \/ id ∈ h).
  { intros id. unfold Worker.move_to_front. rewrite elem_of_cons, list_elem_of_filter. destruct (decide (id = event_id r)); naive_solver. }
  assert (Hh' : Worker.move_to_front (event_id r) h ⊆ ids) by (intros id [->|?]%Ht; [done|by apply Hh]).
  assert (Hmem : forall id, (exists m0, m0 ∈ m :: D /\ named m0 id) <-> id = event_id r \/ exists m0, m0 ∈ D /\ named m0 id).
  { intros id. rewrite <- Hm. setoid_rewrite elem_of_cons. naive_solver. }
  destruct (bool_decide_reflect (event_id r ∈ h)) as [Hdup|Hnew].
  - specialize (IH {| Worker.seen := l; Worker.byType := Worker.byType w; Worker.duplicates := Worker.duplicates w + 1; Worker.rejected := Worker.rejected w |}
      _ HD' Hl Hh' ltac:(cbn; congruence)). destruct (deliver _ D) as [a w']. destruct IH as (H1 & H2 & H3 & H4). cbn in *.
    split_and!; [done| |done|lia]. intros id. rewrite H2, Hmem, Ht. naive_solver.
  - destruct (Worker.add_recent l h (event_id r) Hl) as [Hsz' Ha].
    specialize (IH {| Worker.seen := Worker.add l (event_id r); Worker.byType := Worker.inc (event_type r) (Worker.byType w);
      Worker.duplicates := Worker.duplicates w; Worker.rejected := Worker.rejected w |} _ HD' Ha Hh' ltac:(cbn; congruence)).
    destruct (deliver _ D) as [a w']. destruct IH as (H1 & H2 & H3 & H4). cbn in *.
    split_and!; [|  |done|lia].
    + constructor; [|done]. rewrite H2, Ht. tauto.
    + intros id. rewrite elem_of_cons, H2, Hmem, Ht. destruct (decide (id = event_id r)) as [->|]; naive_solver.
Qed.

(** The way of the records: the broker keeps what it acknowledged, and nothing else, in the
    logs of the topic's partitions; the members of the consumer's group run the loop over
    them, over a driver that returns what the logs hold in their order, and read from the
    beginning of a partition what nobody committed. *)
Record delivered (s : sys) (ccfg : KafkaConsumer.config) (t : list (nat * KafkaConsumer.event)) (log : KafkaConsumer.TopicPartition -> list Message) : Prop := {
  dv_run : Group.members_run ccfg t;
  dv_order : Group.polls_in_order (fun _ => 0) (fun tp k => is_Some (log tp !! Z.to_nat k)) t;
  dv_record : forall m rs r, (m, KafkaConsumer.Fetched rs) ∈ t -> r ∈ rs ->
    exists e, log (KafkaConsumer.tp_of r) !! Z.to_nat (Offset r) = Some e /\ carries r e;
  dv_kept : forall m0, m0 ∈ s_broker s -> exists tp k e, log tp !! k = Some e /\ carries e m0;
  dv_source : forall tp k e, log tp !! k = Some e -> exists m0, m0 ∈ s_broker s /\ carries e m0
}.

Lemma carries_trans (a b c : Message) : carries a b -> carries b c -> carries a c.
Proof. intros (H1 & H2 & H3) (H4 & H5 & H6). split_and!; congruence. Qed.

(** Every call of the worker is for a record of the log. *)
Lemma handed_record (s : sys) (ccfg : KafkaConsumer.config) (t : list (nat * KafkaConsumer.event))
    (log : KafkaConsumer.TopicPartition -> list Message) (m : nat) (r : Message) :
  delivered s ccfg t log -> r ∈ Group.handed (Group.by_member m t) ->
  exists e, log (KafkaConsumer.tp_of r) !! Z.to_nat (Offset r) = Some e /\ carries r e.
Proof.
  intros Hd Hr. destruct (Group.handed_turn _ _ _ _ (dv_run _ _ _ _ Hd) Hr) as (r0 & n & Hin & ->).
  destruct (Group.turn_fetched _ _ _ _ (dv_run _ _ _ _ Hd) Hin) as (rs & Hrs & Hr0).
  destruct (dv_record _ _ _ _ Hd m rs r0 Hrs Hr0) as (e & He & Hc). by exists e.
Qed.

(** What is below the group's offset reached a worker. *)
Lemma below_offset_handed (s : sys) (ccfg : KafkaConsumer.config) (t : list (nat * KafkaConsumer.event))
    (log : KafkaConsumer.TopicPartition -> list Message) (tp : KafkaConsumer.TopicPartition) (k : nat) (e : Message) :
  delivered s ccfg t log -> log tp !! k = Some e -> Z.of_nat k < Group.committed (fun _ => 0) t tp ->
  exists m r, r ∈ Group.handed (Group.by_member m t) /\ carries r e.
Proof.
  intros Hd He Hk.
  destruct (Group.gi_committed _ _ _ (Group.group_invariant _ _ ccfg t (dv_run _ _ _ _ Hd) (dv_order _ _ _ _ Hd)) tp (Z.of_nat k)) as (m & r & Hin & Htp & Ho); [lia|rewrite Nat2Z.id; by eexists|].
  pose proof (Group.finished_handed _ _ _ _ (dv_run _ _ _ _ Hd) Hin) as Hh. exists m, (KafkaConsumer.with_attempt r 1). split; [done|].
  destruct (handed_record _ _ _ _ _ _ Hd Hh) as (e' & He' & Hc).
  change (log (KafkaConsumer.tp_of r) !! Z.to_nat (Offset r) = Some e') in He'. rewrite Htp, Ho, Nat2Z.id, He in He'. by injection He' as <-.
Qed.

End System.
(** ** A concrete run *)

Definition demo_run : sys := sys_run (Wire.event_text Wire.sorted_column) demo_text demo_cfg demo_acts.

(** The two records in a partition; the first member handles the first and crashes before it
    commits, the second is given both. *)
Definition demo_tp : KafkaConsumer.TopicPartition := {| KafkaConsumer.tp_Topic := "tasks"; KafkaConsumer.tp_Partition := 0 |}.
Definition at_offset (k : nat) (m : Message) : Message :=
  {| KafkaMessage.Topic := KafkaMessage.Topic m; MKey := MKey m; MValue := MValue m; Partition := 0; Offset := Z.of_nat k; Headers := Headers m; Timestamp := 7; Attempt := 0 |}.
#[local] Existing Instance KafkaConsumer.TopicPartition_eq_dec.
Definition demo_log (tp : KafkaConsumer.TopicPartition) : list Message :=
  if decide (tp = demo_tp) then imap at_offset (s_broker demo_run) else [].
Definition demo_taken (n : nat) : list (Message * KafkaConsumer.turn_in) :=
  (fun m => (m, KafkaConsumer.demo_turn KafkaConsumer.ok_in)) <$> take n (demo_log demo_tp).
Definition demo_first : list KafkaConsumer.poll_in := [Group.demo_poll [KafkaConsumer.Assigned [demo_tp]] (demo_taken 1) false].
Definition demo_second : list KafkaConsumer.poll_in := [Group.demo_poll [KafkaConsumer.Assigned [demo_tp]] (demo_taken 2) true].
Definition demo_history : list (nat * KafkaConsumer.event) :=
  ((fun e => (0%nat, e)) <$> (KafkaConsumer.Run KafkaConsumer.demo_cfg KafkaConsumer.initial demo_first true).1.2) ++
  ((fun e => (1%nat, e)) <$> (KafkaConsumer.Run KafkaConsumer.demo_cfg KafkaConsumer.initial demo_second true).1.2).

Lemma demo_delivered : delivered demo_run KafkaConsumer.demo_cfg demo_history demo_log.
Proof.
  assert (Hb : exists a b, s_broker demo_run = [a; b] /\ KafkaMessage.Topic a = "tasks" /\ KafkaMessage.Topic b = "tasks")
    by (eexists _, _; split; [vm_compute; reflexivity|split; reflexivity]). destruct Hb as (a & b & Hb & Hta & Htb).
  assert (Hlog : demo_log demo_tp = [at_offset 0 a; at_offset 1 b]) by (unfold demo_log; rewrite decide_True, Hb by done; done).
  split.
  - intros m. assert (Hm : Group.by_member m demo_history = match m with
      | 0%nat => (KafkaConsumer.Run KafkaConsumer.demo_cfg KafkaConsumer.initial demo_first true).1.2
      | 1%nat => (KafkaConsumer.Run KafkaConsumer.demo_cfg KafkaConsumer.initial demo_second true).1.2 | _ => [] end)
      by (destruct m as [|[|m]]; vm_compute; reflexivity).
    rewrite Hm. destruct m as [|[|m]].
    + exists demo_first, true. eexists _, [], _. rewrite app_nil_r. split; [repeat constructor|vm_compute; reflexivity].
    + exists demo_second, true. eexists _, [], _. rewrite app_nil_r. split; [repeat constructor|vm_compute; reflexivity].
    + exists [], true. eexists _, [], _. split; [constructor|reflexivity].
  - apply Group.polls_checked_sound. vm_compute. reflexivity.
  - intros m rs r Hin Hrs. assert (Ht : Forall (fun x => match x.2 with KafkaConsumer.Fetched rs => Forall (fun r => r ∈ demo_log demo_tp) rs | _ => True end) demo_history)
      by (vm_compute; repeat constructor).
    rewrite Forall_forall in Ht. specialize (Ht _ Hin). cbn [snd] in Ht. rewrite Forall_forall in Ht. specialize (Ht _ Hrs). cbn beta in Ht. rewrite Hlog in Ht. rewrite !elem_of_cons, elem_of_nil in Ht. exists r. split; [|by split_and!].
    assert (Htp : KafkaConsumer.tp_of r = demo_tp) by (destruct Ht as [->|[->|[]]]; unfold KafkaConsumer.tp_of; cbn; [by rewrite Hta|by rewrite Htb]).
    rewrite Htp, Hlog. by destruct Ht as [->|[->|[]]].
  - intros m0. rewrite Hb, !elem_of_cons, elem_of_nil. intros [->|[->|[]]]; [exists demo_tp, 0%nat, (at_offset 0 a)|exists demo_tp, 1%nat, (at_offset 1 b)]; rewrite Hlog; (split; [reflexivity|split_and!; reflexivity]).
  - intros tp k e. unfold demo_log. destruct (decide (tp = demo_tp)); [|done]. rewrite Hb. cbn.
    intros H%list_elem_of_lookup_2. rewrite !elem_of_cons, elem_of_nil in H. destruct H as [->|[->|[]]]; [exists a|exists b]; (split; [repeat constructor|split_and!; reflexivity]).
Qed.

End EndToEnd.
