(* ===== verification/Cache.v ===== *)
(** The read cache: libs/valkey ([Get], [Set], [SetNX], [Tombstone], [Jitter],
    [Aside]) and the tasks service's use of it (services/tasks/internal/cache),
    with any number of replicas reading while changes commit. *)
From S2P Require Import Prelude GoStr Domain.

Module Cache.

(** ** The server's keys *)

(** A value and when it expires ([None]: never). *)
Notation store := (gmap string (string * option Z)).

Definition live (now : Z) (m : store) (key : string) : option string :=
  match m !! key with
  | Some (v, Some e) => if now <? e then Some v else None
  | Some (v, None) => Some v
  | None => None
  end.

Definition tombstoneValue : string := String Ascii.zero "valkey:tombstone".

(** ** Commands *)

(** A command fails before the server applied it, or after ([Lost]). *)
Inductive fault := NoFault | Refused (e : string) | Lost (e : string).

Definition after_fault {A} (f : fault) (before after : store) (ok : A) : (A + string) * store :=
  match f with
  | NoFault => (inl ok, after)
  | Refused e => (inr e, before)
  | Lost e => (inr e, after)
  end.

Definition Get (f : fault) (now : Z) (key : string) (m : store) : (string * bool) + string :=
  match f with
  | Refused e | Lost e => inr e
  | NoFault =>
      match live now m key with
      | None => inl (""%string, false)
      | Some v => if String.eqb v tombstoneValue then inl (""%string, false) else inl (v, true)
      end
  end.

Section Commands.
(** The expiry a [PX] argument gives. *)
Context (px : Z -> Z).

Definition Set_ (f : fault) (now : Z) (key value : string) (ttl : Z) (m : store) : (unit + string) * store :=
  let e := if 0 <? ttl then Some (now + px ttl) else None in
  after_fault f m (<[key := (value, e)]> m) tt.

Definition SetNX (f : fault) (now : Z) (key value : string) (ttl : Z) (m : store) : (bool + string) * store :=
  if ttl <=? 0 then (inr "ttl must be positive"%string, m)
  else match live now m key with
  | Some _ => match f with NoFault => (inl false, m) | Refused e | Lost e => (inr e, m) end
  | None => after_fault f m (<[key := (value, Some (now + px ttl))]> m) true
  end.

Definition Del (f : fault) (keys : list string) (m : store) : (unit + string) * store :=
  match keys with
  | [] => (inl tt, m)
  | _ => after_fault f m (foldl (fun m k => delete k m) m keys) tt
  end.

Definition Tombstone (f : fault) (now : Z) (key : string) (ttl : Z) (m : store) : (unit + string) * store :=
  if ttl <=? 0 then (inr "ttl must be positive"%string, m)
  else Set_ f now key tombstoneValue ttl m.
End Commands.

(** [N n]: uniform in [[0, n)]. *)
Definition Jitter (N : Z -> Z) (ttl : Z) : Z :=
  if ttl <=? 0 then ttl
  else
    let spread := Z.quot ttl 10 in
    if spread =? 0 then ttl else Go.wrap64 (ttl + (N (2 * spread + 1) - spread)).

(** ** Aside *)

Section Aside.
Context {T : Type} (zero : T) (Unmarshal : string -> option T).

(** [get] is the lookup's answer; [res] what the shared load answered, or [None]
    when the caller's own context ended first with [ctxErr]. *)
Definition Aside (get : (string * bool) + string) (res : option (T + string)) (ctxErr : string)
    : T * bool * option string :=
  let loaded :=
    match res with
    | None => (zero, false, Some ctxErr)
    | Some (inr e) => (zero, false, Some e)
    | Some (inl v) => (v, false, None)
    end in
  match get with
  | inl (raw, true) => match Unmarshal raw with
                       | Some v => (v, true, None)
                       | None => loaded
                       end
  | _ => loaded
  end.

(** The shared load's closure: load, encode, fill. *)
Definition fill (px : Z -> Z) (N : Z -> Z) (Marshal : T -> option string) (f : fault) (now : Z)
    (key : string) (ttl : Z) (loaded : T + string) (m : store) : (T + string) * store :=
  match loaded with
  | inr e => (inr e, m)
  | inl v =>
      match Marshal v with
      | None => (inl v, m)
      | Some b => (inl v, snd (SetNX px f now key b (Jitter N ttl) m))
      end
  end.
End Aside.

(** ** The tasks cache *)

Definition keyPrefix : string := "task:v2:".
Definition Key (id : string) : string := (keyPrefix ++ id)%string.

Record entry := { e_ID : string; e_Title : string; e_Done : bool; e_Version : Z; e_CreatedAt : Z }.

Definition toEntry (t : Domain.Task) : entry :=
  {| e_ID := Domain.ID t; e_Title := Domain.Title t; e_Done := Domain.Done t;
     e_Version := Domain.Version t; e_CreatedAt := Domain.CreatedAt t |}.
Definition entry_task (e : entry) : Domain.Task :=
  {| Domain.ID := e_ID e; Domain.Title := e_Title e; Domain.Done := e_Done e;
     Domain.Version := e_Version e; Domain.CreatedAt := e_CreatedAt e |}.

Definition zero_entry : entry := {| e_ID := ""; e_Title := ""; e_Done := false; e_Version := 0; e_CreatedAt := 0 |}.

Definition tasks_Get (Unmarshal : string -> option entry) (get : (string * bool) + string)
    (res : option (Domain.Task + string)) (ctxErr : string) : option Domain.Task * bool * option string :=
  let res' := match res with
              | Some (inl t) => Some (inl (toEntry t))
              | Some (inr e) => Some (inr e)
              | None => None
              end in
  let '(e, hit, err) := Aside zero_entry Unmarshal get res' ctxErr in
  match err with
  | Some _ => (None, false, err)
  | None => (Some (entry_task e), hit, None)
  end.

Definition Warm (px N : Z -> Z) (Marshal : entry -> option string) (f : fault) (now ttl : Z)
    (t : Domain.Task) (m : store) : store :=
  match Marshal (toEntry t) with
  | Some b => snd (SetNX px f now (Key (Domain.ID t)) b (Jitter N ttl) m)
  | None => m
  end.

Definition Invalidate (px : Z -> Z) (f : fault) (now tombstoneTTL : Z) (id : string) (m : store)
    : (unit + string) * store :=
  Tombstone px f now (Key id) tombstoneTTL m.

(** ** Readers and writers of one key *)

Section Race.
Context (px N : Z -> Z) (ttl tombstoneTTL D : Z) (key : string).
(** The cached form of the value at each version. *)
Context (encode : Z -> string).

(** A load shared by the readers of one replica: not loaded yet, or the version
    it read from the source of truth, and when. *)
Record flight := { f_replica : nat; f_loaded : option (Z * Z) }.

(** [truth] is the committed version; [changing] the versions committed but not
    yet invalidated; [invalidated] the newest one whose tombstone was set;
    [warming] the values of creates that are still to be cached, with when they
    committed; [waiting] the readers of a shared load (replica, [invalidated] when
    they began); [answers] what readers got, with [invalidated] when they began. *)
Record sys := {
  s_now : Z;
  s_store : store;
  s_truth : Z;
  s_changing : list Z;
  s_invalidated : Z;
  s_flights : list flight;
  s_warming : list (Z * Z);
  s_waiting : list (nat * Z);
  s_answers : list (Z * Z)
}.

Definition init : sys :=
  {| s_now := 0; s_store := ∅; s_truth := 1; s_changing := []; s_invalidated := 0;
     s_flights := []; s_warming := [(1, 0)]; s_waiting := []; s_answers := [] |}.

Definition flying (r : nat) (s : sys) : bool := existsb (fun f => Nat.eqb (f_replica f) r) (s_flights s).

(** A value read from (or written to) the source of truth and not yet offered to
    the cache. *)
Definition held (s : sys) (v t : Z) : Prop :=
  (exists r, {| f_replica := r; f_loaded := Some (v, t) |} ∈ s_flights s) \/ (v, t) ∈ s_warming s.

Inductive step : sys -> sys -> Prop :=
| step_commit s :
    step s {| s_now := s_now s; s_store := s_store s; s_truth := s_truth s + 1;
              s_changing := (s_truth s + 1) :: s_changing s; s_invalidated := s_invalidated s;
              s_flights := s_flights s; s_warming := s_warming s; s_waiting := s_waiting s; s_answers := s_answers s |}
| step_invalidate s c1 v c2 f r m :
    s_changing s = c1 ++ v :: c2 ->
    Tombstone px f (s_now s) key tombstoneTTL (s_store s) = (r, m) ->
    step s {| s_now := s_now s; s_store := m; s_truth := s_truth s; s_changing := c1 ++ c2;
              s_invalidated := match r with inl _ => Z.max (s_invalidated s) v | inr _ => s_invalidated s end;
              s_flights := s_flights s; s_warming := s_warming s; s_waiting := s_waiting s; s_answers := s_answers s |}
| step_hit s v :
    Get NoFault (s_now s) key (s_store s) = inl (encode v, true) ->
    step s {| s_now := s_now s; s_store := s_store s; s_truth := s_truth s; s_changing := s_changing s;
              s_invalidated := s_invalidated s; s_flights := s_flights s; s_warming := s_warming s; s_waiting := s_waiting s;
              s_answers := s_answers s ++ [(s_invalidated s, v)] |}
| step_miss s r f a :
    Get f (s_now s) key (s_store s) = a -> (forall v, a <> inl (v, true)) ->
    step s {| s_now := s_now s; s_store := s_store s; s_truth := s_truth s; s_changing := s_changing s;
              s_invalidated := s_invalidated s;
              s_flights := if flying r s then s_flights s else {| f_replica := r; f_loaded := None |} :: s_flights s;
              s_warming := s_warming s; s_waiting := (r, s_invalidated s) :: s_waiting s; s_answers := s_answers s |}
| step_load s l1 r l2 :
    s_flights s = l1 ++ {| f_replica := r; f_loaded := None |} :: l2 ->
    step s {| s_now := s_now s; s_store := s_store s; s_truth := s_truth s; s_changing := s_changing s;
              s_invalidated := s_invalidated s;
              s_flights := l1 ++ {| f_replica := r; f_loaded := Some (s_truth s, s_now s) |} :: l2;
              s_warming := s_warming s; s_waiting := s_waiting s; s_answers := s_answers s |}
| step_fill s l1 r v t l2 f :
    s_flights s = l1 ++ {| f_replica := r; f_loaded := Some (v, t) |} :: l2 ->
    step s {| s_now := s_now s;
              s_store := snd (fill px N (fun v => Some (encode v)) f (s_now s) key ttl (inl v) (s_store s));
              s_truth := s_truth s; s_changing := s_changing s; s_invalidated := s_invalidated s;
              s_flights := l1 ++ l2;
              s_warming := s_warming s; s_waiting := filter (fun w => w.1 <> r) (s_waiting s);
              s_answers := s_answers s ++ ((fun w => (w.2, v)) <$> filter (fun w => w.1 = r) (s_waiting s)) |}
| step_fail s l1 r l2 e m :
    s_flights s = l1 ++ {| f_replica := r; f_loaded := None |} :: l2 ->
    fill px N (fun v => Some (encode v)) NoFault (s_now s) key ttl (inr e) (s_store s) = (inr e, m) ->
    step s {| s_now := s_now s; s_store := m; s_truth := s_truth s; s_changing := s_changing s;
              s_invalidated := s_invalidated s; s_flights := l1 ++ l2; s_warming := s_warming s;
              s_waiting := filter (fun w => w.1 <> r) (s_waiting s); s_answers := s_answers s |}
| step_warm s l1 v t l2 f :
    s_warming s = l1 ++ (v, t) :: l2 ->
    step s {| s_now := s_now s; s_store := snd (SetNX px f (s_now s) key (encode v) (Jitter N ttl) (s_store s));
              s_truth := s_truth s; s_changing := s_changing s; s_invalidated := s_invalidated s;
              s_flights := s_flights s; s_warming := l1 ++ l2; s_waiting := s_waiting s; s_answers := s_answers s |}
| step_tick s d :
    0 <= d -> (forall v t, held s v t -> s_now s + d <= t + D) ->
    step s {| s_now := s_now s + d; s_store := s_store s; s_truth := s_truth s; s_changing := s_changing s;
              s_invalidated := s_invalidated s; s_flights := s_flights s; s_warming := s_warming s; s_waiting := s_waiting s;
              s_answers := s_answers s |}.

Inductive reachable : sys -> Prop :=
| reach_init : reachable init
| reach_step s s' : reachable s -> step s s' -> reachable s'.

(** Loads finish within [D], less than a tombstone lives. *)
Hypothesis D_nonneg : 0 <= D.
Hypothesis tombstone_outlives : 0 < tombstoneTTL /\ D < px tombstoneTTL.

Record inv (s : sys) : Prop := {
  i_truth : s_invalidated s <= s_truth s;
  i_changing : Forall (fun v => v <= s_truth s) (s_changing s);
  i_cell : forall x, live (s_now s) (s_store s) key = Some x ->
    x = tombstoneValue \/ exists v, x = encode v /\ s_invalidated s <= v;
  i_held : forall v t, held s v t ->
    t <= s_now s <= t + D /\ v <= s_truth s /\
    (v < s_invalidated s -> exists e, s_store s !! key = Some (tombstoneValue, Some e) /\ t + D < e)
}.

Lemma live_later (m : store) (now d : Z) (x : string) :
  0 <= d -> live (now + d) m key = Some x -> live now m key = Some x.
Proof.
  intros Hd. unfold live. destruct (m !! key) as [[v [e|]]|]; [|done..].
  destruct (Z.ltb_spec (now + d) e); [|done]. intros [= ->].
  by rewrite (proj2 (Z.ltb_lt now e)) by lia.
Qed.

Lemma live_tombstone (m : store) (now e : Z) :
  m !! key = Some (tombstoneValue, Some e) -> now < e -> live now m key = Some tombstoneValue.
Proof. intros H He. unfold live. rewrite H. by rewrite (proj2 (Z.ltb_lt now e)). Qed.

(** Offering a held value to the cache keeps what is cached current. *)
Lemma set_nx_cell (s : sys) (f : fault) (v t : Z) (x : string) :
  inv s -> held s v t ->
  live (s_now s) (snd (SetNX px f (s_now s) key (encode v) (Jitter N ttl) (s_store s))) key = Some x ->
  x = tombstoneValue \/ exists w, x = encode w /\ s_invalidated s <= w.
Proof.
  intros [It Ic Icell Ih] Hh. destruct (Ih v t Hh) as (H1 & H2 & H3).
  unfold SetNX. destruct (_ <=? 0); [by apply Icell|].
  destruct (live (s_now s) (s_store s) key) as [y|] eqn:Hlive; [destruct f; cbn; rewrite Hlive; by apply Icell|].
  assert (Hv : s_invalidated s <= v).
  { destruct (Z.le_gt_cases (s_invalidated s) v) as [|Hlt]; [done|].
    destruct (H3 Hlt) as (e & He & Hle). rewrite (live_tombstone _ _ e He) in Hlive by lia. done. }
  unfold after_fault. destruct f; cbn; [|by rewrite Hlive|]; unfold live; rewrite lookup_insert_eq;
    destruct (_ <? _); intros [= <-]; right; eauto.
Qed.

(** A tombstone in force outlasts the offer. *)
Lemma set_nx_keeps (f : fault) (now v e : Z) (m : store) :
  m !! key = Some (tombstoneValue, Some e) -> now < e ->
  snd (SetNX px f now key (encode v) (Jitter N ttl) m) !! key = Some (tombstoneValue, Some e).
Proof.
  intros Hm He. unfold SetNX. destruct (_ <=? 0); [done|].
  rewrite (live_tombstone _ _ e Hm) by lia. by destruct f.
Qed.

(** What is held stays within its bounds when another value is offered. *)
Lemma held_offer (s : sys) (f : fault) (v : Z) :
  inv s -> forall w u, held s w u ->
    u <= s_now s <= u + D /\ w <= s_truth s /\
    (w < s_invalidated s -> exists e,
      snd (SetNX px f (s_now s) key (encode v) (Jitter N ttl) (s_store s)) !! key = Some (tombstoneValue, Some e) /\ u + D < e).
Proof.
  intros [It Ic Icell Ih] w u Hh. destruct (Ih w u Hh) as (H1 & H2 & H3). split_and!; [lia..|].
  intros Hlt. destruct (H3 Hlt) as (e & He & Hle). exists e. split; [|done]. apply set_nx_keeps; [done|lia].
Qed.

Lemma step_inv (s s' : sys) : step s s' -> inv s -> inv s'.
Proof.
  destruct 1 as [s|s c1 v c2 f r m Hc Ht|s v Hg|s r f a Hg Ha|s l1 r l2 Hf|s l1 r v t l2 f Hf
    |s l1 r l2 e m Hf Hm|s l1 v t l2 f Hw|s d Hd Htick];
    intros Hi; pose proof Hi as [It Ic Icell Ih]; split; cbn in *; try done.
  - lia.
  - constructor; [lia|]. eapply Forall_impl; [exact Ic|]. cbn. lia.
  - intros v t Hh. destruct (Ih v t Hh) as (H1 & H2 & H3). split_and!; [lia..|done].
  - rewrite Hc in Ic. apply Forall_app in Ic as [_ Ic]. inversion_clear Ic. destruct r; lia.
  - rewrite Hc in Ic. apply Forall_app in Ic as [Ic1 Ic2]. inversion_clear Ic2. by apply Forall_app.
  - unfold Tombstone, Set_, after_fault in Ht. destruct tombstone_outlives as [Hpos HD].
    rewrite (proj2 (Z.leb_gt tombstoneTTL 0) Hpos), (proj2 (Z.ltb_lt 0 tombstoneTTL) Hpos) in Ht.
    destruct f; injection Ht as <- <-; [|done|]; intros x Hx; left; unfold live in Hx;
      rewrite lookup_insert_eq in Hx; destruct (_ <? _); congruence.
  - unfold Tombstone, Set_, after_fault in Ht. destruct tombstone_outlives as [Hpos HD].
    rewrite (proj2 (Z.leb_gt tombstoneTTL 0) Hpos), (proj2 (Z.ltb_lt 0 tombstoneTTL) Hpos) in Ht.
    intros w t Hh. destruct (Ih w t Hh) as (H1 & H2 & H3).
    split_and!; [lia..|]. destruct f; injection Ht as <- <-; [|done|];
      intros _; rewrite lookup_insert_eq; eexists; (split; [done|lia]).
  - intros w t [[r' Hin]|Hin]; [|by apply Ih; right]. apply Ih. left. exists r'.
    destruct (flying r s); [done|]. apply elem_of_cons in Hin as [Hin|Hin]; [discriminate Hin|done].
  - intros w t [[r' Hin]|Hin]; [|by apply Ih; right].
    apply elem_of_app in Hin as [Hin|[Hin|Hin]%elem_of_cons].
    + apply Ih. left. exists r'. rewrite Hf. set_solver.
    + injection Hin as -> -> ->. split_and!; [lia..|]. intros. lia.
    + apply Ih. left. exists r'. rewrite Hf. set_solver.
  - intros x. apply (set_nx_cell s f v t); [done|]. left. exists r. rewrite Hf. set_solver.
  - intros w u Hh. apply (held_offer s f v Hi w u). destruct Hh as [[r' Hin]|Hin]; [left|by right].
    exists r'. rewrite Hf. set_solver.
  - injection Hm as <-. done.
  - injection Hm as <-. intros w u Hh. apply Ih. destruct Hh as [[r' Hin]|Hin]; [left|by right].
    exists r'. rewrite Hf. set_solver.
  - intros x. apply (set_nx_cell s f v t); [done|]. right. rewrite Hw. set_solver.
  - intros w u Hh. apply (held_offer s f v Hi w u). destruct Hh as [Hin|Hin]; [by left|right].
    rewrite Hw. set_solver.
  - intros x Hx. apply Icell. by apply (live_later _ _ d).
  - intros v t Hh. destruct (Ih v t Hh) as (H1 & H2 & H3). specialize (Htick v t Hh). split_and!; [lia..|done].
Qed.

Lemma inv_init : inv init.
Proof.
  split; cbn; try lia; [constructor|..].
  - intros x Hx. unfold live in Hx. by rewrite lookup_empty in Hx.
  - intros v t [[r Hin]|Hin]; [by apply elem_of_nil in Hin|]. apply list_elem_of_singleton in Hin.
    injection Hin as -> ->. split_and!; [lia..|]. intros. lia.
Qed.

Lemma reachable_inv (s : sys) : reachable s -> inv s.
Proof. induction 1 as [|s s' Hr IH Hs]; [apply inv_init|by eapply step_inv]. Qed.

(** C9: the cache never brings an old value back. With any number of replicas
    loading and filling while changes commit and are invalidated, as long as a load
    fills within less time than a tombstone lives, a cache hit is never older than
    the newest change whose invalidation succeeded (in particular a deleted task
    does not come back). *)
Theorem hit_is_not_stale (s : sys) (f : fault) (x : string) :
  reachable s -> Get f (s_now s) key (s_store s) = inl (x, true) ->
  exists v, x = encode v /\ s_invalidated s <= v.
Proof.
  intros Hr Hg. pose proof (i_cell s (reachable_inv s Hr)) as Hc. unfold Get in Hg.
  destruct f; [|done..]. destruct (live (s_now s) (s_store s) key) as [y|]; [|done].
  destruct (String.eqb_spec y tombstoneValue) as [|Hne]; [done|]. injection Hg as <-.
  destruct (Hc y eq_refl) as [|Hv]; [done|exact Hv].
Qed.

End Race.

(** ** Concrete races *)

Definition demo_encode (v : Z) : string := GoStr.Itoa v.

(** One reader misses, loads version 1 and fills. *)
Definition filled : sys :=
  {| s_now := 0; s_store := {["k" := ("1", Some 54)]}; s_truth := 1; s_changing := []; s_invalidated := 0;
     s_flights := []; s_warming := [(1, 0)]; s_waiting := []; s_answers := [(0, 1)] |}%string.

(** Version 1 is loaded, version 2 committed and invalidated, and a reader that
    begins after that joins the load. *)
Definition joined : sys :=
  {| s_now := 0; s_store := {["k" := (tombstoneValue, Some 5)]}; s_truth := 2; s_changing := []; s_invalidated := 2;
     s_flights := []; s_warming := [(1, 0)]; s_waiting := []; s_answers := [(2, 1); (0, 1)] |}%string.

Lemma reach_to px N ttl tomb D key encode (s s' t : sys) :
  reachable px N ttl tomb D key encode s -> step px N ttl tomb D key encode s s' -> s' = t ->
  reachable px N ttl tomb D key encode t.
Proof. intros Hr Hs <-. by eapply reach_step. Qed.

Lemma filled_reachable : reachable (fun t => t) (fun _ => 0) 60 5 1 "k" demo_encode filled.
Proof.
  eapply reach_to; [eapply reach_step; [eapply reach_step; [apply reach_init|]|]| |].
  - apply (step_miss _ _ _ _ _ _ _ init 0%nat NoFault (inl (""%string, false))); [reflexivity|discriminate].
  - apply (step_load _ _ _ _ _ _ _ _ [] 0%nat []). reflexivity.
  - apply (step_fill _ _ _ _ _ _ _ _ [] 0%nat 1 0 [] NoFault). reflexivity.
  - vm_compute. reflexivity.
Qed.

Lemma hit_is_not_stale_witness : exists v, "1"%string = demo_encode v /\ 0 <= v.
Proof.
  apply (hit_is_not_stale (fun t => t) (fun _ => 0) 60 5 1 "k" demo_encode ltac:(lia) ltac:(lia) filled NoFault "1").
  - exact filled_reachable.
  - vm_compute. reflexivity.
Defined.

(** A read that misses can still answer an older version than one whose
    invalidation finished before the read began: it joins a load that is under way
    in its replica, and that load read the source of truth before the change. *)
Theorem joined_read_is_stale :
  exists s, reachable (fun t => t) (fun _ => 0) 60 5 1 "k" demo_encode s /\
  exists began v, (began, v) ∈ s_answers s /\ v < began.
Proof.
  exists joined. split; [|exists 2, 1; split; [left|lia]].
  eapply reach_to; [eapply reach_step; [eapply reach_step; [eapply reach_step; [eapply reach_step;
    [eapply reach_step; [apply reach_init|]|]|]|]|]| |].
  - apply (step_miss _ _ _ _ _ _ _ init 0%nat NoFault (inl (""%string, false))); [reflexivity|discriminate].
  - apply (step_load _ _ _ _ _ _ _ _ [] 0%nat []). reflexivity.
  - apply step_commit.
  - apply (step_invalidate _ _ _ _ _ _ _ _ [] 2 [] NoFault (inl tt) {["k"%string := (tombstoneValue, Some 5)]});
      vm_compute; reflexivity.
  - apply (step_miss _ _ _ _ _ _ _ _ 0%nat NoFault (inl (""%string, false))); [vm_compute; reflexivity|discriminate].
  - apply (step_fill _ _ _ _ _ _ _ _ [] 0%nat 1 0 [] NoFault). vm_compute. reflexivity.
  - vm_compute. reflexivity.
Qed.

(** ** Sequential facts *)

(** Caching never turns a readable value into an error: whatever the lookup
    does, a load that succeeds is answered (or a decodable hit is), and an error is
    the load's own or the caller's context's. *)
Theorem aside_error_is_loads {T} (zero : T) (U : string -> option T) (get : (string * bool) + string)
    (res : option (T + string)) (ctxErr : string) :
  let '(v, hit, err) := Aside zero U get res ctxErr in
  (hit = true -> err = None /\ exists raw, get = inl (raw, true) /\ U raw = Some v) /\
  (hit = false -> match err with
                  | None => res = Some (inl v)
                  | Some e => res = Some (inr e) \/ (res = None /\ e = ctxErr)
                  end).
Proof.
  unfold Aside. destruct get as [[raw []]|]; [destruct (U raw) eqn:Hu|..];
    try (destruct res as [[]|]; naive_solver).
Qed.

(** A jittered TTL is within a tenth of the TTL, so never zero or negative
    for a positive one. *)
Theorem jitter_range (N : Z -> Z) (ttl : Z) :
  (forall k, 0 < k -> 0 <= N k < k) -> 0 < ttl <= 2 ^ 62 ->
  ttl - ttl / 10 <= Jitter N ttl <= ttl + ttl / 10 /\ 0 < Jitter N ttl.
Proof.
  intros HN Ht. unfold Jitter. rewrite (proj2 (Z.leb_gt ttl 0)) by lia.
  rewrite Z.quot_div_nonneg by lia. pose proof (Z.div_mod ttl 10 ltac:(lia)). pose proof (Z.mod_pos_bound ttl 10 ltac:(lia)).
  destruct (Z.eqb_spec (ttl / 10) 0) as [Hz|Hz]; [lia|].
  pose proof (HN (2 * (ttl / 10) + 1) ltac:(lia)).
  rewrite Go.wrap64_id; [lia|]. unfold Go.in_int64, Go.int64_min, Go.int64_max. lia.
Qed.

Lemma jitter_range_witness : 54 <= Jitter (fun _ => 0) 60 <= 66.
Proof. exact (proj1 (jitter_range (fun _ => 0) 60 ltac:(intros; lia) ltac:(lia))). Defined.

End Cache.
