(* ===== verification/Valkey.v ===== *)
(** The client of the cache (libs/valkey config.go, valkey.go, metrics.go): where it
    connects, what a failed start leaves behind, and what each command is counted as. *)
From S2P Require Import Prelude GoStr Cache.

Module Valkey.

Record Config := {
  URL : string;
  Addr : string;
  Password : string;
  DB : Z;
  DialTimeout : Z;
  OpTimeout : Z
}.

#[export] Instance config_eq_dec : EqDecision Config.
Proof. solve_decision. Defined.

Definition defaultOpTimeout : Z := 500 * Go.millisecond.
Definition defaultDialTimeout : Z := 5 * Go.second.

Definition Configured (c : Config) : bool := negb (String.eqb (URL c) "") || negb (String.eqb (Addr c) "").

(** The part of valkey-go's options that is set here; [o_Other] is what a URL adds. *)
Record ClientOption := { InitAddress : list string; o_Password : string; SelectDB : Z; DialerTimeout : Z; o_Other : string }.

Inductive new_error := NoAddress | BadURL (err : string) | ConnectFailed (err : string) | PingFailed (err : string).

Section Client.
(** valkey-go's [ParseURL]. *)
Context (ParseURL : string -> string + ClientOption).

Definition clientOption (c : Config) : new_error + ClientOption :=
  if negb (Configured c) then inl NoAddress
  else if negb (String.eqb (URL c) "") then
    match ParseURL (URL c) with
    | inl err => inl (BadURL err)
    | inr opt =>
        inr (if 0 <? DialTimeout c
             then {| InitAddress := InitAddress opt; o_Password := o_Password opt; SelectDB := SelectDB opt;
                     DialerTimeout := DialTimeout c; o_Other := o_Other opt |}
             else opt)
    end
  else inr {| InitAddress := [Addr c]; o_Password := Password c; SelectDB := DB c; DialerTimeout := DialTimeout c; o_Other := "" |}.

(** [New] fills in the timeouts a hand-built configuration leaves out. *)
Definition with_timeouts (c : Config) : Config :=
  {| URL := URL c; Addr := Addr c; Password := Password c; DB := DB c;
     DialTimeout := if DialTimeout c <=? 0 then defaultDialTimeout else DialTimeout c;
     OpTimeout := if OpTimeout c <=? 0 then defaultOpTimeout else OpTimeout c |}.

Inductive event := Connect (opt : ClientOption) | Ping (timeout : Z) | CloseClient.

(** The cache with its per-command deadline, and what happened to the client;
    [connects] and [answers] say why connecting and the first PING fail, if they do. *)
Definition New (c : Config) (connects answers : option string) : (new_error + Z) * list event :=
  let c := with_timeouts c in
  match clientOption c with
  | inl e => (inl e, [])
  | inr opt =>
      match connects with
      | Some err => (inl (ConnectFailed err), [])
      | None =>
          match answers with
          | Some err => (inl (PingFailed err), [Connect opt; Ping (DialTimeout c); CloseClient])
          | None => (inr (OpTimeout c), [Connect opt; Ping (DialTimeout c)])
          end
      end
  end.

(** A start that fails leaves no client behind; one that succeeds has pinged the server
    and bounds every command, dials and pings by a positive timeout, whatever the URL
    and the configuration leave out. *)
Lemma new_leaves_nothing (c : Config) (connects answers : option string) :
  match New c connects answers with
  | (inl _, es) => es = [] \/ last es = Some CloseClient
  | (inr op, es) => 0 < op /\ Configured c = true /\
      exists opt, es = [Connect opt; Ping (DialTimeout (with_timeouts c))] /\ 0 < DialerTimeout opt /\ 0 < DialTimeout (with_timeouts c)
  end.
Proof.
  assert (Hd : 0 < DialTimeout (with_timeouts c)).
  { cbn. destruct (Z.leb_spec (DialTimeout c) 0); [by vm_compute|lia]. }
  assert (Ho : 0 < OpTimeout (with_timeouts c)).
  { cbn. destruct (Z.leb_spec (OpTimeout c) 0); [by vm_compute|lia]. }
  unfold New. destruct (clientOption (with_timeouts c)) as [e|opt] eqn:E; [by left|].
  destruct connects; [by left|]. destruct answers; [by right|]. split; [done|].
  unfold clientOption in E. change (Configured (with_timeouts c)) with (Configured c) in E.
  destruct (Configured c); [|done]. split; [done|]. exists opt. split; [done|]. split; [|done]. cbn [negb] in E.
  destruct (negb (String.eqb (URL (with_timeouts c)) "")).
  - destruct (ParseURL _) as [|opt']; [done|]. rewrite (proj2 (Z.ltb_lt _ _) Hd) in E. by injection E as <-.
  - by injection E as <-.
Qed.

(** The probe and the release. *)
Definition ReadyCheck (ping : option string) : option string := (fun err => ("valkey unreachable: " ++ err)%string) <$> ping.
End Client.

(** ** What is counted *)

Record metrics := { lookups : gmap string Z; duration : gmap string (list Z); errors : gmap string Z }.
Definition no_metrics : metrics := {| lookups := ∅; duration := ∅; errors := ∅ |}.

Definition bump (k : string) (m : gmap string Z) : gmap string Z := <[k := default 0 (m !! k) + 1]> m.

Inductive reply := Value (v : string) | Nil | Failed (err : string).

(** [do]: a command that took [d]. *)
Definition do_ (op : string) (d : Z) (r : reply) (m : metrics) : metrics :=
  {| lookups := lookups m;
     duration := <[op := d :: default [] (duration m !! op)]> (duration m);
     errors := match r with Failed _ => bump op (errors m) | _ => errors m end |}.

Definition count_lookup (result : string) (m : metrics) : metrics :=
  {| lookups := bump result (lookups m); duration := duration m; errors := errors m |}.

Definition Get (d : Z) (r : reply) (m : metrics) : ((string * bool) + string) * metrics :=
  let m := do_ "get" d r m in
  match r with
  | Nil => (inl ("", false), count_lookup "miss" m)
  | Failed err => (inr err, count_lookup "error" m)
  | Value v =>
      if String.eqb v Cache.tombstoneValue then (inl ("", false), count_lookup "miss" m)
      else (inl (v, true), count_lookup "hit" m)
  end.

(** What the server answers to a GET. *)
Definition get_reply (f : Cache.fault) (now : Z) (key : string) (s : Cache.store) : reply :=
  match f with
  | Cache.Refused e | Cache.Lost e => Failed e
  | Cache.NoFault => match Cache.live now s key with Some v => Value v | None => Nil end
  end.

(** The measured lookup is the lookup of the cache model. *)
Lemma Get_refines (d : Z) (f : Cache.fault) (now : Z) (key : string) (s : Cache.store) (m : metrics) :
  (Get d (get_reply f now key s) m).1 = Cache.Get f now key s.
Proof.
  unfold Get, get_reply, Cache.Get. destruct f; try done. destruct (Cache.live now s key) as [v|]; [|done].
  by destruct (String.eqb v Cache.tombstoneValue).
Qed.

Inductive command := CGet | CSet | CSetNX | CDel.

Definition operation (c : command) : string := match c with CGet => "get" | CSet | CSetNX => "set" | CDel => "del" end.

(** One command answered with [r] after [d]. *)
Definition measure (m : metrics) (cmd : command * Z * reply) : metrics :=
  let '(c, d, r) := cmd in
  match c with CGet => (Get d r m).2 | _ => do_ (operation c) d r m end.

Definition total (m : gmap string Z) (ks : list string) : Z := zsum (fun k => default 0 (m !! k)) ks.

Definition is_get (cmd : command * Z * reply) : bool := match cmd.1.1 with CGet => true | _ => false end.
Definition failed (cmd : command * Z * reply) : bool := match cmd.2 with Failed _ => true | _ => false end.
Definition count (p : command * Z * reply -> bool) (cmds : list (command * Z * reply)) : Z :=
  zsum (fun c => if p c then 1 else 0) cmds.

Lemma bump_at (k j : string) (m : gmap string Z) : default 0 (bump k m !! j) = default 0 (m !! j) + if String.eqb k j then 1 else 0.
Proof.
  unfold bump. destruct (String.eqb_spec k j) as [->|Hne]; [by rewrite lookup_insert_eq|]. rewrite lookup_insert_ne by done. lia.
Qed.

(** Equality tests between literals. *)
Ltac literal_eqb :=
  repeat match goal with |- context [String.eqb ?a ?b] => let r := eval vm_compute in (String.eqb a b) in change (String.eqb a b) with r end.

Lemma measure_step (m : metrics) (cmd : command * Z * reply) :
  total (lookups (measure m cmd)) ["hit"; "miss"; "error"] = total (lookups m) ["hit"; "miss"; "error"] + (if is_get cmd then 1 else 0) /\
  total (errors (measure m cmd)) ["get"; "set"; "del"] = total (errors m) ["get"; "set"; "del"] + (if failed cmd then 1 else 0).
Proof.
  destruct cmd as [[c d] r]. unfold total, is_get, failed. cbn [fst snd zsum].
  destruct c, r; cbn [measure Get do_ count_lookup lookups errors operation snd]; try destruct (String.eqb v _);
    cbn [do_ count_lookup lookups errors snd]; rewrite ?bump_at; literal_eqb; split; lia.
Qed.

(** Whatever is answered, every lookup is counted as exactly one of hit, miss and error,
    and every failed command once: a missing key is not a failure. *)
Lemma cache_metrics_account (cmds : list (command * Z * reply)) (m : metrics) :
  total (lookups (foldl measure m cmds)) ["hit"; "miss"; "error"] = total (lookups m) ["hit"; "miss"; "error"] + count is_get cmds /\
  total (errors (foldl measure m cmds)) ["get"; "set"; "del"] = total (errors m) ["get"; "set"; "del"] + count failed cmds.
Proof.
  revert m. induction cmds as [|c cmds IH]; intros m; [cbn; lia|]. cbn [foldl]. destruct (IH (measure m c)) as [-> ->].
  destruct (measure_step m c) as [-> ->]. unfold count. cbn [zsum]. lia.
Qed.
End Valkey.
