(* ===== verification/Health.v ===== *)
(** Readiness (libs/httpx/health.go): the registry of checks, the passes that
    evaluate them and what a probe answers.

    The passes of the background loop, the inline passes of probes, the
    goroutines that run the checks and the registrations interleave, so the
    component is a machine over its atomic operations: what happens under the
    mutex, the compare-and-swap of a running flag, the channel of one evaluation. *)
From S2P Require Import Prelude.

Module Health.

(** ** Data *)

(** A registered check (its function is the environment's: [EReturn]). *)
Record check := { optional : bool; running : bool }.

(** [CheckOption]; the only one there is. *)
Inductive check_option := Optional.
Definition apply_option (c : check) (o : check_option) : check :=
  match o with Optional => {| optional := true; running := running c |} end.

Record result := { err : option string; checkedAt : Z }.

Definition defaultHealthInterval : Z := 10 * Go.second.
Definition defaultHealthTimeout : Z := 3 * Go.second.

(** [checks] maps a name to the check object, [objs] the objects by address;
    [up] are the health_check_up series by name and criticality. *)
Record Health := {
  checks : gmap string nat;
  objs : gmap nat check;
  next_obj : nat;
  results : gmap string result;
  ready : bool;
  interval : Z;
  timeout : Z;
  up : gmap (string * string) Z
}.

Definition NewHealth (interval timeout : Z) : Health :=
  {| checks := ∅; objs := ∅; next_obj := 0; results := ∅; ready := false;
     interval := if interval <=? 0 then defaultHealthInterval else interval;
     timeout := if timeout <=? 0 then defaultHealthTimeout else timeout; up := ∅ |}.

Definition boolString (b : bool) : string := if b then "true" else "false".

Definition Register (name : string) (opts : list check_option) (h : Health) : Health :=
  let c := foldl apply_option {| optional := false; running := false |} opts in
  {| checks := <[name := next_obj h]> (checks h);
     objs := <[next_obj h := c]> (objs h);
     next_obj := S (next_obj h);
     results := delete name (results h);
     ready := ready h; interval := interval h; timeout := timeout h;
     up := filter (fun kv => kv.1.1 <> name) (up h) |}.

Definition SetReady (b : bool) (h : Health) : Health :=
  {| checks := checks h; objs := objs h; next_obj := next_obj h; results := results h; ready := b;
     interval := interval h; timeout := timeout h; up := up h |}.

Definition set_running (p : nat) (b : bool) (h : Health) : Health :=
  {| checks := checks h; objs := alter (fun c => {| optional := optional c; running := b |}) p (objs h);
     next_obj := next_obj h; results := results h; ready := ready h; interval := interval h;
     timeout := timeout h; up := up h |}.

Definition is_running (h : Health) (p : nat) : bool :=
  match objs h !! p with Some c => running c | None => false end.
Definition is_optional (h : Health) (p : nat) : bool :=
  match objs h !! p with Some c => optional c | None => false end.

(** ** Passes *)

(** Where one check of a pass stands: [Waiting] is in the select of [runCheck],
    with the start time and what its channel holds. *)
Inductive slot :=
  | Todo
  | Skipped
  | Waiting (start : Z) (done : option (option string))
  | Got (r : result).

Record entry := { e_name : string; e_check : nat; e_slot : slot }.
Definition set_slot (s : slot) (e : entry) : entry := {| e_name := e_name e; e_check := e_check e; e_slot := s |}.

(** A call of [refresh]; [inline] when a probe made it. *)
Record pass := { inline : bool; entries : list entry }.
Definition set_entry (i : nat) (s : slot) (ps : pass) : pass :=
  {| inline := inline ps; entries := alter (set_slot s) i (entries ps) |}.

(** The snapshot of the registry a pass works on. *)
Definition collect (h : Health) : list entry :=
  (fun '(n, p) => {| e_name := n; e_check := p; e_slot := Todo |}) <$> map_to_list (checks h).

(** A goroutine running a check for entry [k_entry] of pass [k_pass]. *)
Record call := { k_pass : nat; k_entry : nat; k_check : nat; k_sent : bool }.

Definition timeout_error : string := "check did not return within the timeout".

(** The end of a pass, under the mutex. *)
Definition store_entry (h : Health) (e : entry) : Health :=
  match e_slot e with
  | Got r =>
      match checks h !! e_name e with
      | None => h
      | Some _ =>
          {| checks := checks h; objs := objs h; next_obj := next_obj h;
             results := <[e_name e := r]> (results h); ready := ready h; interval := interval h;
             timeout := timeout h;
             up := <[(e_name e, boolString (negb (is_optional h (e_check e)))) :=
                      match err r with None => 1 | Some _ => 0 end]> (up h) |}
      end
  | _ => h
  end.
Definition store (h : Health) (ps : pass) : Health := foldl store_entry h (entries ps).

Definition settled (e : entry) : bool := match e_slot e with Skipped | Got _ => true | _ => false end.

(** ** Probes *)

Definition stale (now : Z) (h : Health) : bool :=
  let limit := now + Go.wrap64 (- (2 * interval h + timeout h)) in
  existsb (fun '(name, _) => match results h !! name with None => true | Some r => checkedAt r <? limit end)
    (map_to_list (checks h)).

(** What [snapshot] reads: per check its result (the zero result when there is
    none) and whether it is critical. *)
Definition snapshot (h : Health) : gmap string (result * bool) :=
  map_imap (fun name p => Some (default {| err := None; checkedAt := 0 |} (results h !! name),
                                negb (is_optional h p))) (checks h).

Record answer := { status : Z; body : string; breakdown : gmap string string }.

Definition ReadyHandler (h : Health) : answer :=
  if negb (ready h) then {| status := 503; body := "not_ready"; breakdown := ∅ |}
  else
    let res := snapshot h in
    let texts := (fun rc => match err rc.1 with None => "ok"%string | Some e => e end) <$> res in
    let failing (critical : bool) :=
      existsb (fun '(_, (r, c)) => match err r with Some _ => Bool.eqb c critical | None => false end) (map_to_list res) in
    if failing true then {| status := 503; body := "not_ready"; breakdown := texts |}
    else if failing false then {| status := 200; body := "degraded"; breakdown := texts |}
    else {| status := 200; body := "ready"; breakdown := texts |}.

Definition LiveHandler : Z * string := (200, "ok"%string).

(** ** The machine *)

(** [origin] is a history variable: the check object whose evaluation the stored
    result of a name is. [stopped] says that the context of the server (and with
    it of the background loop) was cancelled. *)
Record machine := {
  hl : Health;
  passes : gmap nat pass;
  next_pass : nat;
  calls : gmap nat call;
  next_call : nat;
  stopped : bool;
  origin : gmap string nat
}.

Definition init (interval timeout : Z) : machine :=
  {| hl := NewHealth interval timeout; passes := ∅; next_pass := 0; calls := ∅; next_call := 0;
     stopped := false; origin := ∅ |}.

Inductive event :=
  | ERegister (name : string) (opts : list check_option)
  | ESetReady (b : bool)
  | EStop                              (* the server's context is cancelled *)
  | EBegin (inline : bool)             (* refresh reads the registry *)
  | ETry (p i : nat)                   (* compare-and-swap, and the goroutine starts *)
  | EReturn (k : nat) (e : option string)  (* the check returns into the channel *)
  | EClear (k : nat)                   (* the deferred running.Store(false) *)
  | ETake (p i : nat)                  (* the select receives from the channel *)
  | ETimeout (p i : nat)               (* the select sees the context done *)
  | EStore (p : nat).                  (* refresh stores what it got *)

Definition with_hl (h : Health) (m : machine) : machine :=
  {| hl := h; passes := passes m; next_pass := next_pass m; calls := calls m; next_call := next_call m;
     stopped := stopped m; origin := origin m |}.
Definition with_passes (ps : gmap nat pass) (m : machine) : machine :=
  {| hl := hl m; passes := ps; next_pass := next_pass m; calls := calls m; next_call := next_call m;
     stopped := stopped m; origin := origin m |}.
Definition with_calls (ks : gmap nat call) (m : machine) : machine :=
  {| hl := hl m; passes := passes m; next_pass := next_pass m; calls := ks; next_call := next_call m;
     stopped := stopped m; origin := origin m |}.

Definition note_origin (cs : gmap string nat) (o : gmap string nat) (e : entry) : gmap string nat :=
  match e_slot e, cs !! e_name e with
  | Got _, Some _ => <[e_name e := e_check e]> o
  | _, _ => o
  end.

(** The entry of a pass a step is about. *)
Definition the_entry (m : machine) (p i : nat) : option (pass * entry) :=
  ps ← passes m !! p; e ← entries ps !! i; Some (ps, e).

(** An inline pass holds [refreshMu]. *)
Definition inline_busy (m : machine) : bool :=
  existsb (fun '(_, ps) => inline ps) (map_to_list (passes m)).

Definition step (now : Z) (ev : event) (m : machine) : option machine :=
  match ev with
  | ERegister name opts =>
      Some {| hl := Register name opts (hl m); passes := passes m; next_pass := next_pass m; calls := calls m;
              next_call := next_call m; stopped := stopped m; origin := delete name (origin m) |}
  | ESetReady b => Some (with_hl (SetReady b (hl m)) m)
  | EStop => Some {| hl := hl m; passes := passes m; next_pass := next_pass m; calls := calls m;
                     next_call := next_call m; stopped := true; origin := origin m |}
  | EBegin probe =>
      if probe && (negb (stale now (hl m)) || inline_busy m) then None
      else Some {| hl := hl m;
                   passes := <[next_pass m := {| inline := probe; entries := collect (hl m) |}]> (passes m);
                   next_pass := S (next_pass m); calls := calls m; next_call := next_call m;
                   stopped := stopped m; origin := origin m |}
  | ETry p i =>
      '(ps, e) ← the_entry m p i;
      match e_slot e with
      | Todo =>
          if is_running (hl m) (e_check e)
          then Some (with_passes (<[p := set_entry i Skipped ps]> (passes m)) m)
          else Some {| hl := set_running (e_check e) true (hl m);
                       passes := <[p := set_entry i (Waiting now None) ps]> (passes m);
                       next_pass := next_pass m;
                       calls := <[next_call m := {| k_pass := p; k_entry := i; k_check := e_check e; k_sent := false |}]> (calls m);
                       next_call := S (next_call m); stopped := stopped m; origin := origin m |}
      | _ => None
      end
  | EReturn k er =>
      c ← calls m !! k;
      if k_sent c then None
      else
        let m' := with_calls (<[k := {| k_pass := k_pass c; k_entry := k_entry c; k_check := k_check c; k_sent := true |}]> (calls m)) m in
        match the_entry m (k_pass c) (k_entry c) with
        | Some (ps, e) =>
            match e_slot e with
            | Waiting start _ =>
                Some (with_passes (<[k_pass c := set_entry (k_entry c) (Waiting start (Some er)) ps]> (passes m)) m')
            | _ => Some m'
            end
        | None => Some m'
        end
  | EClear k =>
      c ← calls m !! k;
      if k_sent c then Some (with_hl (set_running (k_check c) false (hl m)) (with_calls (delete k (calls m)) m))
      else None
  | ETake p i =>
      '(ps, e) ← the_entry m p i;
      match e_slot e with
      | Waiting _ (Some er) =>
          Some (with_passes (<[p := set_entry i (Got {| err := er; checkedAt := now |}) ps]> (passes m)) m)
      | _ => None
      end
  | ETimeout p i =>
      '(ps, e) ← the_entry m p i;
      match e_slot e with
      | Waiting start _ =>
          if (start + timeout (hl m) <=? now) || (negb (inline ps) && stopped m)
          then Some (with_passes (<[p := set_entry i (Got {| err := Some timeout_error; checkedAt := now |}) ps]> (passes m)) m)
          else None
      | _ => None
      end
  | EStore p =>
      ps ← passes m !! p;
      if forallb settled (entries ps)
      then Some {| hl := store (hl m) ps; passes := delete p (passes m); next_pass := next_pass m;
                   calls := calls m; next_call := next_call m; stopped := stopped m;
                   origin := foldl (note_origin (checks (hl m))) (origin m) (entries ps) |}
      else None
  end.

(** A timed schedule. *)
Fixpoint run (evs : list (Z * event)) (m : machine) : option machine :=
  match evs with
  | [] => Some m
  | (now, ev) :: evs => m' ← step now ev m; run evs m'
  end.

(** ** One call per check *)

Lemma existsb_map {K A} `{Countable K} (f : K * A -> bool) (m : gmap K A) :
  existsb f (map_to_list m) = true <-> exists k x, m !! k = Some x /\ f (k, x) = true.
Proof.
  rewrite existsb_exists. setoid_rewrite <- list_elem_of_In. split.
  - intros ([k x] & Hk%elem_of_map_to_list & Hf). eauto.
  - intros (k & x & Hk & Hf). exists (k, x). by rewrite elem_of_map_to_list.
Qed.

(** What holds of every reachable state: a running flag is set exactly while a
    goroutine is in the check, no two are in the same one, and [refreshMu] admits
    one inline pass. *)
Record wf (m : machine) : Prop := {
  wf_call : forall k, calls m !! k <> None -> (k < next_call m)%nat;
  wf_pass : forall p, passes m !! p <> None -> (p < next_pass m)%nat;
  wf_running : forall o, is_running (hl m) o = true <-> exists k c, calls m !! k = Some c /\ k_check c = o;
  wf_one : forall k1 k2 c1 c2, calls m !! k1 = Some c1 -> calls m !! k2 = Some c2 -> k_check c1 = k_check c2 -> k1 = k2;
  wf_obj : forall o, objs (hl m) !! o <> None -> (o < next_obj (hl m))%nat;
  wf_entry : forall p ps e, passes m !! p = Some ps -> e ∈ entries ps -> objs (hl m) !! e_check e <> None;
  wf_checks : forall n o, checks (hl m) !! n = Some o -> objs (hl m) !! o <> None;
  wf_inline : forall p q ps qs, passes m !! p = Some ps -> passes m !! q = Some qs ->
    inline ps = true -> inline qs = true -> p = q
}.

Lemma the_entry_inv (m : machine) (p i : nat) (ps : pass) (e : entry) :
  the_entry m p i = Some (ps, e) <-> passes m !! p = Some ps /\ entries ps !! i = Some e.
Proof.
  unfold the_entry. destruct (passes m !! p) as [ps'|]; cbn; [|naive_solver].
  destruct (entries ps' !! i) as [e'|] eqn:He; cbn; split; naive_solver.
Qed.

Lemma objs_set_running (h : Health) (p : nat) (b : bool) (o : nat) :
  objs (set_running p b h) !! o = None <-> objs h !! o = None.
Proof. cbn. rewrite lookup_alter. case_decide; subst; [destruct (objs h !! o)|]; naive_solver. Qed.

Lemma running_set (h : Health) (p : nat) (b : bool) (o : nat) :
  is_running (set_running p b h) o =
  if decide (p = o) then (if decide (objs h !! o = None) then false else b) else is_running h o.
Proof.
  unfold is_running. cbn. rewrite lookup_alter. case_decide; subst; [|done].
  by destruct (objs h !! o); case_decide.
Qed.

Lemma optional_set (h : Health) (p : nat) (b : bool) (o : nat) : is_optional (set_running p b h) o = is_optional h o.
Proof. unfold is_optional. cbn. rewrite lookup_alter. case_decide; subst; [by destruct (objs h !! o)|done]. Qed.

(** Storing changes only the results and their series. *)
Lemma store_entry_same (h : Health) (e : entry) :
  let h' := store_entry h e in
  checks h' = checks h /\ objs h' = objs h /\ next_obj h' = next_obj h /\ ready h' = ready h /\
  interval h' = interval h /\ timeout h' = timeout h.
Proof. unfold store_entry. repeat case_match; done. Qed.

Lemma store_same (ps : pass) (h : Health) :
  let h' := store h ps in
  checks h' = checks h /\ objs h' = objs h /\ next_obj h' = next_obj h /\ ready h' = ready h /\
  interval h' = interval h /\ timeout h' = timeout h.
Proof.
  unfold store. revert h. induction (entries ps) as [|e l IH]; intros h; [done|]. cbn [foldl].
  specialize (IH (store_entry h e)). pose proof (store_entry_same h e) as H. cbn in H, IH |- *. destruct_and?.
  split_and!; congruence.
Qed.

Lemma set_entry_elem (i : nat) (s : slot) (ps : pass) (e : entry) :
  e ∈ entries (set_entry i s ps) -> exists e0, e0 ∈ entries ps /\ e_check e0 = e_check e /\ e_name e0 = e_name e.
Proof.
  intros [j Hj]%list_elem_of_lookup. cbn in Hj. rewrite list_lookup_alter in Hj.
  case_decide; [|eauto using list_elem_of_lookup_2].
  apply fmap_Some in Hj as (e0 & H0 & ->). eauto using list_elem_of_lookup_2.
Qed.

(** Replacing the slot of an entry. *)
Lemma wf_set_entry (m : machine) (p i : nat) (s : slot) (ps : pass) :
  wf m -> passes m !! p = Some ps -> wf (with_passes (<[p := set_entry i s ps]> (passes m)) m).
Proof.
  intros H Hp. destruct H as [H1 H2 H3 H4 H5 H6 H7 H8]. split; cbn; try done.
  - intros q Hq. apply H2. rewrite lookup_insert in Hq. case_decide; subst; congruence.
  - intros q qs e [[-> <-]|[Hne Hq]]%lookup_insert_Some He; [|by eapply H6].
    apply set_entry_elem in He as (e0 & He0 & <- & _). by eapply H6.
  - intros q r qs rs [[-> <-]|[Hq Hqs]]%lookup_insert_Some [[-> <-]|[Hr Hrs]]%lookup_insert_Some; cbn; eauto.
Qed.

Lemma wf_launch (m : machine) (p i : nat) (ps : pass) (e : entry) (now : Z) :
  wf m -> passes m !! p = Some ps -> entries ps !! i = Some e -> is_running (hl m) (e_check e) = false ->
  wf {| hl := set_running (e_check e) true (hl m);
        passes := passes m; next_pass := next_pass m;
        calls := <[next_call m := {| k_pass := p; k_entry := i; k_check := e_check e; k_sent := false |}]> (calls m);
        next_call := S (next_call m); stopped := stopped m; origin := origin m |}.
Proof.
  intros H Hp He Hr. destruct H as [H1 H2 H3 H4 H5 H6 H7 H8].
  assert (Hfresh : forall k c, calls m !! k = Some c -> k <> next_call m /\ k_check c <> e_check e).
  { intros k c Hk. split; [specialize (H1 k); rewrite Hk in H1; specialize (H1 ltac:(done)); lia|].
    intros Hc. assert (is_running (hl m) (e_check e) = true) by (apply H3; eauto). congruence. }
  assert (Ho : objs (hl m) !! e_check e <> None) by eauto using list_elem_of_lookup_2.
  split; cbn [hl passes next_pass calls next_call]; try done.
  - intros k Hk. rewrite lookup_insert in Hk. case_decide; subst; [lia|]. specialize (H1 k Hk). lia.
  - intros o. rewrite running_set. case_decide as Hd; [subst o|].
    + rewrite decide_False by done. split; [|done]. intros _. exists (next_call m). eexists. by rewrite lookup_insert_eq.
    + rewrite H3. split; intros (k & c & Hk & Hc); exists k, c; (split; [|done]).
      * rewrite lookup_insert_ne; [done|]. destruct (Hfresh _ _ Hk). congruence.
      * apply lookup_insert_Some in Hk as [[_ Hk]|[_ Hk]]; [subst c; cbn in Hc; congruence|done].
  - intros k1 k2 c1 c2 [[<- <-]|[Hn1 Hk1]]%lookup_insert_Some [[<- <-]|[Hn2 Hk2]]%lookup_insert_Some Hc; eauto;
      cbn in Hc; [destruct (Hfresh _ _ Hk2)|destruct (Hfresh _ _ Hk1)]; congruence.
  - intros o Ho'. apply H5. intros Hn. apply Ho'. by apply objs_set_running.
  - intros q qs e' Hq He' Hn. rewrite objs_set_running in Hn. by eapply H6.
  - intros n o Hn Hx. rewrite objs_set_running in Hx. by eapply H7.
Qed.

Lemma wf_sent (m : machine) (k : nat) (c : call) :
  wf m -> calls m !! k = Some c ->
  wf (with_calls (<[k := {| k_pass := k_pass c; k_entry := k_entry c; k_check := k_check c; k_sent := true |}]> (calls m)) m).
Proof.
  intros H Hk. destruct H as [H1 H2 H3 H4 H5 H6 H7 H8]. split; cbn; try done.
  - intros k' Hk'. apply H1. rewrite lookup_insert in Hk'. case_decide; subst; congruence.
  - intros o. rewrite H3. split; intros (k' & c' & Hk' & Hc).
    + destruct (decide (k = k')) as [->|Hne]; [exists k'; eexists; rewrite lookup_insert_eq; split; [done|]; cbn; congruence|].
      exists k', c'. by rewrite lookup_insert_ne.
    + apply lookup_insert_Some in Hk' as [[-> <-]|[_ Hk']]; eauto.
  - intros k1 k2 c1 c2 [[<- <-]|[Hn1 Hk1]]%lookup_insert_Some [[<- <-]|[Hn2 Hk2]]%lookup_insert_Some Hc; eauto.
Qed.

Lemma wf_clear (m : machine) (k : nat) (c : call) :
  wf m -> calls m !! k = Some c ->
  wf (with_hl (set_running (k_check c) false (hl m)) (with_calls (delete k (calls m)) m)).
Proof.
  intros H Hk. destruct H as [H1 H2 H3 H4 H5 H6 H7 H8]. split; cbn [hl passes next_pass calls next_call with_hl with_calls]; try done.
  - intros k' Hk'. apply H1. rewrite lookup_delete in Hk'. by case_decide.
  - intros o. rewrite running_set. case_decide as Hd.
    + subst o. split; [by case_decide|]. intros (k' & c' & [Hne Hk']%lookup_delete_Some & Hc). by destruct (Hne (H4 _ _ _ _ Hk Hk' (eq_sym Hc))).
    + rewrite H3. split; intros (k' & c' & Hk' & Hc); exists k', c'; (split; [|done]).
      * rewrite lookup_delete_ne; [done|]. intros <-. congruence.
      * by apply lookup_delete_Some in Hk' as [_ Hk'].
  - intros k1 k2 c1 c2 [_ Hk1]%lookup_delete_Some [_ Hk2]%lookup_delete_Some. eauto.
  - intros o Ho. apply H5. intros Hn. apply Ho. by apply objs_set_running.
  - intros q qs e' Hq He' Hn. rewrite objs_set_running in Hn. by eapply H6.
  - intros n o Hn Hx. rewrite objs_set_running in Hx. by eapply H7.
Qed.

Lemma wf_register (m : machine) (name : string) (opts : list check_option) (o : gmap string nat) :
  wf m ->
  wf {| hl := Register name opts (hl m); passes := passes m; next_pass := next_pass m; calls := calls m;
        next_call := next_call m; stopped := stopped m; origin := o |}.
Proof.
  intros H. destruct H as [H1 H2 H3 H4 H5 H6 H7 H8].
  assert (Hnew : objs (hl m) !! next_obj (hl m) = None).
  { apply dec_stable. intros Hn. specialize (H5 _ Hn). lia. }
  split; cbn [hl passes next_pass calls next_call]; try done.
  - intros o'. rewrite <- H3. unfold is_running. cbn. rewrite lookup_insert. case_decide; subst; [|done].
    rewrite Hnew. assert (Hr : forall l c, running c = false -> running (foldl apply_option c l) = false).
    { induction l as [|[] l IH]; intros c Hc; cbn; [done|]. by apply IH. }
    by rewrite Hr.
  - intros o' Ho. cbn in *. rewrite lookup_insert in Ho. case_decide; subst; [lia|]. specialize (H5 _ Ho). lia.
  - intros q qs e Hq He. cbn. rewrite lookup_insert. case_decide; [done|]. by eapply H6.
  - intros n o' Hn. cbn in *. rewrite lookup_insert. case_decide; [done|].
    apply lookup_insert_Some in Hn as [[_ ?]|[_ Hn]]; [congruence|]. by eapply H7.
Qed.

Lemma collect_elem (h : Health) (e : entry) : e ∈ collect h -> checks h !! e_name e = Some (e_check e) /\ e_slot e = Todo.
Proof. intros ([n p] & -> & Hn%elem_of_map_to_list)%list_elem_of_fmap. done. Qed.

Lemma wf_begin (m : machine) (probe : bool) :
  wf m -> (probe = true -> inline_busy m = false) ->
  wf {| hl := hl m; passes := <[next_pass m := {| inline := probe; entries := collect (hl m) |}]> (passes m);
        next_pass := S (next_pass m); calls := calls m; next_call := next_call m; stopped := stopped m; origin := origin m |}.
Proof.
  intros H Hb. destruct H as [H1 H2 H3 H4 H5 H6 H7 H8]. split; cbn; try done.
  - intros q Hq. rewrite lookup_insert in Hq. case_decide; subst; [lia|]. specialize (H2 _ Hq). lia.
  - intros q qs e [[_ <-]|[_ Hq]]%lookup_insert_Some He; [|by eapply H6].
    apply collect_elem in He as [He _]. by eapply H7.
  - assert (Hno : forall q qs, passes m !! q = Some qs -> inline qs = true -> probe = true -> False).
    { intros q qs Hq Hi Hp. specialize (Hb Hp). apply not_true_iff_false in Hb. apply Hb.
      apply existsb_map. by exists q, qs. }
    intros q r qs rs [[<- <-]|[_ Hq]]%lookup_insert_Some [[<- <-]|[_ Hr]]%lookup_insert_Some; cbn; eauto;
      intros; exfalso; eauto.
Qed.

Lemma wf_stored (m : machine) (p : nat) (ps : pass) (o : gmap string nat) :
  wf m ->
  wf {| hl := store (hl m) ps; passes := delete p (passes m); next_pass := next_pass m; calls := calls m;
        next_call := next_call m; stopped := stopped m; origin := o |}.
Proof.
  intros H. destruct H as [H1 H2 H3 H4 H5 H6 H7 H8].
  pose proof (store_same ps (hl m)) as (Hc & Ho & Hn & _). cbn in Hc, Ho, Hn.
  split; cbn; rewrite ?Hc, ?Ho, ?Hn; try done.
  - intros q Hq. apply H2. rewrite lookup_delete in Hq. by case_decide.
  - intros o'. unfold is_running. rewrite Ho. apply H3.
  - intros q qs e [_ Hq]%lookup_delete_Some. by eapply H6.
  - intros q r qs rs [_ Hq]%lookup_delete_Some [_ Hr]%lookup_delete_Some. eauto.
Qed.

Lemma wf_step (now : Z) (ev : event) (m m' : machine) : step now ev m = Some m' -> wf m -> wf m'.
Proof.
  intros Hs H. destruct ev as [name opts|b| |probe|p i|k er|k|p i|p i|p]; cbn [step] in Hs.
  - injection Hs as <-. by apply wf_register.
  - injection Hs as <-. by destruct H.
  - injection Hs as <-. by destruct H.
  - destruct probe; cbn in Hs.
    + destruct (negb _ || inline_busy m) eqn:Hb; [done|]. injection Hs as <-. apply orb_false_elim in Hb as [_ Hb].
      by apply wf_begin.
    + injection Hs as <-. by apply wf_begin.
  - apply bind_Some in Hs as ([ps e] & He & Hs). apply the_entry_inv in He as [Hp He].
    destruct (e_slot e); try done. destruct (is_running _ _) eqn:Hr; injection Hs as <-; [by apply wf_set_entry|].
    apply (wf_set_entry (Build_machine _ _ _ _ _ _ _)); [|exact Hp]. by eapply wf_launch.
  - apply bind_Some in Hs as (c & Hk & Hs). destruct (k_sent c); [done|].
    pose proof (wf_sent _ _ _ H Hk) as H'.
    destruct (the_entry m _ _) as [[ps e]|] eqn:He; [|by injection Hs as <-].
    apply the_entry_inv in He as [Hp He]. destruct (e_slot e); injection Hs as <-; try done.
    by apply (wf_set_entry (with_calls _ m)).
  - apply bind_Some in Hs as (c & Hk & Hs). destruct (k_sent c); [|done]. injection Hs as <-. by apply wf_clear.
  - apply bind_Some in Hs as ([ps e] & He & Hs). apply the_entry_inv in He as [Hp He].
    destruct (e_slot e) as [| |? [er|]|]; try done. injection Hs as <-. by apply wf_set_entry.
  - apply bind_Some in Hs as ([ps e] & He & Hs). apply the_entry_inv in He as [Hp He].
    destruct (e_slot e); try done. destruct (_ || _); [|done]. injection Hs as <-. by apply wf_set_entry.
  - apply bind_Some in Hs as (ps & Hp & Hs). destruct (forallb _ _); [|done]. injection Hs as <-. by apply wf_stored.
Qed.

Lemma wf_init (iv to : Z) : wf (init iv to).
Proof.
  split; cbn; try done. intros o. unfold is_running. cbn. rewrite lookup_empty. split; [done|].
  intros (k & c & Hk & _). by rewrite lookup_empty in Hk.
Qed.

(** The invariants of a step hold along every schedule. *)
Lemma run_invariant (P : machine -> Prop) :
  (forall now ev m m', step now ev m = Some m' -> P m -> P m') ->
  forall evs m m', run evs m = Some m' -> P m -> P m'.
Proof.
  intros Hstep evs. induction evs as [|[now ev] evs IH]; intros m m' Hr Hm; [by injection Hr as <-|].
  apply bind_Some in Hr as (m1 & H1 & Hr). eauto.
Qed.

Lemma wf_run (iv to : Z) (evs : list (Z * event)) (m : machine) : run evs (init iv to) = Some m -> wf m.
Proof. intros H. eapply (run_invariant wf), wf_init; eauto using wf_step. Qed.

(** The settings never change. *)
Lemma settings_step (now : Z) (ev : event) (m m' : machine) :
  step now ev m = Some m' -> timeout (hl m') = timeout (hl m) /\ interval (hl m') = interval (hl m).
Proof.
  intros Hs. destruct ev as [name opts|b| |probe|p i|k er|k|p i|p i|p]; cbn [step] in Hs; simplify_eq/=; try done.
  all: try (apply bind_Some in Hs as (x & _ & Hs)).
  all: try (repeat case_match; by simplify_eq/=).
  destruct (forallb _ _); [|done]. injection Hs as <-. cbn.
  pose proof (store_same x (hl m)) as H. cbn in H. by destruct_and?.
Qed.

Lemma settings_run (iv to : Z) (evs : list (Z * event)) (m : machine) :
  run evs (init iv to) = Some m -> 0 < timeout (hl m) /\ 0 < interval (hl m).
Proof.
  intros H. apply (run_invariant (fun m => 0 < timeout (hl m) /\ 0 < interval (hl m))) in H; [done| |].
  - intros now ev m1 m2 Hs. by destruct (settings_step _ _ _ _ Hs) as [-> ->].
  - cbn. unfold defaultHealthTimeout, defaultHealthInterval, Go.second. split; case_match; zbool; lia.
Qed.

(** ** A pass ends *)

Lemma schedule_app (a b : list (Z * event)) (m : machine) : run (a ++ b) m = (m' ← run a m; run b m').
Proof.
  revert m. induction a as [|[t ev] a IH]; intros m; [done|]. cbn. destruct (step t ev m); cbn; [apply IH|done].
Qed.

Section PassEnds.
Context (p : nat) (now : Z).

(** The pass is live, its evaluations were started before [now]. *)
Definition live (m : machine) (ps : pass) : Prop :=
  passes m !! p = Some ps /\ 0 < timeout (hl m) /\
  (forall e start d, e ∈ entries ps -> e_slot e = Waiting start d -> start <= now).

(** Settling the entries of one kind, one after another, leaves none of it. *)
Lemma settle_all (P : slot -> Prop) `{!forall s, Decision (P s)} (G : machine -> pass -> Prop) (t : Z) (ev : nat -> event) :
  (forall m ps i e, G m ps -> entries ps !! i = Some e -> P (e_slot e) ->
     exists m' s, step t (ev i) m = Some m' /\ ~ P s /\ G m' (set_entry i s ps)) ->
  forall m ps, G m ps -> exists idx m' ps',
    run ((fun i => (t, ev i)) <$> idx) m = Some m' /\ G m' ps' /\ Forall (fun e => ~ P (e_slot e)) (entries ps').
Proof.
  intros Hstep m ps HG.
  cut (forall k, exists idx m' ps',
         run ((fun i => (t, ev i)) <$> idx) m = Some m' /\ G m' ps' /\ length (entries ps') = length (entries ps) /\
         forall i e, (i < k)%nat -> entries ps' !! i = Some e -> ~ P (e_slot e)).
  { intros Hall. destruct (Hall (length (entries ps))) as (idx & m' & ps' & Hr & HG' & Hl & Hno).
    exists idx, m', ps'. split_and!; [done..|]. apply Forall_lookup. intros i e He.
    eapply Hno; [|done]. rewrite <- Hl. by eapply lookup_lt_Some. }
  induction k as [|k (idx & m' & ps' & Hr & HG' & Hl & Hno)]; [exists [], m, ps; split_and!; [done..|]; intros; lia|].
  destruct (entries ps' !! k) as [e|] eqn:He; [destruct (decide (P (e_slot e))) as [HP|HP]|].
  2,3: exists idx, m', ps'; (split_and!; [done..|]); intros i e' Hi He';
       (destruct (decide (i = k)) as [->|]; [congruence|eapply Hno; [|done]; lia]).
  destruct (Hstep _ _ _ _ HG' He HP) as (m2 & s & Hs & Hns & HG2).
  exists (idx ++ [k]), m2, (set_entry k s ps'). split_and!; [|done|cbn; by rewrite length_alter|].
  { rewrite fmap_app, schedule_app, Hr. cbn. by rewrite Hs. }
  intros i e' Hi. cbn. rewrite list_lookup_alter. case_decide as Hd; [subst i|intros He'; eapply Hno; [|done]; lia].
  rewrite He. cbn. by intros [= <-].
Qed.

Definition is_todo (s : slot) : Prop := match s with Todo => True | _ => False end.
Definition is_waiting (s : slot) : Prop := match s with Waiting _ _ => True | _ => False end.
#[local] Instance is_todo_dec (s : slot) : Decision (is_todo s).
Proof. destruct s; cbn; apply _. Defined.
#[local] Instance is_waiting_dec (s : slot) : Decision (is_waiting s).
Proof. destruct s; cbn; apply _. Defined.

(** Setting a slot keeps a pass live. *)
Lemma live_set (m m' : machine) (ps : pass) (i : nat) (s : slot) :
  live m ps -> passes m' !! p = Some (set_entry i s ps) -> timeout (hl m') = timeout (hl m) ->
  (forall start d, s = Waiting start d -> start <= now) -> live m' (set_entry i s ps).
Proof.
  intros (_ & Ht & Hw) Hp Hto Hs. split_and!; [done|congruence|].
  intros e start d [j Hj]%list_elem_of_lookup He. cbn in Hj. rewrite list_lookup_alter in Hj. case_decide.
  - apply fmap_Some in Hj as (e0 & _ & ->). eauto.
  - eapply Hw; [by eapply list_elem_of_lookup_2|done].
Qed.

Lemma try_todo (m : machine) (ps : pass) (i : nat) (e : entry) :
  live m ps -> entries ps !! i = Some e -> is_todo (e_slot e) ->
  exists m' s, step now (ETry p i) m = Some m' /\ ~ is_todo s /\ live m' (set_entry i s ps).
Proof.
  intros Hl He Ht. destruct (e_slot e) eqn:Hs; try done. cbn [step].
  rewrite (proj2 (the_entry_inv m p i ps e)) by (by destruct Hl). cbn. rewrite Hs.
  destruct (is_running (hl m) (e_check e)).
  - eexists _, Skipped. split_and!; [done|by cbn; intros []|]. eapply live_set; [done| |done|done]. cbn. by rewrite lookup_insert_eq.
  - eexists _, (Waiting now None). split_and!; [done|by cbn; intros []|]. eapply live_set; [done| |done|].
    + cbn. by rewrite lookup_insert_eq.
    + intros start d [= <- _]. lia.
Qed.

Lemma timeout_waiting (m : machine) (ps : pass) (T : Z) (i : nat) (e : entry) :
  live m ps -> timeout (hl m) = T -> entries ps !! i = Some e -> is_waiting (e_slot e) ->
  exists m', step (now + T) (ETimeout p i) m = Some m' /\ timeout (hl m') = T /\
    live m' (set_entry i (Got {| err := Some timeout_error; checkedAt := now + T |}) ps).
Proof.
  intros Hl HT He Hw. destruct (e_slot e) as [| |start d|] eqn:Hs; try done. cbn [step].
  rewrite (proj2 (the_entry_inv m p i ps e)) by (by destruct Hl). cbn. rewrite Hs.
  assert (start <= now) by (destruct Hl as (_ & _ & Hl); eapply Hl; [by eapply list_elem_of_lookup_2|done]).
  rewrite (proj2 (Z.leb_le _ _)) by lia. cbn. eexists. split_and!; [done|done|].
  eapply live_set; [done| |done|done]. cbn. by rewrite lookup_insert_eq.
Qed.

Lemma set_entry_slots (Q : slot -> Prop) (i : nat) (s : slot) (ps : pass) :
  Q s -> Forall (fun e => Q (e_slot e)) (entries ps) -> Forall (fun e => Q (e_slot e)) (entries (set_entry i s ps)).
Proof. intros Hs H. cbn. apply Forall_alter; [done|]. by intros e _ _. Qed.

(** The steps of the pass itself. *)
Definition own (ev : event) : Prop :=
  match ev with ETry q _ | ETimeout q _ | EStore q => q = p | _ => False end.

Lemma live_ends (m : machine) (ps : pass) :
  live m ps ->
  exists sched m', run sched m = Some m' /\ passes m' !! p = None /\
    Forall (fun te => now <= te.1 <= now + timeout (hl m) /\ own te.2) sched.
Proof.
  intros Hl. set (T := timeout (hl m)). assert (HT : 0 < T) by (by destruct Hl as (_ & ? & _)).
  destruct (settle_all is_todo (fun m ps => live m ps /\ timeout (hl m) = T) now (ETry p)) with (m := m) (ps := ps)
    as (i1 & m1 & ps1 & R1 & [L1 T1] & N1).
  { intros m0 ps0 i e [L0 T0] He Ht. destruct (try_todo _ _ _ _ L0 He Ht) as (m' & s & Hs & Hn & HL).
    exists m', s. destruct (settings_step _ _ _ _ Hs). split_and!; try done. congruence. }
  { done. }
  destruct (settle_all is_waiting
              (fun m ps => live m ps /\ timeout (hl m) = T /\ Forall (fun e => ~ is_todo (e_slot e)) (entries ps))
              (now + T) (ETimeout p)) with (m := m1) (ps := ps1) as (i2 & m2 & ps2 & R2 & (L2 & T2 & N2) & N3).
  { intros m0 ps0 i e (L0 & T0 & N0) He Hw. destruct (timeout_waiting _ _ _ _ _ L0 T0 He Hw) as (m' & Hs & HT' & HL).
    eexists m', (Got _). split_and!; [done|by cbn; intros []|exact HL|done|]. apply (set_entry_slots (fun s => ~ is_todo s)); [by cbn; intros []|done]. }
  { done. }
  assert (Hset : forallb settled (entries ps2) = true).
  { apply forallb_forall. intros e He%list_elem_of_In. rewrite Forall_forall in N2, N3. specialize (N2 e He). specialize (N3 e He).
    unfold settled. by destruct (e_slot e); cbn in *. }
  eexists (((fun i => (now, ETry p i)) <$> i1) ++ ((fun i => (now + T, ETimeout p i)) <$> i2) ++ [(now + T, EStore p)]), _.
  split_and!.
  - rewrite schedule_app, R1. cbn. rewrite schedule_app, R2. cbn. destruct L2 as (-> & _). cbn. by rewrite Hset.
  - cbn. by rewrite lookup_delete_eq.
  - rewrite !Forall_app. split_and!; [apply Forall_fmap, Forall_true..|apply Forall_cons_2; [|by apply Forall_nil_2]];
      cbn; intros; split_and!; try done; lia.
Qed.
End PassEnds.

(** ** Results are of the registered checks *)

(** Registrations happen while no pass is running. *)
Fixpoint quiet (evs : list (Z * event)) (m : machine) : Prop :=
  match evs with
  | [] => True
  | (now, ev) :: evs =>
      match ev with ERegister _ _ => passes m = ∅ | _ => True end /\
      match step now ev m with Some m' => quiet evs m' | None => True end
  end.

(** A stored result is an evaluation of the object registered under the name, and
    a series is its result under its criticality. *)
Record of_registered (h : Health) (o : gmap string nat) : Prop := {
  or_results : forall n r, results h !! n = Some r -> is_Some (checks h !! n) /\ o !! n = checks h !! n;
  or_up : forall n b v, up h !! (n, b) = Some v -> exists p r, checks h !! n = Some p /\ results h !! n = Some r /\
    b = boolString (negb (is_optional h p)) /\ v = match err r with None => 1 | Some _ => 0 end
}.

Definition entries_current (m : machine) : Prop :=
  forall p ps e, passes m !! p = Some ps -> e ∈ entries ps -> checks (hl m) !! e_name e = Some (e_check e).

Lemma boolString_inj (a b : bool) : boolString a = boolString b -> a = b.
Proof. by destruct a, b. Qed.

Lemma of_registered_store (h : Health) (o : gmap string nat) (e : entry) :
  checks h !! e_name e = Some (e_check e) -> of_registered h o ->
  of_registered (store_entry h e) (note_origin (checks h) o e).
Proof.
  intros Hc [H1 H2]. unfold store_entry, note_origin. rewrite Hc.
  destruct (e_slot e) as [| | |r]; [by split..|]. split; cbn.
  - intros n r' [[<- <-]|[Hne Hn]]%lookup_insert_Some.
    + rewrite lookup_insert_eq, Hc. eauto.
    + rewrite lookup_insert_ne by done. eauto.
  - intros n b v [[[= <- <-] <-]|[Hne Hn]]%lookup_insert_Some.
    + exists (e_check e), r. rewrite lookup_insert_eq. done.
    + destruct (H2 _ _ _ Hn) as (p & r' & Hp & Hr & -> & ->). exists p, r'.
      split_and!; try done. rewrite lookup_insert_ne; [done|]. intros <-. rewrite Hp in Hc. naive_solver.
Qed.

Lemma of_registered_pass (l : list entry) (h : Health) (o : gmap string nat) :
  (forall e, e ∈ l -> checks h !! e_name e = Some (e_check e)) -> of_registered h o ->
  of_registered (foldl store_entry h l) (foldl (note_origin (checks h)) o l).
Proof.
  revert h o. induction l as [|e l IH]; intros h o Hl Ho; [done|]. cbn [foldl].
  pose proof (store_entry_same h e) as (Hc & _). cbn in Hc. rewrite <- Hc.
  apply IH; [intros e' He'; rewrite Hc; apply Hl; set_solver|]. rewrite Hc.
  apply of_registered_store; [apply Hl; set_solver|done].
Qed.

Lemma of_registered_register (h : Health) (o : gmap string nat) (name : string) (opts : list check_option) :
  (forall n p, checks h !! n = Some p -> (p < next_obj h)%nat) ->
  of_registered h o -> of_registered (Register name opts h) (delete name o).
Proof.
  intros Hlt [H1 H2]. split; cbn.
  - intros n r [Hne Hn]%lookup_delete_Some. rewrite lookup_insert_ne, lookup_delete_ne by done. eauto.
  - intros n b v [Hn Hne]%map_lookup_filter_Some. cbn in Hne. destruct (H2 _ _ _ Hn) as (p & r & Hp & Hr & -> & ->).
    exists p, r. rewrite lookup_insert_ne, lookup_delete_ne by done. split_and!; try done.
    do 2 f_equal. unfold is_optional. cbn. rewrite lookup_insert_ne; [done|]. specialize (Hlt _ _ Hp). lia.
Qed.

(** Passes keep the names and objects of their entries. *)
Lemma entries_current_set (m : machine) (p i : nat) (s : slot) (ps : pass) :
  entries_current m -> passes m !! p = Some ps ->
  forall q qs e, <[p := set_entry i s ps]> (passes m) !! q = Some qs -> e ∈ entries qs ->
    checks (hl m) !! e_name e = Some (e_check e).
Proof.
  intros Hcur Hp q qs e [[<- <-]|[_ Hq]]%lookup_insert_Some He; [|by eapply Hcur].
  apply set_entry_elem in He as (e0 & He0 & <- & <-). by eapply Hcur.
Qed.

Lemma current_step (now : Z) (ev : event) (m m' : machine) :
  step now ev m = Some m' -> match ev with ERegister _ _ => passes m = ∅ | _ => True end -> wf m ->
  entries_current m -> of_registered (hl m) (origin m) -> entries_current m' /\ of_registered (hl m') (origin m').
Proof.
  intros Hs Hq Hwf Hcur Hor.
  assert (Hrun : forall p b, of_registered (set_running p b (hl m)) (origin m)).
  { intros p b. destruct Hor as [H1 H2]. split; cbn; [done|]. intros n c v Hn.
    setoid_rewrite optional_set. by apply H2. }
  destruct ev as [name opts|b| |probe|p i|k er|k|p i|p i|p]; cbn [step] in Hs.
  - injection Hs as <-. split.
    + intros p ps e. cbn. by rewrite Hq, lookup_empty.
    + apply of_registered_register; [|done]. intros n p Hn. by eapply wf_obj, wf_checks.
  - injection Hs as <-. split; [done|]. by destruct Hor.
  - injection Hs as <-. done.
  - destruct (_ && _); [done|]. injection Hs as <-. split; [|done].
    intros q qs e; cbn. intros [[_ <-]|[_ Hq']]%lookup_insert_Some He; [|by eapply Hcur]. by apply collect_elem in He as [He _].
  - apply bind_Some in Hs as ([ps e] & He & Hs). apply the_entry_inv in He as [Hp He].
    destruct (e_slot e); try done. destruct (is_running _ _); injection Hs as <-; (split; [|done || apply Hrun]);
      exact (entries_current_set _ _ _ _ _ Hcur Hp).
  - apply bind_Some in Hs as (c & Hk & Hs). destruct (k_sent c); [done|].
    destruct (the_entry m _ _) as [[ps e]|] eqn:He; [|by injection Hs as <-].
    apply the_entry_inv in He as [Hp He]. destruct (e_slot e); injection Hs as <-; try done.
    split; [|done]. exact (entries_current_set _ _ _ _ _ Hcur Hp).
  - apply bind_Some in Hs as (c & Hk & Hs). destruct (k_sent c); [|done]. injection Hs as <-. split; [done|apply Hrun].
  - apply bind_Some in Hs as ([ps e] & He & Hs). apply the_entry_inv in He as [Hp He].
    destruct (e_slot e) as [| |? [er|]|]; try done. injection Hs as <-. split; [|done]. exact (entries_current_set _ _ _ _ _ Hcur Hp).
  - apply bind_Some in Hs as ([ps e] & He & Hs). apply the_entry_inv in He as [Hp He].
    destruct (e_slot e); try done. destruct (_ || _); [|done]. injection Hs as <-. split; [|done].
    exact (entries_current_set _ _ _ _ _ Hcur Hp).
  - apply bind_Some in Hs as (ps & Hp & Hs). destruct (forallb _ _); [|done]. injection Hs as <-.
    pose proof (store_same ps (hl m)) as (Hc & _). cbn in Hc. split.
    + intros q qs e; cbn. intros [_ Hq']%lookup_delete_Some He. rewrite Hc. by eapply Hcur.
    + cbn. apply of_registered_pass; [|done]. intros e He. by eapply Hcur.
Qed.

Lemma current_run (evs : list (Z * event)) (m m' : machine) :
  run evs m = Some m' -> quiet evs m -> wf m -> entries_current m -> of_registered (hl m) (origin m) ->
  of_registered (hl m') (origin m').
Proof.
  revert m. induction evs as [|[now ev] evs IH]; intros m Hr Hq Hwf Hcur Hor; [by injection Hr as <-|].
  apply bind_Some in Hr as (m1 & H1 & Hr). destruct Hq as [Hq1 Hq]. rewrite H1 in Hq.
  destruct (current_step _ _ _ _ H1 Hq1 Hwf Hcur Hor). eapply IH; eauto using wf_step.
Qed.

(** ** What a probe answers *)

(** A registered check of the given criticality whose stored result is a failure. *)
Definition failing (h : Health) (opt : bool) : Prop :=
  exists name p r, checks h !! name = Some p /\ is_optional h p = opt /\ results h !! name = Some r /\ err r <> None.

Lemma snapshot_lookup (h : Health) (name : string) (rc : result * bool) :
  snapshot h !! name = Some rc <->
  exists p, checks h !! name = Some p /\
    rc = (default {| err := None; checkedAt := 0 |} (results h !! name), negb (is_optional h p)).
Proof. unfold snapshot. rewrite map_lookup_imap. destruct (checks h !! name); cbn; naive_solver. Qed.

Lemma snapshot_failing (h : Health) (critical : bool) :
  reflect (failing h (negb critical))
    (existsb (fun '(_, (r, c)) => match err r with Some _ => Bool.eqb c critical | None => false end)
       (map_to_list (snapshot h))).
Proof.
  apply iff_reflect. rewrite existsb_map. unfold failing. setoid_rewrite snapshot_lookup. split.
  - intros (name & p & r & Hp & Ho & Hr & He). exists name. eexists. split; [by exists p|]. rewrite Hr. cbn.
    destruct (err r); [|done]. rewrite Ho. by destruct critical.
  - intros (name & [r c] & (p & Hp & [= -> ->]) & He). exists name, p.
    destruct (results h !! name) as [r|]; [|done]. cbn in He. exists r. destruct (err r); [|done].
    apply eqb_prop in He as <-. split_and!; try done. by destruct (is_optional h p).
Qed.

(** ** Theorems *)

(** C20: whatever the interleaving of passes, probes and registrations, a check
    is being evaluated by at most one goroutine, its running flag is set exactly
    while one is in it (so a check that hangs is never called again until it
    returns), and at most one probe refreshes inline. *)
Theorem one_evaluation_per_check (iv to : Z) (evs : list (Z * event)) (m : machine) (H : run evs (init iv to) = Some m) :
  (forall o, is_running (hl m) o = true <-> exists k c, calls m !! k = Some c /\ k_check c = o) /\
  (forall k1 k2 c1 c2, calls m !! k1 = Some c1 -> calls m !! k2 = Some c2 -> k_check c1 = k_check c2 -> k1 = k2) /\
  (forall p q ps qs, passes m !! p = Some ps -> passes m !! q = Some qs ->
     inline ps = true -> inline qs = true -> p = q).
Proof. apply wf_run in H. split_and!; apply H. Qed.

(** C31: a pass always ends, even if no check ever returns: from any reachable
    state its own steps alone, none later than the check timeout after the moment
    its last evaluation started, finish it and free the loop or the probe. *)
Theorem pass_always_ends (iv to : Z) (evs : list (Z * event)) (m : machine) (p : nat) (ps : pass) (now : Z)
    (Hr : run evs (init iv to) = Some m) (Hp : passes m !! p = Some ps)
    (Hnow : forall e start d, e ∈ entries ps -> e_slot e = Waiting start d -> start <= now) :
  exists sched m', run sched m = Some m' /\ passes m' !! p = None /\
    Forall (fun te => now <= te.1 <= now + timeout (hl m) /\ own p te.2) sched.
Proof. eapply live_ends. split_and!; [done| |done]. by destruct (settings_run _ _ _ _ Hr). Qed.

(** What a readiness probe answers: 503 exactly when the gate is closed or a
    registered critical check has a failing stored result, "degraded" (still 200)
    exactly when only optional ones have, and for every registered check the text of
    its stored failure or "ok". While registrations happen outside passes, every
    stored result and every exported series is of the check registered now. *)
Theorem readiness_verdict (iv to : Z) (evs : list (Z * event)) (m : machine) (Hr : run evs (init iv to) = Some m) :
  let h := hl m in let a := ReadyHandler h in
  (status a = 503 <-> ready h = false \/ failing h false) /\
  (body a = "degraded"%string <-> ready h = true /\ ~ failing h false /\ failing h true) /\
  (status a = 200 \/ status a = 503) /\
  (ready h = true -> forall name p, checks h !! name = Some p ->
     breakdown a !! name = Some (match results h !! name with
                                 | Some r => match err r with Some e => e | None => "ok"%string end
                                 | None => "ok"%string end)) /\
  (quiet evs (init iv to) -> of_registered h (origin m)).
Proof.
  cbn zeta. unfold ReadyHandler. split_and!; cycle 4.
  { intros Hq. eapply current_run; [done..|apply wf_init| |]; [by intros p ps e|]. split; cbn; intros *; by rewrite lookup_empty. }
  all: destruct (ready (hl m)) eqn:Hg; cbn [negb status body breakdown].
  all: try (destruct (snapshot_failing (hl m) true) as [Ht|Ht]; [|destruct (snapshot_failing (hl m) false) as [Hf|Hf]];
            cbn in *).
  all: try naive_solver.
  all: intros _ name p Hn; rewrite lookup_fmap; unfold snapshot; rewrite map_lookup_imap, Hn; cbn;
    by destruct (results (hl m) !! name).
Qed.

(** ** Where the registry and its comments part *)

Definition db : string := "db".

(** "Replacing a check drops its previous result and metric series, so a change of
    criticality never leaves a stale one": a pass that started before the
    replacement stores the old check's failure for the new one, and revives the
    series of the old criticality. *)
Definition replaced_schedule : list (Z * event) :=
  [(0, ERegister db []); (0, ESetReady true); (0, EBegin false); (0, ETry 0 0);
   (1, ERegister db [Optional]); (2, EReturn 0 (Some "refused"%string)); (2, ETake 0 0); (2, EStore 0)].

Definition replaced : machine := Eval vm_compute in default (init 0 0) (run replaced_schedule (init 0 0)).

Theorem replaced_check_result_survives :
  exists m, run replaced_schedule (init 0 0) = Some m /\
    results (hl m) !! db = Some {| err := Some "refused"%string; checkedAt := 2 |} /\
    checks (hl m) !! db = Some 1%nat /\ origin m !! db = Some 0%nat /\
    is_optional (hl m) 1 = true /\ up (hl m) !! (db, "true"%string) = Some 0.
Proof. exists replaced. split; [vm_compute; reflexivity|]. split_and!; reflexivity. Qed.

(** "200 ready: gate open, every check passing": a check whose first evaluation
    hangs in one pass is skipped by the inline pass of the probe, and the probe
    reports the check it has no result of as "ok". *)
Definition unevaluated_schedule : list (Z * event) :=
  [(0, ERegister db []); (0, ESetReady true); (0, EBegin false); (0, ETry 0 0);
   (1, EBegin true); (1, ETry 1 0); (1, EStore 1)].

Definition unevaluated : machine := Eval vm_compute in default (init 0 0) (run unevaluated_schedule (init 0 0)).

Theorem unevaluated_check_reported_ok :
  exists m, run unevaluated_schedule (init 0 0) = Some m /\
    results (hl m) !! db = None /\ is_running (hl m) 0 = true /\
    status (ReadyHandler (hl m)) = 200 /\ body (ReadyHandler (hl m)) = "ready"%string /\
    breakdown (ReadyHandler (hl m)) !! db = Some "ok"%string.
Proof. exists unevaluated. split; [vm_compute; reflexivity|]. split_and!; reflexivity. Qed.

(** ** Witnesses *)

(** One check, evaluated by the loop and found failing. *)
Definition demo_schedule : list (Z * event) :=
  [(0, ERegister db []); (0, ESetReady true); (0, EBegin false); (0, ETry 0 0)].

Definition demo : machine := Eval vm_compute in default (init 0 0) (run demo_schedule (init 0 0)).

Lemma demo_run : run demo_schedule (init 0 0) = Some demo.
Proof. vm_compute. reflexivity. Qed.

Lemma one_evaluation_per_check_witness :
  is_running (hl demo) 0 = true /\ exists k c, calls demo !! k = Some c /\ k_check c = 0%nat.
Proof.
  split; [reflexivity|].
  apply (proj1 (one_evaluation_per_check 0 0 demo_schedule demo demo_run)). reflexivity.
Defined.

Lemma pass_always_ends_witness :
  exists sched m', run sched demo = Some m' /\ passes m' !! 0%nat = None /\
    Forall (fun te => 0 <= te.1 <= 0 + timeout (hl demo) /\ own 0 te.2) sched.
Proof.
  eapply (pass_always_ends 0 0 demo_schedule demo 0 _ 0 demo_run); [reflexivity|].
  intros e start d He Hs. apply list_elem_of_singleton in He. subst e. cbn in Hs. injection Hs as <- _. lia.
Defined.

Lemma readiness_verdict_witness : status (ReadyHandler (hl demo)) = 200 \/ status (ReadyHandler (hl demo)) = 503.
Proof. apply (readiness_verdict 0 0 demo_schedule demo demo_run). Defined.

End Health.
