(* ===== verification/LogLevel.v ===== *)
(** The runtime log level (libs/httpx/loglevel.go) and its admin endpoints
    (libs/httpx/admin.go): [Set], the timers it arms, the callbacks that may fire
    late, and the refinement of a level with an expiry. *)
From S2P Require Import Prelude GoStr.

Module LogLevel.

(** ** Levels *)

(** A [slog.Level] is an int. *)
Definition LevelDebug : Z := -4.
Definition LevelInfo : Z := 0.
Definition LevelWarn : Z := 4.
Definition LevelError : Z := 8.

(** [slog.Level.String]. *)
Definition level_text (base : string) (val : Z) : string :=
  if val =? 0 then base else (base ++ (if (0 <? val)%Z then "+" else "") ++ GoStr.Itoa val)%string.
Definition LevelString (l : Z) : string :=
  if l <? LevelInfo then level_text "DEBUG" (l - LevelDebug)
  else if l <? LevelWarn then level_text "INFO" (l - LevelInfo)
  else if l <? LevelError then level_text "WARN" (l - LevelWarn)
  else level_text "ERROR" (l - LevelError).

Definition levelString (l : Z) : string := GoStr.ToLower (LevelString l).

Definition parseLevelStrict (level : string) : option Z :=
  let s := GoStr.ToLower (GoStr.TrimSpace level) in
  if String.eqb s "debug" then Some LevelDebug
  else if String.eqb s "info" then Some LevelInfo
  else if String.eqb s "warn" || String.eqb s "warning" then Some LevelWarn
  else if String.eqb s "error" then Some LevelError
  else None.

(** [parseLevel] of logging.go. *)
Definition parseLevel (level : string) : Z :=
  let s := GoStr.ToLower (GoStr.TrimSpace level) in
  if String.eqb s "debug" then LevelDebug
  else if String.eqb s "warn" || String.eqb s "warning" then LevelWarn
  else if String.eqb s "error" then LevelError
  else LevelInfo.

(** ** The level and its timers *)

(** [expires] is the zero time as [None]; [timer] names the armed timer. *)
Record LogLevel := {
  lv : Z;
  base : Z;
  gen : Z;
  expires : option Z;
  timer : option nat
}.

Definition newLogLevel (base : Z) : LogLevel := {| lv := base; base := base; gen := 0; expires := None; timer := None |}.

(** The runtime's timers: armed ones with the generation their callback was
    given and when they fire, and the callbacks that fired and wait for the mutex. *)
Record machine := {
  level : LogLevel;
  armed : gmap nat (Z * Z);
  fired : list (Z * Z);
  next_timer : nat;
  clock : Z
}.

Definition init (base now : Z) : machine :=
  {| level := newLogLevel base; armed := ∅; fired := []; next_timer := 0; clock := now |}.

(** [Set], under the mutex: it stops the timer it knows (which may have fired
    already) and arms a new one. Returns the level before. *)
Definition Set_ (now l ttl : Z) (m : machine) : machine * Z :=
  let g := Go.wrapu64 (gen (level m) + 1) in
  let stopped := match timer (level m) with Some t => delete t (armed m) | None => armed m end in
  (if 0 <? ttl
   then {| level := {| lv := l; base := base (level m); gen := g; expires := Some (now + ttl);
                       timer := Some (next_timer m) |};
           armed := <[next_timer m := (g, now + ttl)]> stopped;
           fired := fired m; next_timer := S (next_timer m); clock := now |}
   else {| level := {| lv := l; base := base (level m); gen := g; expires := None; timer := None |};
           armed := stopped; fired := fired m; next_timer := next_timer m; clock := now |},
   lv (level m)).

Definition Reset (now : Z) (m : machine) : machine * Z := Set_ now (base (level m)) 0 m.

Definition Level (m : machine) : Z * option Z := (lv (level m), expires (level m)).

(** The callback of a timer. *)
Definition revert (g : Z) (l : LogLevel) : LogLevel :=
  if negb (gen l =? g) then l
  else {| lv := base l; base := base l; gen := gen l; expires := None; timer := None |}.

(** ** The machine *)

Inductive event :=
  | ESet (l ttl : Z)
  | EReset
  | EFire (t : nat)     (* the runtime starts the callback *)
  | ERevert (k : nat).  (* a started callback gets the mutex *)

Definition step (now : Z) (ev : event) (m : machine) : option machine :=
  if now <? clock m then None
  else match ev with
  | ESet l ttl => Some (Set_ now l ttl m).1
  | EReset => Some (Reset now m).1
  | EFire t =>
      '(g, d) ← armed m !! t;
      if now <? d then None
      else Some {| level := level m; armed := delete t (armed m); fired := (g, d) :: fired m;
                   next_timer := next_timer m; clock := now |}
  | ERevert k =>
      '(g, _) ← fired m !! k;
      Some {| level := revert g (level m); armed := armed m; fired := delete k (fired m);
              next_timer := next_timer m; clock := now |}
  end.

Fixpoint run (evs : list (Z * event)) (m : machine) : option machine :=
  match evs with
  | [] => Some m
  | (now, ev) :: evs => m' ← step now ev m; run evs m'
  end.

(** ** The contract *)

(** A level with at most one pending expiry, that of the last change. *)
Record spec := { s_level : Z; s_expiry : option Z }.

Definition spec_set (now l ttl : Z) : spec :=
  {| s_level := l; s_expiry := if 0 <? ttl then Some (now + ttl) else None |}.

(** What a step of the machine may do to the contract: a change, the expiry of the
    last change (not before its time), or nothing. *)
Inductive spec_step (base now : Z) (s : spec) : option event -> spec -> Prop :=
  | spec_Set (l ttl : Z) : spec_step base now s (Some (ESet l ttl)) (spec_set now l ttl)
  | spec_Reset : spec_step base now s (Some EReset) (spec_set now base 0)
  | spec_expire (d : Z) : s_expiry s = Some d -> d <= now ->
      spec_step base now s None {| s_level := base; s_expiry := None |}
  | spec_stutter : spec_step base now s None s.

Definition abstract (m : machine) : spec := {| s_level := lv (level m); s_expiry := expires (level m) |}.

(** The label of a step: the change it makes, if it is one. *)
Definition change (ev : event) : option event :=
  match ev with ESet _ _ | EReset => Some ev | _ => None end.

(** ** The admin endpoints *)

Inductive answer :=
  | Refused (status : Z) (detail : string)
  | Answered (status : Z) (level base previous : string) (expires_at : option Z) (max_ttl : Z).

Definition answer_status (a : answer) : Z :=
  match a with Refused st _ => st | Answered st _ _ _ _ _ => st end.

Section Admin.
(** [Config.LogLevelMaxTTL] and [time.ParseDuration]. *)
Context (LogLevelMaxTTL : Z) (ParseDuration : string -> option Z).

Definition logLevelResponse (previous : string) (m : machine) : answer :=
  let '(l, e) := Level m in
  Answered 200 (levelString l) (levelString (base (level m))) previous e LogLevelMaxTTL.

Definition errLoggerNotAdjustable : answer :=
  Refused 501 "the logger was not built by httpx.NewLogger; its level cannot be changed at runtime".

(** The machine is absent when the logger's level cannot be changed. *)
Definition getLogLevel (m : option machine) : answer :=
  match m with None => errLoggerNotAdjustable | Some m => logLevelResponse "" m end.

Definition putLogLevel (now : Z) (form_level form_ttl : string) (m : option machine) : option machine * answer :=
  match m with
  | None => (m, errLoggerNotAdjustable)
  | Some l =>
      match parseLevelStrict form_level with
      | None => (m, Refused 400 "unknown level")
      | Some lvl =>
          let ttl :=
            if String.eqb form_ttl "" then Some LogLevelMaxTTL
            else match ParseDuration form_ttl with
                 | None => None
                 | Some d => if d <=? 0 then None else Some (Z.min d LogLevelMaxTTL)
                 end in
          match ttl with
          | None => (m, Refused 400 "ttl must be a positive duration such as 30m or 2h")
          | Some ttl =>
              let '(l', previous) := Set_ now lvl ttl l in
              (Some l', logLevelResponse (levelString previous) l')
          end
      end
  end.

Definition deleteLogLevel (now : Z) (m : option machine) : option machine * answer :=
  match m with
  | None => (m, errLoggerNotAdjustable)
  | Some l =>
      let '(l', previous) := Reset now l in
      (Some l', logLevelResponse (levelString previous) l')
  end.
End Admin.

(** ** Enabling *)

(** [levelHandler.Enabled]; [debug] says that the context was marked by
    [WithDebugLogging]. *)
Definition Enabled (l : LogLevel) (debug : bool) (lvl : Z) : bool := debug || (lv l <=? lvl).

(** ** The invariant *)

(** After [n] steps: no timer or callback is of a generation to come, one of the
    present generation knows the present expiry (or has done its work), and a
    pending expiry has its timer or its callback. *)
Record inv (n : Z) (m : machine) : Prop := {
  inv_gen : 0 <= gen (level m) <= n;
  inv_armed : forall t g d, armed m !! t = Some (g, d) -> g <= gen (level m) /\ (t < next_timer m)%nat /\
    (g = gen (level m) -> expires (level m) = Some d \/ (expires (level m) = None /\ lv (level m) = base (level m)));
  inv_fired : forall g d, (g, d) ∈ fired m -> g <= gen (level m) /\ d <= clock m /\
    (g = gen (level m) -> expires (level m) = Some d \/ (expires (level m) = None /\ lv (level m) = base (level m)));
  inv_pending : forall d, expires (level m) = Some d ->
    (exists t, armed m !! t = Some (gen (level m), d)) \/ (gen (level m), d) ∈ fired m
}.

Lemma level_inv_init (b now : Z) : inv 0 (init b now).
Proof. split; cbn; try done; set_solver. Qed.

Lemma level_inv_Set (n now l ttl : Z) (m : machine) :
  inv n m -> n + 1 < 2 ^ 64 -> clock m <= now -> inv (n + 1) (Set_ now l ttl m).1.
Proof.
  intros [Hg Ha Hf Hp] Hn Hc.
  assert (Hw : Go.wrapu64 (gen (level m) + 1) = gen (level m) + 1)
    by (apply Go.wrapu64_id; unfold Go.uint64_max; lia).
  unfold Set_. rewrite Hw. set (st := match timer (level m) with Some t => _ | None => _ end).
  assert (Hst : forall t g d, st !! t = Some (g, d) -> g <= gen (level m) /\ (t < next_timer m)%nat).
  { intros t g d H. destruct (Ha t g d) as (? & ? & _); [|done]. subst st.
    destruct (timer (level m)); [by apply lookup_delete_Some in H as [_ H]|done]. }
  destruct (0 <? ttl); cbn [fst]; split; cbn.
  - lia.
  - intros t g d [[<- [= <- <-]]|[_ H]]%lookup_insert_Some; [split_and!; [lia..|by left]|].
    apply Hst in H as [? ?]. split_and!; lia.
  - intros g d H. destruct (Hf g d H) as (? & ? & _). split_and!; lia.
  - intros d [= <-]. left. exists (next_timer m). by rewrite lookup_insert_eq.
  - lia.
  - intros t g d H. apply Hst in H as [? ?]. split_and!; lia.
  - intros g d H. destruct (Hf g d H) as (? & ? & _). split_and!; lia.
  - done.
Qed.

(** A callback of the present generation ends a pending change; any other does
    nothing. *)
Lemma revert_spec (m : machine) (n g d now : Z) :
  inv n m -> (g, d) ∈ fired m -> clock m <= now ->
  (revert g (level m) = level m /\ g <> gen (level m)) \/
  (g = gen (level m) /\ expires (revert g (level m)) = None /\ lv (revert g (level m)) = base (level m) /\
   base (revert g (level m)) = base (level m) /\ gen (revert g (level m)) = gen (level m) /\
   (expires (level m) = Some d /\ d <= now \/ expires (level m) = None /\ lv (level m) = base (level m))).
Proof.
  intros [_ _ Hf _] Hin Hc. unfold revert. destruct (Z.eqb_spec (gen (level m)) g) as [<-|Hne]; cbn; [right|left; done].
  destruct (Hf _ _ Hin) as (_ & Hd & He). specialize (He eq_refl).
  split_and!; try done. destruct He as [He|He]; [left; split; [done|lia]|by right].
Qed.

Lemma level_inv_step (n now : Z) (ev : event) (m m' : machine) :
  step now ev m = Some m' -> inv n m -> n + 1 < 2 ^ 64 -> inv (n + 1) m'.
Proof.
  unfold step. destruct (Z.ltb_spec now (clock m)) as [|Hc]; [done|]. intros Hs Hi Hn.
  destruct ev as [l ttl| |t|k].
  - injection Hs as <-. by apply level_inv_Set.
  - injection Hs as <-. exact (level_inv_Set n now (base (level m)) 0 m Hi Hn Hc).
  - apply bind_Some in Hs as ([g d] & Ht & Hs). destruct (Z.ltb_spec now d); [done|]. injection Hs as <-.
    destruct Hi as [Hg Ha Hf Hp]. destruct (Ha _ _ _ Ht) as (? & _ & He). split; cbn; [lia| | |].
    + intros t' g' d' [_ Ht']%lookup_delete_Some. eauto.
    + intros g' d' [[= -> ->]|Hin]%elem_of_cons; [done|]. destruct (Hf _ _ Hin) as (? & ? & ?). split_and!; auto with lia.
    + intros d' Hd. destruct (Hp _ Hd) as [[t' Ht']|Hin]; [|right; set_solver].
      destruct (decide (t' = t)) as [->|]; [right; rewrite Ht in Ht'; set_solver|].
      left. exists t'. by rewrite lookup_delete_ne.
  - apply bind_Some in Hs as ([g d] & Hk & Hs). injection Hs as <-.
    pose proof (list_elem_of_lookup_2 _ _ _ Hk) as Hin. pose proof (delete_Permutation _ _ _ Hk) as Hperm.
    assert (Hdel : forall x, x ∈ delete k (fired m) -> x ∈ fired m) by (intros x Hx; rewrite Hperm; set_solver).
    destruct (revert_spec _ _ _ _ _ Hi Hin Hc) as [[-> Hne]|(-> & He & Hl & Hb & Hgen & _)]; destruct Hi as [Hg Ha Hf Hp].
    + split; cbn; [lia|done| |].
      * intros g' d' Hin'. destruct (Hf _ _ (Hdel _ Hin')) as (? & ? & ?). split_and!; auto with lia.
      * intros d' Hd. destruct (Hp _ Hd) as [?|Hin']; [by left|right]. rewrite Hperm in Hin'.
        apply elem_of_cons in Hin' as [[= <- <-]|?]; done.
    + split; cbn; rewrite ?Hgen, ?He; [lia| | |done].
      * intros t' g' d' Ht'. destruct (Ha _ _ _ Ht') as (? & ? & _). split_and!; [done..|]. intros _. right. by rewrite Hb.
      * intros g' d' Hin'. destruct (Hf _ _ (Hdel _ Hin')) as (? & ? & _). split_and!; [lia..|]. intros _. right. by rewrite Hb.
Qed.

Lemma level_inv_run (evs : list (Z * event)) (n : Z) (m m' : machine) :
  run evs m = Some m' -> inv n m -> n + Z.of_nat (length evs) < 2 ^ 64 -> inv (n + Z.of_nat (length evs)) m'.
Proof.
  revert n m. induction evs as [|[now ev] evs IH]; intros n m Hr Hi Hn; cbn in Hr.
  - injection Hr as <-. by rewrite Z.add_0_r.
  - apply bind_Some in Hr as (m1 & H1 & Hr). cbn [length] in *. apply (level_inv_step n) in H1; [|done|lia].
    apply (IH (n + 1)) in Hr; [|done|lia]. by replace (n + Z.of_nat (S (length evs))) with (n + 1 + Z.of_nat (length evs)) by lia.
Qed.

Lemma parse_levelString (l : Z) :
  l ∈ [LevelDebug; LevelInfo; LevelWarn; LevelError] -> parseLevelStrict (levelString l) = Some l.
Proof. rewrite !elem_of_cons, elem_of_nil. intros [->|[->|[->|[->|[]]]]]; reflexivity. Qed.

Lemma parse_standard (s : string) (l : Z) :
  parseLevelStrict s = Some l -> l ∈ [LevelDebug; LevelInfo; LevelWarn; LevelError] /\ parseLevel s = l.
Proof.
  unfold parseLevelStrict, parseLevel. intros H. split.
  - repeat case_match; simplify_eq; set_solver.
  - destruct (String.eqb _ "debug"); [by injection H|]. destruct (String.eqb _ "info") eqn:Hi; [|repeat case_match; by simplify_eq].
    injection H as <-. apply String.eqb_eq in Hi as ->. done.
Qed.

(** ** Theorems *)

(** C21: the level refines its contract, a level with the expiry of its last change,
    over every interleaving of changes, timers and late callbacks (fewer than 2^64
    of them): each step is the change asked for, the expiry of the last change and
    not before its time, or invisible. A stale timer never ends a newer change, and
    a pending expiry can always take place: from its time on, two steps of the
    runtime put the base level back. *)
Theorem level_refines_contract (b t0 : Z) (evs : list (Z * event)) (m : machine)
    (Hr : run evs (init b t0) = Some m) (Hlen : Z.of_nat (length evs) + 1 < 2 ^ 64) :
  base (level m) = b /\
  (forall now ev m', step now ev m = Some m' -> spec_step b now (abstract m) (change ev) (abstract m')) /\
  (forall now d, expires (level m) = Some d -> d <= now -> clock m <= now ->
     exists sched m', run sched m = Some m' /\ Forall (fun te => te.1 = now /\ change te.2 = None) sched /\
       abstract m' = {| s_level := b; s_expiry := None |}).
Proof.
  assert (Hb : base (level m) = b).
  { clear Hlen. change b with (base (level (init b t0))). revert Hr. generalize (init b t0).
    induction evs as [|[now ev] evs IH]; intros m0 Hr; cbn in Hr; [by injection Hr as <-|].
    apply bind_Some in Hr as (m1 & H1 & Hr). rewrite (IH _ Hr). clear -H1. unfold step in H1.
    destruct (_ <? _); [done|]. destruct ev as [l ttl| |t|k]; simplify_eq/=; unfold Set_.
    1,2: by repeat case_match.
    - apply bind_Some in H1 as ([g d] & _ & H1). destruct (_ <? _); by simplify_eq/=.
    - apply bind_Some in H1 as ([g d] & _ & H1). simplify_eq/=. unfold revert. by case_match. }
  assert (Hi : inv (Z.of_nat (length evs)) m) by (apply (level_inv_run evs 0) in Hr; [done|apply level_inv_init|lia]).
  split_and!; [done| |].
  - intros now ev m' Hs. unfold step in Hs. destruct (Z.ltb_spec now (clock m)) as [|Hc]; [done|].
    destruct ev as [l ttl| |t|k]; cbn [change].
    + assert (abstract m' = spec_set now l ttl) as ->; [|constructor].
      injection Hs as <-. unfold abstract, spec_set. by destruct (0 <? ttl).
    + injection Hs as <-. rewrite <- Hb. constructor.
    + apply bind_Some in Hs as ([g d] & _ & Hs). destruct (_ <? _); [done|]. injection Hs as <-. constructor.
    + apply bind_Some in Hs as ([g d] & Hk & Hs). injection Hs as <-.
      pose proof (list_elem_of_lookup_2 _ _ _ Hk) as Hin. unfold abstract. cbn.
      destruct (revert_spec _ _ _ _ _ Hi Hin Hc) as [[-> _]|(_ & -> & -> & _ & _ & [[He Hd]|[He Hl]])].
      * apply spec_stutter.
      * rewrite Hb. by apply spec_expire with d.
      * rewrite He, Hl. apply spec_stutter.
  - intros now d He Hd Hc. set (g := gen (level m)).
    assert (Hrev : forall k m1, fired m1 !! k = Some (g, d) -> level m1 = level m -> clock m1 <= now ->
              exists m2, step now (ERevert k) m1 = Some m2 /\ abstract m2 = {| s_level := b; s_expiry := None |}).
    { intros k m1 Hk Hl Hc1. unfold step. rewrite (proj2 (Z.ltb_ge _ _)) by done. rewrite Hk. cbn. eexists. split; [done|].
      unfold abstract, revert. cbn. rewrite Hl, Z.eqb_refl. cbn. by rewrite Hb. }
    destruct (inv_pending _ _ Hi _ He) as [[t Ht]|[k Hk]%list_elem_of_lookup].
    + set (m1 := {| level := level m; armed := delete t (armed m); fired := (g, d) :: fired m;
                    next_timer := next_timer m; clock := now |}).
      assert (H1 : step now (EFire t) m = Some m1).
      { unfold step. rewrite (proj2 (Z.ltb_ge _ _)) by done. rewrite Ht. cbn. by rewrite (proj2 (Z.ltb_ge _ _)) by done. }
      destruct (Hrev 0%nat m1) as (m2 & H2 & Ha); [done|done|cbn; lia|].
      exists [(now, EFire t); (now, ERevert 0)], m2. split_and!; [|by repeat constructor|done]. cbn [run]. rewrite H1. cbn [mbind option_bind]. by rewrite H2.
    + destruct (Hrev k m) as (m2 & H2 & Ha); [done|done|done|].
      exists [(now, ERevert k)], m2. split_and!; [|by repeat constructor|done]. cbn [run]. by rewrite H2.
Qed.

(** A change through the admin endpoint is always temporary: an accepted PUT
    sets the level it was asked for until a moment after now and at most the
    configured maximum away, and answers with a text that a PUT reads back as that
    level; a refused one (an unknown level, a ttl that is not a positive duration)
    changes nothing, and DELETE puts the base level back at once. *)
Theorem admin_change_is_temporary (LogLevelMaxTTL : Z) (ParseDuration : string -> option Z) (now : Z)
    (form_level form_ttl : string) (m : machine) (Hmax : 0 < LogLevelMaxTTL) :
  let '(m', a) := putLogLevel LogLevelMaxTTL ParseDuration now form_level form_ttl (Some m) in
  let bad := parseLevelStrict form_level = None \/
             (form_ttl <> ""%string /\ forall d, ParseDuration form_ttl = Some d -> d <= 0) in
  (answer_status a = 200 \/ answer_status a = 400) /\
  (answer_status a = 400 <-> bad) /\
  (bad -> m' = Some m) /\
  (~ bad -> exists l m1 d, m' = Some m1 /\ parseLevelStrict form_level = Some l /\ lv (level m1) = l /\
     expires (level m1) = Some d /\ now < d <= now + LogLevelMaxTTL /\
     a = Answered 200 (levelString l) (levelString (base (level m))) (levelString (lv (level m))) (Some d) LogLevelMaxTTL /\
     parseLevelStrict (levelString l) = Some l) /\
  (exists m1, (deleteLogLevel LogLevelMaxTTL now (Some m)).1 = Some m1 /\ Level m1 = (base (level m), None)).
Proof.
  unfold putLogLevel, deleteLogLevel.
  assert (Hdel : exists m1, (let '(l', previous) := Reset now m in
    (Some l', logLevelResponse LogLevelMaxTTL (levelString previous) l')).1 = Some m1 /\ Level m1 = (base (level m), None)).
  { eexists. split; [reflexivity|]. reflexivity. }
  destruct (parseLevelStrict form_level) as [l|] eqn:Hl; [|cbn; split_and!; try naive_solver].
  pose proof (parse_levelString l (proj1 (parse_standard _ _ Hl))) as Hrt.
  assert (Hok : forall ttl, 0 < ttl <= LogLevelMaxTTL -> exists m1 d, (Set_ now l ttl m) = (m1, lv (level m)) /\
     lv (level m1) = l /\ base (level m1) = base (level m) /\ expires (level m1) = Some d /\ now < d <= now + LogLevelMaxTTL).
  { intros ttl Ht. unfold Set_. rewrite (proj2 (Z.ltb_lt _ _)) by lia. eexists _, _. split_and!; try done; lia. }
  destruct (String.eqb_spec form_ttl "") as [->|Hne].
  - destruct (Hok LogLevelMaxTTL ltac:(lia)) as (m1 & d & Hs & H1 & H2 & H3 & H4). cbv zeta. rewrite Hs.
    unfold logLevelResponse, Level. rewrite H1, H2, H3. cbn [answer_status]. split_and!; naive_solver.
  - destruct (ParseDuration form_ttl) as [d|]; [destruct (Z.leb_spec d 0)|]; cbn beta iota.
    1,3: cbn [answer_status]; split_and!; naive_solver.
    destruct (Hok (Z.min d LogLevelMaxTTL) ltac:(lia)) as (m1 & d' & Hs & H1 & H2 & H3 & H4). cbv zeta. rewrite Hs.
    unfold logLevelResponse, Level. rewrite H1, H2, H3. cbn [answer_status].
    assert (~ (form_ttl <> ""%string /\ forall d0, Some d = Some d0 -> d0 <= 0))
      by (intros [_ Hx]; specialize (Hx d eq_refl); lia).
    split_and!; naive_solver.
Qed.

(** ** Witnesses *)

(** A change for five seconds, replaced by one for seven before it expires. *)
Definition demo_events : list (Z * event) := [(0, ESet LevelDebug 5); (1, ESet LevelWarn 7)].

Definition demo : machine :=
  {| level := {| lv := LevelWarn; base := LevelInfo; gen := 2; expires := Some 8; timer := Some 1%nat |};
     armed := {[1%nat := (2, 8)]}; fired := []; next_timer := 2; clock := 1 |}.

Lemma level_refines_contract_witness :
  exists sched m', run sched demo = Some m' /\ Forall (fun te => te.1 = 9 /\ change te.2 = None) sched /\
    abstract m' = {| s_level := LevelInfo; s_expiry := None |}.
Proof.
  refine (proj2 (proj2 (level_refines_contract LevelInfo 0 demo_events demo _ _)) 9 8 _ _ _);
    [vm_compute; reflexivity|cbn; lia|reflexivity|lia|cbn; lia].
Defined.

Lemma admin_change_is_temporary_witness :
  answer_status (putLogLevel 60 (fun _ => Some 30) 0 "Debug" "30ns" (Some demo)).2 = 200 \/
  answer_status (putLogLevel 60 (fun _ => Some 30) 0 "Debug" "30ns" (Some demo)).2 = 400.
Proof. exact (proj1 (admin_change_is_temporary 60 (fun _ => Some 30) 0 "Debug" "30ns" demo ltac:(lia))). Defined.

End LogLevel.
