(* ===== verification/RdClient.v ===== *)
(** What the librdkafka driver keeps about its clients (libs/kafka-rdkafka/client.go):
    the connectivity check's time limit, the folding of repeated log lines, and the
    statistics with their never-falling error counter. *)
From S2P Require Import Prelude KafkaConfig LogLevel.

(** * The connectivity check *)

Module RdPing.

Definition pingTimeout : Z := 10 * Go.second.

(** The timeout of the metadata request, in milliseconds; [None] when the context has
    ended. *)
Definition ping_ms (now : Z) (ctx_err : bool) (deadline : option Z) : option Z :=
  if ctx_err then None
  else
    let timeout := match deadline with Some dl => Z.min (Go.time_sub dl now) pingTimeout | None => pingTimeout end in
    Some (Z.max (Z.quot timeout Go.millisecond) 1).

(** The request never outlives ten seconds, nor the deadline by more than the
    millisecond it is given at least. *)
Lemma ping_bounded (now : Z) (deadline : option Z) (t : Z) :
  ping_ms now false deadline = Some t ->
  1 <= t <= 10000 /\ (forall dl, deadline = Some dl -> t * Go.millisecond <= Z.max (dl - now) Go.millisecond).
Proof.
  unfold ping_ms, pingTimeout, Go.time_sub, Go.int64_min, Go.int64_max, Go.millisecond, Go.second. intros [= <-].
  destruct deadline as [dl|]; split; try (intros ? [= <-]); try done.
  all: try (pose proof (Z.quot_le_mono (Z.min (Z.max (- 2 ^ 63) (Z.min (2 ^ 63 - 1) (dl - now))) (10 * 1000000000)) (10 * 1000000000) 1000000);
            change (Z.quot (10 * 1000000000) 1000000) with 10000 in *; lia).
  set (x := Z.min _ (10 * 1000000000)). assert (Hle : 0 <= x -> x <= dl - now) by (subst x; lia). clearbody x.
  destruct (Z.le_gt_cases 0 x) as [Hx|Hx].
  - pose proof (Z.mul_quot_le x 1000000). lia.
  - assert (Z.quot x 1000000 <= 0); [|lia]. pose proof (Z.quot_le_mono x 0 1000000) as Hq. change (Z.quot 0 1000000) with 0 in Hq. lia.
Qed.
End RdPing.

(** * Log lines *)

Module RdLogs.

Definition logFoldWindow : Z := Go.minute.

Record LogEvent := { Name : string; Tag : string; Message : string; Level : Z }.

Definition logLevel (ev : LogEvent) : Z :=
  if (Level ev <=? 3) && String.eqb (Tag ev) "FAIL" then LogLevel.LevelWarn
  else if Level ev <=? 3 then LogLevel.LevelError
  else if Level ev =? 4 then LogLevel.LevelWarn
  else if Level ev <=? 6 then LogLevel.LevelInfo
  else LogLevel.LevelDebug.

Record seen := { at_ : Z; suppressed : Z }.
Notation seen_map := (gmap string seen).

Record line := { l_level : Z; l_msg : string; l_role : string; l_facility : string; l_client : string; l_suppressed : option Z }.

Definition fold_key (ev : LogEvent) : string := Tag ev +:+ "|" +:+ Message ev.

(** One round of [pumpLogs]: the line written, if one is. *)
Definition pump_one (role : string) (now : Z) (ev : LogEvent) (last : seen_map) : seen_map * option line :=
  let key := fold_key ev in
  let write (count : option Z) :=
    let fresh := {| at_ := now; suppressed := 0 |} in
    let last := <[key := fresh]> last in
    (if (1000 <? size last)%nat then {[key := fresh]} else last,
     Some {| l_level := logLevel ev; l_msg := "librdkafka: " +:+ Message ev; l_role := role; l_facility := Tag ev;
             l_client := Name ev; l_suppressed := count |}) in
  match last !! key with
  | Some s =>
      if Go.time_sub now (at_ s) <? logFoldWindow
      then (<[key := {| at_ := at_ s; suppressed := suppressed s + 1 |}]> last, None)
      else write (if 0 <? suppressed s then Some (suppressed s) else None)
  | None => write None
  end.

Fixpoint pumpLogs (role : string) (logs : list (Z * LogEvent)) (last : seen_map) : seen_map * list (LogEvent * option line) :=
  match logs with
  | [] => (last, [])
  | (now, ev) :: logs =>
      let '(last, l) := pump_one role now ev last in
      let '(last, out) := pumpLogs role logs last in
      (last, (ev, l) :: out)
  end.

(** ** Accounting *)

(** How many events the lines written for a key stand for. *)
Definition weight (k : string) (x : LogEvent * option line) : Z :=
  if decide (fold_key x.1 = k) then match x.2 with Some l => 1 + default 0 (l_suppressed l) | None => 0 end else 0.
Definition accounted (k : string) (out : list (LogEvent * option line)) : Z := zsum (weight k) out.
Definition arrived (k : string) (logs : list (Z * LogEvent)) : Z := zsum (fun x => if decide (fold_key x.2 = k) then 1 else 0) logs.
Definition outstanding (k : string) (last : seen_map) : Z := match last !! k with Some s => suppressed s | None => 0 end.

Definition counts_ok (last : seen_map) : Prop := (forall k s, last !! k = Some s -> 0 <= suppressed s) /\ (size last <= 1000)%nat.

Lemma outstanding_nonneg (last : seen_map) (k : string) : counts_ok last -> 0 <= outstanding k last.
Proof. intros [H _]. unfold outstanding. destruct (last !! k) eqn:E; [by eapply H|done]. Qed.

Lemma outstanding_insert (last : seen_map) (k j : string) (s : seen) :
  outstanding k (<[j := s]> last) = if decide (j = k) then suppressed s else outstanding k last.
Proof.
  unfold outstanding. destruct (decide (j = k)) as [->|Hn]; [by rewrite lookup_insert_eq|by rewrite lookup_insert_ne].
Qed.

(** A round against a key: what is counted after it is never more than what was
    counted and arrived, and exactly that while the map is within its limit. *)
Definition round_ok (k : string) (ev : LogEvent) (l : option line) (last last' : seen_map) : Prop :=
  counts_ok last' /\ dom last' ⊆ {[fold_key ev]} ∪ dom last /\
  outstanding k last' + weight k (ev, l) <= outstanding k last + (if decide (fold_key ev = k) then 1 else 0) /\
  ((size ({[fold_key ev]} ∪ dom last : gset string) <= 1000)%nat ->
   outstanding k last' + weight k (ev, l) = outstanding k last + (if decide (fold_key ev = k) then 1 else 0)).

Lemma write_counts (k : string) (ev : LogEvent) (now : Z) (l : line) (last : seen_map) :
  counts_ok last -> default 0 (l_suppressed l) = outstanding (fold_key ev) last ->
  let fresh := {| at_ := now; suppressed := 0 |} in
  round_ok k ev (Some l) last
    (if (1000 <? size (<[fold_key ev := fresh]> last))%nat then {[fold_key ev := fresh]} else <[fold_key ev := fresh]> last).
Proof.
  intros Hok Hc fresh. pose proof Hok as [Hnn Hsz]. pose proof (outstanding_nonneg last k Hok) as Hk.
  unfold round_ok, weight; cbn [fst snd].
  destruct (Nat.ltb_spec 1000 (size (<[fold_key ev := fresh]> last))) as [Hbig|Hsmall].
  - split_and!; [split|set_solver| |].
    + intros j s [<- <-]%lookup_singleton_Some. done.
    + rewrite map_size_singleton. lia.
    + unfold outstanding at 1. destruct (decide (fold_key ev = k)) as [<-|Hn];
        [rewrite lookup_singleton_eq|rewrite lookup_singleton_ne by done]; cbn; lia.
    + intros Hd. rewrite <- dom_insert_L with (x := fresh), size_dom in Hd. lia.
  - rewrite outstanding_insert. split_and!; [split|set_solver| |].
    + intros j s [[<- <-]|[_ Hj]]%lookup_insert_Some; [done|by eapply Hnn].
    + lia.
    + destruct (decide (fold_key ev = k)) as [<-|]; cbn; lia.
    + intros _. destruct (decide (fold_key ev = k)) as [<-|]; cbn; lia.
Qed.

Lemma pump_one_counts (role : string) (now : Z) (ev : LogEvent) (last last' : seen_map) (l : option line) (k : string) :
  pump_one role now ev last = (last', l) -> counts_ok last -> round_ok k ev l last last'.
Proof.
  intros Hp Hok. pose proof Hok as [Hnn Hsz].
  unfold pump_one in Hp. destruct (last !! fold_key ev) as [s|] eqn:Hs.
  - pose proof (Hnn _ _ Hs) as Hs0. destruct (_ <? logFoldWindow); injection Hp as <- <-.
    + unfold round_ok. rewrite outstanding_insert. split_and!; [split|set_solver|..].
      * intros j x [[<- <-]|[_ Hj]]%lookup_insert_Some; [cbn; lia|by eapply Hnn].
      * rewrite map_size_insert_Some; [done|by eexists].
      * unfold weight, outstanding; cbn. destruct (decide _) as [<-|]; rewrite ?Hs; lia.
      * intros _. unfold weight, outstanding; cbn. destruct (decide _) as [<-|]; rewrite ?Hs; lia.
    + apply write_counts; [done|]. unfold outstanding. rewrite Hs. destruct (Z.ltb_spec 0 (suppressed s)); cbn; lia.
  - injection Hp as <- <-. apply write_counts; [done|]. unfold outstanding. by rewrite Hs.
Qed.

Lemma pumpLogs_counts (role : string) (logs : list (Z * LogEvent)) (last last' : seen_map)
    (out : list (LogEvent * option line)) (k : string) (names : gset string) :
  pumpLogs role logs last = (last', out) -> counts_ok last ->
  counts_ok last' /\
  accounted k out + outstanding k last' <= outstanding k last + arrived k logs /\
  (dom last ⊆ names -> (forall x, x ∈ logs -> fold_key x.2 ∈ names) -> (size names <= 1000)%nat ->
   accounted k out + outstanding k last' = outstanding k last + arrived k logs).
Proof.
  revert last out. induction logs as [|[now ev] logs IH]; intros last out Hp Hok; cbn [pumpLogs] in Hp.
  { injection Hp as <- <-. unfold accounted, arrived. cbn. split_and!; [done|lia|lia]. }
  destruct (pump_one role now ev last) as [last1 l] eqn:H1. destruct (pumpLogs role logs last1) as [last2 out1] eqn:H2.
  injection Hp as -> <-. apply (pump_one_counts _ _ _ _ _ _ k) in H1 as (Hok1 & Hdom & Hle & Heq); [|done].
  destruct (IH _ _ H2 Hok1) as (Hok2 & Hle2 & Heq2). unfold accounted, arrived in *. rewrite !zsum_cons. cbn [snd].
  split_and!; [done|lia|]. intros Hd Hall Hsz.
  assert (Hev : fold_key ev ∈ names) by (apply (Hall (now, ev)); set_solver).
  rewrite <- Z.add_assoc, Heq2; [|set_solver..|done].
  assert (Hs : (size ({[fold_key ev]} ∪ dom last : gset string) <= size names)%nat) by (apply subseteq_size; set_solver).
  specialize (Heq ltac:(lia)). lia.
Qed.

(** ** Theorems *)

(** Folding loses no count: as long as at most a thousand different lines are
    seen, every log event of a client is written, counted on a later line written for
    the same text, or still held as a count; the map is never over a thousand lines,
    and with more different ones at most counts are lost, none made up. *)
Theorem log_folding_accounted (role : string) (logs : list (Z * LogEvent)) (last : seen_map)
    (out : list (LogEvent * option line)) (H : pumpLogs role logs ∅ = (last, out)) :
  (size last <= 1000)%nat /\
  (forall k, accounted k out + outstanding k last <= arrived k logs) /\
  ((size (list_to_set ((fun x => fold_key x.2) <$> logs) : gset string) <= 1000)%nat ->
   forall k, accounted k out + outstanding k last = arrived k logs).
Proof.
  assert (Hok : counts_ok ∅) by (split; [intros k s Hs; by rewrite lookup_empty in Hs|rewrite map_size_empty; lia]).
  pose proof (fun k => pumpLogs_counts _ _ _ _ _ k (list_to_set ((fun x => fold_key x.2) <$> logs)) H Hok) as Hk.
  split_and!.
  - by destruct (Hk "") as ([_ ?] & _).
  - intros k. destruct (Hk k) as (_ & ? & _). unfold outstanding in *. rewrite lookup_empty in *. lia.
  - intros Hsz k. destruct (Hk k) as (_ & _ & Heq). rewrite Heq; [unfold outstanding; by rewrite lookup_empty|set_solver| |done].
    intros x Hx. apply elem_of_list_to_set, list_elem_of_fmap. eauto.
Qed.

Definition refused_line (msg : string) : LogEvent := {| Name := "c"; Tag := "FAIL"; Message := msg; Level := 3 |}.
Definition demo_logs : list (Z * LogEvent) :=
  [(0, refused_line "refused"); (Go.second, refused_line "refused"); (2 * Go.second, refused_line "refused");
   (61 * Go.second, refused_line "refused"); (62 * Go.second, refused_line "refused")].
Definition demo_pumped : seen_map * list (LogEvent * option line) := Eval vm_compute in pumpLogs "producer" demo_logs ∅.

(** A broker that is away: one warning, then one that counts the two held back. *)
Lemma log_folding_accounted_witness :
  pumpLogs "producer" demo_logs ∅ = demo_pumped /\
  accounted "FAIL|refused" demo_pumped.2 + outstanding "FAIL|refused" demo_pumped.1 = 5 /\
  omap (fun x => l_suppressed <$> x.2) demo_pumped.2 = [None; Some 2].
Proof.
  split; [vm_compute; reflexivity|]. split; [|vm_compute; reflexivity].
  refine (proj2 (proj2 (log_folding_accounted "producer" demo_logs demo_pumped.1 demo_pumped.2 _)) _ "FAIL|refused");
    [vm_compute; reflexivity|].
  apply Nat.leb_le. vm_compute. reflexivity.
Defined.

End RdLogs.

(** * Statistics *)

Module RdStats.

(** One broker of the statistics event, as decoded. *)
Record broker := { NodeID : Z; State : string; ReqTimeouts : Z; TxErrs : Z; RxErrs : Z }.
Record rdStats := { MsgSize : Z; MsgSizeMax : Z; Brokers : gmap string broker }.

Record statsSnapshot := {
  at_ : option Z;                  (* None: the zero time *)
  brokersUp : Z;
  brokerErrors : gmap string Z;
  requestErrors : Z;
  queueBytes : Z;
  queueMaxBytes : Z
}.

Definition zero_snapshot : statsSnapshot :=
  {| at_ := None; brokersUp := 0; brokerErrors := ∅; requestErrors := 0; queueBytes := 0; queueMaxBytes := 0 |}.

(** A negative node id is a bootstrap or coordinator entry, not a broker. *)
Definition real (b : broker) : bool := negb (NodeID b <? 0).

Definition broker_errors (b : broker) : Z := Go.wrap64 (Go.wrap64 (ReqTimeouts b + TxErrs b) + RxErrs b).

(** [raw]: the event decoded, [None] when it is not the JSON expected. *)
Definition parseStats (now : Z) (raw : option rdStats) : option statsSnapshot :=
  s ← raw;
  let reals := filter (fun kv => real kv.2 = true) (Brokers s) in
  Some {| at_ := Some now;
          brokersUp := zsum (fun kv => if String.eqb (State kv.2) "UP" then 1 else 0) (map_to_list reals);
          brokerErrors := broker_errors <$> reals;
          requestErrors := 0;
          queueBytes := MsgSize s; queueMaxBytes := MsgSizeMax s |}.

Record statsHolder := { snap : statsSnapshot; seen : gmap string Z; total : Z }.

Definition new_holder : statsHolder := {| snap := zero_snapshot; seen := ∅; total := 0 |}.

(** One broker of the loop in [update]. *)
Definition count_broker (kv : string * Z) (s : gmap string Z * Z) : gmap string Z * Z :=
  let prev := default 0 (s.1 !! kv.1) in
  (<[kv.1 := kv.2]> s.1, Go.wrap64 (s.2 + (if prev <=? kv.2 then Go.wrap64 (kv.2 - prev) else kv.2))).

Definition update (now : Z) (raw : option rdStats) (h : statsHolder) : statsHolder :=
  match parseStats now raw with
  | None => h
  | Some s =>
      let '(seen', total') := foldr count_broker (seen h, total h) (map_to_list (brokerErrors s)) in
      {| snap := {| at_ := at_ s; brokersUp := brokersUp s; brokerErrors := brokerErrors s; requestErrors := total';
                    queueBytes := queueBytes s; queueMaxBytes := queueMaxBytes s |};
         seen := seen'; total := total' |}
  end.

Definition latest (now maxAge : Z) (h : statsHolder) : option statsSnapshot :=
  match at_ (snap h) with
  | None => None
  | Some t => if maxAge <? Go.time_sub now t then None else Some (snap h)
  end.

Definition statsMaxAge (cfg : KafkaConfig.Config) : Z :=
  Z.max (Go.wrap64 (Go.wrap64 (3 * KafkaConfig.StatisticsInterval cfg) * Go.millisecond)) Go.minute.

(** [kafka.ClientStats]; [None] is the zero value, whose [Valid] is false. *)
Record ClientStats := { BrokersUp : Z; RequestErrors : Z; QueueBytes : Z; QueueMaxBytes : Z }.

Definition clientStats (now : Z) (cfg : KafkaConfig.Config) (h : statsHolder) : option ClientStats :=
  s ← latest now (statsMaxAge cfg) h;
  Some {| BrokersUp := brokersUp s; RequestErrors := requestErrors s; QueueBytes := queueBytes s; QueueMaxBytes := queueMaxBytes s |}.

(** ** The total against what each broker reported *)

(** How much a count grew, starting over from zero where it fell. *)
Fixpoint rises (prev : Z) (counts : list Z) : Z :=
  match counts with
  | [] => 0
  | n :: counts => (if prev <=? n then n - prev else n) + rises n counts
  end.

(** The counts of one broker among the events, those that were not JSON left out. *)
Definition reported (name : string) (events : list (Z * option rdStats)) : list Z :=
  omap (fun '(now, raw) => s ← parseStats now raw; brokerErrors s !! name) events.

Definition updates (events : list (Z * option rdStats)) (h : statsHolder) : statsHolder :=
  foldl (fun h '(now, raw) => update now raw h) h events.

Lemma wrap64_add_l (a b : Z) : Go.wrap64 (Go.wrap64 a + b) = Go.wrap64 (a + b).
Proof.
  unfold Go.wrap64. f_equal. replace ((a + 2 ^ 63) mod 2 ^ 64 - 2 ^ 63 + b + 2 ^ 63) with ((a + 2 ^ 63) mod 2 ^ 64 + b) by lia.
  rewrite Zplus_mod_idemp_l. f_equal. lia.
Qed.
Lemma wrap64_add_r (a b : Z) : Go.wrap64 (a + Go.wrap64 b) = Go.wrap64 (a + b).
Proof. by rewrite Z.add_comm, wrap64_add_l, Z.add_comm. Qed.

Definition rise (prev n : Z) : Z := if prev <=? n then n - prev else n.

(** The loop over distinct brokers, in any order. *)
Lemma count_brokers (l : list (string * Z)) (sn : gmap string Z) (t : Z) :
  NoDup l.*1 ->
  foldr count_broker (sn, Go.wrap64 t) l =
  (list_to_map l ∪ sn, Go.wrap64 (t + zsum (fun kv => rise (default 0 (sn !! kv.1)) kv.2) l)).
Proof.
  induction l as [|[k n] l IH]; cbn [fmap list_fmap]; intros Hnd.
  { cbn. by rewrite (left_id_L ∅ (∪)), Z.add_0_r. }
  apply NoDup_cons in Hnd as [Hk Hnd]. cbn [foldr]. rewrite IH by done. unfold count_broker. cbn [fst snd].
  rewrite lookup_union_r by (by apply not_elem_of_list_to_map_1). f_equal; [by rewrite insert_union_l|].
  rewrite zsum_cons. cbn [fst snd]. unfold rise. destruct (_ <=? n); rewrite ?wrap64_add_r, wrap64_add_l; f_equal; lia.
Qed.
Lemma zsum_Permutation {A} (f : A -> Z) (l k : list A) : l ≡ₚ k -> zsum f l = zsum f k.
Proof. induction 1; rewrite ?zsum_cons in *; lia. Qed.

Lemma zsum_fmap {A B} (g : A -> B) (f : B -> Z) (l : list A) : zsum f (g <$> l) = zsum (fun x => f (g x)) l.
Proof. induction l as [|x l IH]; [done|]. cbn [fmap list_fmap]. by rewrite !zsum_cons, <- IH. Qed.

(** A sum over a map's entries, over any list of keys that has them all. *)
Lemma zsum_names (f : string -> Z -> Z) (m : gmap string Z) (names : list string) :
  NoDup names -> (forall k, k ∈ dom m -> k ∈ names) ->
  zsum (fun kv => f kv.1 kv.2) (map_to_list m) = zsum (fun k => match m !! k with Some n => f k n | None => 0 end) names.
Proof.
  intros Hnd Hin. assert (Hsub : (map_to_list m).*1 ⊆+ names).
  { apply NoDup_submseteq; [apply NoDup_fst_map_to_list|]. intros k ([k' n] & -> & Hk%elem_of_map_to_list)%list_elem_of_fmap.
    apply Hin, elem_of_dom. by eexists. }
  apply submseteq_Permutation in Hsub as (rest & Hp). rewrite (zsum_Permutation _ _ _ Hp), zsum_app, zsum_fmap.
  rewrite (zsum_ext _ (fun _ => 0) rest), zsum_zero.
  - rewrite Z.add_0_r. apply zsum_ext. intros [k n] Hk%elem_of_map_to_list. cbn. by rewrite Hk.
  - intros k Hk. destruct (m !! k) as [n|] eqn:Hm; [|done]. exfalso. rewrite Hp in Hnd.
    apply NoDup_app in Hnd as (_ & Hd & _). apply (Hd k); [|done].
    apply list_elem_of_fmap. exists (k, n). split; [done|]. by apply elem_of_map_to_list.
Qed.

Lemma update_total (now : Z) (raw : option rdStats) (s : statsSnapshot) (h : statsHolder) (t : Z) (names : list string) :
  parseStats now raw = Some s -> total h = Go.wrap64 t -> NoDup names -> (forall k, k ∈ dom (brokerErrors s) -> k ∈ names) ->
  seen (update now raw h) = brokerErrors s ∪ seen h /\
  total (update now raw h) = Go.wrap64 (t + zsum (fun k => match brokerErrors s !! k with
    | Some n => rise (default 0 (seen h !! k)) n | None => 0 end) names).
Proof.
  intros Hp Ht Hnd Hin. unfold update. rewrite Hp, Ht. rewrite count_brokers by apply NoDup_fst_map_to_list.
  rewrite list_to_map_to_list. cbn [seen total]. split; [done|]. f_equal. f_equal.
  by apply (zsum_names (fun k n => rise (default 0 (seen h !! k)) n)).
Qed.

Lemma updates_total (events : list (Z * option rdStats)) (h : statsHolder) (t : Z) (names : list string) :
  total h = Go.wrap64 t -> NoDup names ->
  (forall now raw s k, (now, raw) ∈ events -> parseStats now raw = Some s -> k ∈ dom (brokerErrors s) -> k ∈ names) ->
  total (updates events h) = Go.wrap64 (t + zsum (fun k => rises (default 0 (seen h !! k)) (reported k events)) names).
Proof.
  revert h t. induction events as [|[now raw] events IH]; intros h t Ht Hnd Hin.
  { cbn. rewrite Ht, zsum_zero. f_equal. lia. }
  unfold updates. cbn [foldl]. fold (updates events (update now raw h)).
  destruct (parseStats now raw) as [s|] eqn:Hp.
  - destruct (update_total now raw s h t names Hp Ht Hnd) as [Hseen Htot]; [intros k Hk; eapply Hin; [by left|done|done]|].
    rewrite (IH _ _ Htot Hnd) by (intros; eapply Hin; [by right|done|done]). rewrite <- Z.add_assoc, <- zsum_plus. f_equal. f_equal.
    apply zsum_ext. intros k _. rewrite Hseen. unfold reported. cbn. rewrite Hp. cbn.
    destruct (brokerErrors s !! k) as [n|] eqn:Hk.
    + cbn. by rewrite (lookup_union_Some_l _ _ _ _ Hk).
    + by rewrite lookup_union_r.
  - assert (Hu : update now raw h = h) by (unfold update; by rewrite Hp). rewrite Hu.
    rewrite (IH h t Ht Hnd) by (intros; eapply Hin; [by right|done|done]). f_equal. f_equal.
    apply zsum_ext. intros k _. unfold reported. cbn. by rewrite Hp.
Qed.

Lemma rises_nonneg (counts : list Z) (prev : Z) : Forall (fun n => 0 <= n) counts -> 0 <= rises prev counts.
Proof. intros H. revert prev. induction H as [|n l Hn _ IH]; intros prev; cbn; [done|]. specialize (IH n). destruct (Z.leb_spec prev n); lia. Qed.

Lemma rises_app_le (counts more : list Z) (prev : Z) :
  Forall (fun n => 0 <= n) more -> rises prev counts <= rises prev (counts ++ more).
Proof.
  intros H. revert prev. induction counts as [|n l IH]; intros prev; cbn; [by apply rises_nonneg|]. specialize (IH n). lia.
Qed.

Lemma zsum_le {A} (f g : A -> Z) (l : list A) : (forall x, x ∈ l -> f x <= g x) -> zsum f l <= zsum g l.
Proof.
  induction l as [|x l IH]; intros H; [done|]. rewrite !zsum_cons. pose proof (H x ltac:(set_solver)).
  specialize (IH ltac:(set_solver)). lia.
Qed.

(** The names and counts of some events: the brokers are among [names], and no count is
    negative. *)
Definition reports_over (names : list string) (events : list (Z * option rdStats)) : Prop :=
  NoDup names /\
  forall now raw s k n, (now, raw) ∈ events -> parseStats now raw = Some s -> brokerErrors s !! k = Some n -> k ∈ names /\ 0 <= n.

Lemma reported_nonneg (names : list string) (events : list (Z * option rdStats)) (k : string) :
  reports_over names events -> Forall (fun n => 0 <= n) (reported k events).
Proof.
  intros [_ H]. apply Forall_forall. intros n ([now raw] & Hin & Hn)%list_elem_of_omap.
  apply bind_Some in Hn as (s & Hp & Hk). by eapply H.
Qed.

Definition check_reports (names : list string) (events : list (Z * option rdStats)) : bool :=
  bool_decide (NoDup names) &&
  forallb (fun x => match parseStats x.1 x.2 with
    | Some s => forallb (fun kv => bool_decide (kv.1 ∈ names) && (0 <=? kv.2)) (map_to_list (brokerErrors s))
    | None => true
    end) events.

Lemma reports_over_check (names : list string) (events : list (Z * option rdStats)) :
  check_reports names events = true -> reports_over names events.
Proof.
  intros [Hnd%bool_decide_eq_true Hall]%andb_prop. split; [done|]. intros now raw s k n Hin Hp Hk.
  rewrite forallb_forall in Hall. apply list_elem_of_In in Hin. specialize (Hall _ Hin). cbn [fst snd] in Hall. rewrite Hp in Hall.
  rewrite forallb_forall in Hall. apply elem_of_map_to_list, list_elem_of_In in Hk. specialize (Hall _ Hk).
  by apply andb_prop in Hall as [?%bool_decide_eq_true ?%Z.leb_le].
Qed.

(** ** Theorems *)

(** The request errors reported are the sum, over the brokers, of how much each
    one's own count grew, whatever the order the brokers come in, across brokers that
    vanish and return and handles that start over from zero: a total that fits in 64
    bits is exact and never falls from one event to a later one. *)
Theorem request_errors_counter (names : list string) (events more : list (Z * option rdStats))
    (Hover : reports_over names (events ++ more))
    (Hfit : zsum (fun k => rises 0 (reported k (events ++ more))) names <= Go.int64_max) :
  total (updates events new_holder) = zsum (fun k => rises 0 (reported k events)) names /\
  total (updates events new_holder) <= total (updates (events ++ more) new_holder).
Proof.
  assert (Hdom : forall evs : list (Z * option rdStats), (forall x, x ∈ evs -> x ∈ events ++ more) -> forall now raw s k,
    (now, raw) ∈ evs -> parseStats now raw = Some s -> k ∈ dom (brokerErrors s) -> k ∈ names).
  { intros evs Hsub now raw s k Hin Hp [n Hn]%elem_of_dom. by eapply (proj2 Hover); [apply Hsub| |]. }
  assert (Hpart : forall k, reported k (events ++ more) = reported k events ++ reported k more) by (intros k; apply omap_app).
  assert (Hmore : forall k, Forall (fun n => 0 <= n) (reported k events ++ reported k more))
    by (intros k; rewrite <- Hpart; by eapply reported_nonneg).
  assert (Hle : zsum (fun k => rises 0 (reported k events)) names <= zsum (fun k => rises 0 (reported k (events ++ more))) names).
  { apply zsum_le. intros k _. rewrite Hpart. apply rises_app_le. specialize (Hmore k). by apply Forall_app in Hmore as [_ ?]. }
  assert (H0 : 0 <= zsum (fun k => rises 0 (reported k events)) names).
  { apply zsum_nonneg. intros k _. apply rises_nonneg. specialize (Hmore k). by apply Forall_app in Hmore as [? _]. }
  assert (Hexact : forall evs : list (Z * option rdStats), (forall x, x ∈ evs -> x ∈ events ++ more) ->
    0 <= zsum (fun k => rises 0 (reported k evs)) names <= Go.int64_max ->
    total (updates evs new_holder) = zsum (fun k => rises 0 (reported k evs)) names).
  { intros evs Hsub Hr. rewrite (updates_total evs new_holder 0 names eq_refl (proj1 Hover) (Hdom evs Hsub)).
    rewrite Z.add_0_l. erewrite zsum_ext by (intros k _; cbn [new_holder seen]; rewrite lookup_empty; reflexivity).
    apply Go.wrap64_id. unfold Go.in_int64, Go.int64_min in *. lia. }
  rewrite (Hexact events) by (set_solver || lia). rewrite (Hexact (events ++ more)) by (done || lia). done.
Qed.

(** What is reported of a client is never older than three of its periods, or a
    minute; and it is what the last event that could be read said. *)
Lemma stale_stats_hidden (now : Z) (cfg : KafkaConfig.Config) (h : statsHolder) (c : ClientStats) :
  clientStats now cfg h = Some c ->
  exists t, at_ (snap h) = Some t /\ Go.time_sub now t <= statsMaxAge cfg /\ RequestErrors c = requestErrors (snap h).
Proof.
  unfold clientStats, latest. destruct (at_ (snap h)) as [t|]; [|done]. destruct (Z.ltb_spec (statsMaxAge cfg) (Go.time_sub now t)); [done|].
  intros [= <-]. eauto.
Qed.

Definition broker_with (errs : Z) : broker := {| NodeID := 1; State := "UP"; ReqTimeouts := errs; TxErrs := 0; RxErrs := 0 |}.
Definition stats_event (bs : list (string * broker)) : option rdStats := Some {| MsgSize := 0; MsgSizeMax := 0; Brokers := list_to_map bs |}.

(** A handle that started over, and a broker away for one event. *)
Definition demo_stats : list (Z * option rdStats) :=
  [(1, stats_event [("b1", broker_with 5); ("b2", broker_with 2)]); (2, stats_event [("b1", broker_with 3)]); (3, None);
   (4, stats_event [("b1", broker_with 4); ("b2", broker_with 2)])].

Lemma request_errors_counter_witness :
  total (updates demo_stats new_holder) = 11.
Proof.
  change 11 with (zsum (fun k => rises 0 (reported k demo_stats)) ["b1"; "b2"]).
  refine (proj1 (request_errors_counter ["b1"; "b2"] demo_stats [] _ _)); [|vm_compute; discriminate].
  apply reports_over_check. vm_compute. reflexivity.
Defined.

End RdStats.
