(* ===== verification/Sampling.v ===== *)
(** The sampling of log records (libs/httpx/sampling.go): per slot and window the
    first records pass, then every so-many-th. *)
From S2P Require Import Prelude GoStr LogLevel.

Module Sampling.

Definition samplingSlots : Z := 4096.

(** [hash/fnv], 64 bits, 1a. *)
Definition fnv_offset : Z := 14695981039346656037.
Definition fnv_prime : Z := 1099511628211.
Definition fnv64a (p : list Z) : Z := foldl (fun h b => Go.wrapu64 (Z.lxor h b * fnv_prime)) fnv_offset p.

Record sampleCounter := { resetAt : Z; n : Z }.

(** [sampleCounter.inc]; each call is one step, under the counter's mutex. *)
Definition inc (now tick : Z) (c : sampleCounter) : sampleCounter * Z :=
  let c1 := if resetAt c <=? now then {| resetAt := Go.wrap64 (now + tick); n := 0 |} else c in
  let n' := Go.wrapu64 (n c1 + 1) in
  ({| resetAt := resetAt c1; n := n' |}, n').

(** A [slog.Record]: its level, message, [r.Time.UnixNano()] and attributes, and
    whether its context is marked for debugging. *)
Record record := { Level : Z; Message : string; Nano : Z; debug : bool }.

Record samplingHandler := {
  initial : Z;
  thereafter : Z;
  tick : Z;
  counters : gmap Z sampleCounter;
  dropped_debug : Z;
  dropped_info : Z
}.

Definition newSamplingHandler (initial thereafter tick : Z) : samplingHandler :=
  {| initial := Go.wrapu64 initial;
     thereafter := Go.wrapu64 (if thereafter <=? 0 then 100 else thereafter);
     tick := if tick <=? 0 then Go.second else tick;
     counters := ∅; dropped_debug := 0; dropped_info := 0 |}.

Definition slot (r : record) : Z :=
  Z.lxor (fnv64a (GoStr.bytes (Message r))) (Go.wrapu64 (Go.wrap64 (Level r + 128))) mod samplingSlots.

Definition counter (h : samplingHandler) (i : Z) : sampleCounter :=
  default {| resetAt := 0; n := 0 |} (counters h !! i).

(** Whether the [k]-th record of a window passes. *)
Definition passes (h : samplingHandler) (k : Z) : bool :=
  (k <=? initial h) || (Go.wrapu64 (k - initial h) mod thereafter h =? 0).

(** [Handle]: the handler after the record, and whether the record goes on to the
    next handler; [clock] is [time.Now().UnixNano()]. *)
Definition Handle (clock : Z) (h : samplingHandler) (r : record) : samplingHandler * bool :=
  if (LogLevel.LevelWarn <=? Level r) || debug r then (h, true)
  else
    let i := slot r in
    let now := if Nano r =? 0 then clock else Nano r in
    let '(c, k) := inc now (tick h) (counter h i) in
    let cs := <[i := c]> (counters h) in
    if passes h k
    then ({| initial := initial h; thereafter := thereafter h; tick := tick h; counters := cs;
             dropped_debug := dropped_debug h; dropped_info := dropped_info h |}, true)
    else if LogLevel.LevelInfo <=? Level r
    then ({| initial := initial h; thereafter := thereafter h; tick := tick h; counters := cs;
             dropped_debug := dropped_debug h; dropped_info := Go.wrapu64 (dropped_info h + 1) |}, false)
    else ({| initial := initial h; thereafter := thereafter h; tick := tick h; counters := cs;
             dropped_debug := Go.wrapu64 (dropped_debug h + 1); dropped_info := dropped_info h |}, false).

Definition Dropped (h : samplingHandler) : Z * Z := (dropped_debug h, dropped_info h).

(** Records one after another, with the clock of each. *)
Fixpoint handle_all (h : samplingHandler) (rs : list (Z * record)) : samplingHandler * list bool :=
  match rs with
  | [] => (h, [])
  | (clock, r) :: rs =>
      let '(h1, b) := Handle clock h r in
      let '(h2, bs) := handle_all h1 rs in
      (h2, b :: bs)
  end.

(** How many of a list of answers are true. *)
Definition count (bs : list bool) : Z := zsum (fun b : bool => if b then 1 else 0) bs.

(** Reference: of [k] records in one window the first [i] pass and then every
    [t]-th. *)
Definition quota (i t k : Z) : Z := if k <=? i then k else i + (k - i) / t.

(** A record that is counted, in the window [from, until). *)
Definition sampled (r : record) : bool := negb ((LogLevel.LevelWarn <=? Level r) || debug r).

(** ** Lemmas *)

Lemma slot_range (r : record) : 0 <= slot r < samplingSlots.
Proof. apply Z.mod_pos_bound. done. Qed.

Lemma passed_cons (b : bool) (bs : list bool) : count (b :: bs) = (if b then 1 else 0) + count bs.
Proof. done. Qed.

Lemma Handle_settings (clock : Z) (h : samplingHandler) (r : record) :
  let h' := (Handle clock h r).1 in initial h' = initial h /\ thereafter h' = thereafter h /\ tick h' = tick h.
Proof. unfold Handle. destruct (_ || _); [done|]. destruct (inc _ _ _). repeat case_match; done. Qed.

(** One more record of a window: the quota grows by one exactly when it passes. *)
Lemma quota_step (i t k : Z) : 0 <= i -> 0 < t -> 0 <= k ->
  quota i t (k + 1) = quota i t k + (if (k + 1 <=? i) || ((k + 1 - i) mod t =? 0) then 1 else 0).
Proof.
  intros Hi Ht Hk. unfold quota.
  destruct (Z.leb_spec (k + 1) i), (Z.leb_spec k i); cbn [orb]; try lia.
  - replace (k - i) with 0 in * by lia. replace k with i by lia. replace (i + 1 - i) with 1 by lia.
    destruct (Z.eqb_spec (1 mod t) 0) as [Hz|Hz].
    + destruct (decide (t = 1)) as [->|]; [rewrite Z.div_1_r; lia|]. rewrite Z.mod_small in Hz by lia. lia.
    + destruct (decide (t = 1)) as [->|]; [rewrite Z.mod_1_r in Hz; lia|]. rewrite Z.div_small by lia. lia.
  - set (x := k - i). replace (k + 1 - i) with (x + 1) by lia.
    pose proof (Z.div_mod x t ltac:(lia)). pose proof (Z.div_mod (x + 1) t ltac:(lia)).
    pose proof (Z.mod_pos_bound x t Ht). pose proof (Z.mod_pos_bound (x + 1) t Ht).
    destruct (Z.eqb_spec ((x + 1) mod t) 0); nia.
Qed.

(** What a sampled record does to the handler. *)
Lemma Handle_sampled (clock : Z) (h : samplingHandler) (r : record) :
  sampled r = true -> Nano r <> 0 ->
  let '(h', b) := Handle clock h r in
  let '(c, k) := inc (Nano r) (tick h) (counter h (slot r)) in
  counters h' = <[slot r := c]> (counters h) /\ b = passes h k.
Proof.
  unfold sampled, Handle. intros Hs Hn. apply negb_true_iff in Hs. rewrite Hs.
  rewrite (proj2 (Z.eqb_neq _ _) Hn). destruct (inc _ _ _) as [c k].
  destruct (passes h k); [done|]. case_match. by case_match; simplify_eq/=.
Qed.

Lemma inc_inside (now tick : Z) (c : sampleCounter) :
  now < resetAt c -> 0 <= n c < Go.uint64_max -> inc now tick c = ({| resetAt := resetAt c; n := n c + 1 |}, n c + 1).
Proof.
  intros Hnow Hn. unfold inc. rewrite (proj2 (Z.leb_gt _ _)) by done. cbn.
  rewrite Go.wrapu64_id by lia. done.
Qed.

(** The window of one slot: all the records of a list fall into it. *)
Definition in_window (i until : Z) (r : record) : Prop :=
  sampled r = true /\ slot r = i /\ Nano r <> 0 /\ Nano r < until.

Lemma window_tail (i until : Z) (rs : list (Z * record)) (h : samplingHandler) :
  Forall (fun cr => in_window i until cr.2) rs ->
  resetAt (counter h i) = until -> 0 <= n (counter h i) ->
  n (counter h i) + Z.of_nat (length rs) <= Go.uint64_max ->
  0 <= initial h -> 0 < thereafter h ->
  let '(h', bs) := handle_all h rs in
  resetAt (counter h' i) = until /\ n (counter h' i) = n (counter h i) + Z.of_nat (length rs) /\
  quota (initial h) (thereafter h) (n (counter h i) + Z.of_nat (length rs)) =
    quota (initial h) (thereafter h) (n (counter h i)) + count bs.
Proof.
  intros Hall. revert h. induction Hall as [|[clock r] rs Hw Hall IH]; intros h Hr Hn Hlen Hini Hth;
    cbn [handle_all length] in *.
  - rewrite !Z.add_0_r. done.
  - destruct Hw as (Hs & Hi & Hz & Hu). cbn in Hs, Hi, Hz, Hu.
    pose proof (Handle_sampled clock h r Hs Hz) as Hh. pose proof (Handle_settings clock h r) as Hset.
    destruct (Handle clock h r) as [h1 b]. cbn in Hset. destruct Hset as (Hsi & Hst & _).
    rewrite Hi, inc_inside in Hh by lia. destruct Hh as [Hc ->].
    assert (Hc1 : counter h1 i = {| resetAt := until; n := n (counter h i) + 1 |}).
    { unfold counter at 1. rewrite Hc, lookup_insert_eq. cbn. by rewrite Hr. }
    specialize (IH h1). rewrite Hc1, Hsi, Hst in IH. cbn in IH. specialize (IH eq_refl ltac:(lia) ltac:(lia) Hini Hth).
    destruct (handle_all h1 rs) as [h2 bs]. destruct IH as (H1 & H2 & H3). split_and!; [done|lia|].
    rewrite passed_cons. replace (n (counter h i) + Z.of_nat (S (length rs))) with (n (counter h i) + 1 + Z.of_nat (length rs)) by lia.
    rewrite H3, quota_step by lia. unfold passes.
    destruct (Z.leb_spec (n (counter h i) + 1) (initial h)); cbn [orb]; [lia|].
    rewrite Go.wrapu64_id by lia. lia.
Qed.

(** ** Theorems *)

(** C34: sampling against its reference: of [k] debug and info records of one slot
    that fall into one window, exactly the quota passes (the first [initial], then
    every [thereafter]-th); the rest are counted as dropped; and a record at warn or
    above, or under a debugging context, always passes and costs no budget. *)
Theorem sampling_is_quota (clock : Z) (h : samplingHandler) (r : record) (rs : list (Z * record)) (until : Z)
    (Hini : 0 <= initial h) (Hth : 0 < thereafter h)
    (Hr : sampled r = true) (Hz : Nano r <> 0)
    (Hfresh : resetAt (counter h (slot r)) <= Nano r) (Huntil : Go.wrap64 (Nano r + tick h) = until)
    (Hin : Forall (fun cr => in_window (slot r) until cr.2) rs)
    (Hlen : Z.of_nat (length rs) < Go.uint64_max) :
  let '(h', bs) := handle_all h ((clock, r) :: rs) in
  count bs = quota (initial h) (thereafter h) (1 + Z.of_nat (length rs)) /\
  (forall c q, sampled q = false -> Handle c h' q = (h', true)).
Proof.
  pose proof (Handle_sampled clock h r Hr Hz) as Hh. pose proof (Handle_settings clock h r) as Hset.
  cbn [handle_all]. destruct (Handle clock h r) as [h1 b]. cbn in Hset. destruct Hset as (Hsi & Hst & _).
  unfold inc in Hh. rewrite (proj2 (Z.leb_le _ _)) in Hh by done. cbn [n resetAt] in Hh.
  change (Go.wrapu64 (0 + 1)) with 1 in Hh. destruct Hh as [Hc ->].
  assert (Hc1 : counter h1 (slot r) = {| resetAt := until; n := 1 |}).
  { unfold counter. rewrite Hc, lookup_insert_eq. cbn. by rewrite Huntil. }
  pose proof (window_tail (slot r) until rs h1 Hin) as Hw. rewrite Hc1, Hsi, Hst in Hw. cbn in Hw.
  specialize (Hw eq_refl ltac:(lia) ltac:(lia) Hini Hth). destruct (handle_all h1 rs) as [h2 bs].
  destruct Hw as (_ & _ & Hq). split.
  - pose proof (quota_step (initial h) (thereafter h) 0 Hini Hth ltac:(lia)) as H0. change (0 + 1) with 1 in H0.
    assert (H00 : quota (initial h) (thereafter h) 0 = 0)
      by (unfold quota; by rewrite (proj2 (Z.leb_le 0 (initial h)))).
    assert (Hp : passes h 1 = (1 <=? initial h) || ((1 - initial h) mod thereafter h =? 0)).
    { unfold passes. destruct (Z.leb_spec 1 (initial h)); [done|]. cbn [orb].
      rewrite Go.wrapu64_id; [done|unfold Go.uint64_max; lia]. }
    rewrite passed_cons, Hq, H0, H00. rewrite Hp. lia.
  - intros c q Hq'. unfold sampled in Hq'. apply negb_false_iff in Hq'. unfold Handle. by rewrite Hq'.
Qed.

(** The dropped counters are exactly the records that did not pass. *)
Theorem dropped_accounted (h : samplingHandler) (rs : list (Z * record)) :
  0 <= dropped_debug h -> 0 <= dropped_info h ->
  dropped_debug h + dropped_info h + Z.of_nat (length rs) <= Go.uint64_max ->
  let '(h', bs) := handle_all h rs in
  length bs = length rs /\ 0 <= dropped_debug h' /\ 0 <= dropped_info h' /\
  dropped_debug h' + dropped_info h' = dropped_debug h + dropped_info h + (Z.of_nat (length rs) - count bs).
Proof.
  revert h. induction rs as [|[clock r] rs IH]; intros h Hd Hi Hlen; [cbn; lia|].
  cbn [handle_all length] in *.
  assert (Hone : let '(h1, b) := Handle clock h r in
            0 <= dropped_debug h1 /\ 0 <= dropped_info h1 /\
            dropped_debug h1 + dropped_info h1 = dropped_debug h + dropped_info h + (if b then 0 else 1)).
  { unfold Handle. destruct (_ || _); [lia|]. destruct (inc _ _ _). destruct (passes h _); [cbn; lia|].
    destruct (_ <=? _); cbn; rewrite Go.wrapu64_id by lia; lia. }
  destruct (Handle clock h r) as [h1 b]. destruct Hone as (H1 & H2 & H3).
  specialize (IH h1 H1 H2). destruct (handle_all h1 rs) as [h2 bs].
  destruct IH as (IH1 & IH2 & IH3 & IH4); [destruct b; lia|]. split_and!; [cbn; lia|lia|lia|]. rewrite passed_cons. destruct b; lia.
Qed.

(** A record stamped before the epoch (the zero [time.Time] is) never opens a
    window of a fresh counter, so its budget is never renewed: the guard on a zero
    timestamp in [Handle] tests [UnixNano() == 0], which the zero time is not. *)
Theorem early_record_never_resets (now tick : Z) (c : sampleCounter) :
  now < 0 -> 0 <= resetAt c -> 0 <= n c < Go.uint64_max ->
  resetAt (inc now tick c).1 = resetAt c /\ (inc now tick c).2 = n c + 1.
Proof. intros Hnow Hr Hn. by rewrite inc_inside by lia. Qed.

(** ** Witness *)

Definition demo_record (now : Z) : record := {| Level := 0; Message := ""; Nano := now; debug := false |}.

Lemma sampling_is_quota_witness :
  count (handle_all (newSamplingHandler 2 2 10) [(0, demo_record 5); (0, demo_record 6); (0, demo_record 7); (0, demo_record 8)]).2
  = quota 2 2 4.
Proof.
  refine (proj1 (sampling_is_quota 0 (newSamplingHandler 2 2 10) (demo_record 5)
            [(0, demo_record 6); (0, demo_record 7); (0, demo_record 8)] 15 _ _ _ _ _ _ _ _)).
  all: try (cbn; lia). all: try reflexivity. all: try done.
  repeat apply Forall_cons_2; try apply Forall_nil_2; (split_and!; [reflexivity|reflexivity|cbn; lia|cbn; lia]).
Defined.

End Sampling.
