(* ===== verification/Logger.v ===== *)
(** The logger (libs/httpx/logging.go, debug.go): a level handler around a sampler
    around the handler that stamps the context's ids, and what of a record reaches
    the output. *)
From S2P Require Import Prelude GoStr LogLevel Sampling.

Module Logger.

Definition attr : Type := string * string.

(** A [WithGroup] (a non-empty group) or a [WithAttrs] call. *)
Record handlerOp := { group : string; attrs : list attr }.
Definition is_group (op : handlerOp) : bool := negb (String.eqb (group op) "").

(** What slog's own handler writes: each attribute with the groups open where it
    was added, the record's last. *)
Fixpoint place (path : list string) (ops : list handlerOp) (rec : list attr) : list (list string * attr) :=
  match ops with
  | [] => pair path <$> rec
  | op :: ops =>
      if is_group op then place (path ++ [group op]) ops rec
      else (pair path <$> attrs op) ++ place path ops rec
  end.

(** What the context knows: trace and span id when it carries a valid span, and
    the request id, empty outside a request. *)
Record ctx := { span : option (string * string); RequestIDFromContext : string }.

Definition ctx_attrs (c : ctx) : list attr :=
  match span c with Some (t, s) => [("trace_id"%string, t); ("span_id"%string, s)] | None => [] end ++
  (if String.eqb (RequestIDFromContext c) "" then [] else [("request_id"%string, RequestIDFromContext c)]).

(** [inner] is the handler behind, as the calls it was built with. *)
Record ctxHandler := { inner : list handlerOp; ops : list handlerOp }.

Definition Handle (c : ctx) (rec : list attr) (h : ctxHandler) : list (list string * attr) :=
  match ops h with
  | [] => place [] (inner h) (match ctx_attrs c with [] => rec | a => rec ++ a end)
  | _ :: _ =>
      let inner' := match ctx_attrs c with [] => inner h | a => inner h ++ [{| group := ""; attrs := a |}] end in
      place [] (inner' ++ ops h) rec
  end.

Definition WithAttrs (a : list attr) (h : ctxHandler) : ctxHandler :=
  match ops h with
  | [] => {| inner := inner h ++ [{| group := ""; attrs := a |}]; ops := [] |}
  | _ :: _ => {| inner := inner h; ops := ops h ++ [{| group := ""; attrs := a |}] |}
  end.

Definition WithGroup (name : string) (h : ctxHandler) : ctxHandler :=
  if String.eqb name "" then h
  else {| inner := inner h; ops := ops h ++ [{| group := name; attrs := [] |}] |}.

(** The calls a derived logger was made with. *)
Inductive call := CAttrs (a : list attr) | CGroup (name : string).
#[export] Instance call_eq_dec : EqDecision call.
Proof. solve_decision. Defined.
Definition apply_call (h : ctxHandler) (c : call) : ctxHandler :=
  match c with CAttrs a => WithAttrs a h | CGroup g => WithGroup g h end.
Definition derive (cs : list call) : ctxHandler := foldl apply_call {| inner := []; ops := [] |} cs.

(** The same calls made on slog's handler. *)
Definition plain (c : call) : handlerOp :=
  match c with CAttrs a => {| group := ""; attrs := a |} | CGroup g => {| group := g; attrs := [] |} end.

(** ** The logger *)

Record logger := { level : LogLevel.LogLevel; sampler : option Sampling.samplingHandler; text_format : bool }.

(** [NewLogger] of a [LogConfig]. *)
Definition NewLogger (Level Format : string) (SampleInitial SampleThereafter SampleTick : Z) : logger :=
  {| level := LogLevel.newLogLevel (LogLevel.parseLevel Level);
     sampler := if 0 <? SampleInitial
                then Some (Sampling.newSamplingHandler SampleInitial SampleThereafter SampleTick) else None;
     text_format := GoStr.EqualFold Format "text" |}.

(** A record logged: the logger after it, and whether it is written. *)
Definition log_record (clock : Z) (lg : logger) (r : Sampling.record) : logger * bool :=
  if negb (LogLevel.Enabled (level lg) (Sampling.debug r) (Sampling.Level r)) then (lg, false)
  else match sampler lg with
       | None => (lg, true)
       | Some s =>
           let '(s', b) := Sampling.Handle clock s r in
           ({| level := level lg; sampler := Some s'; text_format := text_format lg |}, b)
       end.

(** ** Lemmas *)

Lemma place_app (a b : list handlerOp) (rec : list attr) :
  Forall (fun op => is_group op = false) a ->
  forall path, place path (a ++ b) rec = (a ≫= fun op => pair path <$> attrs op) ++ place path b rec.
Proof.
  induction 1 as [|op a Hop Ha IH]; intros path; [done|]. cbn. rewrite Hop, IH. by rewrite app_assoc.
Qed.

(** A call [WithGroup("")] is ignored. *)
Definition effective (c : call) : Prop := c <> CGroup "".
#[local] Instance effective_dec (c : call) : Decision (effective c).
Proof. unfold effective. apply _. Defined.

(** The state a derived logger is in: no group was delegated, and the calls are
    the effective ones made, in their order. *)
Lemma derive_state (cs : list call) :
  let h := derive cs in
  Forall (fun op => is_group op = false) (inner h) /\
  inner h ++ ops h = plain <$> filter effective cs.
Proof.
  unfold derive. induction cs as [|c cs IH] using rev_ind; [done|].
  rewrite foldl_snoc, filter_app, fmap_app. set (h := foldl _ _ cs) in *. cbn zeta in *. destruct IH as [Hi Hp].
  rewrite <- Hp. destruct c as [a|g]; cbn [apply_call].
  - rewrite filter_cons_True, filter_nil by done. cbn [fmap list_fmap plain].
    unfold WithAttrs. destruct (ops h) eqn:Ho; cbn [inner ops].
    + rewrite !app_nil_r. split; [|done]. apply Forall_app. split; [done|]. by repeat constructor.
    + by rewrite app_assoc.
  - unfold WithGroup. destruct (String.eqb_spec g "") as [->|Hg].
    + rewrite filter_cons_False, filter_nil by (by intros []). by rewrite app_nil_r.
    + rewrite filter_cons_True, filter_nil by (by intros [= ->]). cbn. split; [done|]. by rewrite app_assoc.
Qed.

Lemma place_effective (cs : list call) (rec : list attr) (path : list string) :
  place path (plain <$> filter effective cs) rec = place path (plain <$> cs) rec.
Proof.
  revert path. induction cs as [|c cs IH]; intros path; [done|].
  destruct (decide (effective c)) as [He|He]; [rewrite filter_cons_True by done|rewrite filter_cons_False by done].
  - cbn. destruct (is_group (plain c)); by rewrite IH.
  - apply dec_stable in He as ->. cbn. apply IH.
Qed.

(** ** Theorems *)

(** The ids of the context are added to every record at the top level, also
    under a logger with open groups, and nothing else changes: the output is that of
    the same calls on slog's own handler, in the same order and under the same
    groups, plus the ids. *)
Theorem context_ids_top_level (cs : list call) (c : ctx) (rec : list attr) :
  let out := Handle c rec (derive cs) in
  let plain_out := place [] (plain <$> cs) rec in
  out ≡ₚ plain_out ++ (pair [] <$> ctx_attrs c) /\ plain_out `sublist_of` out.
Proof.
  cbn zeta. destruct (derive_state cs) as [Hi Hp]. rewrite <- place_effective, <- Hp.
  unfold Handle. set (h := derive cs) in *. rewrite (place_app (inner h) (ops h)) by done.
  set (pre := inner h ≫= _).
  destruct (ops h) as [|op l] eqn:Ho.
  - assert (Hin : forall r, place [] (inner h) r = pre ++ (pair [] <$> r)).
    { intros r. rewrite <- (app_nil_r (inner h)) at 1. by rewrite place_app. }
    rewrite Hin. cbn [place].
    replace (match ctx_attrs c with [] => rec | _ => _ end) with (rec ++ ctx_attrs c)
      by (destruct (ctx_attrs c); [by rewrite app_nil_r|done]).
    rewrite fmap_app, !app_assoc. split; [done|]. by apply sublist_inserts_r.
  - rewrite <- Ho. destruct (ctx_attrs c) as [|a al] eqn:Ha.
    + rewrite place_app by done. cbn [fmap list_fmap]. rewrite app_nil_r. done.
    + rewrite <- !app_assoc, place_app by done. cbn [app place is_group]. fold pre.
      change (negb (String.eqb "" "")) with false. cbn iota.
      split; [|apply sublist_app; [reflexivity|apply sublist_inserts_l; reflexivity]].
      apply Permutation_app_head. exact (Permutation_app_comm _ _).
Qed.

(** No record at warn or above that the level admits is lost, whatever the sampler
    has counted, and a record under a debugging context is written at any level. *)
Theorem important_records_written (clock : Z) (lg : logger) (r : Sampling.record) :
  (LogLevel.LevelWarn <= Sampling.Level r /\ LogLevel.lv (level lg) <= Sampling.Level r) \/ Sampling.debug r = true ->
  (log_record clock lg r).2 = true.
Proof.
  intros H. assert (He : LogLevel.Enabled (level lg) (Sampling.debug r) (Sampling.Level r) = true).
  { unfold LogLevel.Enabled. destruct H as [[_ H]| ->]; [|done]. apply orb_true_intro. right. lia. }
  unfold log_record. rewrite He. cbn. destruct (sampler lg) as [s|]; [|done].
  unfold Sampling.Handle. replace (_ || _) with true; [done|].
  symmetry. destruct H as [[H _]| ->]; [|apply orb_true_r]. apply orb_true_intro. left. lia.
Qed.

End Logger.
