(* ===== verification/Problem.v ===== *)
(** RFC 9457 error responses (libs/httpx/problem.go). *)
From S2P Require Import Prelude GoError GoStr.

Module Problem.

(** A JSON member of a problem document. *)
Inductive jval := JStr (s : string) | JInt (z : Z) | JOther (text : string) | JUnencodable.

#[export] Instance jval_eq_dec : EqDecision jval.
Proof. solve_decision. Defined.

Record Problem := {
  Type_ : string;
  Title : string;
  Status : Z;
  Detail : string;
  Instance_ : string;
  Extensions : gmap string jval
}.

(** What can be told about an error: a problem (its cause is what it wraps), a
    spent deadline, a cancellation, a body over the limit, or any other. *)
Inductive etag := TProblem (p : Problem) | TDeadline | TCanceled | TTooBig | TOther (s : string).
Definition error := Errors.error etag.

(** A problem with the error it carries for the log. *)
Record failure := { problem_ : Problem; cause : option error }.

Definition as_error (f : failure) : error :=
  Errors.Node (TProblem (problem_ f)) (match cause f with Some e => [e] | None => [] end).

Definition StatusInternalServerError : Z := 500.

Definition status (p : Problem) : Z :=
  if (Status p <? 100) || (999 <? Status p) then StatusInternalServerError else Status p.

Definition WithCause (f : failure) (err : error) : failure := {| problem_ := problem_ f; cause := Some err |}.

Definition NewProblem (st : Z) (detail : string) : failure :=
  {| problem_ := {| Type_ := ""; Title := ""; Status := st; Detail := detail; Instance_ := ""; Extensions := ∅ |};
     cause := None |}.

Definition Internal (detail : string) (err : error) : failure :=
  WithCause (NewProblem StatusInternalServerError detail) err.

Section Write.
(** [http.StatusText]. *)
Context (StatusText : Z -> string).

(** [Problem.Error]; [text] is the text of an error. *)
Definition Error (text : error -> string) (f : failure) : string :=
  (StatusText (status (problem_ f))
   ++ (if String.eqb (Detail (problem_ f)) "" then "" else ": " ++ Detail (problem_ f))
   ++ match cause f with Some e => " (" ++ text e ++ ")" | None => "" end)%string.

(** The members of the document: the extensions, then the standard ones over
    them. *)
Definition members (p : Problem) : gmap string jval :=
  let m := Extensions p in
  let m := <["type"%string := JStr (if String.eqb (Type_ p) "" then "about:blank" else Type_ p)]> m in
  let m := <["title"%string := JStr (if String.eqb (Title p) "" then StatusText (status p) else Title p)]> m in
  let m := <["status"%string := JInt (status p)]> m in
  let m := if String.eqb (Detail p) "" then m else <["detail"%string := JStr (Detail p)]> m in
  if String.eqb (Instance_ p) "" then m else <["instance"%string := JStr (Instance_ p)]> m.

(** [json.Marshal]: an extension may hold a value JSON cannot express. *)
Definition MarshalJSON (p : Problem) : option (gmap string jval) :=
  if bool_decide (map_Forall (fun _ v => v <> JUnencodable) (members p)) then Some (members p) else None.

(** ** Writing *)

Record response := { code : Z; content_type : string; body : option (gmap string jval) }.

(** A request: its path, its request id, and whether its own context was
    cancelled. *)
Record request := { path : option string; request_id : string; canceled : bool }.

Definition set_instance (i : string) (p : Problem) : Problem :=
  {| Type_ := Type_ p; Title := Title p; Status := Status p; Detail := Detail p; Instance_ := i; Extensions := Extensions p |}.
Definition set_extensions (m : gmap string jval) (p : Problem) : Problem :=
  {| Type_ := Type_ p; Title := Title p; Status := Status p; Detail := Detail p; Instance_ := Instance_ p; Extensions := m |}.

Definition withRequestIDExtension (p : Problem) (id : string) : Problem :=
  if String.eqb id "" then p
  else match Extensions p !! "request_id"%string with
  | Some _ => p
  | None => set_extensions (<["request_id"%string := JStr id]> (Extensions p)) p
  end.

Definition ProblemContentType : string := "application/problem+json".

Definition writeProblem (r : option request) (p : Problem) : response :=
  let p := match r with
           | Some q => match Instance_ p, path q with
                       | ""%string, Some u => withRequestIDExtension (set_instance u p) (request_id q)
                       | _, _ => p
                       end
           | None => p
           end in
  match MarshalJSON p with
  | None => {| code := StatusInternalServerError; content_type := ""; body := None |}
  | Some m => {| code := status p; content_type := ProblemContentType; body := Some m |}
  end.

(** [WriteProblem]: the response, and what is reported (logged and put on the
    span): a status from 500 on, with its cause. *)
Definition WriteProblem (r : option request) (f : failure) : response * option failure :=
  match r with
  | None => (writeProblem None (problem_ f), None)
  | Some q =>
      let p := match Instance_ (problem_ f), path q with
               | ""%string, Some u => set_instance u (problem_ f)
               | _, _ => problem_ f
               end in
      let p := withRequestIDExtension p (request_id q) in
      (writeProblem r p,
       if StatusInternalServerError <=? status p then Some {| problem_ := p; cause := cause f |} else None)
  end.

Definition statusClientClosedRequest : Z := 499.

Definition is_problem (t : etag) : bool := match t with TProblem _ => true | _ => false end.
Definition is_deadline (t : etag) : bool := match t with TDeadline => true | _ => false end.
Definition is_canceled (t : etag) : bool := match t with TCanceled => true | _ => false end.
Definition is_too_big (t : etag) : bool := match t with TTooBig => true | _ => false end.

(** [errors.As(err, &p)] also finds what the problem wraps. *)
Fixpoint find_problem (e : error) : option failure :=
  match e with
  | Errors.Node (TProblem p) l => Some {| problem_ := p; cause := head l |}
  | Errors.Node _ l =>
      (fix go (l : list error) : option failure :=
         match l with
         | [] => None
         | c :: l => match find_problem c with Some f => Some f | None => go l end
         end) l
  end.

Definition to_problem (r : option request) (err : error) : failure :=
  match find_problem err with
  | Some f => f
  | None =>
      if Errors.matches is_deadline err then WithCause (NewProblem 504 "the request took too long") err
      else if Errors.matches is_canceled err && match r with Some q => canceled q | None => false end then
        {| problem_ := {| Type_ := ""; Title := "Client Closed Request"; Status := statusClientClosedRequest;
                          Detail := "the client went away"; Instance_ := ""; Extensions := ∅ |};
           cause := Some err |}
      else Internal "internal error" err
  end.

Definition WriteError (r : option request) (err : error) : response * option failure :=
  WriteProblem r (to_problem r err).

(** ** DecodeJSON *)

(** [first] is the answer of decoding the value, [eof] whether nothing but white
    space follows it. *)
Definition DecodeJSON {A} (first : A + error) (eof : bool) : A + failure :=
  match first with
  | inr err =>
      if Errors.matches is_too_big err
      then inr (WithCause (NewProblem 413 "request body is too large") err)
      else inr (WithCause (NewProblem 400 "invalid JSON body") err)
  | inl v => if eof then inl v else inr (NewProblem 400 "request body must contain a single JSON value")
  end.

(** ** Theorems *)

Lemma status_range (p : Problem) : 100 <= status p <= 999.
Proof.
  unfold status, StatusInternalServerError.
  destruct (Z.ltb_spec (Status p) 100), (Z.ltb_spec 999 (Status p)); cbn; lia.
Qed.

Lemma members_status (p : Problem) : members p !! "status"%string = Some (JInt (status p)).
Proof.
  unfold members. repeat case_match; rewrite ?(lookup_insert_ne _ "instance"%string), ?(lookup_insert_ne _ "detail"%string) by done;
    apply lookup_insert_eq.
Qed.

Lemma members_extension (p : Problem) (k : string) :
  k ∉ ["type"; "title"; "status"; "detail"; "instance"]%string -> members p !! k = Extensions p !! k.
Proof.
  intros Hk. unfold members. repeat case_match; rewrite !lookup_insert_ne by set_solver; done.
Qed.

(** Only an extension can be what JSON cannot express. *)
Lemma members_encodable (p : Problem) (k : string) :
  members p !! k = Some JUnencodable -> Extensions p !! k = Some JUnencodable.
Proof.
  unfold members. intros H.
  repeat (case_match || match goal with
    | H : <[_ := _]> _ !! _ = Some JUnencodable |- _ =>
        apply lookup_insert_Some in H as [[_ H]|[_ H]]; [discriminate H|]
    end); done.
Qed.

(** What filling in from a request may change. *)
Definition filled_from (id : string) (p p' : Problem) : Prop :=
  Status p' = Status p /\
  (Extensions p' = Extensions p \/
   (id <> ""%string /\ Extensions p !! "request_id"%string = None /\
    Extensions p' = <["request_id"%string := JStr id]> (Extensions p))) /\
  (id <> ""%string -> is_Some (Extensions p' !! "request_id"%string)).

Lemma filled_extension (p : Problem) (id : string) : filled_from id p (withRequestIDExtension p id).
Proof.
  unfold filled_from, withRequestIDExtension. destruct (String.eqb_spec id "") as [->|Hne]; [naive_solver|].
  destruct (Extensions p !! "request_id"%string) as [v|] eqn:He.
  - split_and!; [done|by left|]. rewrite He. eauto.
  - cbn. split_and!; [done|right; done|]. rewrite lookup_insert_eq. eauto.
Qed.

(** Filling in twice is filling in once. *)
Lemma filled_again (p p1 p2 : Problem) (id : string) :
  filled_from id p p1 -> filled_from id p1 p2 -> filled_from id p p2.
Proof.
  intros (H1 & H2 & H3) (H4 & H5 & H6). split_and!; [congruence| |done].
  destruct H5 as [->|(Hne & Hn & _)]; [done|]. destruct (H3 Hne) as [v Hv]. congruence.
Qed.

Lemma filled_instance (p p' : Problem) (u id : string) : filled_from id (set_instance u p) p' -> filled_from id p p'.
Proof. done. Qed.

(** The document a problem is written as. *)
Lemma written (q : request) (p : Problem) :
  filled_from (request_id q) p p ->
  exists p', filled_from (request_id q) p p' /\
    writeProblem (Some q) p =
    match MarshalJSON p' with
    | None => {| code := StatusInternalServerError; content_type := ""; body := None |}
    | Some m => {| code := status p'; content_type := ProblemContentType; body := Some m |}
    end.
Proof.
  intros Hp. unfold writeProblem. destruct (Instance_ p); [|by exists p].
  destruct (path q) as [u|]; [|by exists p]. eexists. split; [|done].
  eapply filled_instance, filled_extension.
Qed.

(** Every error response is a valid one: the status line is in the range the
    HTTP library accepts and is the status member of the document, the cause of a
    failure is never part of the response (only of the report), a failure from 500
    on is always reported with its cause, and a body is missing only when an
    extension cannot be encoded. *)
Theorem problem_response_sound (q : request) (f : failure) :
  let '(resp, report) := WriteProblem (Some q) f in
  100 <= code resp <= 999 /\
  (forall m, body resp = Some m -> m !! "status"%string = Some (JInt (code resp)) /\
    (request_id q <> ""%string -> Extensions (problem_ f) !! "request_id"%string = None ->
     m !! "request_id"%string = Some (JStr (request_id q)))) /\
  (forall err, fst (WriteProblem (Some q) (WithCause f err)) = resp) /\
  (500 <= status (problem_ f) -> exists p, report = Some {| problem_ := p; cause := cause f |}) /\
  (body resp = None -> exists k, Extensions (problem_ f) !! k = Some JUnencodable).
Proof.
  unfold WriteProblem. cbn [fst problem_ WithCause].
  set (p0 := match Instance_ (problem_ f) with ""%string => _ | _ => _ end).
  assert (H0 : filled_from (request_id q) (problem_ f) (withRequestIDExtension p0 (request_id q))).
  { subst p0. destruct (Instance_ (problem_ f)); [destruct (path q)|];
      first [apply filled_extension|eapply filled_instance, filled_extension]. }
  set (p1 := withRequestIDExtension p0 (request_id q)) in *.
  destruct (written q p1) as (p2 & H2 & ->); [destruct H0 as (_ & _ & H); split_and!; auto|].
  destruct (filled_again _ _ _ _ H0 H2) as (Hs & He & _). destruct H0 as (Hs1 & _ & _).
  assert (Hst : forall p p' : Problem, Status p' = Status p -> status p' = status p)
    by (intros p p' H; unfold status; by rewrite H).
  unfold MarshalJSON. destruct (bool_decide_reflect (map_Forall (fun _ v => v <> JUnencodable) (members p2))) as [Hm|Hm];
    split_and!; cbn; try done.
  - apply status_range.
  - apply status_range.
  - intros m [= <-]. split; [apply members_status|]. intros Hid Hno.
    rewrite members_extension by set_solver. destruct He as [He|(_ & _ & He)]; rewrite He; [|apply lookup_insert_eq].
    exfalso. destruct (filled_again _ _ _ _ (filled_extension p0 (request_id q)) H2) as (_ & _ & H).
    destruct (H Hid) as [v Hv]. rewrite He in Hv. congruence.
  - intros H. rewrite (Hst _ _ Hs1). rewrite (proj2 (Z.leb_le _ _)) by (unfold StatusInternalServerError; lia). eauto.
  - intros H. rewrite (Hst _ _ Hs1). rewrite (proj2 (Z.leb_le _ _)) by (unfold StatusInternalServerError; lia). eauto.
  - intros _. apply map_not_Forall in Hm as (k & v & Hk & Hv); [|apply _]. apply dec_stable in Hv as ->.
    exists k. apply members_encodable in Hk. destruct He as [He|(_ & _ & He)]; rewrite He in Hk; [done|].
    apply lookup_insert_Some in Hk as [[_ Hk]|[_ Hk]]; done.
Qed.
End Write.
End Problem.
