(* ===== verification/ClientAddr.v ===== *)
(** Whom a request comes from (libs/httpx/middleware.go: [peerAddr], [isTrusted],
    [clientIP]; config.go: [parsePrefixes]; requestid.go), over the addresses and
    prefixes of net/netip. *)
From S2P Require Import Prelude GoStr.

(** * net/netip *)

Module Netip.

(** The zero [Addr] is [NoAddr]; an IPv6 address carries its zone. *)
Inductive Addr := NoAddr | IP4 (v : Z) | IP6 (v : Z) (zone : string).
#[export] Instance Addr_eq_dec : EqDecision Addr.
Proof. solve_decision. Defined.

Definition IsValid (a : Addr) : bool := match a with NoAddr => false | _ => true end.
Definition BitLen (a : Addr) : Z := match a with NoAddr => 0 | IP4 _ => 32 | IP6 _ _ => 128 end.
Definition hasZone (a : Addr) : bool := match a with IP6 _ z => negb (String.eqb z "") | _ => false end.
Definition withoutZone (a : Addr) : Addr := match a with IP6 v _ => IP6 v "" | _ => a end.

(** An IPv4-mapped IPv6 address (::ffff:a.b.c.d) becomes the IPv4 one. *)
Definition Is4In6 (a : Addr) : bool := match a with IP6 v _ => Z.shiftr v 32 =? 0xffff | _ => false end.
Definition Unmap (a : Addr) : Addr :=
  match a with IP6 v _ => if Is4In6 a then IP4 (Z.land v (2 ^ 32 - 1)) else a | _ => a end.

Definition value (a : Addr) : Z := match a with NoAddr => 0 | IP4 v | IP6 v _ => v end.

Record Prefix := { ip : Addr; bits : Z }.

(** [PrefixFrom] drops the zone; bits out of range make the prefix invalid. *)
Definition PrefixFrom (a : Addr) (b : Z) : Prefix :=
  {| ip := withoutZone a; bits := if IsValid a && (0 <=? b) && (b <=? BitLen a) then b else -1 |}.

Definition Masked (p : Prefix) : Prefix :=
  let drop := BitLen (ip p) - bits p in
  let v := Z.shiftl (Z.shiftr (value (ip p)) drop) drop in
  if bits p <? 0 then {| ip := NoAddr; bits := -1 |}
  else {| ip := match ip p with NoAddr => NoAddr | IP4 _ => IP4 v | IP6 _ _ => IP6 v "" end; bits := bits p |}.

Definition Contains (p : Prefix) (a : Addr) : bool :=
  if (bits p <? 0) || hasZone a then false
  else if (BitLen (ip p) =? 0) || (BitLen a =? 0) || negb (BitLen (ip p) =? BitLen a) then false
  else Z.shiftr (Z.lxor (value a) (value (ip p))) (BitLen a - bits p) =? 0.

(** A prefix holds the addresses that agree with it on its leading bits, whether
    or not it was masked. *)
Lemma contains_masked (p : Prefix) (a : Addr) :
  0 <= bits p <= BitLen (ip p) -> Contains (Masked p) a = Contains p a.
Proof.
  destruct p as [i b]. cbn [bits ip]. intros Hb. unfold Contains, Masked. cbn [bits ip].
  rewrite (proj2 (Z.ltb_ge b 0)) by lia. cbn [bits ip].
  rewrite (proj2 (Z.ltb_ge b 0)) by lia. destruct (hasZone a); [done|]. cbn [orb].
  destruct i as [|v|v z]; [done| |]; cbn [BitLen value] in *.
  all: destruct a as [|w|w y]; cbn; try done.
  all: rewrite !Z.shiftr_lxor by lia.
  all: rewrite Z.shiftr_shiftl_l, Z.sub_diag, Z.shiftl_0_r by lia; done.
Qed.

End Netip.

(** * The client of a request *)

Module ClientAddr.
Import Netip.

Section Params.
(** [netip.ParseAddr], [netip.ParsePrefix], [Addr.String] and the host part of
    [net.SplitHostPort]. *)
Context (ParseAddr : string -> option Addr) (ParsePrefix : string -> option Prefix)
        (String_ : Addr -> string) (SplitHostPort : string -> option string).

Definition parsePrefixes (cidrs : list string) : option (list Prefix) :=
  foldr (fun raw acc =>
    let s := GoStr.TrimSpace raw in
    if String.eqb s "" then acc
    else match ParsePrefix s with
         | Some p => cons (Masked p) <$> acc
         | None => match ParseAddr s with
                   | Some a => cons (PrefixFrom a (BitLen a)) <$> acc
                   | None => None
                   end
         end) (Some []) cidrs.

Definition peerAddr (remote : string) : Addr :=
  let host := default remote (SplitHostPort remote) in
  Unmap (default NoAddr (ParseAddr host)).

Definition isTrusted (proxies : list Prefix) (a : Addr) : bool :=
  if negb (IsValid a) then false else existsb (fun p => Contains p a) proxies.

(** The walk over the hops, nearest first. *)
Fixpoint nearest_untrusted (proxies : list Prefix) (hops : list string) : option Addr :=
  match hops with
  | [] => None
  | hop :: hops =>
      match ParseAddr (GoStr.TrimSpace hop) with
      | None => None
      | Some a => if isTrusted proxies (Unmap a) then nearest_untrusted proxies hops else Some (Unmap a)
      end
  end.

(** The hops of the X-Forwarded-For lines of a request, leftmost first. *)
Definition forwarded (values : list string) : list string :=
  GoStr.of_bytes <$> GoStr.split_at 44 (GoStr.join 44 (GoStr.bytes <$> values)).

Definition clientIP (proxies : list Prefix) (values : list string) (peer : Addr) (trusted : bool) : string :=
  if negb trusted then String_ peer
  else match nearest_untrusted proxies (rev (forwarded values)) with
       | Some a => String_ a
       | None => String_ peer
       end.

(** ** The nearest hop that is not a proxy *)

(** What a hop of the header is, apart from any walk. *)
Inductive hop_kind := Malformed | Proxy | Stranger (a : Addr).
Definition kind_of (proxies : list Prefix) (hop : string) : hop_kind :=
  match ParseAddr (GoStr.TrimSpace hop) with
  | None => Malformed
  | Some a => if isTrusted proxies (Unmap a) then Proxy else Stranger (Unmap a)
  end.

(** Whom the hops (leftmost first) name, as the peer, a trusted proxy, forwarded them: the
    rightmost hop that is not a proxy, if it is an address; the peer when it is not one, or
    when every hop is a proxy. *)
Inductive nearest (proxies : list Prefix) (peer : Addr) : list string -> Addr -> Prop :=
  | nearest_stranger far hop near a :
      Forall (fun h => kind_of proxies h = Proxy) near -> kind_of proxies hop = Stranger a -> nearest proxies peer (far ++ hop :: near) a
  | nearest_malformed far hop near :
      Forall (fun h => kind_of proxies h = Proxy) near -> kind_of proxies hop = Malformed -> nearest proxies peer (far ++ hop :: near) peer
  | nearest_none hops : Forall (fun h => kind_of proxies h = Proxy) hops -> nearest proxies peer hops peer.

Lemma walk_kind (proxies : list Prefix) (hop : string) (hops : list string) :
  nearest_untrusted proxies (hop :: hops) =
  match kind_of proxies hop with Malformed => None | Proxy => nearest_untrusted proxies hops | Stranger a => Some a end.
Proof. cbn. unfold kind_of. destruct (ParseAddr _) as [a|]; [|done]. by destruct (isTrusted proxies (Unmap a)). Qed.

Lemma walk_proxies (proxies : list Prefix) (near hops : list string) :
  Forall (fun h => kind_of proxies h = Proxy) near -> nearest_untrusted proxies (near ++ hops) = nearest_untrusted proxies hops.
Proof. induction 1 as [|h near Hh _ IH]; [done|]. cbn [app]. by rewrite walk_kind, Hh. Qed.

(** The walk finds it, and nothing else is it. *)
Lemma nearest_walk (proxies : list Prefix) (peer : Addr) (hops : list string) (a : Addr) :
  nearest proxies peer hops a <-> a = default peer (nearest_untrusted proxies (rev hops)).
Proof.
  split.
  - intros [far hop near b Hn Hh|far hop near Hn Hh|hops' Hn]; rewrite ?rev_app_distr; cbn [rev app]; rewrite <- ?app_assoc.
    + rewrite walk_proxies by (by apply Forall_rev). cbn [app]. by rewrite walk_kind, Hh.
    + rewrite walk_proxies by (by apply Forall_rev). cbn [app]. by rewrite walk_kind, Hh.
    + apply Forall_rev in Hn. apply (walk_proxies _ _ []) in Hn. rewrite app_nil_r in Hn. by rewrite Hn.
  - intros ->. rewrite <- (rev_involutive hops) at 1. generalize (rev hops). clear hops.
    assert (H : forall near hops, Forall (fun h => kind_of proxies h = Proxy) near ->
              nearest proxies peer (rev hops ++ near) (default peer (nearest_untrusted proxies hops))); [|intros hops; by rewrite <- (app_nil_r (rev hops)); apply H].
    intros near hops. revert near. induction hops as [|h hops IH]; intros near Hn; [by apply nearest_none|].
    cbn [rev]. rewrite walk_kind, <- app_assoc. cbn [app]. destruct (kind_of proxies h) eqn:Hk.
    + by apply nearest_malformed.
    + apply IH. by constructor.
    + by apply nearest_stranger.
Qed.

(** A hop that ends the walk: not a trusted proxy. *)
Definition stops (proxies : list Prefix) (hop : string) : Prop := kind_of proxies hop <> Proxy.

Lemma walk_stops (proxies : list Prefix) (near far far' : list string) :
  Exists (stops proxies) near -> nearest_untrusted proxies (near ++ far) = nearest_untrusted proxies (near ++ far').
Proof.
  induction 1 as [hop near H|hop near H IH]; cbn [app]; rewrite !walk_kind; unfold stops in *; by destruct (kind_of proxies hop).
Qed.

(** The header lines end with the text [written]: they are all of it, or it comes after a
    comma, in the same line or the next. *)
Definition ends_with (written : list Z) (values : list string) : Prop :=
  let text := GoStr.join 44 (GoStr.bytes <$> values) in text = written \/ exists before, text = before ++ 44 :: written.

Definition hops_of (text : list Z) : list string := GoStr.of_bytes <$> GoStr.split_at 44 text.

Lemma ends_with_hops (written : list Z) (values : list string) :
  ends_with written values -> exists far, forwarded values = far ++ hops_of written.
Proof.
  unfold ends_with, forwarded, hops_of. intros [->|[before ->]]; [by exists []|].
  rewrite GoStr.split_at_app, fmap_app. eauto.
Qed.

(** ** Theorems *)

(** The address a request with these X-Forwarded-For lines is attributed to. *)
Definition attributed (proxies : list Prefix) (remote : string) (values : list string) : string :=
  let peer := peerAddr remote in clientIP proxies values peer (isTrusted proxies peer).

(** C22: the client address cannot be forged. From an untrusted peer it is the peer's own,
    whatever the headers say; from a trusted one it is exactly the address of the rightmost
    hop of X-Forwarded-For that is not a trusted proxy, and the peer's when that hop is no
    address or every hop is a proxy. So once the end of the header, which the proxies
    wrote, has a hop that is not a proxy, nothing before that text (in the same line or in
    others, or nothing at all) changes the address. *)
Theorem client_cannot_forge_address (proxies : list Prefix) (remote : string) (values : list string) :
  (exists a, attributed proxies remote values = String_ a /\
    if isTrusted proxies (peerAddr remote)
    then forall b, nearest proxies (peerAddr remote) (forwarded values) b <-> b = a
    else a = peerAddr remote) /\
  (forall written values', ends_with written values -> ends_with written values' -> Exists (stops proxies) (hops_of written) ->
    attributed proxies remote values = attributed proxies remote values').
Proof.
  unfold attributed, clientIP. destruct (isTrusted proxies (peerAddr remote)); cbn [negb]; [|split; [by eauto|done]]. split.
  - exists (default (peerAddr remote) (nearest_untrusted proxies (rev (forwarded values)))). split; [by destruct (nearest_untrusted _ _)|].
    intros b. apply nearest_walk.
  - intros written values' (far & ->)%ends_with_hops (far' & ->)%ends_with_hops Hex. rewrite !rev_app_distr.
    rewrite (walk_stops proxies _ _ (rev far')); [done|].
    apply Exists_exists in Hex as (h & Hh & Hst). apply Exists_exists. exists h. split; [|done].
    apply list_elem_of_In, in_rev. rewrite rev_involutive. by apply list_elem_of_In.
Qed.

End Params.

(** ** Request ids *)

Definition maxRequestIDLen : Z := 128.

Definition validRequestID (s : string) : bool :=
  if String.eqb s "" || (maxRequestIDLen <? Z.of_nat (String.length s)) then false
  else forallb (fun b => negb ((b <=? 32) || (126 <? b))) (GoStr.bytes s).

(** [hex.EncodeToString]. *)
Definition hex_digit (d : Z) : Z := if d <? 10 then 48 + d else 87 + d.
Definition hex_encode (p : list Z) : list Z := p ≫= fun b => [hex_digit (b / 16); hex_digit (b mod 16)].

(** [newRequestID] of the eight bytes [rand.Read] gave. *)
Definition newRequestID (random : list Z) : string := GoStr.of_bytes (hex_encode random).

Lemma hex_digit_range (d : Z) : 0 <= d < 16 -> 48 <= hex_digit d <= 57 \/ 97 <= hex_digit d <= 102.
Proof. intros H. unfold hex_digit. destruct (Z.ltb_spec d 10); lia. Qed.

Lemma hex_encode_range (p : list Z) :
  Forall GoStr.is_byte p -> Forall (fun b => 48 <= b <= 102) (hex_encode p) /\ length (hex_encode p) = (2 * length p)%nat.
Proof.
  induction 1 as [|b p Hb Hp [IH1 IH2]]; [done|]. cbn [hex_encode mbind list_bind app length].
  unfold GoStr.is_byte in Hb.
  pose proof (hex_digit_range (b / 16) ltac:(split; [apply Z.div_pos|apply Z.div_lt_upper_bound]; lia)).
  pose proof (hex_digit_range (b mod 16) ltac:(apply Z.mod_pos_bound; lia)).
  split; [constructor; [lia|]; constructor; [lia|exact IH1]|]. unfold hex_encode in IH2. rewrite IH2. lia.
Qed.

(** A fresh id is sixteen characters, and valid. *)
Lemma newRequestID_valid (random : list Z) :
  length random = 8%nat -> Forall GoStr.is_byte random -> validRequestID (newRequestID random) = true.
Proof.
  intros Hlen Hb. apply hex_encode_range in Hb as [Hr Hl]. unfold validRequestID, newRequestID.
  set (h := hex_encode random) in *.
  assert (Hby : GoStr.bytes (GoStr.of_bytes h) = h).
  { apply GoStr.bytes_of_bytes. eapply Forall_impl; [exact Hr|]. unfold GoStr.is_byte. cbn. lia. }
  assert (Hsl : String.length (GoStr.of_bytes h) = length h).
  { rewrite <- Hby at 2. unfold GoStr.bytes. rewrite length_fmap. generalize (GoStr.of_bytes h).
    induction s as [|c s IH]; cbn; congruence. }
  destruct (String.eqb_spec (GoStr.of_bytes h) "") as [He|_]; [rewrite He in Hsl; cbn in Hsl; lia|].
  rewrite Hsl, Hl, Hlen, Hby. cbn [orb]. change (maxRequestIDLen <? Z.of_nat (2 * 8)) with false. cbn iota.
  apply forallb_forall. intros b Hin%list_elem_of_In. rewrite Forall_forall in Hr. specialize (Hr _ Hin). cbn in Hr.
  apply negb_true_iff, orb_false_intro; lia.
Qed.

(** ** The deadline of a request *)

(** [strings.Trim(s, "0123456789")]. *)
Fixpoint trim_digits_left (p : list Z) : list Z :=
  match p with
  | [] => []
  | b :: q => if GoStr.is_digit b then trim_digits_left q else p
  end.
Definition trim_digits (p : list Z) : list Z := rev (trim_digits_left (rev (trim_digits_left p))).

Definition requestBudget (configured floor : Z) (header : string) : Z :=
  let p := GoStr.bytes header in
  if String.eqb header "" || (9 <? Z.of_nat (String.length header)) || negb (bool_decide (trim_digits p = []))
  then configured
  else
    let ms := match GoStr.ParseInt p with inl n => n | inr _ => 0 end in
    if ms <=? 0 then configured
    else
      let asked := Z.max (Go.wrap64 (ms * Go.millisecond)) floor in
      if (0 <? configured) && (configured <? asked) then configured else asked.

Lemma trim_left_digits (p : list Z) :
  trim_digits_left p = [] <-> Forall (fun b => GoStr.is_digit b = true) p.
Proof.
  induction p as [|b p IH]; cbn; [done|]. rewrite Forall_cons. destruct (GoStr.is_digit b); [|naive_solver].
  rewrite IH. naive_solver.
Qed.

Lemma trim_left_head (p : list Z) (b : Z) (q : list Z) : trim_digits_left p = b :: q -> GoStr.is_digit b = false.
Proof.
  induction p as [|c p IH]; cbn; [done|]. destruct (GoStr.is_digit c) eqn:Hc; [done|]. by intros [= <- _].
Qed.

Lemma trim_digits_all (p : list Z) : trim_digits p = [] <-> Forall (fun b => GoStr.is_digit b = true) p.
Proof.
  rewrite <- trim_left_digits. unfold trim_digits. split.
  - intros H. apply (f_equal (@rev Z)) in H. rewrite rev_involutive in H. cbn in H. apply trim_left_digits in H.
    destruct (trim_digits_left p) as [|b q] eqn:Hq; [done|]. apply trim_left_head in Hq.
    rewrite Forall_forall in H. rewrite (H b) in Hq; [done|]. apply list_elem_of_In, in_rev. rewrite rev_involutive. by left.
  - by intros ->.
Qed.

(** Up to eighteen digits are always read, and give a number below their power of
    ten. *)
Lemma parse_digits_small (p : list Z) (n : Z) (k : nat) :
  Forall (fun b => GoStr.is_digit b = true) p -> 0 <= n < 10 ^ Z.of_nat k -> (k + length p <= 18)%nat ->
  exists v, GoStr.parse_digits n p = inl v /\ 0 <= v < 10 ^ Z.of_nat (k + length p).
Proof.
  intros Hp. revert n k. induction Hp as [|b p Hb Hp IH]; intros n k Hn Hk; cbn [length] in *.
  - exists n. by rewrite Nat.add_0_r.
  - cbn. rewrite Hb. cbn. assert (Hd : 0 <= b - 48 <= 9) by (unfold GoStr.is_digit, GoStr.in_range in Hb; zbool; lia).
    assert (Hpow : 10 ^ Z.of_nat (S k) = 10 * 10 ^ Z.of_nat k) by (rewrite Nat2Z.inj_succ, Z.pow_succ_r; lia).
    assert (Hle : 10 ^ Z.of_nat (S k) <= 10 ^ 18) by (apply Z.pow_le_mono_r; lia).
    rewrite (proj2 (Z.ltb_ge _ _)) by (unfold Go.uint64_max; lia).
    destruct (IH (n * 10 + (b - 48)) (S k)) as (v & Hv & Hr); [lia|lia|]. exists v. split; [done|].
    by replace (k + S (length p))%nat with (S k + length p)%nat by lia.
Qed.

Lemma parse_nine (p : list Z) :
  Forall (fun b => GoStr.is_digit b = true) p -> p <> [] -> (length p <= 9)%nat ->
  exists v, GoStr.ParseInt p = inl v /\ 0 <= v < 10 ^ 9.
Proof.
  intros Hp Hne Hl. destruct (parse_digits_small p 0 0 Hp ltac:(cbn; lia) ltac:(lia)) as (v & Hv & Hr).
  assert (Hr9 : 0 <= v < 10 ^ 9).
  { split; [lia|]. eapply Z.lt_le_trans; [apply Hr|]. apply Z.pow_le_mono_r; lia. }
  exists v. split; [|done]. unfold GoStr.ParseInt. destruct p as [|b q]; [done|].
  assert (Hb : b <> 43 /\ b <> 45).
  { inversion_clear Hp as [|? ? H]. unfold GoStr.is_digit, GoStr.in_range in H. zbool. lia. }
  replace (match b :: q with 43 :: q0 => (false, q0) | 45 :: q0 => (true, q0) | _ => (false, b :: q) end) with (false, b :: q).
  - cbn [GoStr.ParseUint]. rewrite Hv. by rewrite (proj2 (Z.leb_gt _ _)) by lia.
  - destruct b as [|b|b]; try done. do 6 (destruct b as [b|b|]; try done); exfalso; lia.
Qed.

(** The deadline of a request: a configured timeout is never exceeded and, with
    a configuration that passed validation, never undercut below the floor, whatever
    the header holds; only a header of one to nine digits, not all zero, changes it,
    and then to the milliseconds it asks for, raised to the floor. *)
Theorem request_budget_bounds (configured floor : Z) (header : string)
    (Hf : 0 <= floor) (Hc : 0 < configured -> floor <= configured) :
  let b := requestBudget configured floor header in
  (0 < configured -> floor <= b <= configured) /\
  (b <> configured -> exists ms, GoStr.ParseInt (GoStr.bytes header) = inl ms /\ 0 < ms < 10 ^ 9 /\
     b = Z.max (ms * Go.millisecond) floor) /\
  (configured <= 0 -> b <= 0 -> b = configured).
Proof.
  cbn zeta. unfold requestBudget.
  destruct (String.eqb_spec header "") as [->|Hne]; cbn [orb]; [split_and!; auto; lia|].
  destruct (Z.ltb_spec 9 (Z.of_nat (String.length header))) as [|Hl]; cbn [orb]; [split_and!; auto; lia|].
  destruct (bool_decide_reflect (trim_digits (GoStr.bytes header) = [])) as [Ht|]; cbn [negb]; [|split_and!; auto; lia].
  apply trim_digits_all in Ht.
  assert (Hlen : length (GoStr.bytes header) = String.length header).
  { unfold GoStr.bytes. rewrite length_fmap. clear. induction header as [|c s IH]; cbn; congruence. }
  destruct (parse_nine _ Ht) as (ms & Hms & Hr); [|lia|].
  { intros H. rewrite H in Hlen. destruct header; [done|]. cbn in Hlen. lia. }
  rewrite Hms. destruct (Z.leb_spec ms 0); [split_and!; auto; lia|].
  rewrite Go.wrap64_id by (unfold Go.in_int64, Go.int64_min, Go.int64_max, Go.millisecond; lia).
  assert (0 < ms * Go.millisecond) by (unfold Go.millisecond; lia).
  destruct (Z.ltb_spec 0 configured); cbn [andb].
  - destruct (Z.ltb_spec configured (Z.max (ms * Go.millisecond) floor)); split_and!; intros; try lia. exists ms. split_and!; [done|lia..].
  - split_and!; intros; try lia. exists ms. split_and!; [done|lia..].
Qed.

(** ** Witnesses *)

(** Three addresses; 10.0.0.0/8 is trusted, and the request comes from 10.0.0.1. *)
Definition demo_ParseAddr (s : string) : option Addr :=
  if String.eqb s "10.0.0.1" then Some (IP4 0x0A000001)
  else if String.eqb s "10.0.0.2" then Some (IP4 0x0A000002)
  else if String.eqb s "203.0.113.7" then Some (IP4 0xCB007107) else None.
Definition demo_String (a : Addr) : string :=
  match a with IP4 v => if v =? 0xCB007107 then "203.0.113.7" else if v =? 0x0A000001 then "10.0.0.1" else "10.0.0.2" | _ => "invalid IP" end.
Definition demo_proxies : list Prefix := [PrefixFrom (IP4 0x0A000000) 8].

(** A client that writes 10.0.0.2, in the line the proxy extends or in one of its own, and
    one that writes nothing, are all taken for the address the proxy saw. *)
Lemma client_cannot_forge_address_witness :
  let client := attributed demo_ParseAddr demo_String (fun _ => Some "10.0.0.1") demo_proxies "10.0.0.1:4711" in
  (exists a, client ["10.0.0.2, 203.0.113.7 ,10.0.0.2"] = demo_String a /\
    forall b, nearest demo_ParseAddr demo_proxies (IP4 0x0A000001) ["10.0.0.2"; " 203.0.113.7 "; "10.0.0.2"] b <-> b = a) /\
  client ["10.0.0.2, 203.0.113.7 ,10.0.0.2"] = client ["garbage"; " 203.0.113.7 ,10.0.0.2"] /\
  client ["10.0.0.2, 203.0.113.7 ,10.0.0.2"] = client [" 203.0.113.7 ,10.0.0.2"].
Proof.
  cbv zeta.
  pose proof (client_cannot_forge_address demo_ParseAddr demo_String (fun _ => Some "10.0.0.1") demo_proxies "10.0.0.1:4711"
                ["10.0.0.2, 203.0.113.7 ,10.0.0.2"]) as [H1 H2].
  split_and!; [exact H1| |];
    (apply (H2 (GoStr.bytes " 203.0.113.7 ,10.0.0.2")); [right; by exists (GoStr.bytes "10.0.0.2")| |apply Exists_cons_hd; by vm_compute]).
  - right. by exists (GoStr.bytes "garbage").
  - by left.
Defined.

Lemma request_budget_bounds_witness :
  1 * Go.second <= requestBudget (30 * Go.second) (1 * Go.second) "250" <= 30 * Go.second.
Proof.
  refine (proj1 (request_budget_bounds (30 * Go.second) (1 * Go.second) "250" _ _) _); unfold Go.second; lia.
Defined.

End ClientAddr.
