(* ===== verification/KafkaClients.v ===== *)
(** Building the clients of libs/kafka (producer.go, consumer.go) over a linked driver, and
    one handler attempt of the consumer: no client is left behind, a panic is an error, a
    record's request id. *)
From S2P Require Import Prelude GoError GoStr KafkaMessage KafkaConsumer KafkaConfig KafkaMetrics ClientAddr.

(** * The driver's interface *)

(** What libs/kafka uses of a driver to build a client: its name, what it refuses, why
    creating a client fails, and what the broker answers to a ping. *)
Class Driver := {
  d_Name : string;
  d_Validate : KafkaConfig.Config -> list string;
  d_NewProducer : KafkaConfig.Config -> option string;
  d_NewConsumer : KafkaConfig.Config -> option string;
  d_Ping : option string
}.

Module KafkaClients.
Import KafkaConfig.

Inductive new_error :=
  | NoProvider
  | BadConfig (es : list string)
  | NoTopicOrGroup
  | NewFailed (driver err : string)
  | Unreachable (err : string).

Inductive effect := Created | Pinged (timeout : Z) | Closed | WarnPlaintext.

Definition warnPlaintextSASL (c : Config) : list effect :=
  if String.eqb (SecurityProtocol c) "sasl_plaintext" && String.eqb (SASLMechanism c) "PLAIN" then [WarnPlaintext] else [].

Section New.
Context (ToLower ToUpper : string -> string) (ReadFile : string -> option string) (readable : string -> bool -> option string).

(** The client after it was created: it answers, or is closed again. *)
Definition connect (d : Driver) (c : Config) : (new_error + Config) * list effect :=
  match d_Ping with
  | Some err => (inl (Unreachable err), [Created; Pinged (DialTimeout c); Closed])
  | None => (inr c, [Created; Pinged (DialTimeout c)] ++ warnPlaintextSASL c)
  end.

Definition validated (d : Driver) (c : Config) : new_error + Config :=
  match Validate ToLower ToUpper ReadFile readable (Some d_Validate) c with
  | (c, []) => inr c
  | (_, es) => inl (BadConfig es)
  end.

Definition NewProducer (driver : option Driver) (c : Config) : (new_error + Config) * list effect :=
  match driver with
  | None => (inl NoProvider, [])
  | Some d =>
      match validated d c with
      | inl e => (inl e, [])
      | inr c => match d_NewProducer c with Some err => (inl (NewFailed d_Name err), []) | None => connect d c end
      end
  end.

Definition NewConsumer (driver : option Driver) (c : Config) : (new_error + Config) * list effect :=
  match driver with
  | None => (inl NoProvider, [])
  | Some d =>
      match validated d c with
      | inl e => (inl e, [])
      | inr c =>
          if match Topics c with [] => true | _ => false end || String.eqb (Group c) "" then (inl NoTopicOrGroup, [])
          else match d_NewConsumer c with Some err => (inl (NewFailed d_Name err), []) | None => connect d c end
      end
  end.

(** What a constructor may leave: nothing after an error, and otherwise one client of an
    accepted configuration that has answered, with a warning exactly when a password
    goes over the wire in clear text. *)
Definition leaves (r : (new_error + Config) * list effect) : Prop :=
  match r.1 with
  | inl _ => r.2 = [] \/ exists t, r.2 = [Created; Pinged t; Closed]
  | inr c => runnable c /\ 0 < DialTimeout c /\ r.2 = [Created; Pinged (DialTimeout c)] ++ warnPlaintextSASL c
  end.

Lemma connect_leaves (d : Driver) (c : Config) : runnable c -> leaves (connect d c).
Proof.
  intros H. unfold connect, leaves. destruct d_Ping as [err|]; cbn; [right; by eexists|]. split_and!; [done|apply (ok_timeouts _ H)|done].
Qed.

Lemma validated_runnable (d : Driver) (c c' : Config) : validated d c = inr c' -> runnable c'.
Proof.
  unfold validated. destruct (Validate _ _ _ _ _ c) as [c0 [|e es]] eqn:E; [|done]. intros [= <-].
  by eapply accepted_is_runnable.
Qed.

Lemma constructors_leave (driver : option Driver) (c : Config) : leaves (NewProducer driver c) /\ leaves (NewConsumer driver c).
Proof.
  unfold NewProducer, NewConsumer. destruct driver as [d|]; [|by split; left].
  destruct (validated d c) as [e|c'] eqn:E; [by split; left|]. apply validated_runnable in E.
  split; [destruct (d_NewProducer c')|destruct (_ || _); [by left|]; destruct (d_NewConsumer c')]; try (by left); by apply connect_leaves.
Qed.

(** An accepted configuration always has a topic and a group: the check behind it in
    [NewConsumer] never refuses one. *)
Lemma topic_check_is_redundant (driver : option Driver) (c : Config) : (NewConsumer driver c).1 <> inl NoTopicOrGroup.
Proof.
  unfold NewConsumer. destruct driver as [d|]; [|done]. destruct (validated d c) as [e|c'] eqn:E; [|].
  - unfold validated in E. destruct (Validate _ _ _ _ _ c) as [c0 [|? ?]]; [done|]. by injection E as <-.
  - apply validated_runnable in E. destruct (ok_group _ E) as [Ht Hg]. destruct (Topics c'); [done|].
    rewrite (proj2 (String.eqb_neq _ _) Hg). cbn. destruct (d_NewConsumer c'); [done|]. unfold connect. by destruct d_Ping.
Qed.

(** [readyCheck] *)
Definition readyCheck (ping : option string) : option string := (fun err => ("kafka brokers unreachable: " ++ err)%string) <$> ping.
End New.

(** * One attempt *)

Import KafkaMessage.

(** What the handler did. *)
Inductive call := Returned (err : option error) | Panicked (value : string).

(** [invoke]: the error it returns, and whether the span is marked failed; the attempt is
    observed under the topic's label. *)
Definition invoke (topics : list string) (r : Message) (c : call) (d : Z) (m : gmap string (list Z)) : option error * gmap string (list Z) :=
  let err := match c with Returned err => err | Panicked v => Some (Errors.Node (TText ("kafka: handler panic: " ++ v)) []) end in
  let label := KafkaMetrics.topic_label topics (Topic r) in
  (err, <[label := d :: default [] (m !! label)]> m).

(** A handler that panics is retried like one that failed, and every attempt is observed
    once, however it ended. *)
Lemma invoke_contains_panic (topics : list string) (r : Message) (c : call) (d : Z) (m : gmap string (list Z)) :
  let '(err, m') := invoke topics r c d m in
  (forall v, c = Panicked v -> exists e, err = Some e /\ IsPermanent e = false) /\
  (forall err', c = Returned err' -> err = err') /\
  length (default [] (m' !! KafkaMetrics.topic_label topics (Topic r))) = S (length (default [] (m !! KafkaMetrics.topic_label topics (Topic r)))).
Proof.
  unfold invoke. split_and!.
  - intros v ->. by eexists.
  - by intros err' ->.
  - by rewrite lookup_insert_eq.
Qed.

(** [requestID]: the record's event id if it can be one, else a fresh id. *)
Definition requestID (r : Message) (fresh : string) : string :=
  match headerValue (Headers r) HeaderEventID with
  | Some id => if ClientAddr.validRequestID id then id else fresh
  | None => fresh
  end.

Lemma requestID_valid (r : Message) (fresh : string) : ClientAddr.validRequestID fresh = true -> ClientAddr.validRequestID (requestID r fresh) = true.
Proof.
  intros H. unfold requestID. destruct (headerValue _ _) as [id|]; [|done]. by destruct (ClientAddr.validRequestID id) eqn:E.
Qed.

(** [partitionList] *)
Definition partitionList (parts : list KafkaConsumer.TopicPartition) : list string :=
  (fun p => (KafkaConsumer.tp_Topic p ++ "/" ++ GoStr.Itoa (KafkaConsumer.tp_Partition p))%string) <$> parts.

(** ** Fetch errors *)

Definition fetchWarnEvery : Z := Go.minute.

(** [fetchError] of the loop, which calls it alone: the count, the last stamp, and
    whether it logged. *)
Definition fetchError (now : Z) (st : Z * Z) : Z * Z * bool :=
  let '(count, last) := st in
  if fetchWarnEvery <=? Go.wrap64 (now - last) then (count + 1, now, true) else (count + 1, last, false).
End KafkaClients.

(** * The dead-letter producer of the librdkafka driver *)

Module DeadLetterProducer.
Import KafkaMessage KafkaConsumer.

(** [dlqOnce], [dlq] and [dlqErr]: not built yet, or what building it gave. *)
Inductive producer := NotBuilt | Failed (err : error) | Ready.

(** [DeadLetter]: it is built on first use, and that result is kept. *)
Definition DeadLetter (newProducer : option error) (p : producer) : producer :=
  match p with
  | NotBuilt => match newProducer with Some err => Failed err | None => Ready end
  | p => p
  end.

(** [failedProducer.Send] *)
Definition failed_Send (err : error) : error := NewSendError KindUnknown 0 err.

(** However often it is asked for, the first attempt decides: a failure is never tried again. *)
Lemma first_build_decides (builds : list (option error)) (b : option error) :
  foldl (fun p b => DeadLetter b p) NotBuilt (b :: builds) = DeadLetter b NotBuilt.
Proof. cbn. induction builds as [|b' builds IH]; [done|]. cbn. by destruct b. Qed.

Lemma failed_Send_not_rejected (err : error) : Rejected (failed_Send err) = false.
Proof. unfold failed_Send, NewSendError. by destruct (is_ctx_error err). Qed.

(** Without it a record that cannot be handled is not parked and so not committed: the
    consumer is draining, or stops with the error of the failed build. *)
Lemma failed_producer_never_parks (cfg : config) (i : rec_in) (r : Message) (err : error) (topic reason text : string) (attempts : Z) :
  (forall n, dl_send i n = Some (failed_Send err)) ->
  (deadLetter cfg i r topic reason text attempts).2 = Draining \/
  (deadLetter cfg i r topic reason text attempts).2 = Stop (failed_Send err).
Proof.
  intros Hs. unfold deadLetter.
  pose proof (dl_loop_spec cfg i (dlq_message topic r reason text attempts) (S (Z.to_nat (maxRetries cfg))) 0) as H.
  specialize (H ltac:(unfold maxRetries; lia) ltac:(unfold maxRetries; lia)).
  destruct (dl_loop _ _ _ _ 0) as [evs o]. destruct H as (Hno & _ & k & _ & _ & _ & Ho). cbn [snd].
  destruct o as [| |e|]; [by rewrite Hs in Ho|by left| |done]. destruct Ho as [Ho _]. rewrite Hs in Ho. injection Ho as ->. by right.
Qed.
End DeadLetterProducer.
