(* ===== verification/Middleware.v ===== *)
(** The API chain of a server (libs/httpx/middleware.go, metrics.go,
    httpx.go: [NewServer]).

    A handler is what it does to the response and how it ends: it returns or it
    panics. The response goes through the [responseWriter] that records it to
    net/http's writer, which this file models as far as the code relies on it: the
    first final status and the headers of that moment go on the wire, informational
    statuses do not end the header phase, an invalid code panics. *)
From S2P Require Import Prelude GoStr GoError LogLevel Problem ClientAddr.

Module Middleware.

(** ** net/http's side *)

(** [header] is the live header map, [wire] what was sent: the status with the
    headers of that moment. [hints] are informational responses sent before. *)
Record netWriter := {
  header : gmap string string;
  wire : option (Z * gmap string string);
  hints : list Z;
  sent : Z
}.

Definition invalid_code (code : Z) : bool := (code <? 100) || (999 <? code).
Definition informational (code : Z) : bool := (100 <=? code) && (code <=? 199) && negb (code =? 101).

(** Returns false when it panics. *)
Definition net_WriteHeader (code : Z) (w : netWriter) : netWriter * bool :=
  match wire w with
  | Some _ => (w, true)
  | None =>
      if invalid_code code then (w, false)
      else if informational code
      then ({| header := header w; wire := None; hints := hints w ++ [code]; sent := sent w |}, true)
      else ({| header := header w; wire := Some (code, header w); hints := hints w; sent := sent w |}, true)
  end.

(** [accepted] bytes were taken before the connection failed, if it did. *)
Definition net_Write (accepted : Z) (w : netWriter) : netWriter :=
  let w := (net_WriteHeader 200 w).1 in
  {| header := header w; wire := wire w; hints := hints w; sent := sent w + accepted |}.

Definition net_SetHeader (k v : string) (w : netWriter) : netWriter :=
  {| header := <[k := v]> (header w); wire := wire w; hints := hints w; sent := sent w |}.

(** ** The state of a request *)

(** [responseWriter]. *)
Record responseWriter := { status_ : Z; bytes_ : Z; wroteHeader : bool }.
Definition newResponseWriter : responseWriter := {| status_ := 0; bytes_ := 0; wroteHeader := false |}.

Record reqInfo := { id : string; clientIP : string; route_ : string; aborted : bool }.

(** What the operators see. *)
Record logLine := { l_level : Z; l_msg : string; l_route : string; l_status : Z; l_bytes : Z; l_client : string }.
Record spanData := { s_name : string; s_status : option Z; s_error : bool }.
Record observed := {
  access : list logLine;
  panics : list string;
  total : list (string * string * Z);
  inFlight : Z;
  unhandled : Z;
  spans : list spanData;
  span_marked : bool    (* the span of the request was marked as failed *)
}.

Record state := {
  net : netWriter;
  rw : option responseWriter;   (* the wrapper, once there is one *)
  info : option reqInfo;
  obs : observed
}.

Definition set_net (w : netWriter) (s : state) : state := {| net := w; rw := rw s; info := info s; obs := obs s |}.
Definition set_rw (x : responseWriter) (s : state) : state := {| net := net s; rw := Some x; info := info s; obs := obs s |}.
Definition set_info (i : option reqInfo) (s : state) : state := {| net := net s; rw := rw s; info := i; obs := obs s |}.
Definition set_obs (o : observed) (s : state) : state := {| net := net s; rw := rw s; info := info s; obs := o |}.

(** A request; [gone] says that the client has closed the connection (its context
    is cancelled) when the handler ends, [latency] how long the handler took. *)
Record request := {
  Method : string;
  Path : string;
  headers : list (string * string);
  RemoteAddr : string;
  random : list Z;
  has_body : bool;
  gone : bool;
  latency : Z
}.

(** The context handed down. *)
Record context := { budget : option Z; request_id : string; debug_logging : bool; body_limit : option Z }.

Inductive panic_value := ErrAbortHandler | PanicWith (text : string).
Inductive outcome := Returned | Panicked (v : panic_value).

Definition handler : Type := context -> request -> state -> state * outcome.
Notation Middleware := (handler -> handler).

(** ** responseWriter *)

Definition WriteHeader (code : Z) (s : state) : state * outcome :=
  let s := match rw s with
           | Some w => if wroteHeader w then s
                       else set_rw {| status_ := code; bytes_ := bytes_ w; wroteHeader := true |} s
           | None => s
           end in
  let '(w, ok) := net_WriteHeader code (net s) in
  (set_net w s, if ok then Returned else Panicked (PanicWith "invalid WriteHeader code")).

Definition Write (accepted : Z) (s : state) : state * outcome :=
  let s := match rw s with
           | Some w => if wroteHeader w then s else (WriteHeader 200 s).1
           | None => s
           end in
  let s := set_net (net_Write accepted (net s)) s in
  (match rw s with
   | Some w => set_rw {| status_ := status_ w; bytes_ := bytes_ w + accepted; wroteHeader := wroteHeader w |} s
   | None => s
   end, Returned).

(** Flushing sends the headers. *)
Definition Flush (s : state) : state * outcome :=
  let s := match rw s with
           | Some w => if wroteHeader w then s else (WriteHeader 200 s).1
           | None => s
           end in
  (set_net (net_WriteHeader 200 (net s)).1 s, Returned).

(** What a handler does to the response. *)
Inductive action :=
  | ASetHeader (k v : string)
  | AWriteHeader (code : Z)
  | AWrite (accepted : Z)
  | AFlush.

Definition act (a : action) (s : state) : state * outcome :=
  match a with
  | ASetHeader k v => (set_net (net_SetHeader k v (net s)) s, Returned)
  | AWriteHeader code => WriteHeader code s
  | AWrite n => Write n s
  | AFlush => Flush s
  end.

(** Actions in order, up to a panic; then the handler's own end. *)
Fixpoint perform (l : list action) (o : outcome) (s : state) : state * outcome :=
  match l with
  | [] => (s, o)
  | a :: l => match act a s with
              | (s, Returned) => perform l o s
              | (s, Panicked v) => (s, Panicked v)
              end
  end.

(** ** reqInfo *)

Definition statusClientClosedRequest : Z := 499.

(** [reqInfo.status]: [i] the info, [w] its writer. *)
Definition status (i : option reqInfo) (w : option responseWriter) (canceled : bool) : Z :=
  match i with
  | None => 0
  | Some i =>
      let st := match w with Some w => status_ w | None => 0 end in
      if aborted i then statusClientClosedRequest
      else if (st =? 0) && canceled then statusClientClosedRequest
      else if st =? 0 then 200
      else st
  end.

Definition routeLabel (i : option reqInfo) : string :=
  match i with None => "unmatched" | Some i => if String.eqb (route_ i) "" then "unmatched" else route_ i end.

Definition methodOther : string := "_OTHER".
Definition methodLabel (m : string) : string :=
  if bool_decide (m ∈ ["GET"; "HEAD"; "POST"; "PUT"; "PATCH"; "DELETE"; "CONNECT"; "OPTIONS"; "TRACE"]%string)
  then m else methodOther.

(** [routeOf]: the pattern without its method and host. *)
Fixpoint after_byte (c : Z) (p : list Z) : option (list Z) :=
  match p with [] => None | b :: p => if b =? c then Some p else after_byte c p end.
Fixpoint from_byte (c : Z) (p : list Z) : option (list Z) :=
  match p with [] => None | b :: q => if b =? c then Some p else from_byte c q end.
Definition routeOf (pattern : string) : string :=
  let p := GoStr.bytes pattern in
  let p := default p (after_byte 32 p) in
  GoStr.of_bytes (default p (from_byte 47 p)).

(** ** chain *)

(** The loop of [chain], from the last middleware to the first. *)
Fixpoint chain_loop (fuel : nat) (mws : list Middleware) (h : handler) : handler :=
  match fuel with
  | O => h
  | S i => chain_loop i mws (match mws !! i with Some mw => mw h | None => h end)
  end.
Definition chain (h : handler) (mws : list Middleware) : handler := chain_loop (length mws) mws h.

(** ** The middlewares *)

Definition RequestIDHeader : string := "X-Request-Id".
Definition RequestTimeoutHeader : string := "X-Request-Timeout-Ms".
Definition DebugTokenHeader : string := "X-Debug-Token".
Definition DebugLoggingHeader : string := "X-Debug-Logging".

(** [Header.Values] and [Header.Get]. *)
Definition header_values (r : request) (k : string) : list string :=
  snd <$> filter (fun kv => kv.1 = k) (headers r).
Definition header_get (r : request) (k : string) : string := default ""%string (head (header_values r k)).

(** How the mux answers: a matched pattern with its handler's program, a known path
    with another method, no path, a path to clean up that matches nothing when
    cleaned, or a request for "*". *)
Inductive muxed :=
  | Matched (pattern : string) (program : context -> list action * outcome)
  | NotAllowed (allow : string)
  | NoPath
  | Uncleaned (location : string)
  | Star.

(** The status and the Allow header the mux's own handler gives the probe. *)
Definition headerProbe (m : muxed) : Z * string :=
  match m with
  | Matched _ _ => (0, "")%string
  | NotAllowed allow => (405, allow)
  | NoPath => (404, "")%string
  | Uncleaned _ => (301, "")%string
  | Star => (400, "")%string
  end.

(** The fields of [Config] the chain reads, with the parsed proxies. *)
Record Config := {
  RequestTimeout : Z;
  RequestTimeoutMin : Z;
  SlowRequest : Z;
  MaxBodyBytes : Z;
  DebugToken : string;
  proxies : list Netip.Prefix
}.

Section Server.
(** [http.StatusText], the length of a JSON document, the address functions of
    [ClientAddr], the digest of a token, and the service's mux. *)
Context (StatusText : Z -> string) (json_len : gmap string Problem.jval -> Z)
        (ParseAddr : string -> option Netip.Addr) (String_ : Netip.Addr -> string)
        (SplitHostPort : string -> option string) (tokenDigest : string -> list Z)
        (mux : request -> muxed) (cfg : Config).

(** [Problem.writeProblem] through the response writer. *)
Definition sendProblem (c : context) (r : request) (f : Problem.failure) (s : state) : state * outcome :=
  let q := {| Problem.path := Some (Path r); Problem.request_id := request_id c; Problem.canceled := gone r |} in
  let resp := Problem.writeProblem StatusText (Some q) (Problem.problem_ f) in
  perform (match Problem.body resp with
           | None => [AWriteHeader (Problem.code resp)]
           | Some doc => [ASetHeader "Content-Type" (Problem.content_type resp); AWriteHeader (Problem.code resp);
                          AWrite (json_len doc)]
           end) Returned s.

Definition entry (next : handler) : handler := fun c r s =>
  let peer := ClientAddr.peerAddr ParseAddr SplitHostPort (RemoteAddr r) in
  let trusted := ClientAddr.isTrusted (proxies cfg) peer in
  let inbound := if trusted && ClientAddr.validRequestID (header_get r RequestIDHeader)
                 then header_get r RequestIDHeader else ""%string in
  let rid := if String.eqb inbound "" then ClientAddr.newRequestID (random r) else inbound in
  let i := {| id := rid; route_ := ""; aborted := false;
              clientIP := ClientAddr.clientIP ParseAddr String_ (proxies cfg) (header_values r "X-Forwarded-For") peer trusted |} in
  let b := ClientAddr.requestBudget (RequestTimeout cfg) (RequestTimeoutMin cfg) (header_get r RequestTimeoutHeader) in
  let c := {| budget := if 0 <? b then Some b else budget c; request_id := rid;
              debug_logging := debug_logging c; body_limit := body_limit c |} in
  next c r {| net := net_SetHeader RequestIDHeader rid (net s); rw := Some newResponseWriter; info := Some i; obs := obs s |}.

Definition debugToken (next : handler) : handler := fun c r s =>
  let got := header_get r DebugTokenHeader in
  if String.eqb got "" || negb (bool_decide (tokenDigest got = tokenDigest (DebugToken cfg))) then next c r s
  else next {| budget := budget c; request_id := request_id c; debug_logging := true; body_limit := body_limit c |} r
         (set_net (net_SetHeader DebugLoggingHeader "on" (net s)) s).

Definition end_span (x : spanData) (s : state) : state :=
  let o := obs s in
  set_obs {| access := access o; panics := panics o; total := total o; inFlight := inFlight o; unhandled := unhandled o;
             spans := spans o ++ [x]; span_marked := false |} s.

(** One span per request; the code after [next] does not run when a panic passes. *)
Definition tracing (next : handler) : handler := fun c r s =>
  let method := methodLabel (Method r) in
  match next c r s with
  | (s, Returned) =>
      let st := status (info s) (rw s) (gone r) in
      let name := match info s with
                  | Some i => if String.eqb (route_ i) "" then method else (method ++ " " ++ route_ i)%string
                  | None => method end in
      (end_span {| s_name := name; s_status := Some st; s_error := span_marked (obs s) || (500 <=? st) |} s, Returned)
  | (s, Panicked v) =>
      (end_span {| s_name := method; s_status := None; s_error := span_marked (obs s) |} s, Panicked v)
  end.

Definition log_access (l : logLine) (s : state) : state :=
  let o := obs s in
  set_obs {| access := access o ++ [l]; panics := panics o; total := total o; inFlight := inFlight o;
             unhandled := unhandled o; spans := spans o; span_marked := span_marked o |} s.

(** The level and message of an access line. *)
Definition access_level (slow : Z) (st lat : Z) : Z * string :=
  if 500 <=? st then (LogLevel.LevelError, "request"%string)
  else if (0 <? slow) && (slow <? lat) then (LogLevel.LevelWarn, "slow request"%string)
  else (LogLevel.LevelInfo, "request"%string).

(** Deferred: it runs when a panic passes too. Without request info it would
    dereference nil. *)
Definition accessLog (next : handler) : handler := fun c r s =>
  let '(s, o) := next c r s in
  match info s, rw s with
  | Some i, Some w =>
      let st := status (info s) (rw s) (gone r) in
      let '(lv, msg) := access_level (SlowRequest cfg) st (latency r) in
      (log_access {| l_level := lv; l_msg := msg; l_route := routeLabel (info s); l_status := st;
                     l_bytes := bytes_ w; l_client := clientIP i |} s, o)
  | _, _ => (s, Panicked (PanicWith "nil pointer dereference"))
  end.

Definition count_request (k : string * string * Z) (s : state) : state :=
  let o := obs s in
  set_obs {| access := access o; panics := panics o; total := total o ++ [k]; inFlight := inFlight o - 1;
             unhandled := unhandled o; spans := spans o; span_marked := span_marked o |} s.
Definition enter_flight (s : state) : state :=
  let o := obs s in
  set_obs {| access := access o; panics := panics o; total := total o; inFlight := inFlight o + 1;
             unhandled := unhandled o; spans := spans o; span_marked := span_marked o |} s.

(** [Metrics.Middleware]; outside a chain it wraps the writer itself. *)
Definition metricsMiddleware (next : handler) : handler := fun c r s =>
  let '(s, own) := match info s with
                   | Some _ => (s, None)
                   | None => (set_rw newResponseWriter s,
                              Some {| id := ""; clientIP := ""; route_ := ""; aborted := false |})
                   end in
  let '(s, o) := next c r (enter_flight s) in
  let i := match own with Some i => Some i | None => info s end in
  (count_request (methodLabel (Method r), routeLabel i, status i (rw s) (gone r)) s, o).

Definition note_panic (text : string) (s : state) : state :=
  let o := obs s in
  set_obs {| access := access o; panics := panics o ++ [text]; total := total o; inFlight := inFlight o;
             unhandled := unhandled o + 1; spans := spans o; span_marked := true |} s.

Definition set_aborted (i : reqInfo) : reqInfo := {| id := id i; clientIP := clientIP i; route_ := route_ i; aborted := true |}.

Definition recovery (next : handler) : handler := fun c r s =>
  match next c r s with
  | (s, Returned) => (s, Returned)
  | (s, Panicked ErrAbortHandler) => (set_info (set_aborted <$> info s) s, Panicked ErrAbortHandler)
  | (s, Panicked (PanicWith text)) =>
      let s := note_panic text s in
      match info s, rw s with
      | Some _, Some w => if wroteHeader w then (s, Returned)
                          else sendProblem c r (Problem.NewProblem 500 "internal error") s
      | _, _ => sendProblem c r (Problem.NewProblem 500 "internal error") s
      end
  end.

Definition bodyLimit (next : handler) : handler := fun c r s =>
  if has_body r
  then next {| budget := budget c; request_id := request_id c; debug_logging := debug_logging c;
               body_limit := Some (MaxBodyBytes cfg) |} r s
  else next c r s.

Definition set_route (x : string) (i : reqInfo) : reqInfo := {| id := id i; clientIP := clientIP i; route_ := x; aborted := aborted i |}.

Definition route : handler := fun c r s =>
  match mux r with
  | Matched pattern program =>
      let '(l, o) := program c in
      let '(s, o) := perform l o s in
      (set_info (set_route (routeOf pattern) <$> info s) s, o)
  | m =>
      let '(probed, allow) := headerProbe m in
      let st := if probed =? 0 then 404 else probed in
      if String.eqb allow "" then sendProblem c r (Problem.NewProblem st ("no route for " ++ Method r ++ " " ++ Path r)) s
      else sendProblem c r (Problem.NewProblem st (Method r ++ " is not allowed on " ++ Path r))
             (set_net (net_SetHeader "Allow" allow (net s)) s)
  end.

(** The chain [NewServer] builds; [outer] are the middlewares of [WithMiddleware]. *)
Definition server_middlewares (outer : list Middleware) : list Middleware :=
  [entry] ++ (if String.eqb (DebugToken cfg) "" then [] else [debugToken]) ++
  [tracing; accessLog; metricsMiddleware] ++ outer ++ [recovery; bodyLimit].
Definition server_handler (outer : list Middleware) : handler := chain route (server_middlewares outer).

(** What the client of a returned request saw: net/http sends 200 when nothing was
    sent. *)
Definition client_status (s : state) : Z := match wire (net s) with Some (code, _) => code | None => 200 end.

(** ** Lemmas *)

Lemma chain_loop_foldr (mws : list Middleware) (h : handler) :
  forall k, (k <= length mws)%nat -> chain_loop k mws h = foldr (fun mw h => mw h) h (take k mws).
Proof.
  intros k. revert h. induction k as [|k IH]; intros h Hk; [done|].
  cbn [chain_loop]. destruct (lookup_lt_is_Some_2 mws k ltac:(lia)) as [mw Hm]. rewrite Hm, IH by lia.
  rewrite (take_S_r _ _ _ Hm), foldr_app. done.
Qed.

(** The loop of [chain] is the composition in order: the first middleware is
    outermost and the handler innermost. *)
Theorem chain_is_composition (h : handler) (mws : list Middleware) :
  chain h mws = foldr (fun mw h => mw h) h mws.
Proof. unfold chain. rewrite chain_loop_foldr by done. by rewrite take_ge by done. Qed.

(** *** The wrapper and the wire *)

Definition wrapped (s : state) : Prop := is_Some (info s) /\ is_Some (rw s).

(** The wrapper knows what is on the wire. *)
Definition agrees (s : state) : Prop :=
  match rw s with
  | Some w => if wroteHeader w
              then status_ w <> 0 /\ exists hs, wire (net s) = Some (status_ w, hs)
              else status_ w = 0 /\ wire (net s) = None
  | None => True
  end.

(** A status net/http takes as final. *)
Definition final_code (code : Z) : Prop := invalid_code code = false /\ informational code = false.
Definition final_action (a : action) : Prop := match a with AWriteHeader code => final_code code | _ => True end.

Lemma final_200 : final_code 200.
Proof. done. Qed.

Lemma final_nonzero (code : Z) : final_code code -> code <> 0.
Proof. intros [H _] ->. done. Qed.

(** The operations of the writer touch neither the info nor what is observed. *)
Lemma act_frame (a : action) (s : state) :
  info (act a s).1 = info s /\ obs (act a s).1 = obs s /\ (is_Some (rw s) -> is_Some (rw (act a s).1)).
Proof.
  destruct a as [k v|code|n|]; cbn [act]; [done| | |]; unfold Write, Flush, WriteHeader.
  all: destruct (rw s) as [w|] eqn:Hw; [destruct (wroteHeader w)|]; cbn;
       repeat (destruct (net_WriteHeader _ _) as [? []]; cbn); rewrite ?Hw; cbn; rewrite ?Hw; eauto.
Qed.

Lemma perform_frame (l : list action) (o : outcome) (s : state) :
  info (perform l o s).1 = info s /\ obs (perform l o s).1 = obs s /\ (is_Some (rw s) -> is_Some (rw (perform l o s).1)).
Proof.
  revert s. induction l as [|a l IH]; intros s; [done|]. cbn. pose proof (act_frame a s) as (H1 & H2 & H3).
  destruct (act a s) as [s1 [|v]]; cbn in *; [|done].
  destruct (IH s1) as (I1 & I2 & I3). split_and!; [congruence..|auto].
Qed.

Lemma WriteHeader_agrees (code : Z) (s : state) :
  agrees s -> final_code code -> agrees (WriteHeader code s).1 /\ (WriteHeader code s).2 = Returned.
Proof.
  intros H Hc. pose proof (final_nonzero _ Hc) as Hn. destruct Hc as [Hv Hi].
  unfold WriteHeader, agrees, net_WriteHeader in *. destruct (rw s) as [w|] eqn:Hw.
  - destruct (wroteHeader w) eqn:Hh.
    + destruct H as (Hz & hs & H). rewrite H. cbn. rewrite Hw, Hh. eauto.
    + destruct H as [Hz H]. cbn. rewrite H, Hv, Hi. cbn. eauto.
  - destruct (wire (net s)); [cbn; by rewrite Hw|]. rewrite Hv, Hi. cbn. by rewrite Hw.
Qed.

(** After the status is out, a 200 changes nothing. *)
Lemma net_200_again (s : state) (w : responseWriter) :
  rw s = Some w -> wroteHeader w = true -> agrees s -> (net_WriteHeader 200 (net s)).1 = net s.
Proof. unfold agrees. intros -> -> (_ & hs & H). unfold net_WriteHeader. by rewrite H. Qed.

Lemma wrote_after (s : state) (w : responseWriter) :
  rw s = Some w -> agrees s ->
  let s1 := if wroteHeader w then s else (WriteHeader 200 s).1 in
  agrees s1 /\ exists w1, rw s1 = Some w1 /\ wroteHeader w1 = true.
Proof.
  intros Hw H. destruct (wroteHeader w) eqn:Hh; [eauto|].
  split; [apply WriteHeader_agrees; [done|apply final_200]|].
  unfold WriteHeader. rewrite Hw, Hh. destruct (net_WriteHeader _ _). cbn. eauto.
Qed.

Lemma act_agrees (a : action) (s : state) :
  agrees s -> is_Some (rw s) -> final_action a -> agrees (act a s).1 /\ (act a s).2 = Returned.
Proof.
  intros H [w Hw] Ha. destruct a as [k v|code|n|]; cbn [act].
  - done.
  - by apply WriteHeader_agrees.
  - unfold Write. rewrite Hw. destruct (wrote_after s w Hw H) as (H1 & w1 & Hw1 & Hh1).
    set (s1 := if wroteHeader w then s else _) in *. cbn. rewrite Hw1. split; [|done].
    pose proof (net_200_again s1 w1 Hw1 Hh1 H1) as Hnet. unfold agrees in *. rewrite Hw1, Hh1 in H1. cbn. rewrite Hh1.
    rewrite Hnet. done.
  - unfold Flush. rewrite Hw. destruct (wrote_after s w Hw H) as (H1 & w1 & Hw1 & Hh1).
    set (s1 := if wroteHeader w then s else _) in *. split; [|done]. cbn.
    rewrite (net_200_again s1 w1 Hw1 Hh1 H1). by destruct s1.
Qed.

Lemma perform_agrees (l : list action) (o : outcome) (s : state) :
  Forall final_action l -> agrees s -> is_Some (rw s) -> agrees (perform l o s).1 /\ (perform l o s).2 = o.
Proof.
  intros Hl. revert s. induction Hl as [|a l Ha Hl IH]; intros s H Hw; [done|]. cbn.
  pose proof (act_agrees a s H Hw Ha) as [H1 H2]. pose proof (act_frame a s) as (_ & _ & H3).
  destruct (act a s) as [s1 o1]. cbn in *. subst o1. apply IH; [done|]. auto.
Qed.

(** *** Problems *)

(** A problem without members of its own is always encodable. *)
Lemma new_problem_written (q : Problem.request) (st : Z) (detail : string) :
  100 <= st <= 999 ->
  exists doc, Problem.writeProblem StatusText (Some q) (Problem.problem_ (Problem.NewProblem st detail)) =
    {| Problem.code := st; Problem.content_type := Problem.ProblemContentType; Problem.body := Some doc |}.
Proof.
  intros Hst. unfold Problem.writeProblem. cbn [Problem.problem_ Problem.NewProblem Problem.Instance_].
  set (p0 := {| Problem.Type_ := ""; Problem.Title := ""; Problem.Status := st; Problem.Detail := detail;
                Problem.Instance_ := ""; Problem.Extensions := ∅ |}).
  assert (Hp : forall p, Problem.Status p = st -> (forall k, Problem.Extensions p !! k <> Some Problem.JUnencodable) ->
    exists doc, match Problem.MarshalJSON StatusText p with
      | None => {| Problem.code := Problem.StatusInternalServerError; Problem.content_type := ""; Problem.body := None |}
      | Some m => {| Problem.code := Problem.status p; Problem.content_type := Problem.ProblemContentType; Problem.body := Some m |}
      end = {| Problem.code := st; Problem.content_type := Problem.ProblemContentType; Problem.body := Some doc |}).
  { intros p Hs He. unfold Problem.MarshalJSON. rewrite bool_decide_eq_true_2.
    - exists (Problem.members StatusText p). f_equal. unfold Problem.status. rewrite Hs.
      by rewrite (proj2 (Z.ltb_ge st 100)), (proj2 (Z.ltb_ge 999 st)) by lia.
    - intros k v Hk ->. apply Problem.members_encodable in Hk. by apply (He k). }
  destruct (Problem.path q) as [u|]; apply Hp; try done.
  - unfold Problem.withRequestIDExtension. by repeat case_match.
  - unfold Problem.withRequestIDExtension. repeat case_match; cbn; intros k Hk; [by rewrite lookup_empty in Hk..|].
    apply lookup_insert_Some in Hk as [[_ ?]|[_ Hk]]; [done|]. by rewrite lookup_empty in Hk.
Qed.

(** Writing a problem while nothing was sent. *)
Lemma sendProblem_fresh (c : context) (r : request) (st : Z) (detail : string) (s : state) (w : responseWriter) :
  final_code st -> rw s = Some w -> wroteHeader w = false -> agrees s ->
  let '(s', o) := sendProblem c r (Problem.NewProblem st detail) s in
  o = Returned /\ agrees s' /\ info s' = info s /\ obs s' = obs s /\ is_Some (rw s') /\
  wire (net s') = Some (st, <["Content-Type"%string := Problem.ProblemContentType]> (header (net s))).
Proof.
  intros Hc Hw Hh Hag. unfold sendProblem. set (q := Problem.Build_request _ _ _).
  assert (Hst : 100 <= st <= 999) by (destruct Hc as [Hc _]; unfold invalid_code in Hc; zbool; lia).
  destruct (new_problem_written q st detail Hst) as [doc Hdoc]. rewrite Hdoc. cbn [Problem.body Problem.code Problem.content_type].
  set (l := [_; _; _]).
  assert (Hl : Forall final_action l) by (subst l; repeat constructor; apply Hc).
  pose proof (perform_agrees l Returned s Hl Hag ltac:(eauto)) as [H1 H2].
  pose proof (perform_frame l Returned s) as (F1 & F2 & F3).
  assert (Hwire : wire (net (perform l Returned s).1) = Some (st, <["Content-Type"%string := Problem.ProblemContentType]> (header (net s)))).
  { subst l. destruct Hc as [Hv Hi]. unfold agrees in Hag. rewrite Hw, Hh in Hag. destruct Hag as [_ Hn].
    cbn [perform act]. unfold WriteHeader. cbn [rw set_net]. rewrite Hw, Hh. unfold net_WriteHeader.
    cbn [net set_net set_rw net_SetHeader wire header hints sent]. rewrite Hn, Hv, Hi. cbn. done. }
  destruct (perform l Returned s) as [s' o]. cbn in *. split_and!; eauto.
Qed.

Lemma sendProblem_frame (c : context) (r : request) (st : Z) (detail : string) (s : state) :
  let s' := (sendProblem c r (Problem.NewProblem st detail) s).1 in
  info s' = info s /\ obs s' = obs s /\ (is_Some (rw s) -> is_Some (rw s')).
Proof. apply perform_frame. Qed.

(** *** What passes through the inner chain *)

Definition same_accounts (s s' : state) : Prop :=
  access (obs s') = access (obs s) /\ total (obs s') = total (obs s) /\ inFlight (obs s') = inFlight (obs s) /\
  spans (obs s') = spans (obs s).

(** With [strict], also that the wrapper agrees with the wire. *)
Definition inv (strict : bool) (s : state) : Prop := if strict then agrees s else True.

(** A handler that keeps the invariant, leaves the request its info and its writer,
    and writes no access line, count or span of its own. *)
Definition keeps (strict : bool) (h : handler) : Prop :=
  forall c r s, wrapped s -> inv strict s ->
  let s' := (h c r s).1 in wrapped s' /\ inv strict s' /\ same_accounts s s'.
Definition transparent (strict : bool) (mw : Middleware) : Prop := forall h, keeps strict h -> keeps strict (mw h).

(** Every program of the service uses final statuses. *)
Definition programs_final : Prop :=
  forall r pattern program c, mux r = Matched pattern program -> Forall final_action (program c).1.

Lemma same_accounts_trans (s1 s2 s3 : state) : same_accounts s1 s2 -> same_accounts s2 s3 -> same_accounts s1 s3.
Proof. unfold same_accounts. intros (?&?&?&?) (?&?&?&?). split_and!; congruence. Qed.

Lemma sendProblem_keeps (strict : bool) (c : context) (r : request) (st : Z) (detail : string) (s : state) :
  wrapped s -> inv strict s -> final_code st ->
  let s' := (sendProblem c r (Problem.NewProblem st detail) s).1 in wrapped s' /\ inv strict s' /\ same_accounts s s'.
Proof.
  intros [Hi Hw] HI Hc. pose proof (sendProblem_frame c r st detail s) as (F1 & F2 & F3). cbn zeta in *.
  split_and!; [split; [by rewrite F1|auto]| |unfold same_accounts; by rewrite F2].
  destruct strict; [|done]. unfold sendProblem. set (q := Problem.Build_request _ _ _).
  assert (Hst : 100 <= st <= 999) by (destruct Hc as [Hc _]; unfold invalid_code in Hc; zbool; lia).
  destruct (new_problem_written q st detail Hst) as [doc ->]. apply perform_agrees; [|done|done].
  repeat constructor; apply Hc.
Qed.

Lemma route_keeps (strict : bool) : (strict = true -> programs_final) -> keeps strict route.
Proof.
  intros Hp c r s Hws HI. pose proof Hws as [Hi Hw]. unfold route.
  destruct (mux r) as [pattern program|allow| |loc|] eqn:Hm.
  - destruct (program c) as [l o] eqn:Hl. pose proof (perform_frame l o s) as (F1 & F2 & F3).
    assert (Ha : inv strict (perform l o s).1).
    { destruct strict; [|done]. apply perform_agrees; [|done|done].
      pose proof (Hp eq_refl r pattern program c Hm) as H. by rewrite Hl in H. }
    destruct (perform l o s) as [s1 o1]. cbn in *. split_and!.
    + split; cbn; [rewrite F1; destruct Hi as [i ->]; eauto|auto].
    + by destruct strict.
    + unfold same_accounts. cbn. by rewrite F2.
  - cbn [headerProbe Z.eqb]. destruct (String.eqb allow ""); [by apply sendProblem_keeps|].
    apply (sendProblem_keeps strict _ _ _ _ (set_net _ s)); [done|by destruct strict|done].
  - by apply sendProblem_keeps.
  - by apply sendProblem_keeps.
  - by apply sendProblem_keeps.
Qed.

Lemma recovery_transparent (strict : bool) : transparent strict recovery.
Proof.
  intros h Hk c r s Hw HI. unfold recovery. pose proof (Hk c r s Hw HI) as (H1 & H2 & H3). cbn zeta in *.
  destruct (h c r s) as [s1 [|[|text]]]; cbn [fst] in *.
  - done.
  - split_and!; [|by destruct strict|done]. destruct H1 as [[i Hi] Hr]. split; cbn; [rewrite Hi; by eauto|done].
  - assert (Hn : inv strict (note_panic text s1)) by (by destruct strict).
    destruct (sendProblem_keeps strict c r 500 "internal error" (note_panic text s1) H1 Hn ltac:(done)) as (P1 & P2 & P3).
    pose proof (same_accounts_trans s (note_panic text s1) _ H3 P3) as P4.
    destruct (info _); [destruct (rw _) as [w|]; [destruct (wroteHeader w)|]|]; done.
Qed.

Lemma bodyLimit_transparent (strict : bool) : transparent strict bodyLimit.
Proof. intros h Hk c r s Hw HI. unfold bodyLimit. destruct (has_body r); by apply Hk. Qed.

Lemma inner_keeps (strict : bool) (outer : list Middleware) :
  (strict = true -> programs_final) -> Forall (transparent strict) outer ->
  keeps strict (foldr (fun (mw : Middleware) h => mw h) (recovery (bodyLimit route)) outer).
Proof.
  intros Hp. induction 1 as [|mw outer Hmw Ho IH]; cbn; [|by apply Hmw].
  apply recovery_transparent, bodyLimit_transparent. by apply route_keeps.
Qed.

(** What one request adds to what the operators see, before ([o]) and after. *)
Definition accounted (r : request) (o : observed) (s : state) : Prop :=
  exists i w x, info s = Some i /\ rw s = Some w /\
    let st := status (info s) (rw s) (gone r) in
    let lv := access_level (SlowRequest cfg) st (latency r) in
    total (obs s) = total o ++ [(methodLabel (Method r), routeLabel (info s), st)] /\
    access (obs s) = access o ++
      [{| l_level := lv.1; l_msg := lv.2; l_route := routeLabel (info s); l_status := st; l_bytes := bytes_ w;
          l_client := clientIP i |}] /\
    inFlight (obs s) = inFlight o /\ spans (obs s) = spans o ++ [x].

Lemma inv_obs (strict : bool) (s : state) (o : observed) : inv strict s -> inv strict (set_obs o s).
Proof. by destruct strict. Qed.

Lemma outer_accounted (strict : bool) (h : handler) (c : context) (r : request) (s : state) :
  keeps strict h -> inv strict s -> wrapped s ->
  let s' := (tracing (accessLog (metricsMiddleware h)) c r s).1 in accounted r (obs s) s' /\ inv strict s'.
Proof.
  intros Hk HI Hws. pose proof Hws as [[i0 Hi0] [w0 Hw0]]. unfold tracing, accessLog, metricsMiddleware. rewrite Hi0.
  pose proof (Hk c r (enter_flight s) Hws (inv_obs _ _ _ HI)) as ([[i Hi] [w Hw]] & HI' & Hacc). cbn zeta in *.
  destruct (h c r (enter_flight s)) as [s1 o]. cbn [fst] in *. unfold count_request. cbn [info rw set_obs].
  rewrite Hi, Hw. destruct Hacc as (A1 & A2 & A3 & A4). cbn in A1, A2, A3, A4.
  destruct (access_level _ _ _) as [lv msg] eqn:Hl. unfold accounted.
  destruct o as [|v]; cbn -[status routeLabel]; rewrite Hi, Hw, Hl, A1, A2, A3, A4;
    (split; [|by repeat apply inv_obs]); eexists i, w, _; split_and!; try done; lia.
Qed.

(** The whole chain. *)
Lemma server_accounted (strict : bool) (outer : list Middleware) (c : context) (r : request) (s : state) :
  (strict = true -> programs_final) -> Forall (transparent strict) outer -> wire (net s) = None ->
  let s' := (server_handler outer c r s).1 in accounted r (obs s) s' /\ inv strict s'.
Proof.
  intros Hp Ho Hwire. unfold server_handler, chain. rewrite chain_loop_foldr, take_ge by done.
  unfold server_middlewares. rewrite !foldr_app. cbn [foldr].
  pose proof (inner_keeps strict outer Hp Ho) as Hk. set (h := foldr _ (recovery _) outer) in *.
  unfold entry. set (s0 := {| net := net_SetHeader _ _ _; rw := _; info := _; obs := _ |}).
  assert (Hw0 : wrapped s0) by (split; cbn; eauto).
  assert (HI0 : inv strict s0) by (by destruct strict).
  destruct (String.eqb (DebugToken cfg) ""); cbn [foldr]; [by apply (outer_accounted strict h _ r s0)|].
  unfold debugToken. destruct (_ || _); [by apply (outer_accounted strict h _ r s0)|].
  apply (outer_accounted strict h _ r (set_net _ s0)); [done|by destruct strict|done].
Qed.

(** ** Theorems *)

(** C14: every request leaves one span, one access line and one tick of the request
    counter, and the in-flight gauge as it was, however the handler ends and also
    when a panic passes; line and counter carry the same status and route. When the
    service uses final statuses, that status is the one the client was sent (200 when
    nothing was), or 499 for a connection that was aborted or that the client had
    closed before anything was sent. *)
Theorem every_request_accounted (outer : list Middleware) (c : context) (r : request) (s : state)
    (Hfresh : wire (net s) = None) (Houter : Forall (transparent false) outer) :
  let s' := (server_handler outer c r s).1 in
  accounted r (obs s) s' /\
  (programs_final -> Forall (transparent true) outer -> forall i, info s' = Some i ->
     status (info s') (rw s') (gone r) =
       if aborted i || (bool_decide (wire (net s') = None) && gone r) then statusClientClosedRequest
       else client_status s').
Proof.
  cbn zeta. split; [by apply (server_accounted false)|].
  intros Hp Ho i Hi. destruct (server_accounted true outer c r s ltac:(auto) Ho Hfresh) as [Hacc Hag]. cbn [inv] in Hag.
  destruct Hacc as (i' & w & x & _ & Hw & _). set (s' := (server_handler outer c r s).1) in *.
  unfold status, client_status. rewrite Hi, Hw. unfold agrees in Hag. rewrite Hw in Hag.
  destruct (aborted i); [done|]. cbn [orb]. destruct (wroteHeader w).
  - destruct Hag as (Hz & hs & ->). rewrite (proj2 (Z.eqb_neq _ _) Hz). by rewrite bool_decide_eq_false_2 by done.
  - destruct Hag as [-> ->]. cbn. by destruct (gone r).
Qed.

(** Whatever was sent went through the wrapper: while its header flag is not set, nothing
    was. *)
Definition unsent (s : state) : Prop :=
  match rw s with Some w => wroteHeader w = false -> status_ w = 0 /\ wire (net s) = None | None => True end.

(** That holds after any calls of the writer, informational and refused codes included. *)
Lemma act_unsent (a : action) (s : state) : unsent s -> unsent (act a s).1.
Proof.
  unfold unsent. destruct a as [k v|code|n|]; cbn [act]; unfold Write, Flush, WriteHeader; destruct (rw s) as [w|] eqn:Hw;
    try destruct (wroteHeader w) eqn:Hh; cbn; repeat (destruct (net_WriteHeader _ _) as [? []]; cbn); rewrite ?Hw; cbn; rewrite ?Hw, ?Hh; done.
Qed.

Lemma perform_unsent (l : list action) (o : outcome) (s : state) : unsent s -> unsent (perform l o s).1.
Proof.
  revert s. induction l as [|a l IH]; intros s H; [done|]. cbn. pose proof (act_unsent a s H) as H1.
  destruct (act a s) as [s1 [|v]]; [by apply IH|done].
Qed.

(** C32: a panic in a handler that answers through the wrapped writer becomes a report and,
    while that writer has been told no status, a 500 problem; once it has, nothing more is
    sent, and what the handler sent stands (an informational response or a refused code
    counts as a status here, see [panic_answered_200]). The panic is logged and counted
    once and does not go further. Only [http.ErrAbortHandler] does, with the response
    untouched and the request recorded as 499. *)
Theorem panic_is_contained (next : handler) (c : context) (r : request) (s s1 : state) (v : panic_value) (w : responseWriter)
    (Hrun : next c r s = (s1, Panicked v)) (Hsent : unsent s1) (Hinfo : is_Some (info s1)) (Hw : rw s1 = Some w) :
  let '(s', o) := recovery next c r s in
  match v with
  | ErrAbortHandler => o = Panicked ErrAbortHandler /\ net s' = net s1 /\ obs s' = obs s1 /\
      status (info s') (rw s') (gone r) = statusClientClosedRequest
  | PanicWith text => o = Returned /\ unhandled (obs s') = unhandled (obs s1) + 1 /\
      panics (obs s') = panics (obs s1) ++ [text] /\
      if wroteHeader w then net s' = net s1 /\ rw s' = rw s1
      else agrees s' /\ exists hs, wire (net s') = Some (500, hs) /\ hs !! "Content-Type"%string = Some Problem.ProblemContentType
  end.
Proof.
  unfold recovery. rewrite Hrun. destruct Hinfo as [i Hi]. destruct v as [|text].
  - cbn. rewrite Hi. done.
  - cbn [info rw note_panic set_obs]. rewrite Hi, Hw. destruct (wroteHeader w) eqn:Hh; [done|].
    assert (Hag : agrees s1) by (unfold agrees, unsent in *; rewrite Hw, ?Hh in *; auto).
    pose proof (sendProblem_fresh c r 500 "internal error" (note_panic text s1) w ltac:(done) Hw Hh Hag) as H.
    destruct (sendProblem _ _ _ _) as [s' o]. destruct H as (-> & Hag' & _ & Ho & _ & Hwire).
    rewrite Ho, Hwire. split_and!; try done. eexists. split; [done|]. cbn. apply lookup_insert_eq.
Qed.

(** A request no route matches is answered with a problem document: 404 for an
    unknown path, 405 with the Allow header for a known one under another method. *)
Theorem unmatched_is_problem (c : context) (r : request) (s : state) (w : responseWriter)
    (Hw : rw s = Some w) (Hh : wroteHeader w = false) (Hag : agrees s) :
  match mux r with
  | Matched _ _ => True
  | m =>
      let '(s', o) := route c r s in
      let hs := <["Content-Type"%string := Problem.ProblemContentType]>
        (match m with NotAllowed a => if String.eqb a "" then header (net s) else <["Allow"%string := a]> (header (net s))
                    | _ => header (net s) end) in
      o = Returned /\ wire (net s') = Some ((headerProbe m).1, hs)
  end.
Proof.
  unfold route. destruct (mux r) as [pattern program|allow| |loc|]; [done|..]; cbn [headerProbe Z.eqb fst].
  all: try destruct (String.eqb allow "").
  all: match goal with |- context [sendProblem ?c0 ?r0 (Problem.NewProblem ?st ?d) ?s0] =>
         pose proof (sendProblem_fresh c0 r0 st d s0 w ltac:(done) Hw Hh Hag) as H end.
  all: cbn [Z.eqb String.eqb] in *; destruct (sendProblem _ _ _ _) as [s' o];
       destruct H as (-> & _ & _ & _ & _ & Hwire); done.
Qed.

(** The id of a request is always usable as one, is the client's own choice only
    behind a trusted proxy, and is what the inner chain sees and what the response
    carries. *)
Theorem request_id_settled (next : handler) (c : context) (r : request) (s : state)
    (Hlen : length (random r) = 8%nat) (Hbytes : Forall GoStr.is_byte (random r)) :
  exists c' s', entry next c r s = next c' r s' /\
    ClientAddr.validRequestID (request_id c') = true /\
    (exists i, info s' = Some i /\ id i = request_id c') /\
    header (net s') !! RequestIDHeader = Some (request_id c') /\
    (request_id c' = ClientAddr.newRequestID (random r) \/
     (request_id c' = header_get r RequestIDHeader /\
      ClientAddr.isTrusted (proxies cfg) (ClientAddr.peerAddr ParseAddr SplitHostPort (RemoteAddr r)) = true)).
Proof.
  unfold entry. set (trusted := ClientAddr.isTrusted _ _).
  set (rid := if String.eqb _ "" then _ else _).
  eexists _, _. split; [reflexivity|]. cbn [request_id info net].
  assert (Hrid : ClientAddr.validRequestID rid = true /\
    (rid = ClientAddr.newRequestID (random r) \/ (rid = header_get r RequestIDHeader /\ trusted = true))).
  { subst rid. destruct trusted; cbn [andb].
    - destruct (ClientAddr.validRequestID (header_get r RequestIDHeader)) eqn:Hv.
      + destruct (String.eqb_spec (header_get r RequestIDHeader) ""); [|by auto].
        split; [by apply ClientAddr.newRequestID_valid|by left].
      + split; [by apply ClientAddr.newRequestID_valid|by left].
    - split; [by apply ClientAddr.newRequestID_valid|by left]. }
  destruct Hrid as [H1 H2]. split_and!; [done|by eexists|apply lookup_insert_eq|done].
Qed.

End Server.

(** ** Where the chain and its comments part *)

(** A server whose mux answers everything alike, without proxies or debug token. *)
Definition demo_cfg : Config :=
  {| RequestTimeout := 30 * Go.second; RequestTimeoutMin := Go.second; SlowRequest := Go.second; MaxBodyBytes := 1048576;
     DebugToken := ""; proxies := [] |}.
Definition demo_request : request :=
  {| Method := "GET"; Path := "/tasks"; headers := []; RemoteAddr := "192.0.2.1:4000"; random := [1; 2; 3; 4; 5; 6; 7; 8];
     has_body := false; gone := false; latency := 1 |}.
Definition demo_context : context := {| budget := None; request_id := ""; debug_logging := false; body_limit := None |}.
Definition demo_observed : observed :=
  {| access := []; panics := []; total := []; inFlight := 0; unhandled := 0; spans := []; span_marked := false |}.
Definition demo_state : state :=
  {| net := {| header := ∅; wire := None; hints := []; sent := 0 |}; rw := None; info := None; obs := demo_observed |}.

Definition demo_server (m : muxed) : handler :=
  server_handler (fun _ => ""%string) (fun _ => 1) (fun _ => None) (fun _ => ""%string) (fun _ => None) (fun _ => [])
    (fun _ => m) demo_cfg [].

Definition answers (l : list action) (o : outcome) : muxed := Matched "GET /tasks" (fun _ => (l, o)).

(** The status a request was counted under. *)
Definition counted (s : state) : list Z := (fun k => k.2) <$> total (obs s).

(** "the response status as the client saw it": after an informational response the
    wrapper has its status and ignores the final one. *)
Theorem early_hints_recorded_as_status :
  let s := (demo_server (answers [AWriteHeader 103; AWriteHeader 200] Returned) demo_context demo_request demo_state).1 in
  client_status s = 200 /\ counted s = [103].
Proof. vm_compute. done. Qed.

(** "turns a panic in a handler into a 500 (when nothing was written yet)": a panic
    after an informational response, or of [WriteHeader] itself over an invalid code,
    finds the wrapper's header flag set and writes no 500; the client gets an empty
    200. *)
Theorem panic_answered_200 :
  let s := (demo_server (answers [AWriteHeader 103] (Panicked (PanicWith "boom"))) demo_context demo_request demo_state).1 in
  let s' := (demo_server (answers [AWriteHeader 0] Returned) demo_context demo_request demo_state).1 in
  client_status s = 200 /\ unhandled (obs s) = 1 /\ client_status s' = 200 /\ unhandled (obs s') = 1.
Proof. vm_compute. done. Qed.

(** "Unknown route -> 404": an unknown path the mux would clean first is answered
    with a 301 problem without the Location that would make it one. *)
Theorem unclean_path_redirects_nowhere :
  let s := (demo_server (Uncleaned "/nope") demo_context demo_request demo_state).1 in
  (fun '(code, hs) => (code, (hs : gmap string string) !! "Location"%string)) <$> wire (net s) = Some (301, None).
Proof. vm_compute. reflexivity. Qed.

(** ** Witnesses *)

Lemma every_request_accounted_witness :
  accounted demo_cfg demo_request demo_observed
    (demo_server (answers [AWriteHeader 201] Returned) demo_context demo_request demo_state).1.
Proof.
  refine (proj1 (every_request_accounted _ _ _ _ _ _ _ demo_cfg [] demo_context demo_request demo_state _ _));
    [reflexivity|by apply Forall_nil_2].
Defined.

Definition wrapped_state : state :=
  {| net := net demo_state; rw := Some newResponseWriter;
     info := Some {| id := "r1"; clientIP := ""; route_ := ""; aborted := false |}; obs := demo_observed |}.

(** A handler that sets a header and panics, and one that panics after an early hint. *)
Lemma panic_is_contained_witness :
  let program (l : list action) : handler := fun _ _ s => perform l (Panicked (PanicWith "boom")) s in
  (let '(s', o) := recovery (fun _ => ""%string) (fun _ => 1) (program [ASetHeader "X" "y"]) demo_context demo_request wrapped_state in
   o = Returned /\ unhandled (obs s') = 0 + 1 /\ panics (obs s') = [] ++ ["boom"%string] /\
   agrees s' /\ exists hs, wire (net s') = Some (500, hs) /\ hs !! "Content-Type"%string = Some Problem.ProblemContentType) /\
  (let '(s', o) := recovery (fun _ => ""%string) (fun _ => 1) (program [AWriteHeader 103]) demo_context demo_request wrapped_state in
   o = Returned /\ unhandled (obs s') = 0 + 1 /\ panics (obs s') = [] ++ ["boom"%string] /\
   net s' = net (act (AWriteHeader 103) wrapped_state).1 /\ rw s' = rw (act (AWriteHeader 103) wrapped_state).1).
Proof.
  intros program.
  assert (Hun : forall l, unsent (program l demo_context demo_request wrapped_state).1) by (intros l; by apply perform_unsent).
  split.
  - exact (panic_is_contained (fun _ => ""%string) (fun _ => 1) (program [ASetHeader "X" "y"]) demo_context demo_request wrapped_state
             (program [ASetHeader "X" "y"] demo_context demo_request wrapped_state).1 (PanicWith "boom") _
             eq_refl (Hun [ASetHeader "X" "y"]) (ex_intro _ _ eq_refl) eq_refl).
  - exact (panic_is_contained (fun _ => ""%string) (fun _ => 1) (program [AWriteHeader 103]) demo_context demo_request wrapped_state
             (program [AWriteHeader 103] demo_context demo_request wrapped_state).1 (PanicWith "boom") _
             eq_refl (Hun [AWriteHeader 103]) (ex_intro _ _ eq_refl) eq_refl).
Defined.

Lemma unmatched_is_problem_witness :
  let '(s', o) := route (fun _ => ""%string) (fun _ => 1) (fun _ => NotAllowed "GET, HEAD") demo_context demo_request wrapped_state in
  o = Returned /\ wire (net s') =
    Some (405, <["Content-Type"%string := Problem.ProblemContentType]> (<["Allow"%string := "GET, HEAD"%string]> ∅)).
Proof.
  exact (unmatched_is_problem (fun _ => ""%string) (fun _ => 1) (fun _ => NotAllowed "GET, HEAD") demo_context demo_request
           wrapped_state newResponseWriter eq_refl eq_refl (conj eq_refl eq_refl)).
Defined.

Lemma request_id_settled_witness :
  exists c' s', entry (fun _ => None) (fun _ => ""%string) (fun _ => None) demo_cfg (fun _ _ s => (s, Returned))
                  demo_context demo_request demo_state = (s', Returned) /\
    ClientAddr.validRequestID (request_id c') = true.
Proof.
  destruct (request_id_settled (fun _ => None) (fun _ => ""%string) (fun _ => None) demo_cfg (fun _ _ s => (s, Returned))
              demo_context demo_request demo_state eq_refl) as (c' & s' & H1 & H2 & _).
  - repeat constructor; unfold GoStr.is_byte; lia.
  - exists c', s'. split; [exact H1|exact H2].
Defined.

End Middleware.
