(* ===== verification/Redact.v ===== *)
(** What an operator is shown of a configuration (libs/httpx/redact.go): the walk over a
    value that replaces secrets, the masking of passwords inside strings, and that the
    result does not depend on them. *)
From S2P Require Import Prelude GoStr GoRegexp GoReflect.

(** * Strings *)

Module RedactURL.
Import GoStr Regexp.

Definition redactedValue : string := "[redacted]".

(** (?i): the texts are folded before they are searched. *)
Definition secretFieldName : re :=
  alts [word "password"; word "passwd"; word "pwd"; word "secret"; word "token";
        Cat (word "api") (Cat (opt (one_of "_-")) (word "key"));
        Cat (word "private") (Cat (opt (one_of "_.-")) (word "key"));
        word "credential"; word "dsn"; word "auth"; word "cert";
        Cat (word "key") (Cat (opt (one_of "_.-")) (word "pem"));
        word "keystore"; word "passphrase"].

Definition secret_name (s : string) : bool := search secretFieldName (fold (bytes s)).

(** Anchored at both ends; the dot is no line break. *)
Definition secretParam : re :=
  Cat (Star (Class (fun c => negb (c =? 10))))
      (alts [word "password"; word "passwd"; word "pwd"; word "secret"; word "token";
             Cat (word "api") (Cat (opt (one_of "_-")) (word "key"));
             Cat (word "private") (Cat (opt (one_of "_-")) (word "key"));
             word "credential"; word "sslkey"; word "auth"]).

Definition secret_param (s : string) : bool := matches secretParam (fold (bytes s)).

(** ** A URL net/url rejects *)

Fixpoint span_not (stop : list Z) (p : list Z) : list Z * list Z :=
  match p with
  | [] => ([], [])
  | c :: q => if bool_decide (c ∈ stop) then ([], p) else let '(a, b) := span_not stop q in (c :: a, b)
  end.

(** The text after the last [@] of the first line, if there is one. *)
Fixpoint after_last_at (p : list Z) : option (list Z) :=
  match p with
  | [] => None
  | c :: q =>
      if c =? 10 then None
      else match after_last_at q with
           | Some r => Some r
           | None => if c =? 64 then Some q else None
           end
  end.

(** A scheme, [://], a user, [:], and everything to the last [@]: what is in front of the
    password, and what follows the match. *)
Definition rawUserinfo (p : list Z) : option (list Z * list Z) :=
  let '(scheme, r) := span_not (bytes ":/?#") p in
  match scheme, r with
  | _ :: _, 58 :: 47 :: 47 :: r =>
      let '(user, r) := span_not (bytes ":@/?#") r in
      match r with
      | 58 :: r => rest ← after_last_at r; Some (scheme ++ bytes "://" ++ user, rest)
      | _ => None
      end
  | _, _ => None
  end.

(** ** A keyword DSN *)

Definition is_word (c : option Z) : bool :=
  match c with Some c => in_range c 97 122 || in_range c 65 90 || is_digit c || (c =? 95) | None => false end.
Definition is_space (c : Z) : bool := bool_decide (c ∈ [9; 10; 12; 13; 32]).

(** A keyword in front, whatever its case: its text and what follows. *)
Fixpoint match_word (w p : list Z) : option (list Z * list Z) :=
  match w with
  | [] => Some ([], p)
  | x :: w =>
      match p with
      | c :: q =>
          if lower_byte c =? x then '(t, r) ← match_word w q; Some (c :: t, r)
          else if (x =? 115) && (c =? 0xC5) then
            match q with
            | 0xBF :: q => '(t, r) ← match_word w q; Some (0xC5 :: 0xBF :: t, r)
            | _ => None
            end
          else None
      | [] => None
      end
  end.

(** A quoted value after its opening quote: what follows the closing one. *)
Fixpoint quoted (p : list Z) : option (list Z) :=
  match p with
  | [] => None
  | 39 :: q => Some q
  | 92 :: q => match q with c :: q => if c =? 10 then None else quoted q | [] => None end
  | _ :: q => quoted q
  end.

Fixpoint skip_nonspace (p : list Z) : list Z :=
  match p with
  | c :: q => if is_space c then p else skip_nonspace q
  | [] => []
  end.

Definition bare (p : list Z) : option (list Z) :=
  match p with c :: _ => if is_space c then None else Some (skip_nonspace p) | [] => None end.

(** The value of a pair: quoted if it can be, else everything up to a space. *)
Definition dsn_value (p : list Z) : option (list Z) :=
  match p with
  | 39 :: q => match quoted q with Some r => Some r | None => bare p end
  | _ => bare p
  end.

Definition dsn_words : list (list Z) := bytes <$> ["password"; "passwd"; "pwd"; "sslpassword"].

(** One keyword tried at this place. *)
Definition dsn_try (w p : list Z) : option (list Z * list Z) :=
  match match_word w p with
  | Some (t, 61 :: r) => rest ← dsn_value r; Some (t, rest)
  | _ => None
  end.

Definition dsn_pair (prev : option Z) (p : list Z) : option (list Z * list Z) :=
  if xorb (is_word prev) (is_word (head p))
  then foldr (fun w acc => match dsn_try w p with Some x => Some x | None => acc end) None dsn_words
  else None.

(** [ReplaceAllString(s, "$1=[redacted]")]; [prev]: the byte before. *)
Fixpoint dsn_replace (fuel : nat) (prev : option Z) (p : list Z) : list Z :=
  match fuel, p with
  | S fuel, c :: q =>
      match dsn_pair prev p with
      | Some (t, rest) =>
          t ++ bytes "=[redacted]" ++ dsn_replace fuel (last (take (length p - length rest) p)) rest
      | None => c :: dsn_replace fuel (Some c) q
      end
  | _, _ => []
  end.

Fixpoint dsn_found (prev : option Z) (p : list Z) : bool :=
  match p with
  | [] => false
  | c :: q => match dsn_pair prev p with Some _ => true | None => dsn_found (Some c) q end
  end.

(** ** redactURL *)

(** A URL as net/url parses it: its user with a password or without, its raw query, and
    the rest. *)
Record url := { User : option (string * option string); RawQuery : string; u_rest : string }.

Section NetURL.
(** [url.Parse], [URL.String], [ParseQuery] and [Values.Encode]. *)
Context (Parse : string -> option url) (URLString : url -> string).
Context (Query : string -> gmap string (list string)) (Encode : gmap string (list string) -> string).

Definition mask_user (u : option (string * option string)) : option (string * option string) :=
  match u with Some (name, Some _) => Some (name, Some "xxxxx") | u => u end.

Definition mask_query (raw : string) : string :=
  if String.eqb raw "" then raw
  else
    let q := Query raw in
    if existsb (fun kv => secret_param kv.1) (map_to_list q)
    then Encode (map_imap (fun k vs => Some (if secret_param k then [redactedValue] else vs)) q)
    else raw.

Definition contains (sub s : string) : bool := search (word sub) (bytes s).

Definition redactURL (s : string) : string :=
  if contains "://" s then
    match Parse s with
    | Some u =>
        if bool_decide (is_Some (User u)) || negb (String.eqb (RawQuery u) "")
        then URLString {| User := mask_user (User u); RawQuery := mask_query (RawQuery u); u_rest := u_rest u |}
        else s
    | None =>
        match rawUserinfo (bytes s) with
        | Some (pre, rest) => of_bytes (pre ++ bytes ":xxxxx@" ++ rest)
        | None => s
        end
    end
  else if contains "=" s && dsn_found None (bytes s)
  then of_bytes (dsn_replace (S (length (bytes s))) None (bytes s))
  else s.
End NetURL.
End RedactURL.

(** * Values *)

Module Redact.
Import GoStr Reflect RedactURL.

(** What is shown: objects are Go maps, written as lists without a key twice. [ODur] is a
    duration's own text. *)
Inductive shown :=
  | ONull
  | OTime (t : Z)
  | OObj (kvs : list (string * shown))
  | OList (l : list shown)
  | OBytes (b : string)
  | OStr (s : string)
  | ODur (d : Z)
  | ONum (n : Z).

(** [m[k] = v] *)
Fixpoint put (k : string) (v : shown) (m : list (string * shown)) : list (string * shown) :=
  match m with
  | [] => [(k, v)]
  | kv :: m => if String.eqb kv.1 k then (k, v) :: m else kv :: put k v m
  end.
Definition put_all (kvs m : list (string * shown)) : list (string * shown) := foldl (fun m kv => put kv.1 kv.2 m) m kvs.

Definition entries (o : shown) : list (string * shown) := match o with OObj kvs => kvs | _ => [] end.

Definition named (n : string) : bool := negb (String.eqb n "").

Definition hasNameTag (f : field) : bool :=
  existsb (fun tag => named (tag_name tag) && negb (String.eqb (tag_name tag) "-")) [tag_yaml f; tag_json f].

Definition fieldName (f : field) : string :=
  if named (tag_name (tag_yaml f)) then tag_name (tag_yaml f)
  else if named (tag_name (tag_json f)) then tag_name (tag_json f) else f_Name f.

Definition skipped (f : field) : bool := negb (f_exported f) || String.eqb (fieldName f) "-".

(** An embedded struct without a name of its own: its fields are inlined. *)
Definition inlined (f : field) (v : value) : bool := f_Anonymous f && is_struct v && negb (hasNameTag f).

Definition field_secret (inherited : bool) (f : field) : bool :=
  if String.eqb (tag_secret f) "true" then true
  else if String.eqb (tag_secret f) "false" then false
  else inherited || secret_name (f_Name f).

Section Walk.
Context (redactURL : string -> string).

Fixpoint redactValue (secret : bool) (v : value) {struct v} : shown :=
  match v with
  | VNil _ => ONull
  | VPtr v => redactValue secret v
  | VTime t => OTime t
  | VStruct fs =>
      OObj ((fix redactStruct (fs : list (field * value)) (out : list (string * shown)) :=
        match fs with
        | [] => out
        | (f, v) :: fs =>
            if skipped f then redactStruct fs out
            else if inlined f v then
              redactStruct fs (put_all (entries (redactValue secret v)) out)
            else redactStruct fs (put (fieldName f) (redactValue (field_secret secret f) v) out)
        end) fs [])
  | VSeq l => OList (map (redactValue secret) l)
  | VBytes b => if secret && named b then OStr redactedValue else OBytes b
  | VMap m =>
      OObj ((fix go (m : list (string * value)) (out : list (string * shown)) :=
        match m with
        | [] => out
        | (k, v) :: m => go m (put k (redactValue (secret || secret_name k) v) out)
        end) m [])
  | VStr s => if secret then if String.eqb s "" then OStr "" else OStr redactedValue else OStr (redactURL s)
  | VDur d => ODur d
  | VNum n => if secret && negb (n =? 0) then OStr redactedValue else ONum n
  end.

(** [Redact]; [None] is a nil interface. *)
Definition Redact (v : option value) : shown :=
  match v with None => ONull | Some v => redactValue false v end.

End Walk.
End Redact.

(** * What is secret *)

(** The rule, apart from how the code finds it. A name is secret when one of these words is in
    it, whatever its case; so is a query parameter that ends with one, and a keyword of a DSN
    that is one. [secret:"true"] makes a field secret and [secret:"false"] does not; what is
    below something secret is secret, unless a field opts out. *)
Module Policy.
Import GoStr Reflect.

Definition secret_words : list string :=
  ["password"; "passwd"; "pwd"; "secret"; "token"; "apikey"; "api_key"; "api-key";
   "privatekey"; "private_key"; "private-key"; "private.key"; "credential"; "dsn"; "auth"; "cert";
   "keypem"; "key_pem"; "key-pem"; "key.pem"; "keystore"; "passphrase"].
Definition param_words : list string :=
  ["password"; "passwd"; "pwd"; "secret"; "token"; "apikey"; "api_key"; "api-key";
   "privatekey"; "private_key"; "private-key"; "credential"; "sslkey"; "auth"].
Definition dsn_keywords : list string := ["password"; "passwd"; "pwd"; "sslpassword"].

Definition infix (w p : list Z) : bool :=
  existsb (fun i => bool_decide (take (length w) (drop i p) = w)) (seq 0 (S (length p))).
Definition suffix (w p : list Z) : bool := bool_decide (drop (length p - length w) p = w).

Definition name_secret (s : string) : bool := existsb (fun w => infix (bytes w) (fold (bytes s))) secret_words.
Definition param_secret (s : string) : bool :=
  existsb (fun w => suffix (bytes w) (fold (bytes s))) param_words && negb (bool_decide (10 ∈ fold (bytes s))).
Definition keyword_secret (k : list Z) : bool := existsb (fun w => bool_decide (lower_byte <$> k = bytes w)) dsn_keywords.

(** A field that is not shown at all, and an embedded struct whose fields stand for it. *)
Definition no_field (f : field) : Prop :=
  f_exported f = false \/ tag_name (tag_yaml f) = "-" \/ (tag_name (tag_yaml f) = "" /\ tag_name (tag_json f) = "-").
Definition unnamed (tag : string) : Prop := tag_name tag = "" \/ tag_name tag = "-".
Definition embedded (f : field) (v : value) : Prop :=
  f_Anonymous f = true /\ is_struct v = true /\ unnamed (tag_yaml f) /\ unnamed (tag_json f).

Definition below (above : bool) (f : field) : bool :=
  if decide (tag_secret f = "true") then true
  else if decide (tag_secret f = "false") then false
  else above || name_secret (f_Name f).

(** Two values that differ only where they are secret, and there only in more than whether
    something is set; in open strings only as [low] allows. Times and durations do not
    differ, nor does an embedded struct for its own name or tag: they are always shown. *)
Section Alike.
Context (low : string -> string -> Prop).

Definition both_set (s t : string) : Prop := s = "" <-> t = "".

Fixpoint alike (secret : bool) (v w : value) {struct v} : Prop :=
  match v, w with
  | VNil _, VNil _ => True
  | VPtr v, VPtr w => alike secret v w
  | VTime t, VTime u => t = u
  | VStruct fs, VStruct gs =>
      (fix go (fs gs : list (field * value)) : Prop :=
        match fs, gs with
        | [], [] => True
        | (f, v) :: fs, (g, w) :: gs =>
            f = g /\ is_struct v = is_struct w /\
            (no_field f \/ (embedded f v /\ alike secret v w) \/ (~ embedded f v /\ alike (below secret f) v w)) /\ go fs gs
        | _, _ => False
        end) fs gs
  | VSeq l, VSeq k =>
      (fix go (l k : list value) : Prop :=
        match l, k with [], [] => True | v :: l, w :: k => alike secret v w /\ go l k | _, _ => False end) l k
  | VBytes b, VBytes c => if secret then both_set b c else b = c
  | VMap m, VMap n =>
      (fix go (m n : list (string * value)) : Prop :=
        match m, n with
        | [], [] => True
        | (k, v) :: m, (j, w) :: n => k = j /\ alike (secret || name_secret k) v w /\ go m n
        | _, _ => False
        end) m n
  | VStr s, VStr t => if secret then both_set s t else low s t
  | VDur d, VDur e => d = e
  | VNum n, VNum m => if secret then (n = 0 <-> m = 0) else n = m
  | _, _ => False
  end.
End Alike.

(** ** The code finds what the rule names *)

Lemma infix_spec (w p : list Z) : infix w p = true -> exists u v, p = u ++ w ++ v.
Proof.
  unfold infix. intros (i & _ & H%bool_decide_eq_true)%existsb_exists. exists (take i p), (drop (length w) (drop i p)).
  assert (E : w ++ drop (length w) (drop i p) = drop i p) by (rewrite <- H at 1; apply take_drop).
  rewrite E. by rewrite take_drop.
Qed.

Lemma suffix_spec (w p : list Z) : suffix w p = true -> exists u, p = u ++ w.
Proof. intros H%bool_decide_eq_true. exists (take (length p - length w) p). rewrite <- H at 2. by rewrite take_drop. Qed.

Lemma name_found (s : string) : name_secret s = true -> RedactURL.secret_name s = true.
Proof.
  intros (w & Hw & (u & v & Hp)%infix_spec)%existsb_exists. apply Regexp.search_spec. exists u, (bytes w), v. split; [done|].
  apply Regexp.matches_spec. clear Hp. revert w Hw.
  refine (proj1 (List.Forall_forall (fun w => Regexp.matches RedactURL.secretFieldName (bytes w) = true) secret_words) _).
  repeat constructor; vm_compute; reflexivity.
Qed.

Lemma star_class (f : Z -> bool) (u : list Z) : Forall (fun c => f c = true) u -> Regexp.lang (Regexp.Star (Regexp.Class f)) u.
Proof. induction 1 as [|c u Hc _ IH]; [constructor|]. apply (Regexp.lang_star_app _ [c]); [by constructor|done]. Qed.

Lemma param_found (s : string) : param_secret s = true -> RedactURL.secret_param s = true.
Proof.
  intros [(w & Hw & (u & Hp)%suffix_spec)%existsb_exists Hn]%andb_true_iff. apply negb_true_iff in Hn. apply bool_decide_eq_false in Hn.
  apply Regexp.matches_spec. rewrite Hp. apply Regexp.lang_cat.
  - apply star_class, Forall_forall. intros c Hc. apply negb_true_iff, Z.eqb_neq. intros ->. apply Hn. rewrite Hp. set_solver.
  - apply Regexp.matches_spec. clear Hp Hn. unfold param_words in Hw. repeat (destruct Hw as [<-|Hw]; [vm_compute; reflexivity|]). destruct Hw.
Qed.

Lemma below_found (above inherited : bool) (f : field) :
  (above = true -> inherited = true) -> below above f = true -> Redact.field_secret inherited f = true.
Proof.
  unfold below, Redact.field_secret. intros Hi. destruct (decide (tag_secret f = "true")) as [->|Ht]; [done|].
  rewrite (proj2 (String.eqb_neq _ _) Ht). destruct (decide (tag_secret f = "false")) as [->|Hf]; [done|].
  rewrite (proj2 (String.eqb_neq _ _) Hf). intros [H|H]%orb_true_iff; apply orb_true_iff; [left; auto|right; by apply name_found].
Qed.

Lemma no_field_skipped (f : field) : no_field f -> Redact.skipped f = true.
Proof.
  unfold no_field, Redact.skipped, Redact.fieldName, Redact.named. intros [->|[->|[-> ->]]]; [done|apply orb_true_r..].
Qed.

Lemma embedded_inlined (f : field) (v : value) : embedded f v <-> Redact.inlined f v = true.
Proof.
  unfold embedded, unnamed, Redact.inlined, Redact.hasNameTag, Redact.named. cbn.
  destruct (f_Anonymous f), (is_struct v); cbn; try naive_solver.
  destruct (String.eqb_spec (tag_name (tag_yaml f)) ""), (String.eqb_spec (tag_name (tag_yaml f)) "-"),
    (String.eqb_spec (tag_name (tag_json f)) ""), (String.eqb_spec (tag_name (tag_json f)) "-"); cbn; naive_solver.
Qed.

(** ** What is alike is shown the same *)

Section Shown.
Context (low : string -> string -> Prop) (mask : string -> string).
Context (low_masked : forall s t, low s t -> mask s = mask t) (low_set : forall s t, low s t -> both_set s t).

Lemma shown_string (flag : bool) (s t : string) :
  both_set s t -> (flag = false -> mask s = mask t) ->
  (if flag then if String.eqb s "" then Redact.OStr "" else Redact.OStr RedactURL.redactedValue else Redact.OStr (mask s)) =
  (if flag then if String.eqb t "" then Redact.OStr "" else Redact.OStr RedactURL.redactedValue else Redact.OStr (mask t)).
Proof. intros [H1 H2] Hm. destruct flag; [|by rewrite Hm]. destruct (String.eqb_spec s ""), (String.eqb_spec t ""); naive_solver. Qed.

(** [flag] is what the code takes for secret. *)
Lemma alike_shown (v w : value) (secret flag : bool) :
  alike low secret v w -> (secret = true -> flag = true) -> Redact.redactValue mask flag v = Redact.redactValue mask flag w.
Proof.
  revert w secret flag.
  induction v as [k|v IH|t|fs IH|l IH|b|m IH|s|d|n] using value_induction; intros w secret flag H Hf; destruct w as [k'|w|t'|gs|l'|b'|m'|s'|d'|n'];
    try done; cbn [alike Redact.redactValue] in *.
  - by eapply IH.
  - by subst.
  - f_equal. generalize (@nil (string * Redact.shown)). revert gs H.
    induction IH as [|[f v] fs Hv _ IHfs]; intros [|[g w] gs] H out; try done.
    destruct H as (<- & Hs & Hvw & H). cbn [snd] in Hv. destruct (Redact.skipped f) eqn:Hskip; [by apply IHfs|].
    assert (Hin : Redact.inlined f w = Redact.inlined f v) by (unfold Redact.inlined; by rewrite Hs). rewrite Hin.
    destruct Hvw as [Hno%no_field_skipped|[[Hemb%embedded_inlined Hvw]|[Hemb Hvw]]]; [congruence|..].
    + rewrite Hemb, (Hv _ _ _ Hvw Hf). by apply IHfs.
    + rewrite embedded_inlined, not_true_iff_false in Hemb. rewrite Hemb, (Hv _ _ (Redact.field_secret flag f) Hvw); [by apply IHfs|]. by apply below_found.
  - f_equal. revert l' H. induction IH as [|v l Hv _ IHl]; intros [|w l'] H; try done.
    destruct H as [Hvw H]. cbn. by rewrite (Hv _ _ _ Hvw Hf), (IHl _ H).
  - destruct secret; [|by subst]. rewrite Hf by done. unfold both_set, Redact.named in *. cbn.
    destruct (String.eqb_spec b ""), (String.eqb_spec b' ""); naive_solver.
  - f_equal. generalize (@nil (string * Redact.shown)). revert m' H.
    induction IH as [|[k v] m Hv _ IHm]; intros [|[j w] m'] H out; try done.
    destruct H as (<- & Hvw & H). cbn [snd] in Hv. rewrite (Hv _ _ (flag || RedactURL.secret_name k) Hvw); [by apply IHm|].
    intros [Hs|Hs%name_found]%orb_true_iff; apply orb_true_iff; auto.
  - destruct secret; [rewrite Hf by done; by apply (shown_string true)|]. apply shown_string; auto.
  - by subst.
  - destruct secret; [|by subst]. rewrite Hf by done. cbn. destruct (Z.eqb_spec n 0), (Z.eqb_spec n' 0); naive_solver.
Qed.
End Shown.
End Policy.


(** * What the masking of strings hides *)

Module Masking.
Import GoStr RedactURL.

Lemma span_not_app (stop p : list Z) (c : Z) (q : list Z) :
  Forall (fun b => b ∉ stop) p -> c ∈ stop -> span_not stop (p ++ c :: q) = (p, c :: q).
Proof.
  intros Hp Hc. induction Hp as [|b p Hb _ IH]; cbn; [by rewrite bool_decide_eq_true_2|].
  rewrite bool_decide_eq_false_2 by done. by rewrite IH.
Qed.

Lemma after_last_at_none (p : list Z) : 64 ∉ p -> after_last_at p = None.
Proof.
  induction p as [|c p IH]; intros H; [done|]. cbn. destruct (c =? 10); [done|]. rewrite IH by set_solver.
  destruct (Z.eqb_spec c 64); [set_solver|done].
Qed.

Lemma after_last_at_app (p q : list Z) : 10 ∉ p -> 64 ∉ q -> after_last_at (p ++ 64 :: q) = Some q.
Proof.
  intros Hp Hq. induction p as [|c p IH]; cbn; [by rewrite after_last_at_none|].
  destruct (Z.eqb_spec c 10); [set_solver|]. by rewrite IH by set_solver.
Qed.

(** The password of a URL that does not parse is cut out whole. *)
Lemma rawUserinfo_spec (scheme user pw rest : list Z) :
  scheme <> [] -> Forall (fun b => b ∉ bytes ":/?#") scheme -> Forall (fun b => b ∉ bytes ":@/?#") user -> 10 ∉ pw -> 64 ∉ rest ->
  rawUserinfo (scheme ++ bytes "://" ++ user ++ 58 :: pw ++ 64 :: rest) = Some (scheme ++ bytes "://" ++ user, rest).
Proof.
  intros Hs Hsch Huser Hpw Hrest. unfold rawUserinfo. change (bytes "://") with [58; 47; 47]. cbn [app].
  rewrite span_not_app; [|done|by vm_compute; left]. destruct scheme as [|b scheme]; [done|].
  rewrite span_not_app; [|done|by vm_compute; left]. rewrite after_last_at_app by done. done.
Qed.

(** ** Keyword DSNs *)

Definition dsn_all (prev : option Z) (p : list Z) : list Z := dsn_replace (S (length p)) prev p.

Lemma match_word_length (w p t r : list Z) : match_word w p = Some (t, r) -> p = t ++ r.
Proof.
  revert p t r. induction w as [|x w IH]; intros p t r; cbn; [by intros [= <- <-]|].
  destruct p as [|c q]; [done|]. destruct (lower_byte c =? x).
  - destruct (match_word w q) as [[t' r']|] eqn:E; [|done]. cbn. intros [= <- <-]. by rewrite (IH _ _ _ E).
  - destruct ((x =? 115) && (c =? 0xC5)) eqn:Hs; [|done]. apply andb_prop in Hs as [_ Hc%Z.eqb_eq].
    destruct q as [|d q]; [done|]. destruct (decide (d = 0xBF)) as [->|Hd].
    + destruct (match_word w q) as [[t' r']|] eqn:E; [|done]. cbn. intros [= <- <-]. by rewrite (IH _ _ _ E), Hc.
    + repeat (destruct d as [|d|d]; try done). all: repeat (destruct d as [d|d|]; try done).
Qed.

Lemma skip_nonspace_length (p : list Z) : (length (skip_nonspace p) <= length p)%nat.
Proof. induction p as [|c q IH]; cbn; [done|]. destruct (is_space c); cbn; lia. Qed.

Lemma bare_length (p r : list Z) : bare p = Some r -> (length r < length p)%nat.
Proof.
  unfold bare. destruct p as [|c q]; [done|]. destruct (is_space c) eqn:E; [done|]. intros [= <-]. cbn. rewrite E.
  pose proof (skip_nonspace_length q). lia.
Qed.

Lemma quoted_length (n : nat) (p r : list Z) : (length p <= n)%nat -> quoted p = Some r -> (length r < length p)%nat.
Proof.
  revert p. induction n as [|n IH]; intros p Hn H; destruct p as [|c q]; cbn in Hn; try lia; try done.
  assert (Hq : quoted q = Some r -> (length r < S (length q))%nat).
  { intros Hq. apply IH in Hq; lia. }
  cbn [quoted] in H. destruct (decide (c = 39)) as [->|H1]; [injection H as <-; cbn; lia|].
  destruct (decide (c = 92)) as [->|H2].
  - destruct q as [|d q]; [done|]. destruct (d =? 10); [done|]. apply IH in H; cbn in *; lia.
  - cbn [length]. apply Hq. repeat (destruct c as [|c|c]; try done). all: repeat (destruct c as [c|c|]; try done).
Qed.

Lemma dsn_value_length (p r : list Z) : dsn_value p = Some r -> (length r < length p)%nat.
Proof.
  destruct p as [|c q]; [done|]. destruct (decide (c = 39)) as [->|H1].
  - cbn [dsn_value]. destruct (quoted q) as [x|] eqn:E; [|apply bare_length].
    intros [= <-]. apply (quoted_length (length q)) in E; cbn; lia.
  - intros H. apply bare_length. revert H. cbn [dsn_value].
    repeat (destruct c as [|c|c]; try done). all: repeat (destruct c as [c|c|]; try done).
Qed.

(** The bytes the keywords are made of, and those of a key. *)
Notation key_byte c := (is_word (Some c) = true).

Lemma match_word_text (w p t r : list Z) :
  Forall (fun x => in_range x 97 122 = true) w -> match_word w p = Some (t, r) -> p = t ++ r /\ 61 ∉ t /\ 32 ∉ t.
Proof.
  intros Hw H. split; [by eapply match_word_length|]. revert p t r H.
  induction Hw as [|x w Hx _ IH]; intros p t r; cbn; [intros [= <- <-]; split; apply not_elem_of_nil|].
  destruct p as [|c q]; [done|]. destruct (lower_byte c =? x) eqn:Hc.
  - destruct (match_word w q) as [[t' r']|] eqn:E; [|done]. cbn. intros [= <- <-]. apply IH in E as [H1 H2].
    apply Z.eqb_eq in Hc. subst x. split; apply not_elem_of_cons; (split; [|done]); intros <-; by vm_compute in Hx.
  - destruct ((x =? 115) && (c =? 0xC5)); [|done]. destruct q as [|d q]; [done|]. destruct (decide (d = 0xBF)) as [->|Hd].
    + destruct (match_word w q) as [[t' r']|] eqn:E; [|done]. cbn. intros [= <- <-]. apply IH in E as [H1 H2].
      split; rewrite !not_elem_of_cons; done.
    + repeat (destruct d as [|d|d]; try done). all: repeat (destruct d as [d|d|]; try done).
Qed.

Lemma dsn_words_lower : Forall (Forall (fun x => in_range x 97 122 = true)) dsn_words.
Proof. repeat constructor. Qed.

(** A word is tried only in front of its [=]. *)
Lemma dsn_try_text (w p : list Z) (x : list Z * list Z) :
  w ∈ dsn_words -> dsn_try w p = Some x -> exists r, p = x.1 ++ 61 :: r /\ 61 ∉ x.1 /\ 32 ∉ x.1 /\ dsn_value r = Some x.2.
Proof.
  intros Hw. unfold dsn_try. destruct (match_word w p) as [[t r]|] eqn:E; [|done].
  apply match_word_text in E as (-> & H1 & H2); [|by eapply Forall_forall in Hw; [|apply dsn_words_lower]].
  destruct r as [|d r]; [done|]. destruct (decide (d = 61)) as [->|Hd].
  - destruct (dsn_value r) as [rest|] eqn:Er; [|done]. cbn. intros [= <-]. by exists r.
  - repeat (destruct d as [|d|d]; try done). all: repeat (destruct d as [d|d|]; try done).
Qed.

Lemma dsn_pair_text (prev : option Z) (p : list Z) (x : list Z * list Z) :
  dsn_pair prev p = Some x -> exists r, p = x.1 ++ 61 :: r /\ 61 ∉ x.1 /\ 32 ∉ x.1 /\ dsn_value r = Some x.2.
Proof.
  unfold dsn_pair. destruct (xorb _ _); [|done].
  assert (Hin : forall w, w ∈ dsn_words -> w ∈ dsn_words) by done. revert Hin. generalize dsn_words at 1 3.
  induction l as [|w ws IH]; intros Hin; [done|]. cbn [foldr]. destruct (dsn_try w p) eqn:E.
  - intros [= ->]. eapply dsn_try_text; [|exact E]. apply Hin. set_solver.
  - apply IH. intros v Hv. apply Hin. set_solver.
Qed.

(** ** The replacement, without its fuel *)

Lemma dsn_pair_shorter (prev : option Z) (p t rest : list Z) : dsn_pair prev p = Some (t, rest) -> (length rest < length p)%nat.
Proof.
  intros (r & -> & _ & _ & H)%dsn_pair_text. cbn in H. apply dsn_value_length in H. rewrite length_app. cbn. lia.
Qed.

Lemma dsn_replace_fuel (n m : nat) (prev : option Z) (p : list Z) :
  (length p < n)%nat -> (length p < m)%nat -> dsn_replace n prev p = dsn_replace m prev p.
Proof.
  revert m prev p. induction n as [|n IH]; intros m prev p Hn Hm; [lia|]. destruct m as [|m]; [lia|].
  destruct p as [|c q]; [done|]. cbn [dsn_replace]. cbn [length] in *. destruct (dsn_pair prev (c :: q)) as [[t rest]|] eqn:E.
  - apply dsn_pair_shorter in E. cbn in E. do 2 f_equal. apply IH; lia.
  - f_equal. apply IH; lia.
Qed.

Lemma dsn_all_skip (prev : option Z) (c : Z) (q : list Z) :
  dsn_pair prev (c :: q) = None -> dsn_all prev (c :: q) = c :: dsn_all (Some c) q.
Proof. unfold dsn_all. intros H. cbn [dsn_replace length]. by rewrite H. Qed.

Lemma dsn_all_pair (prev : option Z) (p t rest : list Z) :
  dsn_pair prev p = Some (t, rest) ->
  dsn_all prev p = t ++ bytes "=[redacted]" ++ dsn_all (last (take (length p - length rest) p)) rest.
Proof.
  intros H. pose proof (dsn_pair_shorter _ _ _ _ H). unfold dsn_all at 1. destruct p as [|c q]; [cbn in *; lia|].
  cbn [dsn_replace]. rewrite H. do 2 f_equal. apply dsn_replace_fuel; cbn in *; lia.
Qed.

(** ** Pairs between spaces *)

(** What may follow a pair. *)
Definition ends (rest : list Z) : Prop := match rest with [] => True | c :: _ => c = 32 end.

Lemma no_pair_in_value (prev : option Z) (v rest : list Z) : 61 ∉ v -> ends rest -> dsn_pair prev (v ++ rest) = None.
Proof.
  intros Hv Hr. destruct (dsn_pair prev (v ++ rest)) as [[t u]|] eqn:E; [|done]. exfalso.
  apply dsn_pair_text in E as (r & Hp & H1 & H2 & _). cbn [fst] in *.
  apply app_eq_inv in Hp as [(k & -> & Hk)|(k & -> & Hk)].
  - destruct k as [|d k]; [cbn in Hk; by subst rest|]. cbn in Hk. injection Hk as <- _. set_solver.
  - destruct k as [|d k]; [cbn in Hk; by subst rest|]. subst rest. cbn in Hr. subst d. set_solver.
Qed.

Lemma dsn_all_value (prev : option Z) (v rest : list Z) :
  61 ∉ v -> ends rest -> exists prev', dsn_all prev (v ++ rest) = v ++ dsn_all prev' rest.
Proof.
  revert prev. induction v as [|c v IH]; intros prev Hv Hr; [by exists prev|]. cbn [app].
  rewrite dsn_all_skip by (by apply (no_pair_in_value prev (c :: v))). destruct (IH (Some c)) as [prev' ->]; [set_solver|done|].
  by exists prev'.
Qed.

Lemma dsn_all_space (prev : option Z) (q : list Z) : dsn_all prev (32 :: q) = 32 :: dsn_all (Some 32) q.
Proof. apply dsn_all_skip, (no_pair_in_value prev []); [apply not_elem_of_nil|done]. Qed.

(** Inside a key nothing starts, and neither does it at its [=]. *)
Lemma dsn_all_key (c : Z) (k q : list Z) :
  key_byte c -> Forall (fun c => key_byte c) k -> dsn_all (Some c) (k ++ 61 :: q) = k ++ 61 :: dsn_all (Some 61) q.
Proof.
  intros Hc Hk. revert c Hc. induction Hk as [|d k Hd _ IH]; intros c Hc; cbn [app].
  - apply dsn_all_skip. destruct (dsn_pair (Some c) (61 :: q)) as [[[|t0 t] rest]|] eqn:E; [| |done]; exfalso.
    + revert E. unfold dsn_pair. rewrite Hc. by vm_compute.
    + apply dsn_pair_text in E as (r & Hp & H1 & _). cbn in Hp, H1. injection Hp as <- _. set_solver.
  - rewrite dsn_all_skip; [by rewrite IH|]. unfold dsn_pair. by rewrite Hc; cbn [head]; rewrite Hd.
Qed.

(** ** A pair that is masked *)

Lemma match_word_key (k X : list Z) : match_word (lower_byte <$> k) (k ++ X) = Some (k, X).
Proof. induction k as [|c k IH]; [done|]. cbn. rewrite Z.eqb_refl. by rewrite IH. Qed.

Lemma match_word_lower (w p t r : list Z) :
  Forall (fun c => key_byte c) t -> match_word w p = Some (t, r) -> lower_byte <$> t = w.
Proof.
  intros Ht H. revert p t r Ht H. induction w as [|x w IH]; intros p t r Ht; cbn; [by intros [= <- <-]|].
  destruct p as [|c q]; [done|]. destruct (lower_byte c =? x) eqn:Hc.
  - destruct (match_word w q) as [[t' r']|] eqn:E; [|done]. cbn. intros [= <- <-]. apply Forall_cons in Ht as [_ Ht].
    cbn. apply Z.eqb_eq in Hc. f_equal; [done|by eapply IH].
  - destruct ((x =? 115) && (c =? 0xC5)); [|done]. destruct q as [|d q]; [done|]. destruct (decide (d = 0xBF)) as [->|Hd].
    + destruct (match_word w q) as [[t' r']|] eqn:E; [|done]. cbn. intros [= <- <-]. by apply Forall_cons in Ht as [? _].
    + repeat (destruct d as [|d|d]; try done). all: repeat (destruct d as [d|d|]; try done).
Qed.

Lemma cut_at_eq (t k r X : list Z) : 61 ∉ t -> 61 ∉ k -> t ++ 61 :: r = k ++ 61 :: X -> t = k /\ r = X.
Proof.
  revert k. induction t as [|c t IH]; intros [|d k] Ht Hk; cbn; intros H.
  - injection H as ->. done.
  - injection H as <- _. set_solver.
  - injection H as -> _. set_solver.
  - injection H as -> H. destruct (IH k) as [-> ->]; [set_solver|set_solver|done|done].
Qed.

Lemma key_no_eq (k : list Z) : Forall (fun c => key_byte c) k -> 61 ∉ k.
Proof. intros H Hin. by eapply Forall_forall in H; [|exact Hin]. Qed.

Lemma dsn_try_key (w k X : list Z) :
  w ∈ dsn_words -> Forall (fun c => key_byte c) k ->
  dsn_try w (k ++ 61 :: X) = if bool_decide (lower_byte <$> k = w) then (fun rest => (k, rest)) <$> dsn_value X else None.
Proof.
  intros Hw Hk. destruct (bool_decide_reflect (lower_byte <$> k = w)) as [<-|Hne].
  - unfold dsn_try. rewrite match_word_key. by destruct (dsn_value X).
  - destruct (dsn_try w (k ++ 61 :: X)) as [[t u]|] eqn:E; [|done]. exfalso. apply Hne.
    pose proof E as E'. apply dsn_try_text in E as (r & Hp & H1 & _); [|done]. cbn [fst] in *.
    apply cut_at_eq in Hp as [-> ->]; [|by apply key_no_eq|done].
    revert E'. unfold dsn_try. destruct (match_word w (t ++ 61 :: r)) as [[t' r']|] eqn:Em; [|done].
    pose proof (match_word_length _ _ _ _ Em) as Hlen. destruct r' as [|d r']; [done|].
    destruct (decide (d = 61)) as [->|Hd].
    + destruct (dsn_value r'); [|done]. cbn. intros [= -> ->]. by eapply match_word_lower.
    + repeat (destruct d as [|d|d]; try done). all: repeat (destruct d as [d|d|]; try done).
Qed.

Definition secret_key (k : list Z) : bool := bool_decide ((lower_byte <$> k) ∈ dsn_words).

Lemma dsn_tries_key (ws : list (list Z)) (k X : list Z) :
  (forall w, w ∈ ws -> w ∈ dsn_words) -> Forall (fun c => key_byte c) k ->
  foldr (fun w acc => match dsn_try w (k ++ 61 :: X) with Some x => Some x | None => acc end) None ws =
  if bool_decide ((lower_byte <$> k) ∈ ws) then (fun rest => (k, rest)) <$> dsn_value X else None.
Proof.
  intros Hin Hk. induction ws as [|w ws IH]; [done|]. cbn [foldr].
  rewrite dsn_try_key by (try done; apply Hin; set_solver). rewrite (IH ltac:(set_solver)).
  rewrite !bool_decide_decide. destruct (decide (lower_byte <$> k = w)) as [<-|Hne].
  - rewrite (decide_True (P := _ ∈ _ :: _)) by set_solver. destruct (dsn_value X); [done|]. by destruct (decide _).
  - destruct (decide (_ ∈ ws)); [rewrite (decide_True (P := _ ∈ w :: _)) by set_solver|rewrite (decide_False (P := _ ∈ w :: _)) by set_solver]; done.
Qed.

Lemma dsn_pair_key (prev : option Z) (k X : list Z) :
  is_word prev = false -> k <> [] -> Forall (fun c => key_byte c) k ->
  dsn_pair prev (k ++ 61 :: X) = if secret_key k then (fun rest => (k, rest)) <$> dsn_value X else None.
Proof.
  intros Hp Hne Hk. unfold dsn_pair. replace (is_word (head (k ++ 61 :: X))) with true.
  - rewrite Hp. by apply dsn_tries_key.
  - destruct k as [|c k]; [done|]. by apply Forall_cons in Hk as [? _].
Qed.

(** A value no space ends before [rest] does. *)
Definition plain_value (v : list Z) : Prop := Forall (fun c => is_space c = false) v /\ head v <> Some 39.

(** A value in quotes. *)
Inductive escaped : list Z -> Prop :=
  | escaped_nil : escaped []
  | escaped_plain c body : c <> 39 -> c <> 92 -> escaped body -> escaped (c :: body)
  | escaped_pair c body : c <> 10 -> escaped body -> escaped (92 :: c :: body).
Definition quoted_value (v : list Z) : Prop := exists body, v = 39 :: body ++ [39] /\ escaped body.

Lemma skip_nonspace_app (v rest : list Z) : Forall (fun c => is_space c = false) v -> ends rest -> skip_nonspace (v ++ rest) = rest.
Proof.
  intros Hv Hr. induction Hv as [|c v Hc _ IH]; cbn.
  - destruct rest as [|d rest]; [done|]. cbn in Hr. by subst d.
  - by rewrite Hc.
Qed.

Lemma quoted_body (body rest : list Z) : escaped body -> quoted (body ++ 39 :: rest) = Some rest.
Proof.
  induction 1 as [|c body H1 H2 _ IH|c body Hc _ IH]; [done| |].
  - cbn [app quoted]. repeat (destruct c as [|c|c]; try done). all: repeat (destruct c as [c|c|]; try done).
  - cbn [app quoted]. by rewrite (proj2 (Z.eqb_neq c 10) Hc).
Qed.

Lemma dsn_value_text (v rest : list Z) :
  plain_value v \/ quoted_value v -> ends rest -> dsn_value (v ++ rest) = if bool_decide (v = []) then None else Some rest.
Proof.
  intros [[Hv Hq]|(body & -> & Hb)] Hr; [|rewrite bool_decide_eq_false_2 by done; cbn [app dsn_value]; by rewrite <- app_assoc; cbn [app]; rewrite quoted_body].
  destruct v as [|c v].
  - rewrite bool_decide_eq_true_2 by done. cbn. destruct rest as [|d rest]; [done|]. cbn in Hr. by subst d.
  - rewrite bool_decide_eq_false_2 by done. pose proof (skip_nonspace_app (c :: v) rest Hv Hr) as Hskip.
    apply Forall_cons in Hv as [Hc _]. transitivity (bare ((c :: v) ++ rest)).
    + cbn in Hq |- *. destruct (decide (c = 39)) as [->|Hc']; [done|].
      repeat (destruct c as [|c|c]; try done). all: repeat (destruct c as [c|c|]; try done).
    + unfold bare. cbn [app]. by rewrite Hc; f_equal.
Qed.

(** ** A whole DSN *)

Definition pair_text (kv : list Z * list Z) : list Z := kv.1 ++ 61 :: kv.2.
Fixpoint dsn_text (kvs : list (list Z * list Z)) : list Z :=
  match kvs with
  | [] => []
  | kv :: kvs => pair_text kv ++ match kvs with [] => [] | _ => 32 :: dsn_text kvs end
  end.

(** Keys are words; values have no spaces, or are in quotes; a value that is not secret has
    no [=] in it. *)
Definition keyword_pair (kv : list Z * list Z) : Prop :=
  kv.1 <> [] /\ Forall (fun c => key_byte c) kv.1 /\ (plain_value kv.2 \/ quoted_value kv.2) /\ (Policy.keyword_secret kv.1 = true \/ 61 ∉ kv.2).

Lemma keyword_found (k : list Z) : Policy.keyword_secret k = true -> secret_key k = true.
Proof.
  intros (w & Hw & H%bool_decide_eq_true)%existsb_exists. apply bool_decide_eq_true. rewrite H. unfold Policy.dsn_keywords in Hw.
  repeat (destruct Hw as [<-|Hw]; [apply (bool_decide_unpack _); vm_compute; exact I|]). destruct Hw.
Qed.

Definition mask_pair (kv : list Z * list Z) : list Z * list Z :=
  if secret_key kv.1 && negb (bool_decide (kv.2 = [])) then (kv.1, bytes redactedValue) else kv.

Lemma dsn_all_one (prev : option Z) (kv : list Z * list Z) (rest : list Z) :
  is_word prev = false -> keyword_pair kv -> ends rest ->
  exists prev', dsn_all prev (pair_text kv ++ rest) = pair_text (mask_pair kv) ++ dsn_all prev' rest.
Proof.
  destruct kv as [k v]. intros Hp (Hne & Hk & Hv & Hs0) Hr.
  assert (Hs : secret_key k = true \/ 61 ∉ v) by (destruct Hs0; [left; by apply keyword_found|by right]). unfold pair_text, mask_pair. cbn [fst snd] in *.
  rewrite <- app_assoc. cbn [app]. pose proof (dsn_pair_key prev k (v ++ rest) Hp Hne Hk) as Hpair.
  rewrite dsn_value_text in Hpair by done.
  destruct (secret_key k && negb (bool_decide (v = []))) eqn:Hsec.
  - apply andb_prop in Hsec as [Hsec Hvne]. rewrite Hsec in Hpair. destruct (bool_decide (v = [])); [done|]. cbn in Hpair.
    rewrite (dsn_all_pair _ _ _ _ Hpair). eexists. by rewrite <- app_assoc.
  - assert (Hno : 61 ∉ v).
    { destruct Hs as [Hs|]; [|done]. rewrite Hs in Hsec. destruct (bool_decide_reflect (v = [])) as [->|]; [apply not_elem_of_nil|done]. }
    assert (Hnone : dsn_pair prev (k ++ 61 :: v ++ rest) = None).
    { rewrite Hpair. by destruct (secret_key k), (bool_decide (v = [])). }
    destruct k as [|c k]; [done|]. apply Forall_cons in Hk as [Hc Hk]. cbn [app] in *.
    rewrite dsn_all_skip by done. rewrite dsn_all_key by done. destruct (dsn_all_value (Some 61) v rest Hno Hr) as [prev' ->].
    exists prev'. cbn. by rewrite <- app_assoc.
Qed.

Lemma dsn_all_text (prev : option Z) (kvs : list (list Z * list Z)) :
  is_word prev = false -> Forall keyword_pair kvs -> dsn_all prev (dsn_text kvs) = dsn_text (mask_pair <$> kvs).
Proof.
  intros Hp H. revert prev Hp. induction H as [|kv kvs Hkv _ IH]; intros prev Hp; [done|]. cbn [dsn_text fmap list_fmap].
  destruct (dsn_all_one prev kv (match kvs with [] => [] | _ => 32 :: dsn_text kvs end)) as [prev' ->]; [done|done|by destruct kvs|].
  f_equal. destruct kvs as [|kv' kvs]; [done|]. rewrite dsn_all_space. by rewrite (IH (Some 32)).
Qed.

Lemma dsn_not_found (prev : option Z) (p : list Z) : dsn_found prev p = false -> dsn_all prev p = p.
Proof.
  revert prev. induction p as [|c p IH]; intros prev; [done|]. cbn [dsn_found].
  destruct (dsn_pair prev (c :: p)) as [x|] eqn:E; [done|]. intros H. rewrite dsn_all_skip by done. by rewrite IH.
Qed.

Lemma dsn_found_eq (prev : option Z) (p : list Z) : dsn_found prev p = true -> 61 ∈ p.
Proof.
  revert prev. induction p as [|c p IH]; intros prev; [done|]. cbn [dsn_found].
  destruct (dsn_pair prev (c :: p)) as [x|] eqn:E.
  - intros _. apply dsn_pair_text in E as (r & -> & _). set_solver.
  - intros H%IH. set_solver.
Qed.

(** ** Strings that are shown alike *)

Section Shown.
Context (Parse : string -> option url) (URLString : url -> string).
Context (Query : string -> gmap string (list string)) (Encode : gmap string (list string) -> string).
Notation redactURL := (redactURL Parse URLString Query Encode).

(** The same user, with some password or without one. *)
Definition low_user (u v : option (string * option string)) : Prop :=
  fst <$> u = fst <$> v /\ (is_Some (u ≫= snd) <-> is_Some (v ≫= snd)).

(** The same query, or two with the same parameters that differ in secret ones only. *)
Definition low_query (r r' : string) : Prop :=
  r = r' \/
  (r <> "" /\ r' <> "" /\ (exists k, k ∈ dom (Query r) /\ Policy.param_secret k = true) /\ dom (Query r) = dom (Query r') /\
   forall k, Policy.param_secret k = false -> Query r !! k = Query r' !! k).

(** The same keyword, and the same value unless it is a secret one that is set. *)
Definition low_pair (kv kv' : list Z * list Z) : Prop :=
  kv.1 = kv'.1 /\ (kv.2 = kv'.2 \/ (Policy.keyword_secret kv.1 = true /\ kv.2 <> [] /\ kv'.2 <> [])).

(** Two strings that differ in their secrets only: in the password between a user and the
    last [@] of a URL nothing can parse, in the password or the secret parameters of one
    that parses, in the secret values of a keyword DSN. *)
Inductive low_string : string -> string -> Prop :=
  | low_same s : low_string s s
  | low_raw s t scheme user pw pw' rest :
      Parse s = None -> Parse t = None ->
      bytes s = scheme ++ bytes "://" ++ user ++ 58 :: pw ++ 64 :: rest ->
      bytes t = scheme ++ bytes "://" ++ user ++ 58 :: pw' ++ 64 :: rest ->
      scheme <> [] -> Forall (fun b => b ∉ bytes ":/?#") scheme -> Forall (fun b => b ∉ bytes ":@/?#") user ->
      10 ∉ pw -> 10 ∉ pw' -> 64 ∉ rest -> low_string s t
  | low_url s t u v :
      contains "://" s = true -> contains "://" t = true -> Parse s = Some u -> Parse t = Some v ->
      (is_Some (User u) \/ RawQuery u <> "") ->
      u_rest u = u_rest v -> low_user (User u) (User v) -> low_query (RawQuery u) (RawQuery v) -> low_string s t
  | low_dsn s t kvs kvs' :
      contains "://" s = false -> contains "://" t = false ->
      bytes s = dsn_text kvs -> bytes t = dsn_text kvs' -> Forall keyword_pair kvs -> Forall keyword_pair kvs' ->
      Forall2 low_pair kvs kvs' -> low_string s t.

Lemma contains_spec (sub s : string) : contains sub s = true <-> exists u w, bytes s = u ++ bytes sub ++ w.
Proof.
  unfold contains. rewrite Regexp.search_spec. split.
  - intros (u & v & w & H & ->%Regexp.lang_word). eauto.
  - intros (u & w & H). exists u, (bytes sub), w. split; [done|by apply Regexp.lang_word].
Qed.

(** A keyword DSN is shown with its secret values replaced, and nothing else changed. *)
Lemma dsn_shown (s : string) (kvs : list (list Z * list Z)) :
  contains "://" s = false -> bytes s = dsn_text kvs -> Forall keyword_pair kvs ->
  redactURL s = of_bytes (dsn_text (mask_pair <$> kvs)).
Proof.
  intros Hurl Hs Hkvs. unfold RedactURL.redactURL. rewrite Hurl. rewrite <- (dsn_all_text None) by done. rewrite <- Hs.
  destruct (dsn_found None (bytes s)) eqn:Hf.
  - replace (contains "=" s) with true; [done|]. symmetry. apply contains_spec.
    apply dsn_found_eq in Hf. by apply list_elem_of_split in Hf as (u & w & ->); exists u, w.
  - rewrite andb_false_r, dsn_not_found by done. by rewrite of_bytes_bytes.
Qed.

Lemma mask_user_low (u v : option (string * option string)) : low_user u v -> mask_user u = mask_user v.
Proof.
  intros [Hn Hp]. destruct u as [[n [p|]]|], v as [[n' [p'|]]|]; cbn in *; try done; injection Hn as ->; try done;
    naive_solver eauto using is_Some_None.
Qed.

Lemma has_secret (r : string) :
  existsb (fun kv => secret_param kv.1) (map_to_list (Query r)) = true <-> exists k, k ∈ dom (Query r) /\ secret_param k = true.
Proof.
  rewrite existsb_exists. split.
  - intros ([k vs] & Hin & Hs). apply list_elem_of_In, elem_of_map_to_list in Hin. exists k. split; [by apply elem_of_dom|done].
  - intros (k & [vs Hk]%elem_of_dom & Hs). exists (k, vs). split; [by apply list_elem_of_In, elem_of_map_to_list|done].
Qed.

Lemma mask_query_low (r r' : string) : low_query r r' -> mask_query Query Encode r = mask_query Query Encode r'.
Proof.
  intros [->|(Hr & Hr' & (k0 & Hk0 & Hsec0) & Hdom & Heq0)]; [done|]. unfold mask_query.
  assert (Hsec : exists k, k ∈ dom (Query r) /\ secret_param k = true) by (exists k0; split; [done|by apply Policy.param_found]).
  assert (Heq : forall k, secret_param k = false -> Query r !! k = Query r' !! k).
  { intros k Hk. apply Heq0. destruct (Policy.param_secret k) eqn:E; [|done]. apply Policy.param_found in E. congruence. }
  rewrite (proj2 (String.eqb_neq r "")), (proj2 (String.eqb_neq r' "")) by done.
  rewrite (proj2 (has_secret r)) by done. rewrite (proj2 (has_secret r')) by (by rewrite <- Hdom).
  f_equal. apply map_eq. intros k. rewrite !map_lookup_imap. destruct (secret_param k) eqn:Hk.
  - assert (Hd : k ∈ dom (Query r) <-> k ∈ dom (Query r')) by (by rewrite Hdom). rewrite !elem_of_dom in Hd.
    destruct (Query r !! k), (Query r' !! k); cbn; try done; exfalso; naive_solver eauto using is_Some_None.
  - by rewrite Heq.
Qed.

Lemma low_pairs_masked (kvs kvs' : list (list Z * list Z)) : Forall2 low_pair kvs kvs' -> mask_pair <$> kvs = mask_pair <$> kvs'.
Proof.
  induction 1 as [|[k v] [k' v'] kvs kvs' [Hk Hv] _ IH]; [done|]. cbn [fmap list_fmap fst snd] in *. subst k'. f_equal; [|done].
  destruct Hv as [->|(Hs%keyword_found & H1 & H2)]; [done|]. unfold mask_pair. cbn [fst snd].
  by rewrite Hs, !bool_decide_eq_false_2.
Qed.

(** Strings that are alike are set or not together. *)
Lemma low_string_set (s t : string) : low_string s t -> Policy.both_set s t.
Proof.
  assert (Hc : forall x, contains "://" x = true -> x <> "") by (intros x H ->; by vm_compute in H).
  assert (Hb : forall x (l : list Z), bytes x = l -> l <> [] -> x <> "") by (intros x l <- H ->; done).
  unfold Policy.both_set.
  intros [s'|s' t' sch us pw pw' rest Ps Pt Bs Bt Hne Hsch Hus Hpw Hpw' Hrest|s' t' u v Hs Ht Ps Pt Hsome Hr Hu Hq|s' t' kvs kvs' Hs Ht Bs Bt Hk Hk' Hm].
  - done.
  - pose proof (Hb _ _ Bs). pose proof (Hb _ _ Bt). destruct sch; [done|]. naive_solver.
  - pose proof (Hc _ Hs). pose proof (Hc _ Ht). naive_solver.
  - destruct Hm as [|kv kv' kvs kvs' H1 H2].
    + cbn in Bs, Bt. apply (f_equal of_bytes) in Bs, Bt. rewrite !of_bytes_bytes in *. by subst.
    + pose proof (Hb _ _ Bs). pose proof (Hb _ _ Bt). cbn [dsn_text] in *. unfold pair_text in *. rewrite <- !app_assoc in *.
      assert (Hn : forall a b c : list Z, a ++ 61 :: b ++ c <> []) by (intros [] ? ?; done). naive_solver.
Qed.

Lemma low_string_masked (s t : string) : low_string s t -> redactURL s = redactURL t.
Proof.
  intros [s'|s' t' sch us pw pw' rest Ps Pt Bs Bt Hne Hsch Hus Hpw Hpw' Hrest|s' t' u v Hs Ht Ps Pt Hsome Hr Hu Hq|s' t' kvs kvs' Hs Ht Bs Bt Hk Hk' Hm].
  - done.
  - unfold RedactURL.redactURL. rewrite Ps, Pt, Bs, Bt, !rawUserinfo_spec by done.
    rewrite (proj2 (contains_spec "://" s')), (proj2 (contains_spec "://" t')) by eauto. done.
  - unfold RedactURL.redactURL. rewrite Hs, Ht, Ps, Pt, Hr, (mask_user_low _ _ Hu), (mask_query_low _ _ Hq).
    assert (Hshow : forall w, is_Some (User w) \/ RawQuery w <> "" -> bool_decide (is_Some (User w)) || negb (String.eqb (RawQuery w) "") = true).
    { intros w [Hw|Hw%String.eqb_neq]; [by rewrite bool_decide_eq_true_2|by rewrite Hw, orb_true_r]. }
    rewrite !Hshow; [done| |done]. destruct Hsome as [Hw|Hw].
    + left. destruct Hu as [Hn _]. destruct (User u), (User v); cbn in Hn; done.
    + right. by destruct Hq as [<-|(_ & ? & _)].
  - by rewrite (dsn_shown s' kvs), (dsn_shown t' kvs'), (low_pairs_masked _ _ Hm).
Qed.

(** Values that are alike are shown the same. *)
Lemma low_value_shown (v w : Reflect.value) :
  Policy.alike low_string false v w -> Redact.redactValue redactURL false v = Redact.redactValue redactURL false w.
Proof. intros H. eapply (Policy.alike_shown low_string); [apply low_string_masked|apply low_string_set|exact H|done]. Qed.
End Shown.
End Masking.

(** * What is shown *)

Module Hidden.
Import GoStr Reflect RedactURL Redact Masking.


(** A net/url that parses nothing, and one that knows one address. *)
Definition no_url (_ : string) : option url := None.
Definition no_query (_ : string) : gmap string (list string) := ∅.
Definition show_rest (u : url) : string := u_rest u.
Definition no_encode (_ : gmap string (list string)) : string := "".

Definition a_field (name : string) : field :=
  {| f_Name := name; f_exported := true; f_Anonymous := false; tag_yaml := ""; tag_json := ""; tag_secret := ""; tag_env := ""; tag_envPrefix := "" |}.

(** A configuration with a password field, a tagged number, an address with a password
    and a keyword DSN. *)
Definition pin_field : field :=
  {| f_Name := "Pin"; f_exported := true; f_Anonymous := false; tag_yaml := "pin"; tag_json := ""; tag_secret := "true"; tag_env := ""; tag_envPrefix := "" |}.
Definition login (password : string) (pin : Z) (address dsn : string) : value :=
  VPtr (VStruct [(a_field "Password", VStr password); (pin_field, VNum pin); (a_field "Address", VStr address);
                 (a_field "Connection", VStr dsn)]).

Ltac keyword_pair_tac :=
  split_and!; [done | repeat constructor | left; split; [repeat constructor | done] | first [by left | right; vm_compute; set_solver]].


(** ** What is not hidden *)

Definition secret_field (name : string) : field :=
  {| f_Name := name; f_exported := true; f_Anonymous := false; tag_yaml := ""; tag_json := ""; tag_secret := "true"; tag_env := "";
     tag_envPrefix := "" |}.
Definition secret_embedded (name : string) : field :=
  {| f_Name := name; f_exported := true; f_Anonymous := true; tag_yaml := ""; tag_json := ""; tag_secret := "true"; tag_env := "";
     tag_envPrefix := "" |}.

(** A duration and a time are shown under a secret tag too. *)
Lemma secret_durations_shown (mask : string -> string) (d : Z) :
  Redact mask (Some (VStruct [(secret_field "Rotation", VDur d); (secret_field "Expires", VTime d)])) =
  OObj [("Rotation", ODur d); ("Expires", OTime d)].
Proof. reflexivity. Qed.

(** The fields of an embedded struct are shown although the struct is tagged secret;
    given a name, they are not. *)
Lemma secret_embedded_shown (mask : string -> string) (pin : Z) :
  Redact mask (Some (VStruct [(secret_embedded "Login", VStruct [(a_field "Pin", VNum pin)])])) = OObj [("Pin", ONum pin)].
Proof. reflexivity. Qed.

Lemma secret_named_hidden (mask : string -> string) (pin : Z) :
  pin <> 0 ->
  Redact mask (Some (VStruct [(secret_field "Login", VStruct [(a_field "Pin", VNum pin)])])) =
  OObj [("Login", OObj [("Pin", OStr redactedValue)])].
Proof. intros H%Z.eqb_neq. cbn. by rewrite H. Qed.

(** A keyword DSN whose password holds [://] is taken for a URL, and shown whole; so is
    one with spaces around its [=], which libpq allows. *)
Lemma dsn_like_url_shown Parse URLString Query Encode :
  Parse "host=db password=a://b" = None ->
  redactURL Parse URLString Query Encode "host=db password=a://b" = "host=db password=a://b".
Proof. intros H. unfold redactURL. change (contains "://" "host=db password=a://b") with true. cbv iota. by rewrite H. Qed.

Lemma dsn_spaced_shown Parse URLString Query Encode :
  redactURL Parse URLString Query Encode "host=db password = hunter2" = "host=db password = hunter2".
Proof. reflexivity. Qed.
End Hidden.
