(* ===== verification/Boot.v ===== *)
(** The configuration half of a service's main (libs/httpx/boot.go), how a configuration
    is put together (libs/httpx/config_yaml.go) and the identity of the binary
    (libs/httpx/version.go). *)
From S2P Require Import Prelude GoStr GoRegexp GoReflect.

(** * The command line *)

(** [flag.FlagSet.Parse] for a set whose flags are all booleans. *)
Module Flags.
Import GoStr.

Inductive flag_error :=
  | ErrHelp
  | BadSyntax (arg : string)
  | NotDefined (name : string)
  | InvalidBoolean (name value : string).

(** [strconv.ParseBool] *)
Definition ParseBool (s : string) : option bool :=
  if bool_decide (s ∈ ["1"; "t"; "T"; "TRUE"; "true"; "True"]) then Some true
  else if bool_decide (s ∈ ["0"; "f"; "F"; "FALSE"; "false"; "False"]) then Some false
  else None.

(** What an argument is: the end of the flags, kept or dropped, or a flag with its value. *)
Inductive arg_kind :=
  | Positional
  | Terminator
  | Malformed
  | Flag (name : string) (value : option string).

Definition classify (s : string) : arg_kind :=
  match bytes s with
  | 45 :: 45 :: [] => Terminator
  | 45 :: c :: rest =>
      let name := if c =? 45 then rest else c :: rest in
      match name with
      | [] | 45 :: _ | 61 :: _ => Malformed
      | d :: name =>
          let '(n, v, found) := cut 61 name in
          Flag (of_bytes (d :: n)) (if found then Some (of_bytes v) else None)
      end
  | _ => Positional
  end.

(** The flags set, and the arguments that are left. *)
Fixpoint Parse (formal : list string) (args : list string) (set : gmap string bool) : flag_error + gmap string bool * list string :=
  match args with
  | [] => inr (set, [])
  | s :: rest =>
      match classify s with
      | Positional => inr (set, args)
      | Terminator => inr (set, rest)
      | Malformed => inl (BadSyntax s)
      | Flag name value =>
          if bool_decide (name ∈ formal) then
            match value with
            | None => Parse formal rest (<[name := true]> set)
            | Some v =>
                match ParseBool v with
                | Some b => Parse formal rest (<[name := b]> set)
                | None => inl (InvalidBoolean name v)
                end
            end
          else if bool_decide (name ∈ ["help"; "h"]) then inl ErrHelp
          else inl (NotDefined name)
      end
  end.
End Flags.

(** * The reference of every key *)

Module Reference.
Import GoStr Reflect.

(** [reflect.Value.IsZero]; the sequences of a configuration are slices. *)
Fixpoint IsZero (v : value) : bool :=
  match v with
  | VNil _ => true
  | VStruct fs => forallb (fun fv => IsZero fv.2) fs
  | VStr s => String.eqb s ""
  | VTime n | VDur n | VNum n => n =? 0
  | VPtr _ | VSeq _ | VBytes _ | VMap _ => false
  end.

(** The text of a default; [Sprint] is [fmt.Sprint] of the value. *)
Inductive default_text :=
  | Unset
  | SecretSet
  | Duration (d : Z)
  | Joined (l : list string)
  | Sprint (v : value).

Definition strings_of (l : list value) : option (list string) :=
  mapM (fun v => match v with VStr s => Some s | _ => None end) l.

Definition formatDefault (v : value) (secret : bool) : default_text :=
  match v with
  | VStr "" | VNil NilSlice => Unset
  | _ =>
      if secret && negb (IsZero v) then SecretSet
      else match v with
           | VDur d => Duration d
           | VSeq l => match strings_of l with Some l => Joined l | None => Sprint v end
           | _ => Sprint v
           end
  end.

(** One line: the variable, the YAML path, the default. *)
Definition row : Type := string * string * default_text.

Definition yaml_name (f : field) : string :=
  if String.eqb (tag_name (tag_yaml f)) "" then ToLower (f_Name f) else tag_name (tag_yaml f).
Definition is_inline (f : field) : bool := Regexp.search (Regexp.word "inline") (bytes (tag_yaml f)).
Definition env_name (f : field) : string := tag_name (tag_env f).

(** A struct without a variable of its own, other than a time. *)
Definition is_section (f : field) (v : value) : bool :=
  String.eqb (env_name f) "" && match v with VStruct _ => true | _ => false end.

Definition leaf_row (envPrefix yamlPrefix : string) (f : field) (v : value) : list row :=
  if String.eqb (env_name f) "" then []
  else [((envPrefix ++ env_name f)%string,
         if String.eqb (yaml_name f) "-" then "-" else (yamlPrefix ++ yaml_name f)%string,
         formatDefault v (String.eqb (tag_secret f) "true"))].

Definition section_path (yamlPrefix : string) (f : field) : string :=
  if is_inline f then yamlPrefix else (yamlPrefix ++ yaml_name f ++ ".")%string.

Fixpoint walkConfig (v : value) (envPrefix yamlPrefix : string) {struct v} : list row :=
  match v with
  | VStruct fs =>
      (fix go (fs : list (field * value)) : list row :=
        match fs with
        | [] => []
        | (f, w) :: fs =>
            (if negb (f_exported f) then []
             else if is_section f w then walkConfig w (envPrefix ++ tag_envPrefix f)%string (section_path yamlPrefix f)
             else leaf_row envPrefix yamlPrefix f w) ++ go fs
        end) fs
  | _ => []
  end.

(** The header and a line for each key. *)
Definition ConfigReference (prefix : string) (cfg : value) : list row := walkConfig cfg prefix "".
End Reference.

(** * Boot *)

Module Boot.
Import GoStr Reflect Flags Reference.

Definition ExitUsage : Z := 64.
Definition ExitConfig : Z := 78.

Section Binary.
Context {T : Type} (as_value : T -> value).

Record Boot := {
  Name : string;
  Prefix : string;
  File : string;
  b_Load : string + T;
  b_Defaults : string + T
}.

(** What a run writes and calls; the texts of package flag are its own. *)
Inductive effect :=
  | FlagMessage (e : flag_error)
  | Stderr (line : string)
  | Unexpected (arg : string)
  | Stdout (line : string)
  | StdoutReference (rows : list row)
  | CallLoad
  | CallDefaults.

Definition flag_names : list string := ["check-config"; "config-reference"].

Definition usage (b : Boot) : list effect :=
  let source := ("environment variables " ++ Prefix b ++ "*" ++
                 (if String.eqb (File b) "" then "" else ", over the optional YAML file named by " ++ File b))%string in
  Stdout <$>
    [("Usage: " ++ Name b ++ " [--check-config | --config-reference | --help]")%string; "";
     ("Configured by " ++ source ++ " (--config-reference lists every key).")%string; ""; "Flags:";
     "  -check-config"; "    	load and validate the configuration, then exit (0 valid, 78 not)";
     "  -config-reference"; "    	print every configuration key with its YAML path and default, then exit"].

(** The configuration the process goes on with, or the status it exits with. *)
Definition Config (b : Boot) (args : list string) : (Z + T) * list effect :=
  match Parse flag_names args ∅ with
  | inl ErrHelp => (inl 0, usage b)
  | inl e => (inl ExitUsage, [FlagMessage e; Stderr (Name b ++ ": see --help")%string])
  | inr (set, arg :: _) => (inl ExitUsage, [Unexpected arg])
  | inr (set, []) =>
      if default false (set !! "config-reference") then
        match b_Defaults b with
        | inl err => (inl ExitConfig, [CallDefaults; Stderr (Name b ++ ": " ++ err)%string])
        | inr def => (inl 0, [CallDefaults; StdoutReference (ConfigReference (Prefix b) (as_value def))])
        end
      else
        match b_Load b with
        | inl err =>
            (inl ExitConfig, [CallLoad; Stderr (if String.prefix (Name b ++ ":") err then err else (Name b ++ ": " ++ err)%string)])
        | inr cfg =>
            if default false (set !! "check-config") then (inl 0, [CallLoad; Stdout "config ok"])
            else (inr cfg, [CallLoad])
        end
  end.
End Binary.
Arguments Boot : clear implicits.
End Boot.

(** * What a run of the command line shows *)

Module Starting.
Import GoStr Reflect Flags Reference Boot.

(** ** The reference does not show what is tagged secret *)

(** Two settings: of a secret one only whether it is set, of another all of it. *)
Definition leaf_alike (f : field) (v w : value) : Prop :=
  String.eqb (env_name f) "" = true \/ v = w \/ (tag_secret f = "true" /\ IsZero v = false /\ IsZero w = false).

Fixpoint ref_alike (v w : value) {struct v} : Prop :=
  match v, w with
  | VStruct fs, VStruct gs =>
      (fix go (fs gs : list (field * value)) : Prop :=
        match fs, gs with
        | [], [] => True
        | (f, v) :: fs, (g, w) :: gs =>
            f = g /\ is_section f v = is_section f w /\
            (f_exported f = true -> if is_section f v then ref_alike v w else leaf_alike f v w) /\ go fs gs
        | _, _ => False
        end) fs gs
  | VStruct _, _ | _, VStruct _ => False
  | _, _ => True
  end.

Lemma formatDefault_secret (v : value) : IsZero v = false -> formatDefault v true = SecretSet.
Proof. intros H. unfold formatDefault. rewrite H. cbn. destruct v as [[]| | | | | | |[|]| |]; try done. Qed.

Lemma leaf_row_alike (e y : string) (f : field) (v w : value) : leaf_alike f v w -> leaf_row e y f v = leaf_row e y f w.
Proof.
  intros [H|[->|(Hs & Hv & Hw)]]; [by unfold leaf_row; rewrite H|done|]. unfold leaf_row.
  rewrite Hs. cbn [String.eqb]. by rewrite !formatDefault_secret.
Qed.

(** The reference of a binary does not depend on its secrets. *)
Lemma reference_hides_secrets (v w : value) (prefix : string) : ref_alike v w -> ConfigReference prefix v = ConfigReference prefix w.
Proof.
  unfold ConfigReference. generalize "" as y. revert w prefix.
  induction v as [k|v IH|t|fs IH|l IH|b|m IH|s|d|n] using value_induction; intros w e y H;
    destruct w as [k'|w|t'|gs|l'|b'|m'|s'|d'|n']; try done. cbn [walkConfig ref_alike] in *. revert gs H.
  induction IH as [|[f v] fs Hv _ IHfs]; intros [|[g w] gs] H; try done.
  destruct H as (<- & Hs & Hvw & H). rewrite <- Hs. cbn [snd] in Hv. f_equal; [|by apply IHfs].
  destruct (f_exported f); [|done]. cbn. specialize (Hvw eq_refl). destruct (is_section f v); [by apply Hv|by apply leaf_row_alike].
Qed.

(** ** Exit statuses *)

Section Exit.
Context {T : Type} (as_value : T -> value).
Implicit Types b : Boot T.

Definition to_stdout (e : effect) : bool := match e with Stdout _ | StdoutReference _ => true | _ => false end.
Definition touches_config (e : effect) : bool := match e with CallLoad | CallDefaults => true | _ => false end.

(** The command line asks for the service to run. *)
Definition runs (args : list string) : Prop :=
  exists set, Parse flag_names args ∅ = inr (set, []) /\ default false (set !! "config-reference") = false /\
              default false (set !! "check-config") = false.

Lemma prefix_cons (a : Ascii.ascii) (s t : string) : String.prefix (String a s) (String a t) = String.prefix s t.
Proof. cbn. by destruct (Ascii.ascii_dec a a). Qed.

Lemma prefix_of_append (s t u : string) : String.prefix (s ++ t) (s ++ t ++ u) = true.
Proof.
  induction s as [|a s IH]; [|by etransitivity; [apply prefix_cons|]].
  induction t as [|a t IH]; [by destruct u|by etransitivity; [apply prefix_cons|]].
Qed.

Lemma named_prefix b (err : string) : String.prefix (Name b ++ ":") (Name b ++ ": " ++ err) = true.
Proof. apply (prefix_of_append (Name b) ":" (" " ++ err)). Qed.

Definition wraps (b : Boot T) (e : effect) : bool :=
  match e with Stderr line => String.prefix (Name b ++ ":") line | _ => false end.

(** C37: a process goes on exactly when its flags ask for nothing else and its configuration
    loads, and then with that configuration. Otherwise its status says which of the two is
    at fault: 64 before the configuration is looked at, 78 after it did not load, with a
    line on standard error that starts with the binary's name and nothing on standard
    output; and 0 only with something on standard output. *)
Theorem boot_exit_status b (args : list string) :
  (forall cfg, (Config as_value b args).1 = inr cfg <-> runs args /\ b_Load b = inr cfg) /\
  (forall code, (Config as_value b args).1 = inl code ->
    (code = 0 /\ existsb to_stdout (Config as_value b args).2 = true) \/
    (code = ExitUsage /\ forallb (fun e => negb (to_stdout e || touches_config e)) (Config as_value b args).2 = true) \/
    (code = ExitConfig /\ existsb (wraps b) (Config as_value b args).2 = true /\
     forallb (fun e => negb (to_stdout e)) (Config as_value b args).2 = true)).
Proof.
  unfold Config, runs. destruct (Parse flag_names args ∅) as [e|[set [|arg rest]]].
  - split; [intros cfg; destruct e; (split; [done|intros [(? & ? & _) _]; done])|]. intros code.
    destruct e; cbn; intros [= <-]; tauto.
  - destruct (default false (set !! "config-reference")) eqn:Hr.
    + split; [intros cfg; destruct (b_Defaults b); (split; [done|intros [(st & [= <-] & H & _) _]; congruence])|]. intros code.
      destruct (b_Defaults b) as [err|def]; cbn; intros [= <-]; [|tauto]. right; right.
      split; [done|]. split; [|done]. by rewrite named_prefix.
    + destruct (b_Load b) as [err|cfg'].
      * split; [intros cfg; split; [done|by intros [_ ?]]|]. intros code. cbn. intros [= <-]. right; right. split; [done|]. split; [|done].
        rewrite orb_false_r. destruct (String.prefix _ err) eqn:E; [done|]. by rewrite named_prefix.
      * destruct (default false (set !! "check-config")) eqn:Hc.
        -- split; [intros cfg; split; [done|intros [(st & [= <-] & _ & H) _]; congruence]|]. intros code. cbn. intros [= <-]. tauto.
        -- split; [|done]. intros cfg. split; [intros [= <-]; split; [by exists set|done]|by intros [_ [= <-]]].
  - split; [intros cfg; split; [done|intros [(st & [= ? ?] & _) _]; congruence]|]. intros code. cbn. intros [= <-]. tauto.
Qed.
End Exit.
End Starting.

(** * Layers of a configuration *)

Module LoadYAML.
Import Reflect Reference.

Inductive load_error :=
  | ReadYaml (path err : string)
  | ParseYaml (path err : string)
  | EnvOverlay (prefix err : string)
  | EnvDefaults (prefix err : string).

Inductive decoded := Decoded (v : value) | EOF | DecodeError (err : string).

Fixpoint fillZero (dst def : value) {struct dst} : value :=
  match dst, def with
  | VStruct fs, VStruct gs =>
      VStruct ((fix go (fs gs : list (field * value)) : list (field * value) :=
        match fs, gs with
        | (f, v) :: fs, (_, d) :: gs =>
            (f, if negb (f_exported f) then v
                else match v with
                     | VStruct _ => fillZero v d
                     | _ => if IsZero v && negb (IsZero d) then d else v
                     end) :: go fs gs
        | fs, _ => fs
        end) fs gs)
  | _, _ => dst
  end.

Section Loading.
(** Package env parsing an empty environment, reading a file, yaml's decoder with known
    fields only, and env over the process environment without defaults. *)
Context (env_empty : string -> string + value).
Context (ReadFile : string -> string + string).
Context (Decode : string -> value -> decoded).
Context (env_Parse : string -> value -> string + value).

Definition Defaults (prefix : string) (dst : value) : load_error + value :=
  match env_empty prefix with
  | inl err => inl (EnvDefaults prefix err)
  | inr defaults => inr (fillZero dst defaults)
  end.

(** The file, if one is named. *)
Definition overlay_file (path : string) (dst : value) : load_error + value :=
  if String.eqb path "" then inr dst
  else match ReadFile path with
       | inl err => inl (ReadYaml path err)
       | inr data =>
           match Decode data dst with
           | Decoded v => inr v
           | EOF => inr dst
           | DecodeError err => inl (ParseYaml path err)
           end
       end.

Definition overlay_env (prefix : string) (dst : value) : load_error + value :=
  match env_Parse prefix dst with inl err => inl (EnvOverlay prefix err) | inr v => inr v end.

Definition LoadYAML (path prefix : string) (dst : value) : load_error + value :=
  match Defaults prefix dst with
  | inl e => inl e
  | inr dst =>
      match overlay_file path dst with
      | inl e => inl e
      | inr dst => overlay_env prefix dst
      end
  end.
End Loading.

(** ** One setting *)

(** The setting at a path of field positions: not a struct, and reached through exported
    fields only. *)
Fixpoint leaf (p : list nat) (v : value) {struct p} : option value :=
  match p with
  | [] => match v with VStruct _ => None | _ => Some v end
  | i :: p => match v with VStruct fs => '(f, w) ← fs !! i; if f_exported f then leaf p w else None | _ => None end
  end.

(** Two values of one Go type, as far as structs go. *)
Fixpoint same_type (v d : value) {struct v} : Prop :=
  match v, d with
  | VStruct fs, VStruct gs =>
      (fix go (fs gs : list (field * value)) : Prop :=
        match fs, gs with
        | [], [] => True
        | (f, v) :: fs, (g, d) :: gs => f = g /\ same_type v d /\ go fs gs
        | _, _ => False
        end) fs gs
  | VStruct _, _ | _, VStruct _ => False
  | _, _ => True
  end.

(** What a default layer under a value gives. *)
Definition or_default (x d : value) : value := if IsZero x && negb (IsZero d) then d else x.

Lemma leaf_fillZero (v d x y : value) (p : list nat) :
  same_type v d -> p <> [] -> leaf p v = Some x -> leaf p d = Some y -> leaf p (fillZero v d) = Some (or_default x y).
Proof.
  revert p d x y. induction v as [k|v IH|t|fs IH|l IH|b|m IH|s|dd|n] using value_induction; intros [|i p] d x y Ht Hp Hx Hy; try done.
  destruct d as [| | |gs| | | | | |]; try done. cbn [leaf] in Hx, Hy. cbn [fillZero leaf]. clear Hp.
  revert gs i Ht Hx Hy. induction IH as [|[f v] fs Hv _ IHfs]; intros [|[g d] gs] i Ht Hx Hy; try done.
  destruct Ht as (<- & Hvd & Ht). destruct i as [|i]; [|by apply (IHfs gs i)].
  cbn in Hx, Hy |- *. destruct (f_exported f); [|done]. cbn.
  assert (Hleaf : p = [] -> leaf p (if IsZero v && negb (IsZero d) then d else v) = Some (or_default x y)).
  { intros ->. cbn in Hx, Hy. fold (or_default v d).
    assert (v = x /\ d = y) as [-> ->] by (split; [by destruct v; simplify_eq/=|by destruct d; simplify_eq/=]).
    unfold or_default. by destruct (IsZero x && negb (IsZero y)); cbn. }
  destruct v as [| | |fs'| | | | | |]; try (apply Hleaf; by destruct p).
  destruct p as [|j p]; [done|]. cbn [snd] in Hv. by apply Hv.
Qed.

Lemma same_type_leaf (v d x : value) (p : list nat) : same_type v d -> leaf p v = Some x -> is_Some (leaf p d).
Proof.
  revert p d. induction v as [k|v IH|t|fs IH|l IH|b|m IH|s|dd|n] using value_induction; intros [|i p] d Ht Hx; try done;
    try (destruct d; cbn; by eauto).
  destruct d as [| | |gs| | | | | |]; try done. cbn [leaf] in *.
  revert gs i Ht Hx. induction IH as [|[f v] fs Hv _ IHfs]; intros [|[g d] gs] i Ht Hx; try done.
  destruct Ht as (<- & Hvd & Ht). destruct i as [|i]; [|by apply (IHfs gs i)].
  cbn in Hx |- *. destruct (f_exported f); [|done]. by apply (Hv p d).
Qed.

Lemma leaf_nonempty (p : list nat) (fs : list (field * value)) (x : value) : leaf p (VStruct fs) = Some x -> p <> [].
Proof. by destruct p. Qed.

(** ** What the layers promise *)

(** What packages env and yaml document: a document sets the keys it has ([file], which
    may build on the value there, as for maps) and leaves the others, an empty one sets
    nothing; the variables that are set replace their settings and the others are left. *)
Class LayerLaws (env_empty : string -> string + value) (Decode : string -> value -> decoded)
    (env_Parse : string -> value -> string + value)
    (file : string -> list nat -> option (value -> value)) (variable : string -> list nat -> option value) : Prop := {
  decode_leaf data v v' p :
    Decode data v = Decoded v' -> leaf p v' = (fun x => match file data p with Some g => g x | None => x end) <$> leaf p v;
  decode_eof data v p : Decode data v = EOF -> file data p = None;
  env_leaf prefix v v' p : env_Parse prefix v = inr v' -> leaf p v' = (fun x => default x (variable prefix p)) <$> leaf p v
}.

Section Precedence.
Context (env_empty : string -> string + value) (ReadFile : string -> string + string).
Context (Decode : string -> value -> decoded) (env_Parse : string -> value -> string + value).
Context (file : string -> list nat -> option (value -> value)) (variable : string -> list nat -> option value).
Context `{Laws : !LayerLaws env_empty Decode env_Parse file variable}.

(** What the file at [path] says of a setting. *)
Definition in_file (path : string) (p : list nat) : option (value -> value) :=
  if String.eqb path "" then None
  else match ReadFile path with inr data => file data p | inl _ => None end.

Lemma overlay_file_leaf (path : string) (v v' : value) (p : list nat) :
  overlay_file ReadFile Decode path v = inr v' ->
  leaf p v' = (fun x => match in_file path p with Some g => g x | None => x end) <$> leaf p v.
Proof.
  unfold overlay_file, in_file. destruct (String.eqb path ""); [intros [= <-]; by destruct (leaf p v)|].
  destruct (ReadFile path) as [|data]; [done|]. destruct (Decode data v) as [w| |] eqn:E; [| |done]; intros [= <-].
  - by rewrite (decode_leaf _ _ _ p E).
  - rewrite (decode_eof _ _ p E). by destruct (leaf p v).
Qed.

(** The layers, highest first: the environment, the file, what the service preset, the
    tag's default. *)
Definition layered (path prefix : string) (p : list nat) (preset tag : value) : value :=
  match variable prefix p with
  | Some e => e
  | None => match in_file path p with Some g => g (or_default preset tag) | None => or_default preset tag end
  end.

Lemma load_layers (path prefix : string) (fs : list (field * value)) (defaults cfg x : value) (p : list nat) :
  env_empty prefix = inr defaults -> same_type (VStruct fs) defaults ->
  LoadYAML env_empty ReadFile Decode env_Parse path prefix (VStruct fs) = inr cfg -> leaf p (VStruct fs) = Some x ->
  exists y, leaf p defaults = Some y /\ leaf p cfg = Some (layered path prefix p x y).
Proof.
  intros He Ht Hload Hx. destruct (same_type_leaf _ _ _ _ Ht Hx) as [y Hy]. exists y. split; [done|].
  unfold LoadYAML, Defaults, overlay_env in Hload. rewrite He in Hload.
  destruct (overlay_file _ _ _ _) as [|v] eqn:Hf; [done|]. destruct (env_Parse prefix v) as [|w] eqn:Hv; [done|]. injection Hload as <-.
  rewrite (env_leaf _ _ _ p Hv), (overlay_file_leaf _ _ _ p Hf).
  rewrite (leaf_fillZero _ _ x y p Ht (leaf_nonempty _ _ _ Hx) Hx Hy). cbn. unfold layered.
  destruct (variable prefix p); [done|]. by destruct (in_file path p).
Qed.

(** A file that is named is there: one that is missing is an error, not an empty file
    (the comments of the services' [Load] say that it means the environment only). *)
Lemma load_reads_file (path prefix : string) (dst cfg : value) :
  LoadYAML env_empty ReadFile Decode env_Parse path prefix dst = inr cfg -> path = "" \/ exists data, ReadFile path = inr data.
Proof.
  unfold LoadYAML, overlay_file. destruct (Defaults _ _ _) as [|d]; [done|]. destruct (String.eqb_spec path ""); [by left|].
  destruct (ReadFile path) as [|data]; [done|]. by right; exists data.
Qed.

(** C25: in a configuration that loads, each setting comes from the highest layer that has it
    (the environment, the file, what the service preset, the default of its tag), and an
    explicit zero in the file or the environment is one. *)
Theorem config_precedence (path prefix : string) (fs : list (field * value)) (defaults cfg x : value) (p : list nat) :
  env_empty prefix = inr defaults -> same_type (VStruct fs) defaults ->
  LoadYAML env_empty ReadFile Decode env_Parse path prefix (VStruct fs) = inr cfg -> leaf p (VStruct fs) = Some x ->
  exists y, leaf p defaults = Some y /\ leaf p cfg = Some (layered path prefix p x y).
Proof. apply load_layers. Qed.
End Precedence.

(** ** Layers to run it with *)

(** Settings replaced one by one. *)
Fixpoint map_leaves (h : list nat -> value -> value) (v : value) {struct v} : value :=
  match v with
  | VStruct fs =>
      VStruct ((fix go (i : nat) (fs : list (field * value)) : list (field * value) :=
        match fs with
        | [] => []
        | (f, w) :: fs => (f, if f_exported f then map_leaves (fun p => h (i :: p)) w else w) :: go (S i) fs
        end) 0%nat fs)
  | _ => h [] v
  end.

Lemma leaf_map_leaves (h : list nat -> value -> value) (v : value) (p : list nat) :
  (forall p x, leaf [] x = Some x -> leaf [] (h p x) = Some (h p x)) -> leaf p (map_leaves h v) = h p <$> leaf p v.
Proof.
  revert h p. induction v as [k|v IH|t|fs IH|l IH|b|m IH|s|d|n] using value_induction; intros h p Hh;
    try (destruct p as [|i p]; cbn [map_leaves];
         [ apply Hh; reflexivity
         | match goal with |- leaf _ (h [] ?x) = _ => pose proof (Hh [] x eq_refl) as Hx; by destruct (h [] x) end ]).
  destruct p as [|i p]; [done|]. cbn [map_leaves leaf].
  assert (Hgo : forall j, ('(f, w) ← (fix go (i : nat) (fs : list (field * value)) : list (field * value) :=
        match fs with
        | [] => []
        | (f, w) :: fs => (f, if f_exported f then map_leaves (fun p => h (i :: p)) w else w) :: go (S i) fs
        end) j fs !! i; if f_exported f then leaf p w else None) =
      h ((j + i)%nat :: p) <$> ('(f, w) ← fs !! i; if f_exported f then leaf p w else None)).
  { revert i. induction IH as [|[f w] fs Hw _ IHfs]; intros i j; [done|]. destruct i as [|i]; cbn.
    - rewrite Nat.add_0_r. destruct (f_exported f) eqn:Ef; [|done]. by rewrite Hw by (intros; by apply Hh).
    - rewrite IHfs. by replace (S j + i)%nat with (j + S i)%nat by lia. }
  by rewrite (Hgo 0%nat).
Qed.

Definition plain (name : string) : field :=
  {| f_Name := name; f_exported := true; f_Anonymous := false; tag_yaml := ""; tag_json := ""; tag_secret := ""; tag_env := ""; tag_envPrefix := "" |}.

(** A service that presets its client id, a file that sets a delay to zero and an
    environment that changes the client id. *)
Definition demo_preset : list (field * value) :=
  [(plain "Kafka", VStruct [(plain "ClientID", VStr "tasks")]); (plain "Delay", VDur 0); (plain "Level", VStr "")].
Definition demo_tags (_ : string) : string + value :=
  inr (VStruct [(plain "Kafka", VStruct [(plain "ClientID", VStr "")]); (plain "Delay", VDur (2 * Go.second)); (plain "Level", VStr "info")]).
Definition demo_ReadFile (path : string) : string + string := if String.eqb path "config.yaml" then inr "delay: 0s" else inl "no such file".
Definition demo_file (data : string) (p : list nat) : option (value -> value) :=
  if bool_decide (data = "delay: 0s" /\ p = [1%nat]) then Some (fun _ => VDur 0) else None.
Definition demo_Decode (data : string) (v : value) : decoded :=
  if String.eqb data "" then EOF else Decoded (map_leaves (fun p x => match demo_file data p with Some g => g x | None => x end) v).
Definition demo_variable (prefix : string) (p : list nat) : option value :=
  if bool_decide (p = [0%nat; 0%nat]) then Some (VStr "blue") else None.
Definition demo_env (prefix : string) (v : value) : string + value := inr (map_leaves (fun p x => default x (demo_variable prefix p)) v).

#[export] Instance demo_laws : LayerLaws demo_tags demo_Decode demo_env demo_file demo_variable.
Proof.
  split.
  - intros data v v' p. unfold demo_Decode. destruct (String.eqb data ""); [done|]. intros [= <-]. apply leaf_map_leaves.
    intros q x Hx. unfold demo_file. by destruct (bool_decide _).
  - intros data v p. unfold demo_Decode, demo_file. destruct (String.eqb_spec data "") as [->|]; [|done]. by rewrite bool_decide_eq_false_2 by naive_solver.
  - intros prefix v v' p [= <-]. apply (leaf_map_leaves (fun p x => default x (demo_variable prefix p))).
    intros q x Hx. unfold demo_variable. by destruct (bool_decide _).
Qed.

Definition demo_load (path : string) : load_error + value :=
  LoadYAML demo_tags demo_ReadFile demo_Decode demo_env path "TASKS_" (VStruct demo_preset).
Definition demo_cfg (client : string) (delay : Z) : value :=
  VStruct [(plain "Kafka", VStruct [(plain "ClientID", VStr client)]); (plain "Delay", VDur delay); (plain "Level", VStr "info")].

Lemma config_precedence_witness :
  demo_load "config.yaml" = inr (demo_cfg "blue" 0) /\
  (exists y, leaf [1%nat] (demo_cfg "" (2 * Go.second)) = Some y /\
     leaf [1%nat] (demo_cfg "blue" 0) = Some (layered demo_ReadFile demo_file demo_variable "config.yaml" "TASKS_" [1%nat] (VDur 0) y)).
Proof.
  split; [by vm_compute|].
  apply (config_precedence demo_tags demo_ReadFile demo_Decode demo_env demo_file demo_variable
           "config.yaml" "TASKS_" demo_preset (demo_cfg "" (2 * Go.second)) (demo_cfg "blue" 0) (VDur 0) [1%nat]).
  - by vm_compute.
  - by cbn.
  - by vm_compute.
  - done.
Defined.

Example missing_file_is_an_error : demo_load "confg.yaml" = inl (ReadYaml "confg.yaml" "no such file").
Proof. by vm_compute. Qed.
End LoadYAML.

(** * The binary *)

Module Build.

Record BuildInfo := { Service : string; bi_Version : string; bi_Revision : string; bi_BuildTime : string; Modified : bool; GoVersion : string }.

(** The settings of [debug.ReadBuildInfo], in order. *)
Definition setting (bi : BuildInfo) (kv : string * string) : BuildInfo :=
  let '(k, v) := kv in
  if String.eqb k "vcs.revision" then
    {| Service := Service bi; bi_Version := bi_Version bi; bi_Revision := v; bi_BuildTime := bi_BuildTime bi; Modified := Modified bi; GoVersion := GoVersion bi |}
  else if String.eqb k "vcs.time" then
    {| Service := Service bi; bi_Version := bi_Version bi; bi_Revision := bi_Revision bi; bi_BuildTime := v; Modified := Modified bi; GoVersion := GoVersion bi |}
  else if String.eqb k "vcs.modified" then
    {| Service := Service bi; bi_Version := bi_Version bi; bi_Revision := bi_Revision bi; bi_BuildTime := bi_BuildTime bi; Modified := String.eqb v "true"; GoVersion := GoVersion bi |}
  else bi.

(** [info] is what the toolchain embedded, if it did: its version and settings. *)
Definition Build (Version Revision BuildTime : string) (info : option (string * list (string * string))) (service : string) : BuildInfo :=
  let bi := {| Service := service; bi_Version := Version; bi_Revision := if String.eqb Revision "" then "unknown" else Revision;
               bi_BuildTime := BuildTime; Modified := false; GoVersion := "" |} in
  match info with
  | None => bi
  | Some (go, settings) =>
      foldl setting {| Service := service; bi_Version := Version; bi_Revision := bi_Revision bi; bi_BuildTime := BuildTime; Modified := false; GoVersion := go |} settings
  end.

(** The name of the executable, without its directories. *)
Fixpoint last_segment (seg : list Z) (p : list Z) : list Z :=
  match p with
  | [] => seg
  | 47 :: q => last_segment [] q
  | c :: q => last_segment (seg ++ [c]) q
  end.
Fixpoint drop_slashes (p : list Z) : list Z := match p with 47 :: q => drop_slashes q | p => p end.

(** [filepath.Base] *)
Definition Base (path : string) : string :=
  let p := reverse (drop_slashes (reverse (GoStr.bytes path))) in
  if String.eqb path "" then "."
  else match p with [] => "/" | _ => GoStr.of_bytes (last_segment [] p) end.

Definition defaultServiceName (Executable : option string) : string :=
  match Executable with None => "service" | Some exe => Base exe end.

(** The last setting of a key, or what the linker set. *)
Fixpoint last_of (key : string) (settings : list (string * string)) : option string :=
  match settings with
  | [] => None
  | (k, v) :: rest => match last_of key rest with Some w => Some w | None => if String.eqb k key then Some v else None end
  end.

Lemma build_settings (settings : list (string * string)) (bi : BuildInfo) :
  let bi' := foldl setting bi settings in
  Service bi' = Service bi /\ bi_Version bi' = bi_Version bi /\ GoVersion bi' = GoVersion bi /\
  bi_Revision bi' = default (bi_Revision bi) (last_of "vcs.revision" settings) /\
  bi_BuildTime bi' = default (bi_BuildTime bi) (last_of "vcs.time" settings) /\
  Modified bi' = match last_of "vcs.modified" settings with Some v => String.eqb v "true" | None => Modified bi end.
Proof.
  cbv zeta. revert bi. induction settings as [|[k v] l IH]; intros bi; [done|]. cbn [foldl last_of].
  destruct (IH (setting bi (k, v))) as (-> & -> & -> & -> & -> & ->). unfold setting.
  destruct (String.eqb_spec k "vcs.revision") as [->|]; [|destruct (String.eqb_spec k "vcs.time") as [->|];
    [|destruct (String.eqb_spec k "vcs.modified") as [->|]]]; cbn; split_and!; try done;
    repeat (destruct (last_of _ l); cbn; try done).
Qed.

Example base_of_path : Base "/usr/local/bin/tasks" = "tasks" /\ Base "/opt/ping/" = "ping" /\ Base "" = "." /\ Base "//" = "/".
Proof. by vm_compute. Qed.
End Build.
