(* ===== verification/Otelx.v ===== *)
(** Tracing (libs/otelx config.go, otelx.go): the settings with their defaults, what [Init]
    installs on every path, which spans are sampled, and the throttled log of the SDK's
    errors under any interleaving of its callers. *)
From S2P Require Import Prelude Float64 GoStr.

(** * Setting it up *)

Module Otel.
Import F64.

Record Config := {
  Enabled : bool;
  ServiceName : string;
  Version : string;
  Environment : string;
  Endpoint : string;
  Insecure : bool;
  Headers : list (string * string);
  CACert : string;
  ClientCert : string;
  ClientKey : string;
  ExportTimeout : Z;
  SamplerRatio : float64;
  TrustRemoteParent : bool;
  BatchTimeout : Z;
  MaxQueueSize : Z;
  MaxExportBatchSize : Z
}.

Definition is_zero (x : float64) : bool := match x with Fin u => u =? 0 | _ => false end.

Definition withDefaults (c : Config) : Config :=
  let orZ (x d : Z) := if x =? 0 then d else x in
  {| Enabled := Enabled c; ServiceName := ServiceName c; Version := Version c; Environment := Environment c;
     Endpoint := if String.eqb (Endpoint c) "" then "localhost:4318" else Endpoint c;
     Insecure := Insecure c; Headers := Headers c; CACert := CACert c; ClientCert := ClientCert c; ClientKey := ClientKey c;
     ExportTimeout := orZ (ExportTimeout c) (10 * Go.second);
     SamplerRatio := if is_zero (SamplerRatio c) then of_Z 1 else SamplerRatio c;
     TrustRemoteParent := TrustRemoteParent c;
     BatchTimeout := orZ (BatchTimeout c) (5 * Go.second);
     MaxQueueSize := orZ (MaxQueueSize c) 2048;
     MaxExportBatchSize := orZ (MaxExportBatchSize c) 512 |}.

Inductive init_error :=
  | CAUnreadable | CANoCertificates | KeyPairRejected | KeyPairIncomplete | ExporterFailed (err : string) | ResourceFailed (err : string).

(** ** TLS *)

Section TLS.
(** Reading a file, the system's roots, adding PEM certificates to a pool, and reading a
    certificate with its key. *)
Context {Pool Cert : Type} (ReadFile : string -> option string).
Context (SystemCertPool : option Pool) (NewCertPool : Pool) (AppendCertsFromPEM : Pool -> string -> option Pool).
Context (LoadX509KeyPair : string -> string -> option Cert).

Record tls_config := { RootCAs : option Pool; Certificates : list Cert }.

Definition set (s : string) : bool := negb (String.eqb s "").

Definition roots (c : Config) : init_error + option Pool :=
  if set (CACert c) then
    match ReadFile (CACert c) with
    | None => inl CAUnreadable
    | Some pem =>
        match AppendCertsFromPEM (default NewCertPool SystemCertPool) pem with
        | None => inl CANoCertificates
        | Some pool => inr (Some pool)
        end
    end
  else inr None.

Definition tlsConfig (c : Config) : init_error + tls_config :=
  match roots c with
  | inl e => inl e
  | inr pool =>
      if set (ClientCert c) && set (ClientKey c) then
        match LoadX509KeyPair (ClientCert c) (ClientKey c) with
        | None => inl KeyPairRejected
        | Some cert => inr {| RootCAs := pool; Certificates := [cert] |}
        end
      else if set (ClientCert c) || set (ClientKey c) then inl KeyPairIncomplete
      else inr {| RootCAs := pool; Certificates := [] |}
  end.

Inductive exporter_option :=
  | WithEndpoint (e : string)
  | WithTimeout (d : Z)
  | WithHeaders (h : list (string * string))
  | WithInsecure
  | WithTLSClientConfig (t : tls_config).

(** [build] is [otlptracehttp.New]: why it fails, if it does. *)
Definition newExporter (build : list exporter_option -> option string) (c : Config) : init_error + list exporter_option :=
  let opts := [WithEndpoint (Endpoint c); WithTimeout (ExportTimeout c)] ++
              match Headers c with [] => [] | h => [WithHeaders h] end in
  match (if Insecure c then inr [WithInsecure]
         else match tlsConfig c with inl e => inl e | inr t => inr [WithTLSClientConfig t] end) with
  | inl e => inl e
  | inr more =>
      match build (opts ++ more) with
      | Some err => inl (ExporterFailed err)
      | None => inr (opts ++ more)
      end
  end.
End TLS.

(** ** The resource *)

Definition instanceID (Hostname : option string) (pid : Z) : string :=
  match Hostname with
  | Some h => if set h then h else ("pid-" ++ GoStr.Itoa pid)%string
  | None => ("pid-" ++ GoStr.Itoa pid)%string
  end.

Definition resource_attrs (c : Config) (instance : string) : list (string * string) :=
  [("service.instance.id", instance)] ++
  (if set (ServiceName c) then [("service.name", ServiceName c)] else []) ++
  (if set (Version c) then [("service.version", Version c)] else []) ++
  (if set (Environment c) then [("deployment.environment.name", Environment c)] else []).

Section Resource.
(** [resource.New] with the detectors and these attributes: an error alone, or what it
    found with an error if it is not all; [resource.Merge] with the SDK's defaults. *)
Context {R : Type} (New : list (string * string) -> string + R * option string) (Merge : R -> option R).

(** The resource, and the errors passed to the SDK's handler. *)
Definition newResource (c : Config) (instance : string) : (init_error + R) * list string :=
  match New (resource_attrs c instance) with
  | inl err => (inl (ResourceFailed err), [])
  | inr (r, err) => (inr (default r (Merge r)), match err with Some e => [e] | None => [] end)
  end.
End Resource.

(** ** Sampling *)

(** What a span is started under. *)
Inductive parent := NoParent | RemoteParent (sampled : bool) | LocalParent (sampled : bool).

(** The SDK's samplers: what [NeverSample] and [ParentBased] document. A ratio sampler
    decides on the trace alone. *)
Class Samplers (Sampler Trace : Type) := {
  decide_ : Sampler -> parent -> Trace -> bool;
  NeverSample : Sampler;
  TraceIDRatioBased : float64 -> Sampler;
  ParentBased : Sampler -> option Sampler -> Sampler;
  never_samples p t : decide_ NeverSample p t = false;
  ratio_ignores_parent r p q t : decide_ (TraceIDRatioBased r) p t = decide_ (TraceIDRatioBased r) q t;
  parent_based root remote p t :
    decide_ (ParentBased root remote) p t =
    match p with
    | NoParent => decide_ root p t
    | RemoteParent true => match remote with Some s => decide_ s p t | None => true end
    | LocalParent true => true
    | RemoteParent false | LocalParent false => false
    end
}.

Section Sampling.
Context `{Samplers Sampler Trace}.

Definition root_sampler (c : Config) : Sampler :=
  if ltb (SamplerRatio c) (Fin 0) then NeverSample else TraceIDRatioBased (SamplerRatio c).

Definition newSampler (c : Config) : Sampler :=
  ParentBased (root_sampler c) (if TrustRemoteParent c then None else Some (root_sampler c)).

Lemma root_ignores_parent (c : Config) (p q : parent) (t : Trace) : decide_ (root_sampler c) p t = decide_ (root_sampler c) q t.
Proof. unfold root_sampler. destruct (ltb _ _); [by rewrite !never_samples|apply ratio_ignores_parent]. Qed.

(** A caller that is not trusted cannot force a trace: its sampled flag counts as no
    parent at all, and its other flag as itself. A trusted one is followed, and a span
    inside the process follows its parent. *)
Lemma sampling_follows_parents (c : Config) (p : parent) (t : Trace) :
  decide_ (newSampler c) p t =
  match p with
  | NoParent => decide_ (root_sampler c) NoParent t
  | RemoteParent true => if TrustRemoteParent c then true else decide_ (newSampler c) NoParent t
  | LocalParent b => b
  | RemoteParent false => false
  end.
Proof.
  unfold newSampler. rewrite !parent_based. destruct p as [|[]|[]]; try done.
  destruct (TrustRemoteParent c); [done|]. apply root_ignores_parent.
Qed.
End Sampling.

(** ** Init *)

Inductive installed :=
  | SetTextMapPropagator
  | SetErrorHandler
  | SetLogger
  | Handled (err : string)
  | SetTracerProvider.

Section Init.
Context (exporter : Config -> init_error + unit) (resource : Config -> (init_error + unit) * list string).

(** What is installed, and whether the shutdown that is returned has a provider to flush
    (none when there is an error). *)
Definition Init (c : Config) : (init_error + bool) * list installed :=
  let c := withDefaults c in
  let pre := [SetTextMapPropagator; SetErrorHandler; SetLogger] in
  if negb (Enabled c) then (inr false, pre)
  else match exporter c with
       | inl e => (inl e, pre)
       | inr _ =>
           let '(r, errs) := resource c in
           match r with
           | inl e => (inl e, pre ++ (Handled <$> errs))
           | inr _ => (inr true, pre ++ (Handled <$> errs) ++ [SetTracerProvider])
           end
       end.

(** Trace context is propagated and errors are logged on every path; a provider is
    installed exactly when tracing is enabled and everything was built, and exactly then
    there is something to flush. *)
Lemma init_installs (c : Config) :
  take 3 (Init c).2 = [SetTextMapPropagator; SetErrorHandler; SetLogger] /\
  (SetTracerProvider ∈ (Init c).2 <-> (Init c).1 = inr true) /\
  ((Init c).1 = inr true -> Enabled c = true) /\ (Enabled c = false -> (Init c).1 = inr false).
Proof.
  unfold Init. change (Enabled (withDefaults c)) with (Enabled c). destruct (Enabled c); cbn [negb].
  - destruct (exporter _) as [e|[]]; [|destruct (resource _) as [[e|[]] errs]]; cbn; split_and!; try done; try set_solver.
  - cbn. split_and!; try done. set_solver.
Qed.
End Init.
End Otel.

(** * The log of the SDK's errors *)

(** [errorHandler.Handle] called by any number of goroutines: the steps between two reads
    or writes of the shared counters are atomic, and every one of them can be interleaved
    with those of other calls. *)
Module ErrorLog.

Definition errorLogInterval : Z := 30 * Go.second.

(** Where a call is: with the clock read, with the last stamp loaded, about to count
    itself as suppressed, and with the log won. *)
Inductive pc :=
  | Read (now : Z)
  | Loaded (now last : Z)
  | Suppress
  | Won (now : Z).

(** [logged]: stamp and suppressed count of each line, newest first. [arrived] counts the
    calls with an error and [stamps] the swaps that were won, newest first: they are not
    in the program. *)
Record state := {
  lastLogged : Z;
  suppressed : Z;
  calls : list pc;
  logged : list (Z * Z);
  arrived : Z;
  stamps : list Z
}.

Definition init : state := {| lastLogged := 0; suppressed := 0; calls := []; logged := []; arrived := 0; stamps := [] |}.

(** What the comparison of [Handle] decides, and the compare-and-swap if it gets there. *)
Definition decide_log (now last : Z) (s : state) : pc * state :=
  if Go.wrap64 (now - last) <? errorLogInterval then (Suppress, s)
  else if lastLogged s =? last then
    (Won now, {| lastLogged := now; suppressed := suppressed s; calls := calls s; logged := logged s; arrived := arrived s; stamps := now :: stamps s |})
  else (Suppress, s).

Definition with_calls (l : list pc) (s : state) : state :=
  {| lastLogged := lastLogged s; suppressed := suppressed s; calls := l; logged := logged s; arrived := arrived s; stamps := stamps s |}.

(** One atomic step of a call: where it goes on, if it does. *)
Definition advance (p : pc) (s : state) : option pc * state :=
  match p with
  | Read now => (Some (Loaded now (lastLogged s)), s)
  | Loaded now last => let '(q, s) := decide_log now last s in (Some q, s)
  | Suppress =>
      (None, {| lastLogged := lastLogged s; suppressed := suppressed s + 1; calls := calls s; logged := logged s; arrived := arrived s; stamps := stamps s |})
  | Won now =>
      (None, {| lastLogged := lastLogged s; suppressed := 0; calls := calls s; logged := (now, suppressed s) :: logged s; arrived := arrived s; stamps := stamps s |})
  end.

Definition put_back (l1 : list pc) (q : option pc) (l2 : list pc) : list pc := l1 ++ match q with Some p => [p] | None => [] end ++ l2.

(** A call arrives with a time after 1970, or one of those on their way takes its next
    step; calls without an error return at once and take no part. *)
Inductive step : state -> state -> Prop :=
  | step_arrive s now :
      0 <= now <= Go.int64_max ->
      step s {| lastLogged := lastLogged s; suppressed := suppressed s; calls := Read now :: calls s; logged := logged s;
                arrived := arrived s + 1; stamps := stamps s |}
  | step_call s l1 p l2 q s' :
      calls s = l1 ++ p :: l2 -> advance p s = (q, s') -> step s (with_calls (put_back l1 q l2) s').

(** ** Stamps *)

(** A chain: each at least an interval after the one before it. *)
Fixpoint spaced (l : list Z) : Prop :=
  match l with
  | [] => True
  | x :: l => errorLogInterval <= x - default 0 (head l) /\ spaced l
  end.

Definition reads (p : pc) : list Z := match p with Read now | Loaded now _ | Won now => [now] | Suppress => [] end.
Definition won (p : pc) : list Z := match p with Won now => [now] | _ => [] end.

Record inv (s : state) : Prop := {
  inv_last : lastLogged s = default 0 (head (stamps s));
  inv_spaced : spaced (stamps s);
  inv_range : 0 <= lastLogged s <= Go.int64_max;
  inv_calls : Forall (fun p => Forall (fun t => 0 <= t <= Go.int64_max) (reads p)) (calls s);
  inv_loads : Forall (fun p => match p with Loaded _ last => 0 <= last <= Go.int64_max | _ => True end) (calls s);
  inv_owed : stamps s ≡ₚ (fst <$> logged s) ++ (calls s ≫= won);
  inv_count : arrived s = Z.of_nat (length (calls s)) + suppressed s + Z.of_nat (length (logged s)) + zsum snd (logged s)
}.

Lemma error_init_inv : inv init.
Proof. split; cbn; try done; try lia; constructor. Qed.

Lemma won_split (l1 l2 : list pc) (q : option pc) :
  put_back l1 q l2 ≫= won ≡ₚ match q with Some p => won p | None => [] end ++ (l1 ++ l2) ≫= won.
Proof.
  unfold put_back. rewrite !bind_app. destruct q as [p|]; cbn; [|done]. rewrite app_nil_r. solve_Permutation.
Qed.

Lemma put_back_Forall (P : pc -> Prop) (l1 l2 : list pc) (p : pc) (q : option pc) :
  Forall P (l1 ++ p :: l2) -> match q with Some p => P p | None => True end -> Forall P (put_back l1 q l2).
Proof.
  intros H Hq. apply Forall_app in H as [H1 H2]. apply Forall_cons in H2 as [_ H2]. unfold put_back.
  rewrite !Forall_app. split; [done|]. split; [|done]. destruct q; by repeat constructor.
Qed.

Lemma put_back_length (l1 l2 : list pc) (p : pc) (q : option pc) :
  Z.of_nat (length (put_back l1 q l2)) = Z.of_nat (length (l1 ++ p :: l2)) - match q with Some _ => 0 | None => 1 end.
Proof. unfold put_back. rewrite !length_app. destruct q; cbn; lia. Qed.

Lemma wrap64_stamps (now last : Z) : 0 <= now <= Go.int64_max -> 0 <= last <= Go.int64_max -> Go.wrap64 (now - last) = now - last.
Proof. intros H1 H2. apply Go.wrap64_id. unfold Go.in_int64, Go.int64_min, Go.int64_max in *. lia. Qed.

Lemma error_step_inv (s s' : state) : inv s -> step s s' -> inv s'.
Proof.
  intros [Hl Hsp Hr Hc Hlo Ho Hn] Hstep. destruct Hstep as [s now Hnow|s l1 p l2 q s' Hcalls Hadv].
  - split; cbn; try done; [by constructor; [by apply Forall_singleton|]|by constructor|lia].
  - rewrite Hcalls in Hc, Hlo, Ho, Hn. pose proof (put_back_length l1 l2 p q) as Hlen.
    assert (Hwon : (l1 ++ p :: l2) ≫= won ≡ₚ won p ++ (l1 ++ l2) ≫= won) by apply (won_split l1 l2 (Some p)).
    rewrite Hwon in Ho. pose proof (won_split l1 l2 q) as Hwq.
    pose proof Hc as Hp. apply Forall_app in Hp as [_ Hp]. apply Forall_cons in Hp as [Hp _].
    pose proof Hlo as Hpl. apply Forall_app in Hpl as [_ Hpl]. apply Forall_cons in Hpl as [Hpl _].
    destruct p as [now|now last| |now]; cbn in Hadv.
    + injection Hadv as <- <-. split; cbn; try done; try (by eapply put_back_Forall); try lia; by rewrite Hwq.
    + unfold decide_log in Hadv. cbn in Hp. rewrite Forall_singleton in Hp. rewrite (wrap64_stamps now last Hp Hpl) in Hadv.
      destruct (Z.ltb_spec (now - last) errorLogInterval) as [Hlt|Hge]; [|destruct (Z.eqb_spec (lastLogged s) last) as [Heq|]];
        injection Hadv as <- <-; split; cbn; try done; try lia;
        try (by eapply put_back_Forall; [done|cbn; rewrite ?Forall_singleton]); try (by rewrite Hwq).
      * split; [|done]. by rewrite <- Hl, Heq.
      * rewrite Hwq. cbn. rewrite Ho. cbn. solve_Permutation.
    + injection Hadv as <- <-. split; cbn; try done; try (by eapply put_back_Forall); try lia; by rewrite Hwq.
    + injection Hadv as <- <-. split; cbn; try done; try (by eapply put_back_Forall); try lia.
      rewrite Hwq. cbn. rewrite Ho. cbn. solve_Permutation.
Qed.

Lemma error_reachable_inv (s : state) : rtc step init s -> inv s.
Proof.
  intros H. remember init as s0 eqn:E. assert (Hi : inv s0) by (rewrite E; apply error_init_inv). clear E.
  induction H as [|s0 s1 s2 Hs _ IH]; [done|]. apply IH. by eapply error_step_inv.
Qed.

(** ** Lines far enough apart *)

Definition apart (x y : Z) : Prop := errorLogInterval <= Z.abs (x - y).

Fixpoint pairwise (l : list Z) : Prop := match l with [] => True | x :: l => Forall (apart x) l /\ pairwise l end.

#[export] Instance pairwise_perm : Proper ((≡ₚ) ==> iff) pairwise.
Proof.
  assert (Hone : forall l k, l ≡ₚ k -> pairwise l -> pairwise k); [|intros l k H; split; by apply Hone].
  induction 1 as [|x l k H IH|x y l|l k m _ IH1 _ IH2]; cbn; [done| | |by eauto].
  - intros [Hx Hl]. split; [by rewrite <- H|by apply IH].
  - intros [Hy [Hx Hl]]. apply Forall_cons in Hy as [Hyx Hy]. split_and!; [constructor; [unfold apart in *; lia|done]|done|done].
Qed.

Lemma spaced_pairwise (l : list Z) : spaced l -> pairwise l /\ Forall (fun x => x <= default 0 (head l)) l.
Proof.
  induction l as [|x l IH]; [done|]. intros [Hx Hl]. destruct (IH Hl) as [Hp Hf]. cbn [head default] in *.
  assert (Hle : Forall (fun y => y <= x - errorLogInterval) l) by (eapply Forall_impl; [exact Hf|]; cbn; intros; lia).
  unfold errorLogInterval, Go.second in *. split; [split; [|done]|constructor; [cbn; lia|]];
    (eapply Forall_impl; [exact Hle|]); cbn; unfold apart, errorLogInterval, Go.second; intros; lia.
Qed.

Lemma pairwise_app_l (l k : list Z) : pairwise (l ++ k) -> pairwise l.
Proof. induction l as [|x l IH]; [done|]. cbn. intros [Hx Hl]. split; [by apply Forall_app in Hx as [? _]|by apply IH]. Qed.

(** C27: however the callers interleave, any two lines are at least the interval apart by the
    clocks they read, and no error is lost: each one is a line, is counted in one, or is
    counted for the next, or its call is still on its way. *)
Theorem error_log_throttled (s : state) :
  rtc step init s ->
  pairwise (fst <$> logged s) /\
  arrived s = Z.of_nat (length (logged s)) + zsum snd (logged s) + suppressed s + Z.of_nat (length (calls s)).
Proof.
  intros H%error_reachable_inv. destruct H as [Hl Hsp Hr Hc Hlo Ho Hn]. split; [|lia].
  apply spaced_pairwise in Hsp as [Hp _]. rewrite Ho in Hp. by eapply pairwise_app_l.
Qed.

(** Two calls race for one line: both load the stamp, one wins the swap. *)
Definition raced : state :=
  {| lastLogged := 31 * Go.second; suppressed := 0; calls := []; logged := [(31 * Go.second, 1)]; arrived := 2; stamps := [31 * Go.second] |}.

Lemma error_log_throttled_witness :
  rtc step init raced /\ pairwise (fst <$> logged raced) /\
  arrived raced = Z.of_nat (length (logged raced)) + zsum snd (logged raced) + suppressed raced + Z.of_nat (length (calls raced)).
Proof.
  assert (H : rtc step init raced).
  { eapply rtc_l; [apply (step_arrive _ (31 * Go.second)); vm_compute; by split|].
    eapply rtc_l; [apply (step_arrive _ (32 * Go.second)); vm_compute; by split|].
    eapply rtc_l; [eapply (step_call _ [] _ _); reflexivity|]. eapply rtc_l; [eapply (step_call _ [_] _ _); reflexivity|].
    eapply rtc_l; [eapply (step_call _ [_] _ _); reflexivity|]. eapply rtc_l; [eapply (step_call _ [] _ _); reflexivity|].
    eapply rtc_l; [eapply (step_call _ [] _ _); reflexivity|]. eapply rtc_l; [eapply (step_call _ [] _ _); reflexivity|].
    vm_compute. constructor. }
  split; [exact H|]. apply (error_log_throttled raced H).
Defined.
End ErrorLog.
