(* ===== verification/Server.v ===== *)
(** The server (libs/httpx/config.go, httpx.go, admin.go): which configurations are
    accepted, how the two listeners start and stop, and who reaches the admin
    surface. *)
From S2P Require Import Prelude GoStr LogLevel Health ClientAddr.

Module Server.

(** * Configuration *)

Record Config := {
  Service : string;
  Addr : string;
  AdminAddr : string;
  AdminToken : string;
  AdminInsecure : bool;
  DebugToken : string;
  ReadHeaderTimeout : Z;
  ReadTimeout : Z;
  WriteTimeout : Z;
  IdleTimeout : Z;
  RequestTimeout : Z;
  RequestTimeoutMin : Z;
  MaxHeaderBytes : Z;
  MaxBodyBytes : Z;
  ShutdownDelay : Z;
  ShutdownTimeout : Z;
  SlowRequest : Z;
  TrustedProxies : list string;
  HealthInterval : Z;
  HealthTimeout : Z;
  LogLevel_ : string;
  LogLevelMaxTTL : Z;
  LogFormat : string;
  LogSampleInitial : Z;
  LogSampleThereafter : Z
}.

Definition defaultLogLevelMaxTTL : Z := 24 * Go.hour.
Definition defaultReadHeaderTimeout : Z := 5 * Go.second.
Definition defaultReadTimeout : Z := 30 * Go.second.
Definition defaultWriteTimeout : Z := 30 * Go.second.
Definition defaultIdleTimeout : Z := 120 * Go.second.
Definition defaultMaxHeaderBytes : Z := Z.shiftl 1 20.
Definition defaultMaxBodyBytes : Z := Z.shiftl 1 20.
Definition defaultShutdownTimeout : Z := 10 * Go.second.

Definition orZ (x d : Z) : Z := if x =? 0 then d else x.
Definition orS (x d : string) : string := if String.eqb x "" then d else x.

(** What was wrong with a configuration. *)
Inductive problem :=
  | BadLevel | BadFormat | NoListener | SameAddress | BadShutdownTimeout | NegativeTimeoutMin | TimeoutMinOverTimeout
  | NegativeShutdownDelay | BadMaxBody | BadMaxHeader | HealthTimeoutTooLong | BadMaxTTL | NegativeSampling
  | BadProxies | AdminUnguarded.

Lemma check_nil (b : bool) (p : problem) (l : list problem) : (if b then [p] else []) ++ l = [] <-> b = false /\ l = [].
Proof. destruct b; cbn; naive_solver. Qed.

Section Params.
(** The base name of the executable, and the address functions of [ClientAddr];
    [IsLoopback] of a parsed address; [SplitHostPort] gives the host. *)
Context (executable : string) (ParseAddr : string -> option Netip.Addr) (ParsePrefix : string -> option Netip.Prefix)
        (SplitHostPort : string -> option string) (IsLoopback : Netip.Addr -> bool).

Definition withDefaults (c : Config) : Config :=
  {| Service := orS (Service c) executable;
     Addr := Addr c; AdminAddr := AdminAddr c; AdminToken := AdminToken c; AdminInsecure := AdminInsecure c;
     DebugToken := DebugToken c;
     ReadHeaderTimeout := orZ (ReadHeaderTimeout c) defaultReadHeaderTimeout;
     ReadTimeout := orZ (ReadTimeout c) defaultReadTimeout;
     WriteTimeout := orZ (WriteTimeout c) defaultWriteTimeout;
     IdleTimeout := orZ (IdleTimeout c) defaultIdleTimeout;
     RequestTimeout := RequestTimeout c; RequestTimeoutMin := RequestTimeoutMin c;
     MaxHeaderBytes := orZ (MaxHeaderBytes c) defaultMaxHeaderBytes;
     MaxBodyBytes := orZ (MaxBodyBytes c) defaultMaxBodyBytes;
     ShutdownDelay := ShutdownDelay c;
     ShutdownTimeout := orZ (ShutdownTimeout c) defaultShutdownTimeout;
     SlowRequest := SlowRequest c; TrustedProxies := TrustedProxies c;
     HealthInterval := orZ (HealthInterval c) Health.defaultHealthInterval;
     HealthTimeout := orZ (HealthTimeout c) Health.defaultHealthTimeout;
     LogLevel_ := orS (LogLevel_ c) "info";
     LogLevelMaxTTL := orZ (LogLevelMaxTTL c) defaultLogLevelMaxTTL;
     LogFormat := orS (LogFormat c) "json";
     LogSampleInitial := LogSampleInitial c; LogSampleThereafter := LogSampleThereafter c |}.

(** [strings.HasSuffix(s, ":0")]. *)
Definition ephemeral (s : string) : bool :=
  match rev (GoStr.bytes s) with a :: b :: _ => (a =? 48) && (b =? 58) | _ => false end.

Definition isLoopback (addr : string) : bool :=
  match SplitHostPort addr with
  | None => false
  | Some host =>
      if String.eqb host "" then false
      else if GoStr.EqualFold host "localhost" then true
      else match ParseAddr host with Some a => IsLoopback a | None => false end
  end.

(** [Validate]: the configuration with its defaults, and every problem it has. *)
Definition problems (c : Config) : list problem :=
  let check (b : bool) (p : problem) := if b then [p] else [] in
  check (match LogLevel.parseLevelStrict (LogLevel_ c) with None => true | _ => false end) BadLevel ++
  check (negb (String.eqb (GoStr.ToLower (LogFormat c)) "json" || String.eqb (GoStr.ToLower (LogFormat c)) "text")) BadFormat ++
  check (String.eqb (Addr c) "" && String.eqb (AdminAddr c) "") NoListener ++
  check (negb (String.eqb (Addr c) "") && String.eqb (Addr c) (AdminAddr c) && negb (ephemeral (Addr c))) SameAddress ++
  check (ShutdownTimeout c <=? 0) BadShutdownTimeout ++
  check (RequestTimeoutMin c <? 0) NegativeTimeoutMin ++
  check ((0 <? RequestTimeout c) && (RequestTimeout c <? RequestTimeoutMin c)) TimeoutMinOverTimeout ++
  check (ShutdownDelay c <? 0) NegativeShutdownDelay ++
  check (MaxBodyBytes c <=? 0) BadMaxBody ++
  check (MaxHeaderBytes c <=? 0) BadMaxHeader ++
  check (HealthInterval c <=? HealthTimeout c) HealthTimeoutTooLong ++
  check (LogLevelMaxTTL c <=? 0) BadMaxTTL ++
  check ((LogSampleInitial c <? 0) || (LogSampleThereafter c <? 0)) NegativeSampling ++
  check (match ClientAddr.parsePrefixes ParseAddr ParsePrefix (TrustedProxies c) with None => true | _ => false end) BadProxies ++
  check (negb (String.eqb (AdminAddr c) "") && String.eqb (AdminToken c) "" && negb (AdminInsecure c) && negb (isLoopback (AdminAddr c))) AdminUnguarded.

Definition Validate (c : Config) : Config * list problem := let c := withDefaults c in (c, problems c).

(** ** What an accepted configuration gives *)

(** A configuration the server can run safely with. *)
Record sound (c : Config) : Prop := {
  snd_level : is_Some (LogLevel.parseLevelStrict (LogLevel_ c));
  snd_listener : Addr c <> ""%string \/ AdminAddr c <> ""%string;
  snd_distinct : Addr c <> ""%string -> Addr c = AdminAddr c -> ephemeral (Addr c) = true;
  snd_shutdown : 0 < ShutdownTimeout c /\ 0 <= ShutdownDelay c;
  snd_budget : 0 <= RequestTimeoutMin c /\ (0 < RequestTimeout c -> RequestTimeoutMin c <= RequestTimeout c);
  snd_sizes : 0 < MaxBodyBytes c /\ 0 < MaxHeaderBytes c;
  snd_health : HealthTimeout c < HealthInterval c;
  snd_ttl : 0 < LogLevelMaxTTL c;
  snd_sampling : 0 <= LogSampleInitial c /\ 0 <= LogSampleThereafter c;
  snd_proxies : is_Some (ClientAddr.parsePrefixes ParseAddr ParsePrefix (TrustedProxies c));
  snd_admin : AdminAddr c = ""%string \/ AdminToken c <> ""%string \/ AdminInsecure c = true \/ isLoopback (AdminAddr c) = true
}.

Lemma problems_nil (c : Config) :
  problems c = [] <->
  sound c /\ (GoStr.ToLower (LogFormat c) = "json"%string \/ GoStr.ToLower (LogFormat c) = "text"%string).
Proof.
  clear executable. unfold problems. rewrite <- (app_nil_r (if _ && negb (isLoopback _) then _ else _)). rewrite !check_nil.
  split.
  - intros (H1 & H2 & H3 & H4 & H5 & H6 & H7 & H8 & H9 & H10 & H11 & H12 & H13 & H14 & H15 & _). zbool.
    split; [split|]; try lia.
    + destruct (LogLevel.parseLevelStrict _); [eauto|done].
    + destruct (String.eqb_spec (Addr c) ""), (String.eqb_spec (AdminAddr c) ""); auto.
    + intros Ha He. destruct (String.eqb_spec (Addr c) ""), (String.eqb_spec (Addr c) (AdminAddr c)); try done.
      by apply negb_false_iff in H4.
    + destruct (ClientAddr.parsePrefixes _ _ _); [eauto|done].
    + destruct (String.eqb_spec (AdminAddr c) ""); [by left|]. destruct (String.eqb_spec (AdminToken c) ""); [|by auto].
      destruct (AdminInsecure c); [by auto|]. cbn in H15. zbool. auto.
    + apply orb_true_iff in H2 as [H2|H2]; apply String.eqb_eq in H2; auto.
  - intros [[[l Hl] Hlis Hdis Hsh Hbu Hsz Hhe Httl Hsa [px Hpx] Had] Hfmt]. rewrite Hl, Hpx.
    split_and!; try done; try lia.
    + destruct Hfmt as [->| ->]; done.
    + destruct (String.eqb_spec (Addr c) ""), (String.eqb_spec (AdminAddr c) ""); naive_solver.
    + destruct (String.eqb_spec (Addr c) ""), (String.eqb_spec (Addr c) (AdminAddr c)); try done. by rewrite Hdis.
    + destruct (String.eqb_spec (AdminAddr c) ""), (String.eqb_spec (AdminToken c) ""), (AdminInsecure c), (isLoopback (AdminAddr c)); naive_solver.
Qed.

(** A configuration is accepted exactly when, with its defaults filled in, the
    server can run with it: a known level and format, a listener, distinct addresses,
    positive budgets and sizes, a request floor within the timeout, a check timeout
    below its interval, proxies that parse, and an admin surface that is guarded by a
    token, bound to loopback or declared insecure. *)
Theorem Validate_accepts_sound (c : Config) :
  let '(c', ps) := Validate c in
  c' = withDefaults c /\
  (ps = [] <-> sound c' /\ (GoStr.ToLower (LogFormat c') = "json"%string \/ GoStr.ToLower (LogFormat c') = "text"%string)).
Proof. unfold Validate. split; [done|apply problems_nil]. Qed.

(** The defaults are a fixed point: validating what was validated changes nothing. *)
Lemma withDefaults_idem (c : Config) : executable <> ""%string -> withDefaults (withDefaults c) = withDefaults c.
Proof.
  intros He.
  assert (HZ : forall x d, d <> 0 -> orZ (orZ x d) d = orZ x d).
  { intros x d Hd. unfold orZ. destruct (Z.eqb_spec x 0); [by rewrite (proj2 (Z.eqb_neq d 0) Hd)|].
    by rewrite (proj2 (Z.eqb_neq x 0)). }
  assert (HS : forall x d, d <> ""%string -> orS (orS x d) d = orS x d).
  { intros x d Hd. unfold orS. destruct (String.eqb_spec x ""); [by rewrite (proj2 (String.eqb_neq d "") Hd)|].
    by rewrite (proj2 (String.eqb_neq x "")). }
  unfold withDefaults. cbn. f_equal; first [by apply HZ|by apply HS|done].
Qed.

(** "rejects a readiness check that outlives its interval": a negative check timeout
    passes, and the registry replaces it by its default, which may be longer than the
    interval. *)
Theorem negative_health_timeout_outlives_interval (c : Config) :
  HealthInterval c = 1 * Go.second -> HealthTimeout c = -1 ->
  HealthTimeoutTooLong ∉ problems c /\
  Health.interval (Health.NewHealth (HealthInterval c) (HealthTimeout c)) <
  Health.timeout (Health.NewHealth (HealthInterval c) (HealthTimeout c)).
Proof.
  intros Hi Ht. split; [|rewrite Hi, Ht; done]. unfold problems. rewrite Hi, Ht.
  change (1 * Go.second <=? -1) with false. cbn [app].
  repeat (rewrite elem_of_app; intros [H|H]; revert H; [case_match; set_solver|]). case_match; set_solver.
Qed.

End Params.

(** * Run and shutdown *)

Inductive listener := Api | Admin.
#[export] Instance listener_eq_dec : EqDecision listener.
Proof. solve_decision. Defined.

(** What [Run] does, in order. *)
Inductive effect :=
  | Bind (l : listener)
  | CloseListener (l : listener)
  | Serve (l : listener)          (* its goroutine starts *)
  | Refresh                       (* the synchronous pass over the checks *)
  | StartHealth
  | SetReady (b : bool)
  | Sleep (d : Z)
  | Drain (l : listener) (budget : Z)   (* http.Server.Shutdown *)
  | CancelBase                    (* cancels the context of every request *)
  | CloseServer (l : listener)    (* http.Server.Close *)
  | StopHealth.
#[export] Instance effect_eq_dec : EqDecision effect.
Proof. solve_decision. Defined.

Inductive failure :=
  | BindFailed (l : listener) | NothingToServe | ServeFailed (e : string) | DrainFailed (l : listener).

(** What the environment decides: which binds and drains fail, and what wakes
    [Run]: a listener that stopped, with an error or without, or the end of its context. *)
Record environment := {
  bind_fails : listener -> bool;
  drain_fails : listener -> bool;
  serve_error : option (option string)
}.

Definition adminShutdownBudget : Z := 2 * Go.second.

Section Run.
Context (cfg : Config).

Definition has (l : listener) : bool :=
  match l with Api => negb (String.eqb (Addr cfg) "") | Admin => negb (String.eqb (AdminAddr cfg) "") end.

Definition shutdown (env : environment) : list effect * option failure :=
  let '(l1, first) :=
    if has Api
    then if drain_fails env Api
         then ([Drain Api (ShutdownTimeout cfg); CancelBase; CloseServer Api], Some (DrainFailed Api))
         else ([Drain Api (ShutdownTimeout cfg)], None)
    else ([], None) in
  let '(l2, first) :=
    if has Admin
    then if drain_fails env Admin
         then ([Drain Admin adminShutdownBudget; CloseServer Admin],
               match first with None => Some (DrainFailed Admin) | Some _ => first end)
         else ([Drain Admin adminShutdownBudget], first)
    else ([], first) in
  (l1 ++ l2 ++ [CancelBase], first).

(** Once both are bound. *)
Definition serving (env : environment) : list effect * option failure :=
  let starts := (if has Admin then [Serve Admin] else []) ++ (if has Api then [Serve Api] else []) ++
                [Refresh; StartHealth; SetReady true; SetReady false] in
  let '(l, e) := shutdown env in
  match serve_error env with
  | Some err => (starts ++ l ++ [StopHealth; CancelBase], ServeFailed <$> err)
  | None => (starts ++ (if 0 <? ShutdownDelay cfg then [Sleep (ShutdownDelay cfg)] else []) ++ l ++ [StopHealth; CancelBase], e)
  end.

Definition Run (env : environment) : list effect * option failure :=
  if has Api && bind_fails env Api then ([CancelBase], Some (BindFailed Api))
  else
    let bound := if has Api then [Bind Api] else [] in
    if has Admin && bind_fails env Admin
    then (bound ++ (if has Api then [CloseListener Api] else []) ++ [CancelBase], Some (BindFailed Admin))
    else if negb (has Api) && negb (has Admin) then ([CancelBase], Some NothingToServe)
    else let '(l, e) := serving env in
         (bound ++ (if has Admin then [Bind Admin] else []) ++ l, e).

(** ** The life of a server *)

(** What a client, a probe and an operator can see of it: the listeners that accept
    connections, those that serve them, those whose drain is over in time or not, those that
    are closed for good; whether the checks have run and go on; the readiness gate as it was
    set; whether the contexts of the requests are cancelled. *)
Record life := {
  bound : list listener;
  started : list listener;
  drained : list listener;
  down : list listener;
  checked : bool;
  checking : bool;
  gate : list bool;
  cancelled : bool
}.
Definition unborn : life :=
  {| bound := []; started := []; drained := []; down := []; checked := false; checking := false; gate := []; cancelled := false |}.

Definition same (j k : listener) : bool := match j, k with Api, Api | Admin, Admin => true | _, _ => false end.
Definition within (k : listener) (l : list listener) : bool := existsb (same k) l.
Definition none {A : Type} (l : list A) : bool := match l with [] => true | _ => false end.
Definition all_in (l m : list listener) : bool := forallb (fun k => within k m) l.

(** What may happen when. Listeners are bound before any serves; the gate opens once, when
    all that are bound serve, the checks have run and go on; it closes once; only then is
    there a delay and only after it are listeners drained, each with a budget, the admin
    listener after the API is down; one whose drain fails is closed by force; and the
    contexts of requests are cancelled only when the API is not serving or its drain is
    over, and before it is closed by force. *)
Definition live (env : environment) (x : effect) (v : life) : option life :=
  let guard (b : bool) (v : life) := if b then Some v else None in
  let closed_gate := match gate v with [true; false] => true | _ => false end in
  match x with
  | Bind k =>
      guard (negb (within k (bound v)) && none (started v))
        {| bound := k :: bound v; started := started v; drained := drained v; down := down v; checked := checked v;
           checking := checking v; gate := gate v; cancelled := cancelled v |}
  | CloseListener k =>
      guard (within k (bound v) && negb (within k (started v)))
        {| bound := bound v; started := started v; drained := drained v; down := k :: down v; checked := checked v;
           checking := checking v; gate := gate v; cancelled := cancelled v |}
  | Serve k =>
      guard (within k (bound v) && negb (within k (started v)) && negb (within k (down v)))
        {| bound := bound v; started := k :: started v; drained := drained v; down := down v; checked := checked v;
           checking := checking v; gate := gate v; cancelled := cancelled v |}
  | Refresh =>
      Some {| bound := bound v; started := started v; drained := drained v; down := down v; checked := true;
              checking := checking v; gate := gate v; cancelled := cancelled v |}
  | StartHealth =>
      Some {| bound := bound v; started := started v; drained := drained v; down := down v; checked := checked v;
              checking := true; gate := gate v; cancelled := cancelled v |}
  | SetReady true =>
      guard (none (gate v) && negb (none (bound v)) && all_in (bound v) (started v) && checked v && checking v)
        {| bound := bound v; started := started v; drained := drained v; down := down v; checked := checked v;
           checking := checking v; gate := [true]; cancelled := cancelled v |}
  | SetReady false =>
      guard (match gate v with [true] => true | _ => false end)
        {| bound := bound v; started := started v; drained := drained v; down := down v; checked := checked v;
           checking := checking v; gate := [true; false]; cancelled := cancelled v |}
  | Sleep d => guard (closed_gate && (0 <? d) && none (drained v)) v
  | Drain k budget =>
      guard (closed_gate && (0 <? budget) && within k (started v) && negb (within k (drained v)) &&
             match k with Api => true | Admin => negb (within Api (bound v)) || within Api (down v) end)
        {| bound := bound v; started := started v; drained := k :: drained v; down := if drain_fails env k then down v else k :: down v;
           checked := checked v; checking := checking v; gate := gate v; cancelled := cancelled v |}
  | CancelBase =>
      guard (negb (within Api (started v)) || within Api (drained v))
        {| bound := bound v; started := started v; drained := drained v; down := down v; checked := checked v;
           checking := checking v; gate := gate v; cancelled := true |}
  | CloseServer k =>
      guard (within k (drained v) && negb (within k (down v)) && match k with Api => cancelled v | Admin => true end)
        {| bound := bound v; started := started v; drained := drained v; down := k :: down v; checked := checked v;
           checking := checking v; gate := gate v; cancelled := cancelled v |}
  | StopHealth =>
      Some {| bound := bound v; started := started v; drained := drained v; down := down v; checked := checked v;
              checking := false; gate := gate v; cancelled := cancelled v |}
  end.

Fixpoint lives (env : environment) (l : list effect) (v : life) : option life :=
  match l with [] => Some v | x :: l => v ← live env x v; lives env l v end.

(** How it ends: nothing that was bound accepts connections, every request is cancelled and
    no check runs; and, when every listener could be bound, all of them served and the gate
    was opened and closed. *)
Definition binds (env : environment) : bool :=
  (has Api || has Admin) && negb (has Api && bind_fails env Api) && negb (has Admin && bind_fails env Admin).
Definition ended (env : environment) (v : life) : Prop :=
  all_in (bound v) (down v) = true /\ cancelled v = true /\ checking v = false /\
  if binds env then gate v = [true; false] /\ forall k, has k = true -> within k (started v) = true else gate v = [].

Definition waits (x : effect) : Z := match x with Sleep d => d | Drain _ b => b | _ => 0 end.
Definition sleeps (x : effect) : Z := match x with Sleep d => d | _ => 0 end.

(** Every path of [Run]. *)
Ltac run_cases :=
  unfold Run, serving, shutdown;
  repeat (match goal with
          | |- context [if ?b then _ else _] => lazymatch b with context [if _ then _ else _] => fail | _ => destruct b eqn:? end
          | |- context [match serve_error ?env with _ => _ end] => destruct (serve_error env) eqn:?
          end; cbn [andb negb app]).

Ltac use_env := repeat match goal with H : ?x = ?b |- context [?x] => lazymatch b with true => rewrite H | false => rewrite H end end.

(** Only what the environment answers for the two listeners matters. *)
Definition answers (b1 b2 d1 d2 : bool) (se : option (option string)) : environment :=
  {| bind_fails := fun k => match k with Api => b1 | Admin => b2 end; drain_fails := fun k => match k with Api => d1 | Admin => d2 end;
     serve_error := se |}.
Definition settled (env : environment) : environment :=
  answers (bind_fails env Api) (bind_fails env Admin) (drain_fails env Api) (drain_fails env Admin) (serve_error env).

Lemma lives_settled (env : environment) (l : list effect) (v : life) : lives (settled env) l v = lives env l v.
Proof.
  assert (H : forall x v, live (settled env) x v = live env x v) by (intros [k|k|k| | |[]|d|k d| |k|] w; try done; by destruct k).
  revert v. induction l as [|x l IH]; intros v; [done|]. cbn [lives]. rewrite H. destruct (live env x v); [apply IH|done].
Qed.

Lemma run_life (env : environment) :
  0 < ShutdownTimeout cfg -> exists v, lives env (Run env).1 unborn = Some v /\ ended env v.
Proof.
  intros Hto%Z.ltb_lt. change (exists v, lives env (Run (settled env)).1 unborn = Some v /\ ended (settled env) v).
  assert (H : exists v, lives (settled env) (Run (settled env)).1 unborn = Some v /\ ended (settled env) v);
    [|destruct H as (v & Hv & He); exists v; by rewrite <- lives_settled].
  unfold settled. generalize (bind_fails env Api), (bind_fails env Admin), (drain_fails env Api), (drain_fails env Admin), (serve_error env).
  intros b1 b2 d1 d2 se. unfold ended, binds, Run, serving, shutdown, has. cbn [bind_fails drain_fails serve_error answers].
  destruct (String.eqb (Addr cfg) ""), (String.eqb (AdminAddr cfg) ""), b1, b2; cbn [negb andb orb];
    try (eexists; split; [reflexivity|by vm_compute]).
  all: destruct (0 <? ShutdownDelay cfg) eqn:Hd, se, d1, d2; cbn; rewrite ?Hto, ?Hd; cbn; rewrite ?Hto; cbn; eexists;
    (split; [reflexivity|split_and!; try done; by intros []]).
Qed.

Lemma run_waits (env : environment) :
  0 <= ShutdownDelay cfg -> 0 < ShutdownTimeout cfg ->
  zsum waits (Run env).1 <= ShutdownDelay cfg + ShutdownTimeout cfg + adminShutdownBudget /\
  (binds env = true -> serve_error env = None -> zsum sleeps (Run env).1 = ShutdownDelay cfg).
Proof.
  intros H1 H2. unfold binds. run_cases; cbn [fst zsum waits sleeps]; unfold adminShutdownBudget, Go.second; zbool; use_env;
    (split; [lia|intros; try done; lia]).
Qed.

Lemma run_error (env : environment) :
  (Run env).2 = None <->
  binds env = true /\
  match serve_error env with Some err => err = None | None => forall k, has k = true -> drain_fails env k = false end.
Proof.
  assert (Hall : (forall k, has k = true -> drain_fails env k = false) <->
                 (has Api = true -> drain_fails env Api = false) /\ (has Admin = true -> drain_fails env Admin = false)).
  { split; [auto|]. intros [H1 H2] []; auto. }
  enough (H : (Run env).2 = None <-> binds env = true /\
    match serve_error env with
    | Some err => err = None
    | None => (has Api = true -> drain_fails env Api = false) /\ (has Admin = true -> drain_fails env Admin = false)
    end) by (rewrite H; destruct (serve_error env); [done|by rewrite Hall]).
  clear Hall. unfold binds, Run, serving, shutdown, has.
  destruct (String.eqb (Addr cfg) ""), (String.eqb (AdminAddr cfg) ""), (bind_fails env Api), (bind_fails env Admin); cbn [negb andb orb snd];
    try naive_solver.
  all: destruct (drain_fails env Api), (drain_fails env Admin), (serve_error env) as [[err|]|]; cbn; naive_solver.
Qed.


End Run.
(** * The admin surface *)

(** The routes of [newAdminMux], with whether the guard is around the handler. *)
Definition newAdminMux : list (string * bool) :=
  [("GET /healthz", false); ("GET /livez", false); ("GET /readyz", false); ("GET /metrics", false); ("GET /version", false);
   ("GET /admin/config", true); ("GET /admin/log-level", true); ("PUT /admin/log-level", true);
   ("DELETE /admin/log-level", true);
   ("/debug/pprof/", true); ("/debug/pprof/cmdline", true); ("/debug/pprof/profile", true);
   ("/debug/pprof/symbol", true); ("/debug/pprof/trace", true)]%string.

Section Guard.
(** SHA-256 of a token. *)
Context (tokenDigest : string -> list Z).

(** Whether a request with this Authorization header passes. *)
Definition requireBearer (token authorization : string) : bool :=
  if String.eqb token "" then true
  else
    let '(scheme, got, _) := GoStr.cut 32 (GoStr.bytes authorization) in
    GoStr.EqualFold (GoStr.of_bytes scheme) "Bearer" &&
    bool_decide (tokenDigest (GoStr.TrimSpace (GoStr.of_bytes got)) = tokenDigest token).

(** The status an admin route answers with when it is not served. *)
Definition admin_refuses (token authorization : string) (guarded : bool) : option Z :=
  if guarded && negb (requireBearer token authorization) then Some 401 else None.

Lemma cut_spec (sep : Z) (p x y : list Z) (f : bool) :
  GoStr.cut sep p = (x, y, f) -> sep ∉ x /\ (if f then p = x ++ sep :: y else p = x /\ y = []).
Proof.
  revert x y f. induction p as [|b p IH]; cbn; intros x y f H; [simplify_eq; split; [set_solver|done]|].
  destruct (Z.eqb_spec b sep) as [->|Hne]; [simplify_eq; split; [set_solver|done]|].
  destruct (GoStr.cut sep p) as [[x' y'] f'] eqn:Hc. simplify_eq. destruct (IH _ _ _ eq_refl) as [H1 H2].
  split; [set_solver|]. destruct f; [by rewrite H2|]. by destruct H2 as [-> ->].
Qed.

Lemma cut_app (sep : Z) (x y : list Z) : sep ∉ x -> GoStr.cut sep (x ++ sep :: y) = (x, y, true).
Proof.
  induction x as [|b x IH]; intros H; cbn; [by rewrite Z.eqb_refl|].
  rewrite (proj2 (Z.eqb_neq b sep)) by set_solver. by rewrite IH by set_solver.
Qed.

(** The credential of an Authorization header: what follows the scheme and the first space,
    trimmed; empty when there is no space. *)
Definition bearer_credential (authorization cred : string) : Prop :=
  exists scheme got, GoStr.EqualFold scheme "Bearer" = true /\ 32 ∉ GoStr.bytes scheme /\ cred = GoStr.TrimSpace got /\
    (GoStr.bytes authorization = GoStr.bytes scheme ++ 32 :: GoStr.bytes got \/ (authorization = scheme /\ got = "")).

Lemma requireBearer_spec (token authorization : string) :
  token <> ""%string ->
  requireBearer token authorization = true <->
  exists cred, bearer_credential authorization cred /\ tokenDigest cred = tokenDigest token.
Proof.
  intros Hne. unfold requireBearer, bearer_credential. rewrite (proj2 (String.eqb_neq _ _) Hne). split.
  - destruct (GoStr.cut 32 (GoStr.bytes authorization)) as [[x y] f] eqn:Hc. intros [H1 H2%bool_decide_eq_true]%andb_prop.
    apply cut_spec in Hc as [Hx Hc]. pose proof (GoStr.bytes_range authorization) as Hb.
    eexists. split; [|exact H2]. exists (GoStr.of_bytes x), (GoStr.of_bytes y). destruct f.
    + rewrite Hc in Hb. apply Forall_app in Hb as [Hbx Hby]. inversion_clear Hby as [|? ? _ Hby'].
      rewrite !GoStr.bytes_of_bytes by done. split_and!; try done. by left.
    + destruct Hc as [<- ->]. rewrite GoStr.of_bytes_bytes in *. split_and!; try done. by right.
  - intros (cred & (scheme & got & Hs & Hx & -> & [Ha|[-> ->]]) & Hd).
    + rewrite Ha, cut_app by done. rewrite !GoStr.of_bytes_bytes, Hs. cbn. by apply bool_decide_eq_true_2.
    + destruct (GoStr.cut 32 (GoStr.bytes scheme)) as [[x y] f] eqn:Hc. apply cut_spec in Hc as [_ Hc]. destruct f; [rewrite Hc in Hx; set_solver|].
      destruct Hc as [<- ->]. rewrite GoStr.of_bytes_bytes, Hs. cbn. by apply bool_decide_eq_true_2.
Qed.

(** C36: on an accepted configuration (its defaults filled in, no problem found) whose admin
    address is set and not loopback and that does not say AdminInsecure, there is a token,
    and every route under /admin and /debug answers 401 unless the credential of the
    request's bearer header has the digest of the token, which is all the code compares;
    the token itself, when it has no surrounding white space, is let in; probes, metrics and
    version, and nothing else, are open to anyone. *)
Theorem admin_surface_guarded (ParseAddr : string -> option Netip.Addr) (ParsePrefix : string -> option Netip.Prefix)
    (SplitHostPort : string -> option string) (IsLoopback : Netip.Addr -> bool) (executable : string) (c0 c : Config)
    (Haccepted : Validate executable ParseAddr ParsePrefix SplitHostPort IsLoopback c0 = (c, [])) (Haddr : AdminAddr c <> ""%string)
    (Hsec : AdminInsecure c = false) (Hloop : isLoopback ParseAddr SplitHostPort IsLoopback (AdminAddr c) = false) :
  AdminToken c <> ""%string /\
  (forall pattern guarded authorization, (pattern, guarded) ∈ newAdminMux ->
     pattern ∉ ["GET /healthz"; "GET /livez"; "GET /readyz"; "GET /metrics"; "GET /version"]%string ->
     admin_refuses (AdminToken c) authorization guarded = Some 401 \/
     (admin_refuses (AdminToken c) authorization guarded = None /\
      exists cred, bearer_credential authorization cred /\ tokenDigest cred = tokenDigest (AdminToken c))) /\
  (forall pattern guarded authorization, (pattern, guarded) ∈ newAdminMux ->
     pattern ∈ ["GET /healthz"; "GET /livez"; "GET /readyz"; "GET /metrics"; "GET /version"]%string ->
     admin_refuses (AdminToken c) authorization guarded = None) /\
  (GoStr.TrimSpace (AdminToken c) = AdminToken c -> forall guarded,
     admin_refuses (AdminToken c) ("Bearer " ++ AdminToken c) guarded = None).
Proof.
  assert (Hsound : sound ParseAddr ParsePrefix SplitHostPort IsLoopback c).
  { unfold Validate in Haccepted. injection Haccepted as <- Hp. by apply problems_nil in Hp as [? _]. }
  assert (Htok : AdminToken c <> ""%string) by (destruct (snd_admin _ _ _ _ _ Hsound) as [?|[?|[?|?]]]; congruence).
  split_and!; [done| | |].
  - intros pattern guarded auth Hin Hp.
    assert (guarded = true) as ->.
    { clear -Hin Hp. unfold newAdminMux in Hin. repeat (apply elem_of_cons in Hin as [[= -> ->]|Hin]; [first [done|set_solver]|]). set_solver. }
    unfold admin_refuses. destruct (requireBearer (AdminToken c) auth) eqn:Hr; [right|by left].
    split; [done|]. by apply requireBearer_spec.
  - intros pattern guarded auth Hin Hp.
    assert (guarded = false) as ->.
    { clear -Hin Hp. unfold newAdminMux in Hin. repeat (apply elem_of_cons in Hin as [[= -> ->]|Hin]; [first [done|set_solver]|]). set_solver. }
    done.
  - intros Ht guarded. unfold admin_refuses. rewrite (proj2 (requireBearer_spec _ _ Htok)); [by destruct guarded|].
    exists (AdminToken c). split; [|done]. exists "Bearer"%string, (AdminToken c). split_and!; [done|by vm_compute; set_solver|done|]. left.
    by rewrite GoStr.bytes_app.
Qed.

(** A token with white space around it is accepted by [Validate] and then opens nothing but
    to a text that happens to have its digest: the credential is trimmed before it is
    compared, the token is not. *)
Theorem spaced_token_locks_out (token authorization : string) :
  GoStr.TrimSpace token <> token -> requireBearer token authorization = true ->
  exists other, other <> token /\ tokenDigest other = tokenDigest token.
Proof.
  intros Hsp H. assert (Hne : token <> ""%string) by (intros ->; by apply Hsp).
  apply requireBearer_spec in H as (cred & (scheme & got & _ & _ & -> & _) & Hd); [|done]. exists (GoStr.TrimSpace got).
  split; [|done]. intros <-. apply Hsp, GoStr.TrimSpace_idem.
Qed.
End Guard.

(** ** Witnesses *)

Definition demo_config : Config :=
  {| Service := "tasks"; Addr := ":8080"; AdminAddr := ":9080"; AdminToken := "s3cret"; AdminInsecure := false; DebugToken := "";
     ReadHeaderTimeout := 5; ReadTimeout := 30; WriteTimeout := 30; IdleTimeout := 120; RequestTimeout := 30;
     RequestTimeoutMin := 1; MaxHeaderBytes := 1024; MaxBodyBytes := 1024; ShutdownDelay := 2; ShutdownTimeout := 10;
     SlowRequest := 1; TrustedProxies := []; HealthInterval := 10; HealthTimeout := 3; LogLevel_ := "info";
     LogLevelMaxTTL := 24; LogFormat := "json"; LogSampleInitial := 100; LogSampleThereafter := 100 |}.

Lemma demo_sound : sound (fun _ => None) (fun _ => None) (fun _ => Some ""%string) (fun _ => false) demo_config.
Proof. refine (proj1 (proj1 (problems_nil _ _ _ _ demo_config) _)). vm_compute. reflexivity. Qed.

Definition demo_env : environment :=
  {| bind_fails := fun _ => false; drain_fails := fun k => bool_decide (k = Api); serve_error := None |}.


Lemma admin_surface_guarded_witness :
  admin_refuses GoStr.bytes "s3cret" "Bearer s3cret" true = None /\ admin_refuses GoStr.bytes "s3cret" "Bearer guess" true = Some 401.
Proof.
  split; [|reflexivity].
  refine (proj2 (proj2 (proj2 (admin_surface_guarded GoStr.bytes (fun _ => None) (fun _ => None)
            (fun _ => Some ""%string) (fun _ => false) "tasks" demo_config demo_config _ _ _ _))) _ true); try reflexivity; done.
Defined.

End Server.
