(* ===== verification/Exposed.v ===== *)
(** What a service exposes: the collectors of every library and service (httpx metrics.go and
    health.go, pgx, valkey, kafka, the relay, the workers), which fit on one registry; the
    server [NewServer] puts together (httpx.go); and GET /admin/config
    (admin.go). *)
From S2P Require Import Prelude GoStr Registry GoReflect LogLevel Health ClientAddr Problem Middleware Redact Boot Server.

(** * Collectors *)

Module Collectors.
Import Registry Registering.

Definition quoted (s : string) : string := String (Ascii.ascii_of_nat 34) (s ++ String (Ascii.ascii_of_nat 34) "").

(** A collector of one family, without and with constant labels. *)
Definition vec (name help : string) (labels : list string) : list Desc := [{| d_name := name; d_help := help; d_const := []; d_labels := labels |}].
Definition const (name help : string) (const : list (string * string)) (labels : list string) : list Desc :=
  [{| d_name := name; d_help := help; d_const := const; d_labels := labels |}].

(** [NewMetrics], after the runtime's own collectors; [dropped]: the logger samples. *)
Definition httpx_families (version revision : string) : list (list Desc) :=
  [const "build_info" "Build identity of the running binary; always 1." [("revision", revision); ("version", version)] [];
   vec "http_requests_total" "HTTP requests handled, by method, route template and status." ["method"; "route"; "status"];
   vec "http_request_duration_seconds" "HTTP request latency in seconds, by method and route template." ["method"; "route"];
   vec "http_requests_in_flight" "HTTP requests currently being handled." [];
   vec "http_unhandled_errors_total" "Requests that failed outside the handler's own error handling (a recovered panic, answered 500)." []].
Definition dropped_families (dropped : bool) : list (list Desc) :=
  if dropped then [const "log_dropped_total" "Log records dropped by sampling." [("level", "debug")] [];
                   const "log_dropped_total" "Log records dropped by sampling." [("level", "info")] []] else [].

Definition health_families : list (list Desc) :=
  [vec "health_check_up" ("Readiness check result: 1 healthy, 0 failing. critical=" ++ quoted "true" ++ " checks gate /readyz.") ["check"; "critical"];
   vec "health_check_duration_seconds" "Readiness check latency in seconds (a timed-out check records the timeout)." ["check"]].

Definition pgx_query_families : list (list Desc) :=
  [vec "db_query_duration_seconds" "PostgreSQL query latency in seconds by operation (WithOperation name, else the statement keyword)." ["operation"];
   vec "db_query_errors_total" "PostgreSQL queries that failed, by operation (a cancelled context counts)." ["operation"]].
Definition pgx_collectors : list (list Desc) :=
  let conns st := const "db_pool_connections" "Connections in the pool by state." [("state", st)] [] in
  [conns "idle"; conns "in_use"; conns "constructing";
   vec "db_pool_max_connections" "Configured maximum pool size." [];
   vec "db_pool_acquires_waited_total" "Connection acquires that waited because the pool had no idle connection." [];
   vec "db_pool_acquire_wait_seconds_total" "Cumulative time spent acquiring connections." [];
   vec "db_pool_acquires_canceled_total" "Connection acquires cancelled by their context while waiting." []] ++ pgx_query_families.

Definition valkey_collectors : list (list Desc) :=
  [vec "cache_lookups_total" "Cache GETs by outcome: hit, miss (absent or tombstoned), or error (lookup itself failed)." ["result"];
   vec "cache_command_duration_seconds" "Cache command latency in seconds by operation (get, set, del)." ["operation"];
   vec "cache_command_errors_total" "Cache commands that failed (timeouts included; a missing key is not a failure) by operation." ["operation"]].

(** kafka: the families of sends, kept apart by the role, and the client's. *)
Definition send_families (role : string) : list (list Desc) :=
  [const "kafka_producer_records_total"
     "Records sent, by topic and result (ok, or the SendError kind: queue_full|unavailable|not_provisioned|fatal|rejected|unknown)."
     [("client", role)] ["topic"; "result"];
   const "kafka_producer_send_duration_seconds" "Time from send to broker acknowledgement (or failure), by topic." [("client", role)] ["topic"]].
Definition client_collector (role provider : string) : list Desc :=
  const "kafka_client_info" "The Kafka client library this service was built with (always 1)." [("client", role); ("provider", provider)] [] ++
  const "kafka_client_brokers_up" "Brokers this client has a live connection to." [("client", role)] [] ++
  const "kafka_client_request_errors_total" "Request timeouts and transport errors, summed over brokers." [("client", role)] [] ++
  if String.eqb role "producer"
  then vec "kafka_producer_queue_bytes" "Bytes waiting in the producer's local send queue." [] ++
       vec "kafka_producer_queue_max_bytes" "The local send queue's bound (KAFKA_PRODUCER_QUEUE_MAX_KBYTES); full → queue_full." []
  else [].
Definition producer_collectors (provider : string) : list (list Desc) := send_families "producer" ++ [client_collector "producer" provider].
Definition consumer_families : list (list Desc) :=
  [vec "kafka_consumer_records_total" "Records consumed, by topic and final outcome (ok|retried|dead_lettered|failed)." ["topic"; "result"];
   vec "kafka_consumer_handler_duration_seconds" "Duration of one handler attempt, by topic." ["topic"];
   vec "kafka_consumer_commit_errors_total" "Offset commits that failed (the records stay pending and are retried or redelivered)." [];
   vec "kafka_consumer_fetch_errors_total" "Fetch errors reported by the client." [];
   vec "kafka_consumer_assigned_partitions" "Partitions currently assigned to this group member." [];
   vec "kafka_consumer_rebalances_total" "Group rebalance callbacks seen by this member, by event (assigned|revoked|lost)." ["event"]].
Definition consumer_collectors (provider : string) : list (list Desc) :=
  consumer_families ++ send_families "consumer" ++ [client_collector "consumer" provider].

Definition relay_collectors : list (list Desc) :=
  [vec "outbox_pending" "Outbox events not yet published to Kafka (as of the relay's last pass)." [];
   vec "outbox_dead" "Outbox events the broker rejected OUTBOX_MAX_ATTEMPTS times; kept for an operator, no longer sent." [];
   vec "outbox_oldest_age_seconds" "Age of the oldest unpublished outbox event in seconds (0 when the outbox is empty)." []].
Definition integration_gauge : list (list Desc) :=
  [vec "app_integration_enabled" "Optional integrations this process runs with (1 on, 0 off: its address is not set)." ["integration"]].
Definition worker_collectors : list (list Desc) :=
  [vec "consumer_events_total" "Task events applied, by event type." ["event_type"];
   vec "consumer_duplicates_total" "Redelivered events skipped because their event id was already applied." [];
   vec "consumer_events_rejected_total" "Events rejected as permanent failures (dead-lettered), by reason (undecodable|unknown_type)." ["reason"]].
Definition heartbeat_collectors : list (list Desc) := [vec "heartbeat_beats_total" "Total number of heartbeats emitted since process start." []].

(** * A service's registry *)

Section Registry.
Context {R : Type} `{!Registerer R} (NewRegistry : R) (runtime : list (list Desc)).

Definition own_name (n : string) : bool := negb (String.prefix "go_" n || String.prefix "process_" n).

(** A new registry is empty, and the runtime's collectors name their families [go_] and
    [process_]. *)
Record runtime_ok : Prop := {
  rt_empty : held NewRegistry = [];
  rt_consistent : consistent (concat runtime) = true;
  rt_named : forall d, d ∈ concat runtime -> own_name (d_name d) = false
}.

(** [NewMetrics] and the health metrics of [NewServer]. *)
Definition NewMetrics (version revision : string) (dropped : bool) : option R :=
  reg ← MustRegister runtime NewRegistry;
  reg ← MustRegister (httpx_families version revision) reg;
  MustRegister (dropped_families dropped) reg.
Definition server_registry (version revision : string) (dropped : bool) : option R :=
  reg ← NewMetrics version revision dropped; MustRegister health_families reg.

(** The registrations of the services, in the order of their [run]. *)
Definition tasks_registry (version revision provider : string) (dropped valkey kafka : bool) : option R :=
  reg ← server_registry version revision dropped;
  reg ← MustRegister pgx_collectors reg;
  reg ← MustRegister integration_gauge reg;
  reg ← (if valkey then MustRegister valkey_collectors reg else Some reg);
  reg ← (if kafka then MustRegister (producer_collectors provider) reg else Some reg);
  MustRegister relay_collectors reg.
Definition consumer_registry (version revision provider : string) (dropped : bool) : option R :=
  reg ← server_registry version revision dropped;
  reg ← MustRegister (consumer_collectors provider) reg;
  MustRegister worker_collectors reg.
Definition heartbeat_registry (version revision : string) (dropped : bool) : option R :=
  reg ← server_registry version revision dropped; MustRegister heartbeat_collectors reg.

(** ** They all fit *)

(** Families of the workspace beside the runtime's. *)
Lemma beside_runtime (own : list Desc) :
  runtime_ok -> consistent own = true -> forallb (fun d => own_name (d_name d)) own = true -> consistent (concat runtime ++ own) = true.
Proof.
  intros [_ Hc Hn] Ho Hf. rewrite consistent_app, Hc, Ho. cbn.
  rewrite forallb_forall in Hf. apply (fits_names _ _ (fun n => negb (own_name n))); intros d Hd; [by rewrite Hn|].
  by rewrite (Hf d) by (by apply list_elem_of_In).
Qed.

(** Takes the registrations of a sequence one by one. *)
Ltac stages :=
  repeat (rewrite MustRegister_app;
          match goal with |- context [MustRegister ?c ?r ≫= _] => destruct (MustRegister c r) as [?|]; [|done] end;
          cbn [mbind option_bind]).

(** One call of [MustRegister] for what several do. *)
Lemma server_registry_once (version revision : string) (dropped : bool) :
  server_registry version revision dropped =
  MustRegister (runtime ++ httpx_families version revision ++ dropped_families dropped ++ health_families) NewRegistry.
Proof. unfold server_registry, NewMetrics. by stages. Qed.

Lemma registers_on_server (version revision : string) (dropped : bool) (cs : list (list Desc)) :
  runtime_ok ->
  let own := concat (httpx_families version revision ++ dropped_families dropped ++ health_families ++ cs) in
  consistent own = true -> forallb (fun d => own_name (d_name d)) own = true ->
  exists reg, server_registry version revision dropped ≫= MustRegister cs = Some reg /\ held reg = concat runtime ++ own.
Proof.
  intros Hrt own Hc Hn. rewrite server_registry_once, <- MustRegister_app, <- !app_assoc.
  destruct (MustRegister_takes (runtime ++ httpx_families version revision ++ dropped_families dropped ++ health_families ++ cs) NewRegistry) as (reg & -> & Hr).
  - rewrite concat_app. by apply beside_runtime.
  - by rewrite (rt_empty Hrt).
  - exists reg. split; [done|]. by rewrite Hr, (rt_empty Hrt), concat_app.
Qed.

(** Whatever a service is configured with, it can register all it exposes: no boot ends in
    the panic of a duplicate or inconsistent family. *)
Lemma registries_complete (version revision provider : string) (dropped valkey kafka : bool) :
  runtime_ok ->
  (exists reg, tasks_registry version revision provider dropped valkey kafka = Some reg /\
     held reg = concat (runtime ++ httpx_families version revision ++ dropped_families dropped ++ health_families ++ pgx_collectors ++ integration_gauge ++
       (if valkey then valkey_collectors else []) ++ (if kafka then producer_collectors provider else []) ++ relay_collectors)) /\
  is_Some (consumer_registry version revision provider dropped) /\
  is_Some (heartbeat_registry version revision dropped).
Proof.
  intros Hrt. split_and!.
  - destruct (registers_on_server version revision dropped (pgx_collectors ++ integration_gauge ++ (if valkey then valkey_collectors else []) ++
      (if kafka then producer_collectors provider else []) ++ relay_collectors) Hrt) as (reg & Hreg & Hheld);
      [by destruct dropped, valkey, kafka; vm_compute..|].
    exists reg. split; [|by rewrite Hheld, (concat_app runtime)]. rewrite <- Hreg. unfold tasks_registry.
    destruct (server_registry version revision dropped) as [r|]; [|done]. cbn [mbind option_bind].
    destruct valkey, kafka; cbn [mbind option_bind app]; by stages.
  - destruct (registers_on_server version revision dropped (consumer_collectors provider ++ worker_collectors) Hrt) as (reg & Hreg & _);
      [by destruct dropped..|]. exists reg. rewrite <- Hreg. unfold consumer_registry.
    destruct (server_registry version revision dropped) as [r|]; [|done]. cbn [mbind option_bind]. by stages.
  - destruct (registers_on_server version revision dropped heartbeat_collectors Hrt) as (reg & Hreg & _); [by destruct dropped..|]. by exists reg.
Qed.

(** A producer and a consumer fit on one registry, two producers do not. *)
Lemma roles_kept_apart (p q : string) :
  consistent (concat (producer_collectors p ++ consumer_collectors q)) = true /\ consistent (concat (producer_collectors p ++ producer_collectors q)) = false.
Proof. by split. Qed.
End Registry.
End Collectors.

(** * The server *)

Module Serving.
Import Registry Registering Collectors Reflect RedactURL Redact Masking.

(** The options of [NewServer]. *)
Record serverOptions := { o_outer : list Middleware.Middleware; o_config : option value }.
Inductive Option_ := WithMiddleware (mw : list Middleware.Middleware) | WithConfig (v : value).

Definition apply (o : serverOptions) (opt : Option_) : serverOptions :=
  match opt with
  | WithMiddleware mw => {| o_outer := o_outer o ++ mw; o_config := o_config o |}
  | WithConfig v => {| o_outer := o_outer o; o_config := Some v |}
  end.

Record server (R : Type) := {
  s_cfg : Server.Config;
  s_proxies : list Netip.Prefix;
  s_configView : value;
  s_Build : Build.BuildInfo;
  s_registry : R;
  s_Health : Health.Health;
  s_handler : Middleware.handler
}.
Arguments s_cfg {R}. Arguments s_proxies {R}. Arguments s_configView {R}. Arguments s_Build {R}. Arguments s_registry {R}. Arguments s_handler {R}.

Inductive built (R : Type) := Refused (ps : list Server.problem) | RegisterPanic | Built (s : server R).
Arguments Refused {R}. Arguments RegisterPanic {R}. Arguments Built {R}.

Section NewServer.
Context (executable : string) (ParseAddr : string -> option Netip.Addr) (ParsePrefix : string -> option Netip.Prefix)
        (SplitHostPort : string -> option string) (IsLoopback : Netip.Addr -> bool) (String_ : Netip.Addr -> string).
Context (StatusText : Z -> string) (json_len : gmap string Problem.jval -> Z) (tokenDigest : string -> list Z).
Context (as_value : Server.Config -> value) (build : string -> Build.BuildInfo).
Context {R : Type} `{!Registerer R} (NewRegistry : R) (runtime : list (list Desc)).

(** The fields of the configuration the chain reads. *)
Definition chain_config (c : Server.Config) (proxies : list Netip.Prefix) : Middleware.Config :=
  {| Middleware.RequestTimeout := Server.RequestTimeout c; Middleware.RequestTimeoutMin := Server.RequestTimeoutMin c;
     Middleware.SlowRequest := Server.SlowRequest c; Middleware.MaxBodyBytes := Server.MaxBodyBytes c;
     Middleware.DebugToken := Server.DebugToken c; Middleware.proxies := proxies |}.

(** [mux] is the service's, [dropped] whether its logger samples. *)
Definition NewServer (cfg : Server.Config) (dropped : bool) (opts : list Option_) (mux : Middleware.request -> Middleware.muxed) : built R :=
  let '(cfg, ps) := Server.Validate executable ParseAddr ParsePrefix SplitHostPort IsLoopback cfg in
  match ps with
  | [] =>
      let o := foldl apply {| o_outer := []; o_config := None |} opts in
      let proxies := default [] (ClientAddr.parsePrefixes ParseAddr ParsePrefix (Server.TrustedProxies cfg)) in
      let b := build (Server.Service cfg) in
      match server_registry NewRegistry runtime (Build.bi_Version b) (Build.bi_Revision b) dropped with
      | None => RegisterPanic
      | Some reg =>
          Built {| s_cfg := cfg; s_proxies := proxies; s_configView := default (as_value cfg) (o_config o); s_Build := b; s_registry := reg;
                   s_Health := Health.NewHealth (Server.HealthInterval cfg) (Server.HealthTimeout cfg);
                   s_handler := Middleware.server_handler StatusText json_len ParseAddr String_ SplitHostPort tokenDigest mux (chain_config cfg proxies) (o_outer o) |}
      end
  | ps => Refused ps
  end.

(** A server is built exactly from the configurations [Validate] accepts, without a panic;
    it runs on the defaults filled in, trusts the proxies that were configured, none of
    them dropped, and shows the configuration it runs on unless told otherwise. *)
Lemma server_built (cfg : Server.Config) (dropped : bool) (opts : list Option_) (mux : Middleware.request -> Middleware.muxed) :
  runtime_ok NewRegistry runtime ->
  let '(cfg', ps) := Server.Validate executable ParseAddr ParsePrefix SplitHostPort IsLoopback cfg in
  match NewServer cfg dropped opts mux with
  | Refused qs => qs = ps /\ ps <> []
  | RegisterPanic => False
  | Built s => ps = [] /\ s_cfg s = cfg' /\
      ClientAddr.parsePrefixes ParseAddr ParsePrefix (Server.TrustedProxies cfg') = Some (s_proxies s) /\
      ((forall v, WithConfig v ∉ opts) -> s_configView s = as_value cfg')
  end.
Proof.
  intros Hrt. unfold NewServer. destruct (Server.Validate _ _ _ _ _ cfg) as [cfg' ps] eqn:E. destruct ps as [|p ps]; [|done].
  destruct (registers_on_server NewRegistry runtime (Build.bi_Version (build (Server.Service cfg'))) (Build.bi_Revision (build (Server.Service cfg')))
    dropped [] Hrt) as (reg & Hreg & _); [by destruct dropped..|].
  destruct (server_registry _ _ _ _ _) as [reg'|]; [|done]. cbn. split_and!; [done|done| |].
  - unfold Server.Validate in E. injection E as <- E. apply Server.problems_nil in E as [Hs _].
    by destruct (Server.snd_proxies _ _ _ _ _ Hs) as [px ->].
  - intros Hno. assert (Hc : forall l o, (forall v, WithConfig v ∉ l) -> o_config (foldl apply o l) = o_config o).
    { induction l as [|x l IH]; intros o Hl; [done|]. cbn. rewrite IH by set_solver. destruct x as [mw|v]; [done|]. exfalso. apply (Hl v). left. }
    by rewrite Hc.
Qed.

(** ** The admin endpoints that show what the process runs on *)

(** [WriteJSON]: the status, the content type and the value. *)
Record response := { r_status : Z; r_type : string; r_body : option shown }.
Definition WriteJSON (status : Z) (v : shown) : response := {| r_status := status; r_type := "application/json; charset=utf-8"; r_body := Some v |}.

Context (Parse : string -> option url) (URLString : url -> string) (Query : string -> gmap string (list string)) (Encode : gmap string (list string) -> string).

(** GET /admin/config behind its guard. *)
Definition configHandler (s : server R) : response := WriteJSON 200 (Redact (redactURL Parse URLString Query Encode) (Some (s_configView s))).
Definition admin_config (s : server R) (authorization : string) : response :=
  match Server.admin_refuses tokenDigest (Server.AdminToken (s_cfg s)) authorization true with
  | Some code => {| r_status := code; r_type := Problem.ProblemContentType; r_body := None |}
  | None => configHandler s
  end.

(** What GET /admin/config answers, to anyone and with any credential, does not depend on
    the secrets of the configuration that is shown. *)
Lemma admin_config_hides (s t : server R) (authorization : string) :
  s_cfg s = s_cfg t -> Policy.alike (low_string Parse Query) false (s_configView s) (s_configView t) ->
  admin_config s authorization = admin_config t authorization.
Proof.
  intros Hc Ha. unfold admin_config. rewrite Hc. destruct (Server.admin_refuses _ _ _ _); [done|].
  unfold configHandler, Redact. f_equal. by apply low_value_shown.
Qed.
End NewServer.
End Serving.
