(* ===== verification/ServiceConfig.v ===== *)
(** The sections the configurations of the services share, and what they are validated
    with: the parameters of the models of their libraries. *)
From S2P Require Import Prelude GoStr Server KafkaConfig Valkey Otelx ClientAddr.

(** Setting the shared sections. *)
Module Sections.

Definition http_with (service addr admin : string) (c : Server.Config) : Server.Config :=
  {| Server.Service := service; Server.Addr := addr; Server.AdminAddr := admin; Server.AdminToken := Server.AdminToken c;
     Server.AdminInsecure := Server.AdminInsecure c; Server.DebugToken := Server.DebugToken c;
     Server.ReadHeaderTimeout := Server.ReadHeaderTimeout c; Server.ReadTimeout := Server.ReadTimeout c;
     Server.WriteTimeout := Server.WriteTimeout c; Server.IdleTimeout := Server.IdleTimeout c;
     Server.RequestTimeout := Server.RequestTimeout c; Server.RequestTimeoutMin := Server.RequestTimeoutMin c;
     Server.MaxHeaderBytes := Server.MaxHeaderBytes c; Server.MaxBodyBytes := Server.MaxBodyBytes c;
     Server.ShutdownDelay := Server.ShutdownDelay c; Server.ShutdownTimeout := Server.ShutdownTimeout c;
     Server.SlowRequest := Server.SlowRequest c; Server.TrustedProxies := Server.TrustedProxies c;
     Server.HealthInterval := Server.HealthInterval c; Server.HealthTimeout := Server.HealthTimeout c;
     Server.LogLevel_ := Server.LogLevel_ c; Server.LogLevelMaxTTL := Server.LogLevelMaxTTL c;
     Server.LogFormat := Server.LogFormat c; Server.LogSampleInitial := Server.LogSampleInitial c;
     Server.LogSampleThereafter := Server.LogSampleThereafter c |}.

Definition otel_with (name version : string) (c : Otel.Config) : Otel.Config :=
  {| Otel.Enabled := Otel.Enabled c; Otel.ServiceName := name; Otel.Version := version; Otel.Environment := Otel.Environment c;
     Otel.Endpoint := Otel.Endpoint c; Otel.Insecure := Otel.Insecure c; Otel.Headers := Otel.Headers c; Otel.CACert := Otel.CACert c;
     Otel.ClientCert := Otel.ClientCert c; Otel.ClientKey := Otel.ClientKey c; Otel.ExportTimeout := Otel.ExportTimeout c;
     Otel.SamplerRatio := Otel.SamplerRatio c; Otel.TrustRemoteParent := Otel.TrustRemoteParent c;
     Otel.BatchTimeout := Otel.BatchTimeout c; Otel.MaxQueueSize := Otel.MaxQueueSize c; Otel.MaxExportBatchSize := Otel.MaxExportBatchSize c |}.

(** The Kafka section with other brokers and another client id. *)
Definition kafka_with (brokers : list string) (client : string) (c : KafkaConfig.Config) : KafkaConfig.Config :=
  {| KafkaConfig.Brokers := brokers; KafkaConfig.Topic := KafkaConfig.Topic c; KafkaConfig.Topics := KafkaConfig.Topics c;
     KafkaConfig.Group := KafkaConfig.Group c; KafkaConfig.ClientID := client; KafkaConfig.DialTimeout := KafkaConfig.DialTimeout c;
     KafkaConfig.AllowAutoTopicCreation := KafkaConfig.AllowAutoTopicCreation c; KafkaConfig.PublishTimeout := KafkaConfig.PublishTimeout c;
     KafkaConfig.StatisticsInterval := KafkaConfig.StatisticsInterval c; KafkaConfig.SecurityProtocol := KafkaConfig.SecurityProtocol c;
     KafkaConfig.SASLMechanism := KafkaConfig.SASLMechanism c; KafkaConfig.SASLUsername := KafkaConfig.SASLUsername c;
     KafkaConfig.SASLPassword := KafkaConfig.SASLPassword c; KafkaConfig.SASLPasswordFile := KafkaConfig.SASLPasswordFile c;
     KafkaConfig.SSLCALocation := KafkaConfig.SSLCALocation c; KafkaConfig.SSLCertificateLocation := KafkaConfig.SSLCertificateLocation c;
     KafkaConfig.SSLKeyLocation := KafkaConfig.SSLKeyLocation c;
     KafkaConfig.SSLEndpointIdentificationAlgorithm := KafkaConfig.SSLEndpointIdentificationAlgorithm c;
     KafkaConfig.ProducerQueueMaxKBytes := KafkaConfig.ProducerQueueMaxKBytes c;
     KafkaConfig.ProducerQueueMaxMessages := KafkaConfig.ProducerQueueMaxMessages c; KafkaConfig.MessageMaxBytes := KafkaConfig.MessageMaxBytes c;
     KafkaConfig.ConsumerQueueMaxKBytes := KafkaConfig.ConsumerQueueMaxKBytes c;
     KafkaConfig.ConsumerFetchMaxBytes := KafkaConfig.ConsumerFetchMaxBytes c;
     KafkaConfig.ConsumerPartitionFetchMaxBytes := KafkaConfig.ConsumerPartitionFetchMaxBytes c;
     KafkaConfig.CompressionType := KafkaConfig.CompressionType c; KafkaConfig.LingerMs := KafkaConfig.LingerMs c;
     KafkaConfig.AssignmentStrategy := KafkaConfig.AssignmentStrategy c; KafkaConfig.SessionTimeoutMs := KafkaConfig.SessionTimeoutMs c;
     KafkaConfig.MaxPollIntervalMs := KafkaConfig.MaxPollIntervalMs c; KafkaConfig.AutoOffsetReset := KafkaConfig.AutoOffsetReset c;
     KafkaConfig.MaxPollRecords := KafkaConfig.MaxPollRecords c; KafkaConfig.HandlerTimeout := KafkaConfig.HandlerTimeout c;
     KafkaConfig.MaxRetries := KafkaConfig.MaxRetries c; KafkaConfig.RetryBackoff := KafkaConfig.RetryBackoff c;
     KafkaConfig.RetryBackoffMax := KafkaConfig.RetryBackoffMax c; KafkaConfig.DeadLetterTopic := KafkaConfig.DeadLetterTopic c;
     KafkaConfig.DrainTimeout := KafkaConfig.DrainTimeout c; KafkaConfig.ExtraProperties := KafkaConfig.ExtraProperties c;
     KafkaConfig.ProducerExtraProperties := KafkaConfig.ProducerExtraProperties c;
     KafkaConfig.ConsumerExtraProperties := KafkaConfig.ConsumerExtraProperties c |}.

#[export] Existing Instance Valkey.config_eq_dec.

(** What the sections are validated with: the parameters of their own models. *)
Class Checks := {
  executable : string;
  ParseAddr : string -> option Netip.Addr;
  ParsePrefix : string -> option Netip.Prefix;
  SplitHostPort : string -> option string;
  IsLoopback : Netip.Addr -> bool;
  ToLower : string -> string;
  ToUpper : string -> string;
  ReadFile : string -> option string;
  readable : string -> bool -> option string;
  driver : option (KafkaConfig.Config -> list string)
}.

Section Validate.
Context `{Checks}.
Definition http_validate : Server.Config -> Server.Config * list Server.problem :=
  Server.Validate executable ParseAddr ParsePrefix SplitHostPort IsLoopback.
Definition kafka_validate : KafkaConfig.Config -> KafkaConfig.Config * list string :=
  KafkaConfig.Validate ToLower ToUpper ReadFile readable driver.
Definition http_sound (c : Server.Config) : Prop := Server.sound ParseAddr ParsePrefix SplitHostPort IsLoopback c.

Lemma http_accepted (c c' : Server.Config) : http_validate c = (c', []) -> http_sound c' /\ c' = Server.withDefaults executable c.
Proof. unfold http_validate, Server.Validate. intros [= <- Hp]. by apply Server.problems_nil in Hp as [Hs _]. Qed.
End Validate.
End Sections.
