(* ===== verification/TasksConfig.v ===== *)
(** The configuration of the tasks service (services/tasks/internal/config): what it
    presets, when it is accepted, and that an accepted one is what the parts of the service
    need. *)
From S2P Require Import Prelude GoStr Server KafkaConfig Pgx Valkey Otelx Relay ServiceConfig.

Module TasksConfig.
Import Sections.

Record CacheConfig := { TTL : Z; TombstoneTTL : Z }.
Record OutboxConfig := { PollInterval : Z; BatchSize : Z; MaxBackoff : Z; MaxAttempts : Z; RejectBackoff : Z }.
Record IdempotencyConfig := { KeyTTL : Z; PurgeInterval : Z }.

Record Config := {
  Http : Server.Config;
  Postgres : PgPool.Config;
  Valkey : Valkey.Config;
  Kafka : KafkaConfig.Config;
  OTel : Otel.Config;
  Cache : CacheConfig;
  Outbox : OutboxConfig;
  Idempotency : IdempotencyConfig
}.

Definition EnvPrefix : string := "TASKS_".

(** The service's own defaults over a zero configuration. *)
Definition preset (Version : string) (zero : Config) : Config :=
  {| Http := http_with "tasks" ":8082" ":9082" (Http zero); Postgres := Postgres zero; Valkey := Valkey zero;
     Kafka := kafka_with (KafkaConfig.Brokers (Kafka zero)) "tasks" (Kafka zero);
     OTel := otel_with "tasks" Version (OTel zero); Cache := Cache zero; Outbox := Outbox zero; Idempotency := Idempotency zero |}.

Definition ValkeyEnabled (c : Config) : bool := Valkey.Configured (Valkey c).
Definition KafkaEnabled (c : Config) : bool := match KafkaConfig.Brokers (Kafka c) with [] => false | _ => true end.

Inductive problem :=
  | StrayValkey | StrayKafka | HttpProblems (ps : list Server.problem) | NoDatabase | PostgresProblem (e : PgPool.secret_error)
  | NoTopic | KafkaProblems (es : list string) | BadCacheTTL | BadPollInterval | BadBatchSize | BadMaxAttempts | BadRejectBackoff | BadIdempotency.

Definition unless (b : bool) (p : problem) : list problem := if b then [p] else [].

Section Validate.
Context `{Checks}.
(** [reflect.DeepEqual] of two Kafka sections, which tells a nil from an empty list. *)
Context (DeepEqual : KafkaConfig.Config -> KafkaConfig.Config -> bool).

Definition strayKeys (def c : Config) : list problem :=
  unless (negb (ValkeyEnabled c) && negb (bool_decide (Valkey c = Valkey def))) StrayValkey ++
  unless (negb (KafkaEnabled c) &&
          negb (DeepEqual (kafka_with (KafkaConfig.Brokers (Kafka def)) (KafkaConfig.ClientID (Kafka c)) (Kafka c)) (Kafka def))) StrayKafka.

Definition own_problems (c : Config) : list problem :=
  unless ((TTL (Cache c) <=? 0) || (TombstoneTTL (Cache c) <=? 0)) BadCacheTTL ++
  unless ((PollInterval (Outbox c) <=? 0) || (MaxBackoff (Outbox c) <? PollInterval (Outbox c))) BadPollInterval ++
  unless ((BatchSize (Outbox c) <? 1) || (1000 <? BatchSize (Outbox c))) BadBatchSize ++
  unless (MaxAttempts (Outbox c) <? 1) BadMaxAttempts ++
  unless (RejectBackoff (Outbox c) <=? 0) BadRejectBackoff ++
  unless ((KeyTTL (Idempotency c) <=? 0) || (PurgeInterval (Idempotency c) <=? 0)) BadIdempotency.

(** The configuration its sections filled in, and every problem; [defaults] is
    [Defaults()]. *)
Definition Validate (defaults : string + Config) (c : Config) : string + Config * list problem :=
  match defaults with
  | inl err => inl err
  | inr def =>
      let '(http, hp) := http_validate (Http c) in
      let '(kafka, kp) := if KafkaEnabled c then kafka_validate (Kafka c) else (Kafka c, []) in
      inr
        ({| Http := http; Postgres := Postgres c; Valkey := Valkey c; Kafka := kafka; OTel := OTel c; Cache := Cache c;
            Outbox := Outbox c; Idempotency := Idempotency c |},
         strayKeys def c ++
         match hp with [] => [] | ps => [HttpProblems ps] end ++
         unless (String.eqb (PgPool.URL (Postgres c)) "" && String.eqb (PgPool.Host (Postgres c)) "") NoDatabase ++
         match PgPool.Validate ReadFile (Postgres c) with Some e => [PostgresProblem e] | None => [] end ++
         unless (KafkaEnabled c && String.eqb (KafkaConfig.Topic (Kafka c)) "") NoTopic ++
         match kp with [] => [] | es => [KafkaProblems es] end ++
         own_problems c)
  end.

Inductive load_error := LoadFailed (err : string) | Invalid (ps : list problem).

(** [loaded]: what [httpx.LoadYAML] makes of the preset, the file and the environment. *)
Definition Load (defaults loaded : string + Config) : load_error + Config :=
  match loaded with
  | inl err => inl (LoadFailed err)
  | inr c =>
      match Validate defaults c with
      | inl err => inl (LoadFailed err)
      | inr (c, []) => inr c
      | inr (_, ps) => inl (Invalid ps)
      end
  end.

(** [main]'s configuration of the relay. *)
Definition relay_config (c : Config) : Relay.Config :=
  {| Relay.Topic := KafkaConfig.Topic (Kafka c); Relay.PollInterval := PollInterval (Outbox c); Relay.BatchSize := BatchSize (Outbox c);
     Relay.MaxBackoff := MaxBackoff (Outbox c); Relay.MaxAttempts := MaxAttempts (Outbox c); Relay.RejectBackoff := RejectBackoff (Outbox c) |}.

(** What the parts of the service rely on. *)
Record fit (def c : Config) : Prop := {
  fit_http : http_sound (Http c);
  fit_database : PgPool.URL (Postgres c) <> "" \/ PgPool.Host (Postgres c) <> "";
  fit_secret : PgPool.Validate ReadFile (Postgres c) = None;
  fit_kafka : KafkaEnabled c = true -> KafkaConfig.runnable (Kafka c) /\ KafkaConfig.Topic (Kafka c) <> "";
  fit_no_kafka : KafkaEnabled c = false ->
    kafka_with (KafkaConfig.Brokers (Kafka def)) (KafkaConfig.ClientID (Kafka c)) (Kafka c) = Kafka def;
  fit_no_valkey : ValkeyEnabled c = false -> Valkey c = Valkey def;
  fit_relay : Relay.withDefaults (relay_config c) = relay_config c;
  fit_batch : 0 < Relay.BatchSize (relay_config c) <= 1000;
  fit_poll : 0 < Relay.PollInterval (relay_config c) <= Relay.MaxBackoff (relay_config c);
  fit_attempts : 0 < Relay.MaxAttempts (relay_config c) /\ 0 < Relay.RejectBackoff (relay_config c);
  fit_ttls : 0 < TTL (Cache c) /\ 0 < TombstoneTTL (Cache c) /\ 0 < KeyTTL (Idempotency c) /\ 0 < PurgeInterval (Idempotency c)
}.

Lemma unless_nil (b : bool) (p : problem) : unless b p = [] <-> b = false.
Proof. by destruct b. Qed.

Lemma own_fit (c : Config) :
  own_problems c = [] ->
  Relay.withDefaults (relay_config c) = relay_config c /\ 0 < BatchSize (Outbox c) <= 1000 /\
  0 < PollInterval (Outbox c) <= MaxBackoff (Outbox c) /\ 0 < MaxAttempts (Outbox c) /\ 0 < RejectBackoff (Outbox c) /\
  0 < TTL (Cache c) /\ 0 < TombstoneTTL (Cache c) /\ 0 < KeyTTL (Idempotency c) /\ 0 < PurgeInterval (Idempotency c).
Proof.
  unfold own_problems. rewrite !app_nil, !unless_nil. intros (H1 & H2 & H3 & H4 & H5 & H6). zbool.
  split; [|lia]. unfold Relay.withDefaults, relay_config. cbn.
  rewrite !(proj2 (Z.leb_gt _ _)) by lia. done.
Qed.

Context (DeepEqual_sound : forall k d, DeepEqual k d = true -> k = d).

Lemma no_stray (def c : Config) :
  strayKeys def c = [] ->
  (KafkaEnabled c = false -> kafka_with (KafkaConfig.Brokers (Kafka def)) (KafkaConfig.ClientID (Kafka c)) (Kafka c) = Kafka def) /\
  (ValkeyEnabled c = false -> Valkey c = Valkey def).
Proof.
  unfold strayKeys. rewrite app_nil, !unless_nil. intros [H1 H2]. split; intros E; rewrite E in *; cbn [negb andb] in *.
  - by apply DeepEqual_sound, negb_false_iff.
  - by apply negb_false_iff, bool_decide_eq_true in H1.
Qed.

(** C26: a configuration the tasks service starts with is what its parts need: a server that
    can run and is guarded, a database with a readable password file, a Kafka section
    that is complete or, without brokers, untouched, and likewise the cache's; an outbox
    configuration the relay takes as it is, within the bounds its guarantees ask for; and
    positive lifetimes. *)
Theorem accepted_tasks_config (def c : Config) (loaded : string + Config) :
  Load (inr def) loaded = inr c -> fit def c.
Proof.
  unfold Load. destruct loaded as [|c0]; [done|]. unfold Validate.
  destruct (http_validate (Http c0)) as [http hp] eqn:Hh.
  destruct (if KafkaEnabled c0 then kafka_validate (Kafka c0) else (Kafka c0, [])) as [kafka kp] eqn:Hk.
  destruct (_ ++ _) as [|? ?] eqn:Hps; [|done]. intros [= <-].
  apply app_nil in Hps as [Hs Hps]. apply app_nil in Hps as [Hhp Hps]. apply app_nil in Hps as [Hdb Hps].
  apply app_nil in Hps as [Hpg Hps]. apply app_nil in Hps as [Ht Hps]. apply app_nil in Hps as [Hkp Hown].
  apply unless_nil in Hdb, Ht. apply no_stray in Hs as [Hnk Hnv]. pose proof Hown as (_ & Hb & Hp & Ha & Hrb & Httl)%own_fit.
  destruct hp; [|done]. destruct kp; [|done]. destruct (PgPool.Validate _ _) eqn:Hpv; [done|].
  apply http_accepted in Hh as [Hsound _].
  assert (Hsame : KafkaConfig.Brokers kafka = KafkaConfig.Brokers (Kafka c0)).
  { destruct (KafkaEnabled c0); [|by injection Hk as <-]. unfold kafka_validate, KafkaConfig.Validate in Hk. by injection Hk as <- _. }
  split; unfold KafkaEnabled, ValkeyEnabled in *; cbn; try done; try lia.
  - destruct (String.eqb_spec (PgPool.URL (Postgres c0)) ""); [|by left]. destruct (String.eqb_spec (PgPool.Host (Postgres c0)) ""); [done|by right].
  - rewrite Hsame. intros E. rewrite E in Hk, Ht. unfold kafka_validate in Hk. split; [by eapply KafkaConfig.accepted_is_runnable|].
    cbn in Ht. apply String.eqb_neq in Ht. injection Hk as <- _. cbn. unfold KafkaConfig.setString.
    by rewrite (proj2 (String.eqb_neq _ _) Ht).
  - rewrite Hsame. intros E. rewrite E in Hk. injection Hk as <-. by apply Hnk.
  - by apply own_fit.
Qed.
End Validate.

(** ** A deployment with Kafka and without a cache *)

Definition demo_checks : Checks :=
  {| executable := "tasks"; ParseAddr := fun _ => None; ParsePrefix := fun _ => None; SplitHostPort := fun _ => Some ""; IsLoopback := fun _ => false;
     ToLower := GoStr.ToLower; ToUpper := fun s => s; ReadFile := fun _ => None; readable := fun _ _ => None;
     driver := Some KafkaConfig.franz_validate |}.

Definition demo_pg : PgPool.Config :=
  {| PgPool.URL := "postgres://app@db/tasks"; PgPool.Host := ""; PgPool.Port := 5432; PgPool.User := ""; PgPool.Password := "";
     PgPool.PasswordFile := ""; PgPool.Name := ""; PgPool.SSLMode := ""; PgPool.MaxConns := 0; PgPool.MinConns := 0;
     PgPool.MaxConnLifetime := 0; PgPool.MaxConnIdleTime := 0; PgPool.ConnectTimeout := 0; PgPool.StatementTimeout := 0;
     PgPool.LockTimeout := 0; PgPool.IdleInTransactionSessionTimeout := 0 |}.
Definition demo_kafka : KafkaConfig.Config := KafkaConfig.withDefaults GoStr.ToLower (fun s => s) (KafkaConfig.hand_built 0 0 0).
Definition demo_otel : Otel.Config :=
  {| Otel.Enabled := false; Otel.ServiceName := ""; Otel.Version := ""; Otel.Environment := ""; Otel.Endpoint := ""; Otel.Insecure := false;
     Otel.Headers := []; Otel.CACert := ""; Otel.ClientCert := ""; Otel.ClientKey := ""; Otel.ExportTimeout := 0;
     Otel.SamplerRatio := Float64.F64.Fin 0; Otel.TrustRemoteParent := true; Otel.BatchTimeout := 0; Otel.MaxQueueSize := 0;
     Otel.MaxExportBatchSize := 0 |}.

Definition demo (brokers : list string) (op_timeout : Z) : Config :=
  {| Http := Server.demo_config; Postgres := demo_pg;
     Valkey := {| Valkey.URL := ""; Valkey.Addr := ""; Valkey.Password := ""; Valkey.DB := 0; Valkey.DialTimeout := 5 * Go.second; Valkey.OpTimeout := op_timeout |};
     Kafka := kafka_with brokers "tasks" demo_kafka; OTel := demo_otel; Cache := {| TTL := Go.minute; TombstoneTTL := 5 * Go.second |};
     Outbox := {| PollInterval := Go.second; BatchSize := 100; MaxBackoff := 30 * Go.second; MaxAttempts := 10; RejectBackoff := Go.second |};
     Idempotency := {| KeyTTL := 24 * Go.hour; PurgeInterval := 10 * Go.minute |} |}.
Definition demo_default : Config := demo [] (500 * Go.millisecond).

Lemma accepted_tasks_config_witness :
  fit (H := demo_checks) demo_default (demo ["localhost:9092"] (500 * Go.millisecond)).
Proof.
  apply (accepted_tasks_config (H := demo_checks) (fun _ _ => false) ltac:(done) demo_default
    (demo ["localhost:9092"] (500 * Go.millisecond)) (inr (demo ["localhost:9092"] (500 * Go.millisecond)))).
  vm_compute. reflexivity.
Defined.

(** A cache key without the cache's address is refused, not ignored. *)
Example stray_cache_key :
  Load (H := demo_checks) (fun _ _ => false) (inr demo_default) (inr (demo ["localhost:9092"] Go.second)) = inl (Invalid [StrayValkey]).
Proof. vm_compute. reflexivity. Qed.
End TasksConfig.
