(* ===== verification/ConsumerConfig.v ===== *)
(** The configuration of the consumer (services/consumer/internal/config). *)
From S2P Require Import Prelude GoStr Server KafkaConfig Otelx Worker ServiceConfig.

Module ConsumerConfig.
Import Sections.

Record Config := { Http : Server.Config; Kafka : KafkaConfig.Config; OTel : Otel.Config; DedupeSize : Z }.

Definition Prefix : string := "CONSUMER_".

Definition preset (zero : Config) : Config :=
  {| Http := http_with "consumer" (Server.Addr (Http zero)) ":9083" (Http zero);
     Kafka := kafka_with (KafkaConfig.Brokers (Kafka zero)) "consumer" (Kafka zero);
     OTel := otel_with "consumer" (Otel.Version (OTel zero)) (OTel zero); DedupeSize := DedupeSize zero |}.

(** A worker serves no API. *)
Definition without_api (c : Server.Config) : Server.Config := http_with (Server.Service c) "" (Server.AdminAddr c) c.

(** [Defaults]: the preset with the defaults of the tags, if they parse. *)
Definition Defaults (defaults : string + Config) : string + Config :=
  match defaults with
  | inl err => inl err
  | inr c => inr {| Http := without_api (Http c); Kafka := Kafka c; OTel := OTel c; DedupeSize := DedupeSize c |}
  end.

Inductive problem := HttpProblems (ps : list Server.problem) | KafkaProblems (es : list string) | BadDedupeSize.

Section Validate.
Context `{Checks}.

Definition Validate (c : Config) : Config * list problem :=
  let '(http, hp) := http_validate (Http c) in
  let '(kafka, kp) := kafka_validate (Kafka c) in
  ({| Http := http; Kafka := kafka; OTel := OTel c; DedupeSize := DedupeSize c |},
   match hp with [] => [] | ps => [HttpProblems ps] end ++
   match kp with [] => [] | es => [KafkaProblems es] end ++
   if DedupeSize c <=? 0 then [BadDedupeSize] else []).

Inductive load_error := LoadFailed (err : string) | Invalid (ps : list problem).

Definition Load (Version : string) (loaded : string + Config) : load_error + Config :=
  match loaded with
  | inl err => inl (LoadFailed err)
  | inr c =>
      let c := {| Http := without_api (Http c); Kafka := Kafka c;
                  OTel := otel_with (Otel.ServiceName (OTel c)) (if String.eqb (Otel.Version (OTel c)) "" then Version else Otel.Version (OTel c)) (OTel c);
                  DedupeSize := DedupeSize c |} in
      match Validate c with
      | (c, []) => inr c
      | (_, ps) => inl (Invalid ps)
      end
  end.

(** A consumer that starts has an admin listener and no other, a broker, a topic and a
    group, and remembers as many events as it was told to. *)
Lemma accepted_consumer_config (Version : string) (loaded : string + Config) (c : Config) :
  Load Version loaded = inr c ->
  http_sound (Http c) /\ Server.Addr (Http c) = "" /\ Server.AdminAddr (Http c) <> "" /\ KafkaConfig.runnable (Kafka c) /\
  Worker.size (Worker.seen (Worker.New (DedupeSize c))) = DedupeSize c /\ Worker.recent (Worker.seen (Worker.New (DedupeSize c))) [].
Proof.
  unfold Load. destruct loaded as [|c0]; [done|]. unfold Validate. cbn [Http Kafka OTel DedupeSize].
  destruct (http_validate _) as [http hp] eqn:Hh. destruct (kafka_validate _) as [kafka kp] eqn:Hk.
  destruct (_ ++ _) as [|? ?] eqn:Hps; [|done]. intros [= <-]. cbn.
  apply app_nil in Hps as [Hhp [Hkp Hd]%app_nil]. destruct hp; [|done]. destruct kp; [|done].
  destruct (DedupeSize c0 <=? 0) eqn:Hle; [done|]. apply Z.leb_gt in Hle.
  apply http_accepted in Hh as [Hs ->]. split_and!; try done.
  - destruct (Server.snd_listener _ _ _ _ _ Hs) as [Hne|Hne]; [by cbn in Hne|done].
  - by eapply KafkaConfig.accepted_is_runnable.
  - by apply Worker.recent_new.
Qed.
End Validate.
End ConsumerConfig.
