(* ===== verification/HeartbeatConfig.v ===== *)
(** The configurations of the heartbeat (services/heartbeat/internal/config) and of ping
    (services/ping/main.go): the shared server's with little of their own. *)
From S2P Require Import Prelude GoStr Server ServiceConfig.

Module HeartbeatConfig.
Import Sections.

Record Config := { Http : Server.Config; Interval : Z }.

Definition Prefix : string := "HEARTBEAT_".
Definition defaultAdminAddr : string := ":9081".

Inductive load_error := ParseFailed (err : string) | BadInterval | HttpProblems (ps : list Server.problem).

Section Validate.
Context `{Checks}.

Definition Validate (c : Config) : load_error + Config :=
  if Interval c <=? 0 then inl BadInterval
  else match http_validate (Http c) with
       | (http, []) => inr {| Http := http; Interval := Interval c |}
       | (_, ps) => inl (HttpProblems ps)
       end.

(** [parsed]: the environment with the tags' defaults; [LookupEnv]: the variable of the
    admin address, empty or not, if it is set. *)
Definition Load (parsed : string + Config) (LookupEnv : string -> option string) : load_error + Config :=
  match parsed with
  | inl err => inl (ParseFailed err)
  | inr c =>
      let admin := match LookupEnv (Prefix ++ "ADMIN_ADDR")%string with Some v => v | None => defaultAdminAddr end in
      Validate {| Http := http_with "heartbeat" "" admin (Http c); Interval := Interval c |}
  end.

(** [Defaults]: [filled] is the preset with the tags' defaults. *)
Definition Defaults (filled : string + Config) : string + Config :=
  match filled with
  | inl err => inl err
  | inr c => inr {| Http := http_with (Server.Service (Http c)) "" (Server.AdminAddr (Http c)) (Http c); Interval := Interval c |}
  end.

(** A heartbeat that starts ticks with a positive interval and has its admin listener:
    an address set to nothing is refused, one that is not set is the service's own. *)
Lemma accepted_heartbeat_config (parsed : string + Config) (LookupEnv : string -> option string) (c : Config) :
  Load parsed LookupEnv = inr c ->
  0 < Interval c /\ http_sound (Http c) /\ Server.Addr (Http c) = "" /\ Server.AdminAddr (Http c) <> "" /\
  Server.AdminAddr (Http c) = default defaultAdminAddr (LookupEnv "HEARTBEAT_ADMIN_ADDR").
Proof.
  unfold Load. destruct parsed as [|c0]; [done|]. unfold Validate. cbn [Http Interval].
  destruct (Interval c0 <=? 0) eqn:Hle; [done|]. apply Z.leb_gt in Hle. destruct (http_validate _) as [http hp] eqn:Hh.
  destruct hp; [|done]. intros [= <-]. apply http_accepted in Hh as [Hs ->]. cbn. split_and!; try done.
  destruct (Server.snd_listener _ _ _ _ _ Hs) as [Hne|Hne]; [by cbn in Hne|done].
Qed.

(** ping: the shared configuration alone, under its own name. *)
Definition ping_Load (parsed : string + Server.Config) : load_error + Server.Config :=
  match parsed with
  | inl err => inl (ParseFailed err)
  | inr c =>
      match http_validate c with
      | (c, []) => inr (http_with "ping" (Server.Addr c) (Server.AdminAddr c) c)
      | (_, ps) => inl (HttpProblems ps)
      end
  end.
End Validate.
End HeartbeatConfig.
