(* ===== verification/Mains.v ===== *)
(** The processes (services/tasks, consumer, heartbeat and ping main.go, heartbeat's
    worker): what a boot opens and closes under every failure, and how the goroutines of a
    service stop, under every interleaving. *)
From S2P Require Import Prelude GoStr GoReflect Boot.

(** * Goroutines that stop together *)

(** [errgroup] under the signal's context, as the mains use it. *)
Module Group.

(** The context a goroutine watches: the group's, cancelled by the signal or the first
    error, or the workers' own, which only [stopWorkers] cancels. *)
Inductive context := GroupCtx | WorkersCtx.

(** [m_stops]: it defers [stopWorkers]. *)
Record member := { m_name : string; m_watches : context; m_stops : bool }.

(** A goroutine: its function runs, has returned, has run its deferred call, and has
    reported to the group. *)
Inductive phase :=
  | Running
  | Returned (err : option string)
  | Deferred (err : option string)
  | Ended (err : option string).

Record state := {
  signalled : bool;
  stopped : bool;
  first : option string;
  phases : list phase;
  waited : option (option string)
}.

Section Machine.
Context (members : list member).

Definition init : state :=
  {| signalled := false; stopped := false; first := None; phases := (fun _ => Running) <$> members; waited := None |}.

Definition ctx_done (m : member) (s : state) : bool :=
  match m_watches m with
  | GroupCtx => signalled s || bool_decide (is_Some (first s))
  | WorkersCtx => stopped s
  end.

Definition set_phase (i : nat) (p : phase) (s : state) : state :=
  {| signalled := signalled s; stopped := stopped s; first := first s; phases := <[i := p]> (phases s); waited := waited s |}.

Definition has_ended (p : phase) : bool := match p with Ended _ => true | _ => false end.

(** The signal; a function that returns, with an error at any time and without one only
    when its context is done; its deferred [stopWorkers]; its report, the first error
    being kept; and [Wait] once all have reported, after which [stopWorkers] runs too. *)
Inductive step : state -> state -> Prop :=
  | step_signal s :
      signalled s = false ->
      step s {| signalled := true; stopped := stopped s; first := first s; phases := phases s; waited := waited s |}
  | step_return s i m err :
      members !! i = Some m -> phases s !! i = Some Running -> (err = None -> ctx_done m s = true) ->
      step s (set_phase i (Returned err) s)
  | step_defer s i m err :
      members !! i = Some m -> m_stops m = true -> phases s !! i = Some (Returned err) ->
      step s {| signalled := signalled s; stopped := true; first := first s; phases := <[i := Deferred err]> (phases s); waited := waited s |}
  | step_report s i m err :
      members !! i = Some m -> phases s !! i = Some (if m_stops m then Deferred err else Returned err) ->
      step s {| signalled := signalled s; stopped := stopped s; first := match first s with Some e => Some e | None => err end;
                phases := <[i := Ended err]> (phases s); waited := waited s |}
  | step_wait s :
      forallb has_ended (phases s) = true -> waited s = None ->
      step s {| signalled := signalled s; stopped := true; first := first s; phases := phases s; waited := Some (first s) |}.

(** ** What holds throughout *)

Definition past_defer (p : phase) : bool := match p with Deferred _ | Ended _ => true | _ => false end.
Definition result (p : phase) : option (option string) :=
  match p with Running => None | Returned e | Deferred e | Ended e => Some e end.

Record inv (s : state) : Prop := {
  inv_length : length (phases s) = length members;
  inv_stopped : stopped s = true -> waited s = None -> exists i m p, members !! i = Some m /\ m_stops m = true /\ phases s !! i = Some p /\ past_defer p = true;
  inv_clean : forall i m p, members !! i = Some m -> m_watches m = WorkersCtx -> phases s !! i = Some p -> result p = Some None -> stopped s = true;
  inv_first : forall e, first s = Some e -> exists i, phases s !! i = Some (Ended (Some e));
  inv_none : first s = None -> forall i e, phases s !! i <> Some (Ended (Some e));
  inv_deferred : forall i m e, members !! i = Some m -> phases s !! i = Some (Deferred e) -> m_stops m = true;
  inv_stops : forall i m p, members !! i = Some m -> m_stops m = true -> phases s !! i = Some p -> past_defer p = true -> stopped s = true;
  inv_waited : forall r, waited s = Some r -> forallb has_ended (phases s) = true /\ r = first s
}.

Lemma group_init_inv : inv init.
Proof.
  split; cbn; try done.
  - by rewrite length_fmap.
  - intros i m p Hm _ Hp Hr. rewrite list_lookup_fmap, Hm in Hp. by injection Hp as <-.
  - intros _ i e. rewrite list_lookup_fmap. by destruct (members !! i).
  - intros i m e Hm. by rewrite list_lookup_fmap, Hm.
  - intros i m p Hm _. rewrite list_lookup_fmap, Hm. by intros [= <-].
Qed.

Lemma all_ended (l : list phase) (i : nat) (p : phase) : forallb has_ended l = true -> l !! i = Some p -> has_ended p = true.
Proof. rewrite forallb_forall. intros H Hi. by eapply H, list_elem_of_In, list_elem_of_lookup_2. Qed.

(** The phases after one of them moved on, at [i] and elsewhere. *)
Lemma insert_cases (l : list phase) (i j : nat) (p q r : phase) :
  l !! i = Some p -> <[i := q]> l !! j = Some r -> (j = i /\ r = q) \/ (j <> i /\ l !! j = Some r).
Proof.
  intros Hi. destruct (decide (j = i)) as [->|Hne].
  - rewrite list_lookup_insert_eq by (by eapply lookup_lt_Some). intros [= <-]. by left.
  - rewrite list_lookup_insert_ne by done. by right.
Qed.

(** One goroutine moves on from [p] to [q]. *)
Lemma move_inv (s : state) (i : nat) (m : member) (p q : phase) (st : bool) (fi : option string) :
  inv s -> members !! i = Some m -> phases s !! i = Some p -> has_ended p = false ->
  (past_defer p = true -> past_defer q = true) -> (stopped s = true -> st = true) ->
  (st = true -> stopped s = true \/ (m_stops m = true /\ past_defer q = true)) ->
  (m_watches m = WorkersCtx -> result q = Some None -> st = true) ->
  (forall e, fi = Some e -> first s = Some e \/ q = Ended (Some e)) ->
  (fi = None -> first s = None /\ forall e, q <> Ended (Some e)) ->
  (forall e, q = Deferred e -> m_stops m = true) -> (m_stops m = true -> past_defer q = true -> st = true) ->
  inv {| signalled := signalled s; stopped := st; first := fi; phases := <[i := q]> (phases s); waited := waited s |}.
Proof.
  intros [Hlen Hst Hcl Hf Hn Hdf Hss Hw] Hm Hp Hne Hpast Hmono Hnew Hq Hfi Hfn Hqd Hqs.
  assert (Hat : <[i := q]> (phases s) !! i = Some q) by (apply list_lookup_insert_eq; by eapply lookup_lt_Some).
  split; cbn.
  - by rewrite length_insert.
  - intros Hs Hwait. destruct (Hnew Hs) as [Hold|[Hstops Hpq]]; [|by exists i, m, q].
    destruct (Hst Hold Hwait) as (j & m' & p' & Hm' & Hs' & Hp' & Hpd). destruct (decide (j = i)) as [->|Hji].
    + exists i, m', q. rewrite Hp in Hp'. injection Hp' as <-. auto.
    + exists j, m', p'. by rewrite list_lookup_insert_ne.
  - intros j m' p' Hm' Hwatch Hp' Hr. destruct (insert_cases _ _ _ _ _ _ Hp Hp') as [[-> ->]|[_ Hj]]; [|by eapply Hmono, Hcl].
    rewrite Hm in Hm'. injection Hm' as <-. auto.
  - intros e He. destruct (Hfi e He) as [Hold| ->]; [|by exists i]. destruct (Hf e Hold) as [j Hj]. exists j.
    rewrite list_lookup_insert_ne; [done|]. intros ->. rewrite Hp in Hj. injection Hj as ->. done.
  - intros Hnone j e Hj. destruct (Hfn Hnone) as [Hold Hqe]. destruct (insert_cases _ _ _ _ _ _ Hp Hj) as [[-> <-]|[_ Hj']]; [by eapply Hqe|].
    by eapply Hn.
  - intros j m' e Hm' Hj. destruct (insert_cases _ _ _ _ _ _ Hp Hj) as [[-> <-]|[_ Hj']]; [|by eapply Hdf].
    rewrite Hm in Hm'. injection Hm' as <-. by eapply Hqd.
  - intros j m' p' Hm' Hs' Hj. destruct (insert_cases _ _ _ _ _ _ Hp Hj) as [[-> ->]|[_ Hj']]; [|by intros; eapply Hmono, Hss].
    rewrite Hm in Hm'. injection Hm' as <-. auto.
  - intros r Hr. destruct (Hw r Hr) as [Hall _]. by rewrite (all_ended _ _ _ Hall Hp) in Hne.
Qed.

Lemma group_step_inv (s s' : state) : inv s -> step s s' -> inv s'.
Proof.
  intros Hi Hs. destruct Hs as [s Hsig|s i m err Hm Hp Hd|s i m err Hm Hstops Hp|s i m err Hm Hp|s Hall Hwait].
  - by destruct Hi.
  - eapply move_inv; eauto; try done.
    + intros Hw [= ->]. specialize (Hd eq_refl). unfold ctx_done in Hd. by rewrite Hw in Hd.
  - eapply move_inv; eauto; done.
  - eapply move_inv; eauto; try done.
    + by destruct (m_stops m).
    + intros Hw [= ->]. destruct Hi as [_ _ Hcl _ _ _ _ _]. eapply Hcl; [exact Hm|done|exact Hp|]. by destruct (m_stops m).
    + destruct (first s); [by left|]. intros e ->. by right.
    + destruct (first s); [done|]. intros ->. by split.
    + intros Hs _. eapply (inv_stops _ Hi); [exact Hm|done|exact Hp|]. by rewrite Hs.
  - destruct Hi as [Hlen Hst Hcl Hf Hn Hdf Hss Hw]. split; cbn; try done. by intros r [= <-].
Qed.

Lemma group_reachable_inv (s : state) : rtc step init s -> inv s.
Proof.
  intros H. remember init as s0 eqn:E. assert (Hi : inv s0) by (rewrite E; apply group_init_inv). clear E.
  induction H as [|s0 s1 s2 Hs _ IH]; [done|]. apply IH. by eapply group_step_inv.
Qed.

(** ** That it ends *)

Definition left_of (p : phase) : nat := match p with Running => 3 | Returned _ => 2 | Deferred _ => 1 | Ended _ => 0 end.
Definition left (s : state) : nat :=
  sum_list_with left_of (phases s) + (if signalled s then 0 else 1) + (if waited s then 0 else 1).

Lemma sum_insert (l : list phase) (i : nat) (p q : phase) :
  l !! i = Some p -> (left_of q < left_of p)%nat -> (sum_list_with left_of (<[i := q]> l) < sum_list_with left_of l)%nat.
Proof.
  revert i. induction l as [|x l IH]; intros [|i] Hi Hlt; try done; cbn in *; [injection Hi as ->; lia|].
  apply Nat.add_lt_mono_l. by apply IH.
Qed.

Lemma step_left (s s' : state) : step s s' -> (left s' < left s)%nat.
Proof.
  unfold left. intros [? Hsig|? i m err Hm Hp Hd|? i m err Hm Hstops Hp|? i m err Hm Hp|? Hall Hwait]; cbn [signalled phases waited set_phase].
  - rewrite Hsig. lia.
  - pose proof (sum_insert _ i _ (Returned err) Hp). cbn in *. lia.
  - pose proof (sum_insert _ i _ (Deferred err) Hp). cbn in *. lia.
  - pose proof (sum_insert _ i _ (Ended err) Hp). destruct (m_stops m); cbn in *; lia.
  - rewrite Hwait. lia.
Qed.

(** Whoever watches the workers' context can be stopped: some goroutine of the group's
    context defers [stopWorkers]. *)
Definition wired : Prop :=
  forall m, m ∈ members -> m_watches m = WorkersCtx -> exists m', m' ∈ members /\ m_stops m' = true /\ m_watches m' = GroupCtx.

(** A goroutine that has not ended and whose context is done has a step. *)
Lemma member_steps (s : state) (i : nat) (m : member) (p : phase) :
  inv s -> members !! i = Some m -> phases s !! i = Some p -> has_ended p = false ->
  (p = Running -> ctx_done m s = true) -> exists s', step s s'.
Proof.
  intros Hi Hm Hp Hne Hd. destruct p as [|err|err|err]; [| | |done].
  - eexists. apply (step_return s i m None); auto.
  - destruct (m_stops m) eqn:Hs; [eexists; by eapply step_defer|]. eexists. apply (step_report s i m err); [done|by rewrite Hs].
  - pose proof (inv_deferred _ Hi _ _ _ Hm Hp) as Hs. eexists. apply (step_report s i m err); [done|by rewrite Hs].
Qed.

Lemma not_all_ended (s : state) :
  inv s -> forallb has_ended (phases s) = false -> exists i m p, members !! i = Some m /\ phases s !! i = Some p /\ has_ended p = false.
Proof.
  intros Hi H. assert (Hex : exists p, p ∈ phases s /\ has_ended p = false).
  { clear Hi. induction (phases s) as [|p l IH]; [done|]. cbn in H. destruct (has_ended p) eqn:E.
    - destruct (IH H) as (q & Hq & Hn). exists q. split; [set_solver|done].
    - exists p. split; [set_solver|done]. }
  destruct Hex as (p & [i Hp]%list_elem_of_lookup_1 & Hne). pose proof (lookup_lt_Some _ _ _ Hp) as Hlt.
  rewrite (inv_length _ Hi) in Hlt. apply lookup_lt_is_Some in Hlt as [m Hm]. by exists i, m, p.
Qed.

Lemma progress (s : state) :
  wired -> inv s -> signalled s = true \/ is_Some (first s) -> waited s = None -> exists s', step s s'.
Proof.
  intros Hwired Hi Hend Hwait. destruct (forallb has_ended (phases s)) eqn:Hall; [eexists; by apply step_wait|].
  destruct (not_all_ended s Hi Hall) as (i & m & p & Hm & Hp & Hne).
  assert (Hgroup : forall m, m_watches m = GroupCtx -> ctx_done m s = true).
  { intros m' Hg. unfold ctx_done. rewrite Hg. destruct Hend as [->|Hf]; [done|]. by rewrite bool_decide_eq_true_2, orb_true_r. }
  destruct (m_watches m) eqn:Hw; [by eapply member_steps; eauto|].
  destruct (Hwired m) as (m' & Hm' & Hs' & Hg'); [by eapply list_elem_of_lookup_2|done|].
  apply list_elem_of_lookup_1 in Hm' as [j Hj]. assert (Hlt : is_Some (phases s !! j)).
  { apply lookup_lt_is_Some. rewrite (inv_length _ Hi). by eapply lookup_lt_Some. }
  destruct Hlt as [q Hq]. destruct (has_ended q) eqn:Hqe; [|by eapply (member_steps s j m' q); eauto].
  eapply (member_steps s i m p); eauto. intros _. unfold ctx_done. rewrite Hw.
  eapply inv_stops; [done|exact Hj|done|exact Hq|]. by destruct q.
Qed.

Lemma run_bounded (s s' : state) (n : nat) : nsteps step n s s' -> (n + left s' <= left s)%nat.
Proof. induction 1 as [|n s1 s2 s3 Hs _ IH]; [lia|]. apply step_left in Hs. lia. Qed.

Lemma left_init : left init = (3 * length members + 2)%nat.
Proof.
  unfold left, init. cbn. assert (H : sum_list_with left_of ((fun _ => Running) <$> members) = (3 * length members)%nat); [|lia].
  induction members as [|m l IH]; [done|]. cbn in *. lia.
Qed.

(** A group that is told to stop, by the signal or by the first error, does: it takes
    boundedly many steps, cannot get stuck before [Wait] returns, and [Wait] returns after
    every goroutine has ended, with an error that one of them ended with if any did. *)
Lemma group_ends (s : state) (n : nat) :
  wired -> nsteps step n init s ->
  (n <= 3 * length members + 2)%nat /\
  (signalled s = true \/ is_Some (first s) -> (forall s', ~ step s s') -> exists r, waited s = Some r) /\
  (forall r, waited s = Some r ->
    forallb has_ended (phases s) = true /\
    (forall e, r = Some e -> exists i, phases s !! i = Some (Ended (Some e))) /\
    (r = None -> forall i p, phases s !! i = Some p -> p = Ended None)).
Proof.
  intros Hw Hn. pose proof (run_bounded _ _ _ Hn) as Hb. rewrite left_init in Hb.
  assert (Hi : inv s) by (apply group_reachable_inv, rtc_nsteps; by exists n). split_and!; [lia| |].
  - intros Hend Hstuck. destruct (waited s) as [r|] eqn:E; [by exists r|].
    destruct (progress s Hw Hi Hend E) as [s' Hs']. by destruct (Hstuck s').
  - intros r Hr. destruct (inv_waited _ Hi r Hr) as [Hall ->]. split_and!; [done|apply (inv_first _ Hi)|].
    intros Hf i p Hp. pose proof (all_ended _ _ _ Hall Hp) as He. destruct p as [| | |[e|]]; try done.
    exfalso. by eapply (inv_none _ Hi Hf).
Qed.
End Machine.
End Group.

(** * A process *)

Module Process.
Import Group.

Inductive resource := Tracing | BootContext | Database | CacheClient | Producer | Consumer | Signals.

#[export] Instance resource_eq_dec : EqDecision resource.
Proof. solve_decision. Defined.

(** The statements of [run]: one that can fail, whose error is logged and returned; one that
    cannot; either may open something. Deferring its release is a statement of its own, and
    so is registering a health check. *)
Inductive statement :=
  | Must (name : string) (opens : option resource)
  | Does (name : string) (opens : option resource)
  | Defer (r : resource)
  | Checks (check : string) (optional : bool).

Inductive event :=
  | Did (name : string)
  | Open (r : resource)
  | LogError (name : string)
  | Register (check : string) (optional : bool)
  | Serve
  | Close (r : resource).

(** The statements in order, up to the first that fails; the releases deferred so far,
    latest first; and the error. *)
Section Run.
Context (fails : string -> option string).

Definition opened (name : string) (r : option resource) : event := match r with Some r => Open r | None => Did name end.

Fixpoint boot (steps : list statement) (deferred : list resource) : list event * list resource * option string :=
  match steps with
  | [] => ([], deferred, None)
  | Must name r :: steps =>
      match fails name with
      | Some err => ([LogError name], deferred, Some err)
      | None => let '(es, deferred, err) := boot steps deferred in (opened name r :: es, deferred, err)
      end
  | Does name r :: steps => let '(es, deferred, err) := boot steps deferred in (opened name r :: es, deferred, err)
  | Defer r :: steps => boot steps (r :: deferred)
  | Checks check optional :: steps => let '(es, deferred, err) := boot steps deferred in (Register check optional :: es, deferred, err)
  end.

(** [run]: the boot, then the service until it ends with [served], then the releases. *)
Definition run (steps : list statement) (served : option string) : list event * option string :=
  match boot steps [] with
  | (es, deferred, Some err) => (es ++ (Close <$> deferred), Some err)
  | (es, deferred, None) =>
      (es ++ [Serve] ++ match served with Some _ => [LogError "serve"] | None => [] end ++ (Close <$> deferred), served)
  end.

(** ** Releases *)

Definition opens (es : list event) : list resource := omap (fun e => match e with Open r => Some r | _ => None end) es.
Definition closes (es : list event) : list resource := omap (fun e => match e with Close r => Some r | _ => None end) es.

Lemma opens_app (a b : list event) : opens (a ++ b) = opens a ++ opens b.
Proof. apply omap_app. Qed.
Lemma closes_app (a b : list event) : closes (a ++ b) = closes a ++ closes b.
Proof. apply omap_app. Qed.
Lemma closes_close (l : list resource) : closes (Close <$> l) = l /\ opens (Close <$> l) = [].
Proof. induction l as [|r l [IH1 IH2]]; [done|]. split; [|done]. unfold closes in *. cbn. by rewrite IH1. Qed.

(** Each thing that is opened has its release deferred by the next statement, and nothing
    else is released. *)
Fixpoint paired (steps : list statement) : bool :=
  match steps with
  | [] => true
  | (Must _ (Some r) | Does _ (Some r)) :: Defer r' :: steps => bool_decide (r = r') && paired steps
  | (Must _ None | Does _ None | Checks _ _) :: steps => paired steps
  | _ => false
  end.

Definition booted (steps : list statement) (deferred : list resource) : Prop :=
  let '(es, d, _) := boot steps deferred in d = reverse (opens es) ++ deferred /\ closes es = [] /\ Serve ∉ es.

Lemma booted_open (r : resource) (steps : list statement) (deferred : list resource) :
  booted steps (r :: deferred) ->
  let '(es, d, _) := boot steps (r :: deferred) in d = reverse (opens (Open r :: es)) ++ deferred /\ closes (Open r :: es) = [] /\ Serve ∉ Open r :: es.
Proof.
  unfold booted. destruct (boot steps _) as [[es d] err]. intros (-> & Hc & Hs). split_and!; [|done|set_solver].
  change (opens (Open r :: es)) with (r :: opens es). by rewrite reverse_cons, <- app_assoc.
Qed.

Lemma booted_more (e : event) (steps : list statement) (deferred : list resource) :
  opens [e] = [] -> closes [e] = [] -> e <> Serve -> booted steps deferred ->
  let '(es, d, _) := boot steps deferred in d = reverse (opens (e :: es)) ++ deferred /\ closes (e :: es) = [] /\ Serve ∉ e :: es.
Proof.
  unfold booted. destruct (boot steps _) as [[es d] err]. intros Ho Hc He (-> & Hcs & Hs).
  change (e :: es) with ([e] ++ es). rewrite opens_app, closes_app, Ho, Hc, Hcs. split_and!; [done|done|set_solver].
Qed.

Lemma boot_opens (n : nat) (steps : list statement) (deferred : list resource) :
  (length steps <= n)%nat -> paired steps = true -> booted steps deferred.
Proof.
  revert steps deferred. induction n as [|n IH]; intros steps deferred Hn Hp; destruct steps as [|st steps]; cbn in Hn; try lia;
    try (split_and!; [done|done|set_solver]).
  unfold booted.
  destruct st as [name [r|]|name [r|]|r|check optional]; cbn [paired] in Hp; try done; cbn [boot opened].
  - destruct steps as [|[| |r'|] steps]; try done. apply andb_prop in Hp as [<-%bool_decide_eq_true Hp]. cbn in Hn.
    destruct (fails name); [split_and!; [done|done|set_solver]|]. cbn [boot].
    pose proof (booted_open r steps deferred (IH steps (r :: deferred) ltac:(lia) Hp)) as H. by destruct (boot steps _) as [[es d] err].
  - destruct (fails name); [split_and!; [done|done|set_solver]|].
    pose proof (booted_more (Did name) steps deferred eq_refl eq_refl ltac:(done) (IH steps deferred ltac:(lia) Hp)) as H. by destruct (boot steps _) as [[es d] err].
  - destruct steps as [|[| |r'|] steps]; try done. apply andb_prop in Hp as [<-%bool_decide_eq_true Hp]. cbn in Hn. cbn [boot].
    pose proof (booted_open r steps deferred (IH steps (r :: deferred) ltac:(lia) Hp)) as H. by destruct (boot steps _) as [[es d] err].
  - pose proof (booted_more (Did name) steps deferred eq_refl eq_refl ltac:(done) (IH steps deferred ltac:(lia) Hp)) as H. by destruct (boot steps _) as [[es d] err].
  - pose proof (booted_more (Register check optional) steps deferred eq_refl eq_refl ltac:(done) (IH steps deferred ltac:(lia) Hp)) as H. by destruct (boot steps _) as [[es d] err].
Qed.

(** Whatever fails, what was opened is released, in reverse and last of all; the service
    ran if and only if the boot did not fail. *)
Lemma run_releases (steps : list statement) (served : option string) :
  paired steps = true ->
  let '(es, err) := run steps served in
  (exists pre, es = pre ++ (Close <$> reverse (opens es)) /\ closes pre = []) /\
  (Serve ∈ es <-> (boot steps []).2 = None) /\
  err = match (boot steps []).2 with Some e => Some e | None => served end.
Proof.
  intros Hpair. unfold run. pose proof (boot_opens _ steps [] (le_n _) Hpair) as Hb. unfold booted in Hb.
  destruct (boot steps []) as [[es d] err]. destruct Hb as (-> & Hc & Hs).
  rewrite app_nil_r. destruct (closes_close (reverse (opens es))) as [Hcc Hoo]. assert (Hcl : forall l : list resource, Serve ∉ Close <$> l).
  { intros l. rewrite list_elem_of_fmap. naive_solver. }
  destruct err as [err|]; cbn [snd].
  - split_and!; [|rewrite elem_of_app; specialize (Hcl (reverse (opens es))); naive_solver|done].
    exists es. split; [|done]. by rewrite opens_app, Hoo, app_nil_r.
  - set (mid := [Serve] ++ match served with Some _ => [LogError "serve"] | None => [] end).
    assert (Hmid : opens mid = [] /\ closes mid = []) by (by destruct served). destruct Hmid as [Hmo Hmc].
    rewrite (app_assoc [Serve]). fold mid. split_and!; [|rewrite !elem_of_app; subst mid; set_solver|done].
    exists (es ++ mid). rewrite closes_app, Hc, Hmc. split; [|done]. by rewrite !opens_app, Hmo, Hoo, !app_nil_r, <- app_assoc.
Qed.
End Run.

(** ** The services *)

(** tasks: the cache and Kafka when their addresses are set. *)
Definition tasks_steps (valkey kafka : bool) : list statement :=
  [Must "tracing" (Some Tracing); Defer Tracing;
   Does "boot context" (Some BootContext); Defer BootContext;
   Must "postgres" (Some Database); Defer Database;
   Must "migrate" None; Must "server" None; Checks "postgres" false; Does "integrations" None] ++
  (if valkey then [Must "valkey" (Some CacheClient); Defer CacheClient; Checks "valkey" true; Does "cache" None] else []) ++
  (if kafka then [Must "kafka" (Some Producer); Defer Producer; Checks "kafka" true] else []) ++
  [Does "relay" None; Does "routes" None; Does "signals" (Some Signals); Defer Signals].

Definition serve_group : list member :=
  [{| m_name := "server"; m_watches := GroupCtx; m_stops := true |};
   {| m_name := "relay"; m_watches := WorkersCtx; m_stops := false |};
   {| m_name := "janitor"; m_watches := WorkersCtx; m_stops := false |}].

(** [app_integration_enabled]. *)
Definition reportIntegrations (valkey kafka : bool) : gmap string Z :=
  <["valkey" := if valkey then 1 else 0]> (<["kafka" := if kafka then 1 else 0]> ∅).

Definition consumer_steps : list statement :=
  [Must "tracing" (Some Tracing); Defer Tracing; Does "boot context" (Some BootContext); Defer BootContext;
   Must "consumer" (Some Consumer); Defer Consumer; Must "server" None; Checks "kafka" false;
   Does "worker" None; Does "signals" (Some Signals); Defer Signals].

Definition heartbeat_steps : list statement :=
  [Must "server" None; Does "worker" None; Does "signals" (Some Signals); Defer Signals].
Definition ping_steps : list statement :=
  [Must "server" None; Does "routes" None; Does "signals" (Some Signals); Defer Signals].

(** The consumer and the heartbeat: two halves under one context. *)
Definition pair_group : list member :=
  [{| m_name := "server"; m_watches := GroupCtx; m_stops := false |}; {| m_name := "worker"; m_watches := GroupCtx; m_stops := false |}].

(** [main]: the status of the process. *)
Definition main {T : Type} (as_value : T -> Reflect.value) (b : Boot.Boot T) (run_ : T -> option string) (args : list string) : Z :=
  match (Boot.Config as_value b args).1 with
  | inl code => code
  | inr cfg => match run_ cfg with Some _ => 1 | None => 0 end
  end.

Lemma serve_wired : wired serve_group.
Proof.
  intros m _ _. exists {| m_name := "server"; m_watches := GroupCtx; m_stops := true |}. split; [by left|done].
Qed.

Definition server_returned (s : state) : Prop := exists p, phases s !! 0%nat = Some p /\ past_defer p = true.

Lemma workers_after_server (s : state) : inv serve_group s -> stopped s = true -> server_returned s.
Proof.
  intros Hi Hs. destruct (waited s) as [r|] eqn:Hw.
  - destruct (inv_waited _ _ Hi r Hw) as [Hall _]. assert (Hlt : (0 < length (phases s))%nat) by (rewrite (inv_length _ _ Hi); cbn; lia).
    apply lookup_lt_is_Some in Hlt as [p Hp]. exists p. split; [done|]. pose proof (all_ended _ _ _ Hall Hp). by destruct p.
  - destruct (inv_stopped _ _ Hi Hs Hw) as (i & m & p & Hm & Hst & Hp & Hpd).
    destruct i as [|[|[|i]]]; try (injection Hm as <-; done); [by exists p|done].
Qed.

Lemma tasks_paired (valkey kafka : bool) : paired (tasks_steps valkey kafka) = true.
Proof. by destruct valkey, kafka. Qed.

Lemma mains_paired : paired consumer_steps = true /\ paired heartbeat_steps = true /\ paired ping_steps = true.
Proof. done. Qed.

(** C16: the tasks service stops in order. The workers' context is done only after the server
    has returned, so a relay or a janitor that returns without an error has done so after
    it (one that fails returns when it fails, and stops the server in turn). Any run of the
    three has at most 11 steps, and once the signal or an error is there it cannot stop
    before [Wait] has returned, with all three ended. Whatever part of the boot fails, and
    whatever the three ended with, everything that was opened is released, in reverse and
    after everything else, and the error is nil exactly when the boot and all three ended
    without one. *)
Theorem tasks_stops_in_order (valkey kafka : bool) (fails : string -> option string) (s : state) (n : nat) :
  nsteps (step serve_group) n (init serve_group) s ->
  (stopped s = true -> server_returned s) /\
  (forall i p, (0 < i)%nat -> phases s !! i = Some p -> result p = Some None -> server_returned s) /\
  (n <= 11)%nat /\
  (signalled s = true \/ is_Some (first s) -> (forall s', ~ step serve_group s s') -> exists r, waited s = Some r) /\
  (forall r, waited s = Some r ->
    forallb has_ended (phases s) = true /\
    let '(es, err) := run fails (tasks_steps valkey kafka) r in
    (exists pre, es = pre ++ (Close <$> reverse (opens es)) /\ closes pre = []) /\
    (err = None <-> (boot fails (tasks_steps valkey kafka) []).2 = None /\ forall i p, phases s !! i = Some p -> p = Ended None)).
Proof.
  intros Hn. assert (Hi : inv serve_group s) by (apply group_reachable_inv, rtc_nsteps; by exists n).
  destruct (group_ends serve_group s n serve_wired Hn) as (Hb & Hp & Hr). split_and!; [by apply workers_after_server| |done|done|].
  - intros i p H0 Hip Hres. apply workers_after_server; [done|].
    assert (Hlt : (i < 3)%nat) by (apply lookup_lt_Some in Hip; by rewrite (inv_length _ _ Hi) in Hip).
    destruct (lookup_lt_is_Some_2 serve_group i Hlt) as [m Hm].
    apply (inv_clean _ _ Hi i m p); [done| |done|done]. destruct i as [|[|[|i]]]; [lia| | |lia]; by injection Hm as <-.
  - intros r Hwr. destruct (Hr r Hwr) as (Hall & Herr & Hok). split; [done|].
    pose proof (run_releases fails (tasks_steps valkey kafka) r (tasks_paired _ _)) as Hrun.
    destruct (run _ _ r) as [es err]. destruct Hrun as (Hpre & _ & ->). split; [done|].
    destruct (boot _ _ _).2; [naive_solver|]. split; [intros ->; by split; [|apply Hok]|intros [_ Hend]].
    destruct r as [e|]; [|done]. destruct (Herr e eq_refl) as [i Hip]. by specialize (Hend i _ Hip).
Qed.

(** The signal: the server drains and returns, then the relay stops, and the janitor. *)
Definition relay_done : state :=
  {| signalled := true; stopped := true; first := None; phases := [Deferred None; Returned None; Running]; waited := None |}.
Definition all_done : state :=
  {| signalled := true; stopped := true; first := None; phases := [Ended None; Ended None; Ended None]; waited := Some None |}.

Lemma relay_done_run : nsteps (step serve_group) 4 (init serve_group) relay_done.
Proof.
  eapply nsteps_l; [by apply step_signal|].
  eapply nsteps_l; [eapply (step_return _ _ 0 _ None); [reflexivity|reflexivity|done]|].
  eapply nsteps_l; [eapply (step_defer _ _ 0 _ None); reflexivity|].
  eapply nsteps_l; [eapply (step_return _ _ 1 _ None); [reflexivity|reflexivity|done]|]. apply nsteps_O.
Qed.

Lemma all_done_run : nsteps (step serve_group) 9 (init serve_group) all_done.
Proof.
  apply (nsteps_trans 4 5 _ relay_done); [apply relay_done_run|].
  eapply nsteps_l; [eapply (step_report _ _ 0 _ None); reflexivity|].
  eapply nsteps_l; [eapply (step_report _ _ 1 _ None); reflexivity|].
  eapply nsteps_l; [eapply (step_return _ _ 2 _ None); [reflexivity|reflexivity|done]|].
  eapply nsteps_l; [eapply (step_report _ _ 2 _ None); reflexivity|].
  eapply nsteps_l; [apply step_wait; reflexivity|]. apply nsteps_O.
Qed.

Lemma tasks_stops_in_order_witness :
  server_returned relay_done /\ forallb has_ended (phases all_done) = true /\
  let '(es, err) := run (fun _ => None) (tasks_steps false true) None in
  (exists pre, es = pre ++ (Close <$> reverse (opens es)) /\ closes pre = []) /\
  (err = None <-> (boot (fun _ => None) (tasks_steps false true) []).2 = None /\
                  forall i p, phases all_done !! i = Some p -> p = Ended None).
Proof.
  split.
  - destruct (tasks_stops_in_order false true (fun _ => None) relay_done 4 relay_done_run) as (_ & H & _).
    apply (H 1%nat (Returned None)); [lia|reflexivity|reflexivity].
  - destruct (tasks_stops_in_order false true (fun _ => None) all_done 9 all_done_run) as (_ & _ & _ & _ & H).
    exact (H None eq_refl).
Defined.

(** What is released, latest first, when the migrations fail and when the service ran. *)
Example migrations_fail :
  closes (run (fun name => if String.eqb name "migrate" then Some "dirty" else None) (tasks_steps true true) None).1 =
  [Database; BootContext; Tracing].
Proof. reflexivity. Qed.
Example clean_shutdown :
  closes (run (fun _ => None) (tasks_steps true true) None).1 = [Signals; Producer; CacheClient; Database; BootContext; Tracing].
Proof. reflexivity. Qed.

(** Only the database can take a replica of the tasks service out of rotation. *)
Lemma boot_registers (fails : string -> option string) (steps : list statement) (deferred : list resource) (check : string) (optional : bool) :
  Register check optional ∈ (boot fails steps deferred).1.1 -> Checks check optional ∈ steps.
Proof.
  revert deferred. induction steps as [|[name r|name r|r|c o] steps IH]; intros deferred; cbn; [set_solver|..].
  - destruct (fails name); [set_solver|]. specialize (IH deferred). destruct (boot _ steps _) as [[es d] err]. cbn in *. destruct r; set_solver.
  - specialize (IH deferred). destruct (boot _ steps _) as [[es d] err]. cbn in *. destruct r; set_solver.
  - intros H%IH. set_solver.
  - specialize (IH deferred). destruct (boot _ steps _) as [[es d] err]. cbn in *. rewrite !elem_of_cons. naive_solver.
Qed.

Lemma tasks_critical_checks (valkey kafka : bool) (fails : string -> option string) (served : option string) (check : string) :
  Register check false ∈ (run fails (tasks_steps valkey kafka) served).1 -> check = "postgres".
Proof.
  assert (Hclose : forall d : list resource, Register check false ∉ Close <$> d) by (intros d; rewrite list_elem_of_fmap; naive_solver).
  pose proof (boot_registers fails (tasks_steps valkey kafka) [] check false) as Hb. unfold run.
  assert (Hc : Checks check false ∈ tasks_steps valkey kafka -> check = "postgres") by (destruct valkey, kafka; cbn; set_solver).
  destruct (boot _ _ []) as [[es d] [err|]]; cbn [fst snd] in *; rewrite !elem_of_app; specialize (Hclose d); [naive_solver|].
  destruct served; set_solver.
Qed.
End Process.

(** * The example services *)

Module Examples.

(** ** heartbeat: the worker *)

(** What the loop's select takes next. *)
Inductive selected := Tick | Done.

(** The beats counted until the context is done, and whether it returned. *)
Fixpoint heartbeat_Run (beats : Z) (l : list selected) : Z * bool :=
  match l with
  | [] => (beats, false)
  | Done :: _ => (beats, true)
  | Tick :: l => heartbeat_Run (beats + 1) l
  end.

(** Every tick that is taken is one beat, the loop returns when the context is done and
    only then, and takes nothing after that. *)
Lemma heartbeat_counts (ticks : nat) (beats : Z) (l : list selected) :
  heartbeat_Run beats (replicate ticks Tick ++ Done :: l) = (beats + Z.of_nat ticks, true) /\
  heartbeat_Run beats (replicate ticks Tick) = (beats + Z.of_nat ticks, false).
Proof.
  revert beats. induction ticks as [|n IH]; intros beats; [cbn; split; f_equal; lia|].
  cbn [replicate app heartbeat_Run]. destruct (IH (beats + 1)) as [-> ->]. split; f_equal; lia.
Qed.

(** ** ping *)

Record PongResponse := { Message : string; Echo : option string }.

(** The first [msg] of the query. *)
Definition pong (query : gmap string (list string)) : PongResponse :=
  let msg := default "" (head (default [] (query !! "msg"))) in
  {| Message := "pong"; Echo := if String.eqb msg "" then None else Some msg |}.

Example pong_echoes : pong (<["msg" := ["hi"; "again"]]> ∅) = {| Message := "pong"; Echo := Some "hi" |}.
Proof. by vm_compute. Qed.
End Examples.
