(* ===== verification/Waits.v ===== *)
(** The waits of the libraries: a select over two channels, as [sleep] of the resilient
    client and of libs/kafka, [ping] of the franz-go driver, the database's readiness probe
    and [waitTimeout] of the librdkafka driver use it. A channel is the instant from which a
    receive on it succeeds, [None] for never; when both are ready the runtime picks. *)
From S2P Require Import Prelude GoError.

Module Waits.

(** ** Select *)

(** Which of two channels a select entered at [now] takes, and when; [None] is a select
    that never returns. [pick] is the choice between two ready channels. *)
Definition select (now : Z) (a b : option Z) (pick : bool) : option (bool * Z) :=
  match Z.max now <$> a, Z.max now <$> b with
  | Some x, Some y => Some (if x <? y then (true, x) else if y <? x then (false, y) else (pick, x))
  | Some x, None => Some (true, x)
  | None, Some y => Some (false, y)
  | None, None => None
  end.

(** A select returns by the earlier of its channels, and takes one that is ready. *)
Lemma select_first (now : Z) (a b : option Z) (pick side : bool) (t : Z) :
  select now a b pick = Some (side, t) ->
  now <= t /\ (exists x, (if side then a else b) = Some x /\ t = Z.max now x) /\
  forall y, a = Some y \/ b = Some y -> t <= Z.max now y.
Proof.
  unfold select. destruct a as [x|], b as [y|]; cbn; intros H; [|injection H as <- <-..|done].
  - repeat case_match; simplify_eq; (split; [lia|]);
      try destruct side; (split; [eexists; split; [reflexivity|lia]|]); intros z [[= <-]|[= <-]]; lia.
  - split; [lia|]. split; [by exists x|]. intros z [[= <-]|[=]]. lia.
  - split; [lia|]. split; [by exists y|]. intros z [[=]|[= <-]]. lia.
Qed.

Lemma select_returns (now : Z) (a b : option Z) (pick : bool) : is_Some a \/ is_Some b -> exists side t, select now a b pick = Some (side, t).
Proof. unfold select. intros [[x ->]|[y ->]]; cbn; [destruct b|destruct a]; cbn; repeat case_match; eauto. Qed.

(** ** Sleeping *)

(** [sleep] of libs/kafka and of the resilient client: whether it waited all of [d], and
    when it returns. A context is the instant it is done. *)
Definition kafka_sleep (now : Z) (ctx : option Z) (d : Z) (pick : bool) : option (bool * Z) :=
  select now (Some (now + d)) ctx pick.

Definition resilient_sleep (now : Z) (ctx : option Z) (d : Z) (pick : bool) : option (bool * Z) :=
  if d <=? 0 then Some (match ctx with Some c => now <? c | None => true end, now)
  else select now (Some (now + d)) ctx pick.

(** What every caller relies on: the call returns, never before it reports having waited,
    never later than the time it was given or the end of the context. *)
Definition slept (now : Z) (ctx : option Z) (d : Z) (r : option (bool * Z)) : Prop :=
  exists full t, r = Some (full, t) /\ now <= t <= now + Z.max d 0 /\
    (full = true -> t = now + Z.max d 0) /\
    (full = false -> exists c, ctx = Some c /\ c <= t) /\
    forall c, ctx = Some c -> t <= Z.max now c.

Lemma kafka_sleep_waits (now : Z) (ctx : option Z) (d : Z) (pick : bool) : slept now ctx d (kafka_sleep now ctx d pick).
Proof.
  unfold kafka_sleep. destruct (select_returns now (Some (now + d)) ctx pick) as (side & t & E); [eauto|].
  destruct (select_first _ _ _ _ _ _ E) as (Hn & (x & Hx & ->) & Hmin). exists side, (Z.max now x).
  pose proof (Hmin _ (or_introl eq_refl)). destruct side; [injection Hx as <-|]; split_and!; try done; try lia; eauto.
  - intros _. exists x. split; [done|]. destruct (Z.le_gt_cases x now); [lia|lia].
Qed.

(** The resilient client's [sleep] keeps the same promise, and one that has nothing to
    wait for does not touch the timer: it reports whether the context still runs. *)
Lemma resilient_sleep_waits (now : Z) (ctx : option Z) (d : Z) (pick : bool) : slept now ctx d (resilient_sleep now ctx d pick).
Proof.
  unfold resilient_sleep. destruct (Z.leb_spec d 0) as [Hd|Hd]; [|apply kafka_sleep_waits].
  eexists _, now. split_and!; try done; try lia.
  - destruct ctx as [c|]; [|done]. intros H%Z.ltb_ge. eauto.
Qed.

(** On a context that is over, the resilient client never reports a wait; libs/kafka may
    when the wait is over as well. *)
Lemma sleeps_on_a_done_context (now c d : Z) (pick : bool) : c <= now ->
  (exists t, resilient_sleep now (Some c) d pick = Some (false, t)) /\
  (d <= 0 -> kafka_sleep now (Some c) d pick = Some (pick, now)).
Proof.
  intros Hc. unfold resilient_sleep, kafka_sleep, select. cbn. split.
  - destruct (Z.leb_spec d 0); [by destruct (Z.ltb_spec now c); [lia|eauto]|]. repeat case_match; eauto; lia.
  - intros Hd. repeat case_match; try lia. repeat f_equal. lia.
Qed.

(** ** Waiting for the calls inside a client *)

(** [waitTimeout]: [zero] is when the wait group gets to zero. *)
Definition waitTimeout (now : Z) (zero : option Z) (d : Z) (pick : bool) : option (bool * Z) := select now zero (Some (now + d)) pick.

(** Closing never hangs on a call that does not return, and goes on to destroy the client
    only when there was none left. *)
Theorem waitTimeout_bounded (now : Z) (zero : option Z) (d : Z) (pick : bool) : 0 <= d ->
  exists empty t, waitTimeout now zero d pick = Some (empty, t) /\ now <= t <= now + d /\
    (empty = true -> exists z, zero = Some z /\ z <= t) /\ (empty = false -> t = now + d).
Proof.
  intros Hd. unfold waitTimeout. destruct (select_returns now zero (Some (now + d)) pick) as (side & t & E); [eauto|].
  destruct (select_first _ _ _ _ _ _ E) as (Hn & (x & Hx & ->) & Hmin). exists side, (Z.max now x). pose proof (Hmin _ (or_intror eq_refl)).
  destruct side; [|injection Hx as <-]; split_and!; try done; try lia. intros _. exists x. split; [done|lia].
Qed.

(** ** Probes *)

(** [ping] of the franz-go driver. [answer] is what the client's own ping returns and when,
    if ever; [ctx] when the context is done, with its error. *)
Definition franz_ping {E : Type} (now : Z) (answer : option (Z * option E)) (ctx : option (Z * E)) (pick : bool) : option (option E * Z) :=
  '(side, t) ← select now (fst <$> answer) (fst <$> ctx) pick;
  Some (if side : bool then mjoin (snd <$> answer) else snd <$> ctx, t).

(** A probe under a deadline returns by it, whatever the client's ping does; it reports the
    brokers reachable only if the client did. *)
Theorem franz_ping_bounded {E : Type} (now : Z) (answer : option (Z * option E)) (c : Z) (err : E) (pick : bool) :
  exists r t, franz_ping now answer (Some (c, err)) pick = Some (r, t) /\ now <= t <= Z.max now c /\
    (r = None -> exists a, answer = Some (a, None) /\ a <= t).
Proof.
  unfold franz_ping. destruct (select_returns now (fst <$> answer) (Some c) pick) as (side & t & Es); [eauto|].
  cbn [fmap option_fmap option_map fst]. rewrite Es. cbn.
  destruct (select_first _ _ _ _ _ _ Es) as (Hn & (x & Hx & ->) & Hmin). pose proof (Hmin c (or_intror eq_refl)).
  eexists _, _. split; [done|]. split; [lia|]. destruct side; [|done].
  destruct answer as [[a r]|]; [|done]. injection Hx as ->. cbn. intros ->. exists x. split; [done|lia].
Qed.

(** [WithTimeout]: a context that is done [d] from now, or when its parent is. *)
Definition WithTimeout {E : Type} (now d : Z) (deadlineExceeded : E) (ctx : option (Z * E)) : Z * E :=
  match ctx with
  | Some (c, err) => if c <=? now + d then (c, err) else (now + d, deadlineExceeded)
  | None => (now + d, deadlineExceeded)
  end.

(** [DB.ReadyCheck]: [Ping] is the pool's, given the context's end. *)
Definition ReadyCheck {E : Type} (Ping : Z * E -> option string) (now : Z) (deadlineExceeded : E) (ctx : option (Z * E)) : option string :=
  (fun err => ("postgres unreachable: " ++ err)%string) <$> Ping (WithTimeout now (2 * Go.second) deadlineExceeded ctx).

(** The pool is never asked for longer than two seconds or than the probe itself has. *)
Lemma WithTimeout_earlier {E : Type} (now d : Z) (e : E) (ctx : option (Z * E)) :
  let c := WithTimeout now d e ctx in
  c.1 <= now + d /\ (forall p, ctx = Some p -> c.1 <= p.1) /\ (c = (now + d, e) \/ ctx = Some c).
Proof. destruct ctx as [[x ex]|]; cbn; [destruct (Z.leb_spec x (now + d))|]; cbn; split_and!; auto; try lia; intros p [= <-]; cbn; lia. Qed.
End Waits.
