(* ===== verification/Api.v ===== *)
(** The tasks service's HTTP handlers (services/tasks/internal/api/api.go),
    against the interfaces of the store and of the cache. *)
From S2P Require Import Prelude GoStr Domain Database Store Paging Cache.

Module Api.
Import GoStr Domain Database.

(** ** Interfaces *)

(** [Store]: a repository with state [S]. *)
Class TaskStore (S : Type) := {
  st_Create : string -> string -> option IdempotencyKey -> S -> (Task * bool * option serror) * S;
  st_Get : string -> S -> Task + serror;
  st_List : PageRequest -> S -> Page + serror;
  st_Update : string -> Patch -> option Z -> S -> (Task * option serror) * S;
  st_Delete : string -> option Z -> S -> option serror * S
}.

(** [Cache]: reading through it, given what loading answers. *)
Class TaskCache (C : Type) := {
  ca_Get : string -> Task + serror -> C -> (Task * bool) + serror;
  ca_Warm : Task -> C -> C;
  ca_Invalidate : string -> C -> option string * C
}.

(** What the handlers rely on: a change that fails leaves the tasks as they
    were, a conditional change goes through only at its version, and a change
    moves the version. *)
Class StoreLaws (S : Type) `{TaskStore S} := {
  version_of : S -> string -> option Z;
  law_update : forall id p x s, let '((t, err), s') := st_Update id p x s in
    match err with
    | Some _ => version_of s' = version_of s
    | None => exists v, version_of s id = Some v /\ (forall w, x = Some w -> w = v) /\
        Version t = v + 1 /\ version_of s' id = Some (v + 1)
    end;
  law_conflict : forall id p v w s, version_of s id = Some w -> w <> v ->
    snd (fst (st_Update id p (Some v) s)) = Some (Dom ErrVersionMismatch)
}.

(** ** Requests and responses *)

Notation httpHeader := (gmap string (list string)).

(** [http.Header.Get] and the presence of a header. *)
Definition header_get (h : httpHeader) (k : string) : string :=
  match h !! k with Some (v :: _) => v | _ => ""%string end.
Definition header_sent (h : httpHeader) (k : string) : bool :=
  match h !! k with Some _ => true | None => false end.

Inductive body :=
| BTask (t : Task)
| BTasks (ts : list Task) (next : option string)
| BProblem (code : string)
| BFailed
| BEmpty.

Record response := { status : Z; etag : option string; extra : list (string * string); content : body }.

Definition problem (st : Z) (code : string) : response :=
  {| status := st; etag := None; extra := []; content := BProblem code |}.
Definition badRequest (code : string) : response := problem 400 code.
Definition notFound : response := problem 404 "task_not_found".

Definition quote : Z := 34.

Definition ETag (version : Z) : string := of_bytes (quote :: FormatInt version ++ [quote]).

(** ** Request parts *)

Definition maxIdempotencyKeyLength : Z := 255.
Definition HeaderIdempotencyKey : string := "Idempotency-Key".
Definition HeaderIdempotentReplay : string := "Idempotent-Replayed".
Definition HeaderCache : string := "X-Cache".

Section Parts.
(** [hex(sha256(title))]. *)
Context (sha256hex : string -> string).

Definition idempotencyKey (h : httpHeader) (title : string) : option IdempotencyKey + string :=
  let key := header_get h HeaderIdempotencyKey in
  if String.eqb key "" then
    if header_sent h HeaderIdempotencyKey then inr "Idempotency-Key must not be empty"%string else inl None
  else if maxIdempotencyKeyLength <? Z.of_nat (length (bytes key))
  then inr "Idempotency-Key must be at most 255 characters"%string
  else if existsb (fun c => (c <? 0x20) || (0x7e <? c)) (bytes key)
  then inr "Idempotency-Key must be printable ASCII"%string
  else inl (Some {| Key := key; Hash := sha256hex title |}).
End Parts.

Definition maxIfMatchLength : Z := 20.

Definition ifMatch (h : httpHeader) : option Z + string :=
  let raw := TrimSpace (header_get h "If-Match") in
  if negb (header_sent h "If-Match") || String.eqb raw "*" then inl None
  else
    let p := bytes raw in
    let n := Z.of_nat (length p) in
    if (n <? 3) || (maxIfMatchLength <? n) || negb (default 0 (head p) =? quote) || negb (default 0 (last p) =? quote)
    then inr "If-Match must be a single strong entity tag"%string
    else match ParseInt (take (length p - 2) (drop 1 p)) with
    | inr _ => inr "If-Match must carry a task version"%string
    | inl v => if v <? 1 then inr "If-Match must carry a task version"%string else inl (Some v)
    end.

(** A raw JSON member: null, a string, a boolean, or anything else. *)
Inductive raw := RNull | RString (s : string) | RBool (b : bool) | ROther.

(** The members in the order the map is ranged over. *)
Fixpoint decodePatch (ms : list (string * raw)) (req : Patch) : Patch + string :=
  match ms with
  | [] => inl req
  | (name, v) :: ms =>
      if String.eqb name "title" then
        match v with
        | RNull => inr "title must not be null"%string
        | RString s => decodePatch ms {| PTitle := Some s; PDone := PDone req |}
        | _ => inr "title: cannot unmarshal"%string
        end
      else if String.eqb name "done" then
        match v with
        | RNull => inr "done must not be null"%string
        | RBool b => decodePatch ms {| PTitle := PTitle req; PDone := Some b |}
        | _ => inr "done: cannot unmarshal"%string
        end
      else inr "unknown field"%string
  end.

(** ** Handlers *)

Section Handlers.
Context {S C : Type} `{TaskStore S} `{TaskCache C}.
(** Whether an error is a spent deadline. *)
Context (deadline : serror -> bool).

(** The error the domain sees through the wrapping. *)
Fixpoint domain_error (e : serror) : option derror :=
  match e with
  | Dom d => Some d
  | Wrapped _ e => domain_error e
  | _ => None
  end.

Definition fail (err : serror) : response :=
  if deadline err then {| status := 504; etag := None; extra := []; content := BFailed |}
  else {| status := 500; etag := None; extra := []; content := BFailed |}.

(** What a handler did: its response, the store, the cache, and how often it
    reported a committed change. *)
Record result := { res : response; sto : S; cac : C; committed : nat }.

Definition answer (r : response) (s : S) (c : C) : result := {| res := r; sto := s; cac := c; committed := 0 |}.

(** [title] is the decoded body ([inr]: the status of a body that could not be
    decoded), [id] the fresh id. *)
Definition create (sha256hex : string -> string) (h : httpHeader) (title : string + Z) (id : string) (s : S) (c : C) : result :=
  match title with
  | inr st => answer {| status := st; etag := None; extra := []; content := BFailed |} s c
  | inl raw_title =>
      match NormalizeTitle raw_title with
      | inr _ => answer (badRequest "invalid_title") s c
      | inl title =>
          match idempotencyKey sha256hex h title with
          | inr _ => answer (badRequest "invalid_idempotency_key") s c
          | inl idem =>
              let '((task, replayed, err), s) := st_Create id title idem s in
              match err with
              | Some e =>
                  match domain_error e with
                  | Some ErrIdempotencyKeyReused => answer (problem 422 "idempotency_key_reused") s c
                  | _ => answer (fail e) s c
                  end
              | None =>
                  if (replayed : bool) then
                    answer {| status := 200; etag := Some (ETag (Version task));
                              extra := [(HeaderIdempotentReplay, "true"%string)]; content := BTask task |} s c
                  else
                    {| res := {| status := 201; etag := Some (ETag (Version task));
                                 extra := [("Location", "/tasks/" ++ ID task)]%string; content := BTask task |};
                       sto := s; cac := ca_Warm task c; committed := 1 |}
              end
          end
      end
  end.

Definition get (id : string) (s : S) (c : C) : result :=
  match ca_Get id (st_Get id s) c with
  | inr e => match domain_error e with
             | Some ErrNotFound => answer notFound s c
             | _ => answer (fail e) s c
             end
  | inl (task, hit) =>
      answer {| status := 200; etag := Some (ETag (Version task));
                extra := [(HeaderCache, if (hit : bool) then "hit" else "miss")]%string; content := BTask task |} s c
  end.

(** The parameters in the order the map is ranged over. *)
Fixpoint check_params (q : list (string * list string)) : option response :=
  match q with
  | [] => None
  | (name, values) :: q =>
      if negb (String.eqb name "limit") && negb (String.eqb name "cursor")
      then Some (badRequest "unknown_parameter")
      else if (1 <? length values)%nat then Some (badRequest "repeated_parameter")
      else check_params q
  end.

Fixpoint param (q : list (string * list string)) (name : string) : option string :=
  match q with
  | [] => None
  | (n, values) :: q => if String.eqb n name then Some (default ""%string (head values)) else param q name
  end.

Definition read_limit (q : list (string * list string)) : Z + response :=
  match param q "limit" with
  | None => inl DefaultPageSize
  | Some v =>
      match ParseInt (bytes v) with
      | inl n => if (n <? 1) || (MaxPageSize <? n) then inr (badRequest "invalid_limit") else inl n
      | inr _ => inr (badRequest "invalid_limit")
      end
  end.

Definition list_ (decode : string -> Cursor + derror) (encode : Cursor -> string)
    (q : list (string * list string)) (s : S) : response :=
  match check_params q with
  | Some r => r
  | None =>
      match read_limit q with
      | inr r => r
      | inl limit =>
          match (match param q "cursor" with
                 | None => inl None
                 | Some v => match decode v with inl c => inl (Some c) | inr e => inr e end
                 end) with
          | inr _ => badRequest "invalid_cursor"
          | inl cursor =>
              match st_List {| Limit := limit; RCursor := cursor |} s with
              | inr e => fail e
              | inl page =>
                  {| status := 200; etag := None; extra := [];
                     content := BTasks (Tasks page) (encode <$> Next page) |}
              end
          end
      end
  end.

(** The answer to a failed update or delete, [None] when there was no error. *)
Definition writeChangeError (err : option serror) : option response :=
  match err with
  | None => None
  | Some e =>
      Some (match domain_error e with
            | Some ErrNotFound => notFound
            | Some ErrVersionMismatch => problem 412 "version_mismatch"
            | _ => fail e
            end)
  end.

(** A failed invalidation is logged. *)
Definition invalidate (id : string) (c : C) : C := snd (ca_Invalidate id c).

Definition update (h : httpHeader) (id : string) (raw_body : list (string * raw) + Z) (s : S) (c : C) : result :=
  match ifMatch h with
  | inr _ => answer (badRequest "invalid_if_match") s c
  | inl expect =>
      match raw_body with
      | inr st => answer {| status := st; etag := None; extra := []; content := BFailed |} s c
      | inl ms =>
          match decodePatch ms {| PTitle := None; PDone := None |} with
          | inr _ => answer (badRequest "invalid_patch") s c
          | inl req =>
              match Normalize req with
              | inr ErrEmptyPatch => answer (badRequest "empty_patch") s c
              | inr _ => answer (badRequest "invalid_title") s c
              | inl patch =>
                  let '((task, err), s) := st_Update id patch expect s in
                  match writeChangeError err with
                  | Some r => answer r s c
                  | None =>
                      {| res := {| status := 200; etag := Some (ETag (Version task)); extra := []; content := BTask task |};
                         sto := s; cac := invalidate id c; committed := 1 |}
                  end
              end
          end
      end
  end.

Definition delete (h : httpHeader) (id : string) (s : S) (c : C) : result :=
  match ifMatch h with
  | inr _ => answer (badRequest "invalid_if_match") s c
  | inl expect =>
      let '(err, s) := st_Delete id expect s in
      match writeChangeError err with
      | Some r => answer r s c
      | None =>
          {| res := {| status := 204; etag := None; extra := []; content := BEmpty |};
             sto := s; cac := invalidate id c; committed := 1 |}
      end
  end.

(** ** Protocol of the changing handlers *)

(** A response that was no change. *)
Ltac answered := cbn; repeat split; first [done|lia].

(** A handler tells the relay about a change and drops the cached task
    exactly when the store changed it: a response of 200 (update) or 204 (delete)
    comes with one notification and one invalidation, any other with neither, and
    a request refused before the store leaves the store alone. *)
Theorem change_protocol (h : httpHeader) (id : string) (b : list (string * raw) + Z) (s : S) (c : C) :
  (forall st, b = inr st -> st <> 200) ->
  let u := update h id b s c in
  let d := delete h id s c in
  (status (res u) = 200 <-> committed u = 1%nat) /\ (committed u <= 1)%nat /\
  cac u = (if Nat.eqb (committed u) 1 then invalidate id c else c) /\
  (status (res d) = 204 <-> committed d = 1%nat) /\ (committed d <= 1)%nat /\
  cac d = (if Nat.eqb (committed d) 1 then invalidate id c else c).
Proof.
  intros Hb. cbn zeta.
  assert (Hf : forall e, status (fail e) <> 200 /\ status (fail e) <> 204) by (intros e; unfold fail; case_match; cbn; lia).
  assert (Hw : forall e r, writeChangeError e = Some r -> status r <> 200 /\ status r <> 204).
  { intros [e|] r; [|done]. intros [= <-]. destruct (domain_error e) as [[]|]; cbn; try done; apply Hf. }
  assert (Hu : (status (res (update h id b s c)) = 200 <-> committed (update h id b s c) = 1%nat) /\
    (committed (update h id b s c) <= 1)%nat /\
    cac (update h id b s c) = (if Nat.eqb (committed (update h id b s c)) 1 then invalidate id c else c)).
  { unfold update. destruct (ifMatch h); [|answered]. destruct b as [ms|st]; [|specialize (Hb st eq_refl); answered].
    destruct (decodePatch _ _) as [req|]; [|answered]. destruct (Normalize req) as [p|[]]; try answered.
    destruct (st_Update _ _ _ _) as [[t err] s']. destruct (writeChangeError err) as [r|] eqn:He; [|done].
    apply Hw in He as [He _]. answered. }
  assert (Hd : (status (res (delete h id s c)) = 204 <-> committed (delete h id s c) = 1%nat) /\
    (committed (delete h id s c) <= 1)%nat /\
    cac (delete h id s c) = (if Nat.eqb (committed (delete h id s c)) 1 then invalidate id c else c)).
  { unfold delete. destruct (ifMatch h); [|answered].
    destruct (st_Delete _ _ _) as [err s']. destruct (writeChangeError err) as [r|] eqn:He; [|done].
    apply Hw in He as [_ He]. answered. }
  tauto.
Qed.

(** C38: of two clients that change a task on the strength of the same ETag, only
    one succeeds: once an update conditional on version [v] has answered 200, a
    later one conditional on [v] answers 412 and changes nothing, while the ETag
    the first one got names the version that is now current. *)
Theorem same_etag_conflicts `{!StoreLaws S} (h : httpHeader) (id : string) (v : Z) (b b' : list (string * raw))
    (p' : Patch) (s : S) (c : C) :
  ifMatch h = inl (Some v) -> status (res (update h id (inl b) s c)) = 200 ->
  (req ← (match decodePatch b' {| PTitle := None; PDone := None |} with inl r => Some r | inr _ => None end);
   match Normalize req with inl p => Some p | inr _ => None end) = Some p' ->
  let r1 := update h id (inl b) s c in
  let r2 := update h id (inl b') (sto r1) (cac r1) in
  etag (res r1) = Some (ETag (v + 1)) /\ version_of (sto r1) id = Some (v + 1) /\
  res r2 = problem 412 "version_mismatch" /\ committed r2 = 0%nat /\ version_of (sto r2) = version_of (sto r1).
Proof.
  intros Hm H1 Hp'. cbn zeta. unfold update in *. rewrite Hm in *.
  destruct (decodePatch b _) as [req|]; [|done].
  destruct (Normalize req) as [p|e]; [|destruct e; done].
  pose proof (law_update id p (Some v) s) as Hu.
  destruct (st_Update id p (Some v) s) as [[t err] s1].
  destruct err as [e|].
  { exfalso. cbn in H1. destruct (domain_error e) as [[]|]; cbn in H1; try done; unfold fail in H1; destruct (deadline e); cbn in H1; lia. }
  destruct Hu as (w & Hv & Hx & Ht & Hv'). specialize (Hx v eq_refl) as <-.
  cbn [writeChangeError res etag sto cac]. rewrite Ht. split_and!; try done.
  all: destruct (decodePatch b' _) as [req'|]; [|done]; cbn in Hp'; destruct (Normalize req') as [q|]; [|done];
    injection Hp' as ->; pose proof (law_conflict id p' v (v + 1) s1 Hv' ltac:(lia)) as Hc;
    pose proof (law_update id p' (Some v) s1) as Hu;
    destruct (st_Update id p' (Some v) s1) as [[t2 err2] s2]; cbn in Hc; subst err2; done.
Qed.

(** The store is only asked for pages the API allows: a list request is
    answered 400, or it is the store's answer for a limit from 1 to the maximum
    (which the store then takes as it is), the default when none was sent. *)
Theorem list_limit_in_range (decode : string -> Cursor + derror) (encode : Cursor -> string)
    (q : list (string * list string)) (s : S) :
  status (list_ decode encode q s) = 400 \/
  exists limit cursor, 1 <= limit <= MaxPageSize /\ Paging.page_limit limit = limit /\
    (param q "limit" = None -> limit = DefaultPageSize) /\
    list_ decode encode q s =
    match st_List {| Limit := limit; RCursor := cursor |} s with
    | inr e => fail e
    | inl page => {| status := 200; etag := None; extra := []; content := BTasks (Tasks page) (encode <$> Next page) |}
    end.
Proof.
  unfold list_. destruct (check_params q) as [r|] eqn:Hp.
  { left. revert Hp. induction q as [|[n vs] q IH]; [done|]. cbn. repeat case_match; try done; intros [= <-]; done. }
  destruct (read_limit q) as [limit|r] eqn:Hl.
  - assert (Hr : 1 <= limit <= MaxPageSize /\ (param q "limit" = None -> limit = DefaultPageSize)).
    { unfold read_limit in Hl. destruct (param q "limit").
      - destruct (ParseInt _); [|done]. destruct (Z.ltb_spec z 1), (Z.ltb_spec MaxPageSize z); cbn in Hl; simplify_eq.
        split; [lia|done].
      - injection Hl as <-. split; [unfold DefaultPageSize, MaxPageSize; lia|done]. }
    assert (Hpl : Paging.page_limit limit = limit).
    { unfold Paging.page_limit. destruct (Z.leb_spec limit 0), (Z.ltb_spec MaxPageSize limit); cbn; lia. }
    destruct (match param q "cursor" with None => _ | Some _ => _ end) as [cur|e]; [|by left].
    right. exists limit, cur. naive_solver.
  - left. unfold read_limit in Hl. repeat case_match; simplify_eq; done.
Qed.

End Handlers.

(** ** Entity tags *)

Lemma dec_length (v : Z) : 1 <= v < 10 ^ 18 -> (1 <= length (FormatInt v) <= 18)%nat.
Proof.
  intros Hv. unfold FormatInt. rewrite (proj2 (Z.ltb_ge v 0)) by lia. split.
  - destruct (parse_dec v) as (_ & Hne & _); [unfold Go.uint64_max; lia|]. destruct (dec v); [done|cbn; lia].
  - unfold dec. apply (dec_fuel_length _ _ 17). cbn. lia.
Qed.

Lemma quoted_trimmed (l : list Z) : trim_space (quote :: l ++ [quote]) = quote :: l ++ [quote].
Proof.
  apply trim_space_id; right.
  - done.
  - unfold DecodeLastRune. rewrite app_comm_cons, last_snoc. done.
Qed.

(** An ETag read back as If-Match names the version it was made from, for
    every version below 10^18, whatever white space surrounds it. *)
Theorem etag_roundtrip (v : Z) :
  1 <= v < 10 ^ 18 -> ifMatch {["If-Match"%string := [ETag v]]} = inl (Some v).
Proof.
  intros Hv. unfold ifMatch, header_get, header_sent. rewrite lookup_singleton_eq.
  assert (Hin : Go.in_int64 v) by (unfold Go.in_int64, Go.int64_min, Go.int64_max; lia).
  assert (Hby : Forall is_byte (quote :: FormatInt v ++ [quote])).
  { constructor; [done|]. apply Forall_app. split; [by apply FormatInt_bytes|by repeat constructor]. }
  assert (Hb : bytes (TrimSpace (ETag v)) = quote :: FormatInt v ++ [quote]).
  { unfold ETag. by rewrite bytes_TrimSpace, bytes_of_bytes, quoted_trimmed. }
  pose proof (dec_length v Hv) as Hl.
  assert (Hs : String.eqb (TrimSpace (ETag v)) "*" = false).
  { apply String.eqb_neq. intros He. rewrite He in Hb. vm_compute in Hb. discriminate. }
  rewrite Hs, Hb. cbn [negb orb length]. rewrite length_app. cbn [length].
  rewrite (proj2 (Z.ltb_ge _ 3)), (proj2 (Z.ltb_ge maxIfMatchLength _)) by (unfold maxIfMatchLength; lia).
  rewrite app_comm_cons, last_snoc, <- app_comm_cons. cbn [head default orb negb].
  rewrite Z.eqb_refl. cbn [negb orb drop]. rewrite drop_0.
  replace (S (length (FormatInt v) + 1) - 2)%nat with (length (FormatInt v)) by lia.
  rewrite take_app_length, ParseInt_FormatInt by done. by rewrite (proj2 (Z.ltb_ge v 1)) by lia.
Qed.

(** Other spellings of the version pass for the entity tag: quotes around
    [+3] or [03] are taken as version 3, though no ETag of the service reads so. *)
Theorem if_match_accepts_other_spellings :
  ifMatch {["If-Match"%string := [of_bytes [34; 43; 51; 34]]]} = inl (Some 3) /\
  ifMatch {["If-Match"%string := [of_bytes [34; 48; 51; 34]]]} = inl (Some 3) /\
  bytes (ETag 3) = [34; 51; 34].
Proof. vm_compute. done. Qed.

(** ** The service's store and cache behind the interfaces *)

(** The database with its consistency, at a given clock and with given event ids. *)
Record service := { sv_db : db; sv_ok : Store.store_inv sv_db }.

Definition sv_exec (s : service) (o : Store.op) : service :=
  {| sv_db := Store.exec (sv_db s) o; sv_ok := proj1 (Store.exec_follows (sv_db s) o (sv_ok s)) |}.

Section Service.
Context (now : Z) (event : db -> string).

#[export] Instance service_store : TaskStore service := {|
  st_Create id title idem s :=
    (fst (Store.Create (quiet now) (fun d => d) None ∅ (event (sv_db s)) id title idem (sv_db s)),
     sv_exec s (Store.OpCreate (quiet now) None ∅ (event (sv_db s)) id title idem));
  st_Get id s := Store.Get None id (sv_db s);
  st_List req s := @Paging.List Paging.c_collation None req (sv_db s);
  st_Update id p x s :=
    (fst (Store.Update (quiet now) ∅ (event (sv_db s)) id p x (sv_db s)),
     sv_exec s (Store.OpUpdate (quiet now) ∅ (event (sv_db s)) id p x));
  st_Delete id x s :=
    (fst (Store.Delete (quiet now) ∅ (event (sv_db s)) id x (sv_db s)),
     sv_exec s (Store.OpDelete (quiet now) ∅ (event (sv_db s)) id x))
|}.

Definition sv_version (s : service) (id : string) : option Z := Version <$> tasks (sv_db s) !! id.

Lemma service_update (id : string) (p : Patch) (x : option Z) (s : service) :
  let '((t, err), s') := st_Update id p x s in
  match err with
  | Some _ => sv_version s' = sv_version s
  | None => exists v, sv_version s id = Some v /\ (forall w, x = Some w -> w = v) /\
      Version t = v + 1 /\ sv_version s' id = Some (v + 1)
  end.
Proof.
  destruct s as [d Hi]. set (o := Store.OpUpdate (quiet now) ∅ (event d) id p x).
  set (U := Store.Update (quiet now) ∅ (event d) id p x d).
  change (st_Update id p x {| sv_db := d; sv_ok := Hi |}) with (fst U, sv_exec {| sv_db := d; sv_ok := Hi |} o).
  assert (Hd : sv_version (sv_exec {| sv_db := d; sv_ok := Hi |} o) = fun i => Version <$> tasks (snd U) !! i) by done.
  destruct (fst U) as [t err] eqn:HU. cbv beta iota. rewrite Hd. clear Hd. revert HU. subst U. unfold Store.Update.
  pose proof (inTx_cases (quiet now) None (Store.update_tx (quiet now) ∅ (event d) id p x) d) as Hc.
  pose proof (Store.inTx_error (quiet now) None (Store.update_tx (quiet now) ∅ (event d) id p x) d) as He.
  cbn zeta in Hc. destruct (inTx _ _ _ _) as [[err' out] d']. cbn [fst snd]. intros [= <- <-].
  destruct err' as [e|]; [by rewrite He|].
  destruct Hc as [[_ Hc]|(st & Hs & _ & -> & ->)]; [done|].
  apply Store.update_tx_changed in Hs as (u & Ht & Hv & _ & _ & -> & _ & ->); [|by apply (Store.si_id d Hi)].
  exists (Version u). unfold sv_version. cbn [sv_db]. rewrite Ht, lookup_insert_eq. cbn. split_and!; try done.
  intros w ->. cbn in Hv. by apply Z.eqb_eq in Hv.
Qed.

Lemma service_conflict (id : string) (p : Patch) (v w : Z) (s : service) :
  sv_version s id = Some w -> w <> v ->
  snd (fst (st_Update id p (Some v) s)) = Some (Dom ErrVersionMismatch).
Proof.
  destruct s as [d Hi]. unfold sv_version. cbn [st_Update service_store sv_db fst].
  intros Hw Hne. destruct (tasks d !! id) as [t|] eqn:Ht; [|done]. injection Hw as Hw.
  unfold Store.Update, inTx, Store.update_tx, Store.missOrMismatch, query, bind, stmt, Store.update_task, Store.task_exists.
  cbn. rewrite Ht. cbn. rewrite (proj2 (Z.eqb_neq (Version t) v)) by congruence. cbn. by rewrite Ht.
Qed.

(** The store keeps what the handlers rely on. *)
#[export] Instance service_laws : StoreLaws service :=
  {| version_of := sv_version; law_update := service_update; law_conflict := service_conflict |}.
End Service.

(** [cache.None]: every read is served by the store. *)
#[export] Instance none_cache : TaskCache unit := {|
  ca_Get _ loaded _ := match loaded with inl t => inl (t, false) | inr e => inr e end;
  ca_Warm _ c := c;
  ca_Invalidate _ c := (None, c)
|}.

(** ** Concrete requests *)

Definition demo_service : service :=
  sv_exec {| sv_db := empty_db; sv_ok := Store.store_inv_empty |} (Store.OpCreate (quiet 7) None ∅ "e1" "t1" "x" None).
Definition demo_event (d : db) : string := Itoa (next_id (ids d)).
#[local] Instance demo_store : TaskStore service := service_store 8 demo_event.
#[local] Instance demo_laws : @StoreLaws service demo_store := service_laws 8 demo_event.

Lemma change_protocol_witness :
  let u := update (fun _ => false) ∅ "t1" (inl [("done"%string, RBool true)]) demo_service tt in
  committed u = 1%nat.
Proof.
  apply (change_protocol (fun _ => false) ∅ "t1" (inl [("done"%string, RBool true)]) demo_service tt).
  - discriminate.
  - vm_compute. reflexivity.
Defined.

Lemma same_etag_conflicts_witness :
  let h : httpHeader := {["If-Match"%string := [ETag 1]]} in
  let r1 := update (fun _ => false) h "t1" (inl [("done"%string, RBool true)]) demo_service tt in
  res (update (fun _ => false) h "t1" (inl [("title"%string, RString "y")]) (sto r1) (cac r1)) = problem 412 "version_mismatch".
Proof.
  pose proof (same_etag_conflicts (fun _ => false) {["If-Match"%string := [ETag 1]]} "t1" 1
    [("done"%string, RBool true)] [("title"%string, RString "y")] {| PTitle := Some "y"%string; PDone := None |} demo_service tt) as H.
  cbv zeta in H |- *. destruct H as (_ & _ & H & _); [vm_compute; reflexivity..|exact H].
Defined.

Lemma etag_roundtrip_witness : ifMatch {["If-Match"%string := [ETag 42]]} = inl (Some 42).
Proof. apply etag_roundtrip. lia. Defined.

End Api.
