(* ===== verification/Routes.v ===== *)
(** The routes of the services (services/tasks and services/ping, internal/api): net/http's
    ServeMux for the patterns they register, which handler a request reaches, and the HTTP
    API of the tasks service as one function of requests. *)
From S2P Require Import Prelude GoStr Pgx Dsn Domain Database Store Cache Middleware Api.

(** * net/http's ServeMux *)

Module ServeMux.
Import GoStr GoURL.

(** The patterns the services register: a method and segments, each a text or a wildcard;
    none has a host, ends in a slash or matches several segments. *)
Inductive seg := Lit (s : list Z) | Wild (name : list Z).
#[export] Instance seg_eq_dec : EqDecision seg.
Proof. solve_decision. Defined.

Record pattern := { p_text : string; p_method : string; p_segs : list seg }.

Definition parse_seg (s : list Z) : seg :=
  match s with
  | 123 :: l => match last l with Some 125 => Wild (take (length l - 1) l) | _ => Lit s end
  | _ => Lit s
  end.
Definition parsePattern (text : string) : pattern :=
  let '(m, p, _) := cut 32 (bytes text) in
  {| p_text := text; p_method := of_bytes m; p_segs := parse_seg <$> split_at 47 (drop 1 p) |}.

(** [cleanPath]: [path.Clean] of the rooted path, a trailing slash kept. *)
Definition clean_step (acc : list (list Z)) (s : list Z) : list (list Z) :=
  if bool_decide (s = []) || bool_decide (s = bytes ".") then acc
  else if bool_decide (s = bytes "..") then removelast acc
  else acc ++ [s].
Definition Clean (p : list Z) : list Z :=
  match foldl clean_step [] (split_at 47 p) with [] => [47] | l => concat ((fun s => 47 :: s) <$> l) end.
Definition cleanPath (p : list Z) : list Z :=
  match p with
  | [] => [47]
  | c :: _ =>
      let p := if c =? 47 then p else 47 :: p in
      let np := Clean p in
      if bool_decide (last p = Some 47) && negb (bool_decide (np = [47])) then np ++ [47] else np
  end.

(** The segments of a path, unescaped; a slash at the end is one too. *)
Definition pathUnescape (s : list Z) : list Z := default s (unescape encodePath s).
Fixpoint last_slash (l : list (list Z)) : list (list Z) :=
  match l with
  | [] => []
  | [s] => [if bool_decide (s = []) then [47] else pathUnescape s]
  | s :: l => pathUnescape s :: last_slash l
  end.
Definition segments (p : list Z) : list (list Z) := last_slash (split_at 47 (drop 1 p)).

(** Below a node of the routing tree: the patterns left with what they still have to match.
    A text goes before a wildcard, which matches anything but the slash at the end. *)
Definition lit_child (s : list Z) (n : list (list seg * pattern)) : list (list seg * pattern) :=
  omap (fun '(l, p) => match l with Lit t :: l => if bool_decide (t = s) then Some (l, p) else None | _ => None end) n.
Definition wild_child (n : list (list seg * pattern)) : list (list seg * pattern) :=
  omap (fun '(l, p) => match l with Wild _ :: l => Some (l, p) | _ => None end) n.

Fixpoint matchPath (n : list (list seg * pattern)) (segs : list (list Z)) (matches : list (list Z)) : option (pattern * list (list Z)) :=
  match segs with
  | [] => head (omap (fun '(l, p) => match l with [] => Some (p, matches) | _ => None end) n)
  | s :: segs =>
      match matchPath (lit_child s n) segs matches with
      | Some x => Some x
      | None => if bool_decide (s = [47]) then None else matchPath (wild_child n) segs (matches ++ [s])
      end
  end.

Definition method_node (pats : list pattern) (m : string) : list (list seg * pattern) :=
  (fun p => (p_segs p, p)) <$> filter (fun p => p_method p = m) pats.

(** A GET pattern answers HEAD too. *)
Definition match_ (pats : list pattern) (method : string) (path : list Z) : option (pattern * list (list Z)) :=
  match matchPath (method_node pats method) (segments path) [] with
  | Some x => Some x
  | None => if String.eqb method "HEAD" then matchPath (method_node pats "GET") (segments path) [] else None
  end.

Fixpoint insert_method (m : string) (l : list string) : list string :=
  match l with [] => [m] | x :: l' => if String.leb m x then m :: l else x :: insert_method m l' end.

(** [matchingMethods]: the registered methods that match the path, and HEAD where GET does, sorted. *)
Definition matchingMethods (pats : list pattern) (path : list Z) : list string :=
  let ms := filter (fun m => is_Some (matchPath (method_node pats m) (segments path) [])) (remove_dups (p_method <$> pats)) in
  foldr insert_method [] (if bool_decide ("GET" ∈ ms) then remove_dups ("HEAD" :: ms) else ms).

Fixpoint join_methods (l : list string) : string :=
  match l with [] => "" | [m] => m | m :: l => m ++ ", " ++ join_methods l end.

(** What [findHandler] answers. *)
Inductive found :=
  | Handler_ (p : pattern) (values : list (list Z))
  | Redirect (location : list Z) (p : option pattern)
  | MethodNotAllowed (allow : string)
  | NotFound.

Definition findHandler (pats : list pattern) (method : string) (escapedPath : list Z) : found :=
  let path := if String.eqb method "CONNECT" then escapedPath else cleanPath escapedPath in
  let n := match_ pats method path in
  if negb (bool_decide (path = escapedPath)) then Redirect path (fst <$> n)
  else match n with
       | Some (p, values) => Handler_ p values
       | None => match matchingMethods pats path with [] => NotFound | ms => MethodNotAllowed (join_methods ms) end
       end.
End ServeMux.

(** * The tasks service *)

Module Routes.
Import GoStr GoURL ServeMux Domain Database Api.

Inductive endpoint := ECreate | EList | EGet | EUpdate | EDelete.

(** [Register]. *)
Definition tasks_routes : list (pattern * endpoint) :=
  [(parsePattern "POST /tasks", ECreate);
   (parsePattern "GET /tasks", EList);
   (parsePattern "GET /tasks/{id}", EGet);
   (parsePattern "PATCH /tasks/{id}", EUpdate);
   (parsePattern "DELETE /tasks/{id}", EDelete)].
Definition tasks_mux : list pattern := fst <$> tasks_routes.
Definition endpoint_of (p : pattern) : option endpoint :=
  snd <$> head (filter (fun x => p_text x.1 = p_text p) tasks_routes).

(** The ping service's. *)
Definition ping_mux : list pattern := [parsePattern "GET /ping"; parsePattern "GET /version"].

(** A request: its method and escaped path, its headers and parameters, and its body as the
    two handlers that have one decode it ([inr]: the status of a body that could not be);
    [r_id] is the id minted for a new task. *)
Record request := {
  r_method : string;
  r_path : list Z;
  r_header : gmap string (list string);
  r_query : list (string * list string);
  r_title : string + Z;
  r_patch : list (string * raw) + Z;
  r_id : string
}.

Section Serve.
Context {S C : Type} `{TaskStore S} `{TaskCache C} (deadline : serror -> bool) (sha256hex : string -> string)
        (decode : string -> Cursor + derror) (encode : Cursor -> string).

Notation result := (@Api.result S C).

(** [PathValue("id")]. *)
Definition path_id (values : list (list Z)) : string := of_bytes (default [] (head values)).

Definition call (e : endpoint) (values : list (list Z)) (r : request) (s : S) (c : C) : result :=
  match e with
  | ECreate => create deadline sha256hex (r_header r) (r_title r) (r_id r) s c
  | EList => answer (list_ deadline decode encode (r_query r) s) s c
  | EGet => get deadline (path_id values) s c
  | EUpdate => update deadline (r_header r) (path_id values) (r_patch r) s c
  | EDelete => delete deadline (r_header r) (path_id values) s c
  end.

(** What the mux and the routes make of a request; what no handler answers is a problem
    (the chain's [route]). *)
Definition unrouted (st : Z) (extra : list (string * string)) : response := {| status := st; etag := None; extra := extra; content := BFailed |}.
Definition serve (r : request) (s : S) (c : C) : result :=
  match findHandler tasks_mux (r_method r) (r_path r) with
  | Handler_ p values => match endpoint_of p with Some e => call e values r s c | None => answer (unrouted 404 []) s c end
  | Redirect location (Some _) => answer (unrouted 301 [("Location", of_bytes location)]) s c
  | Redirect _ None => answer (unrouted 301 []) s c
  | MethodNotAllowed allow => answer (unrouted 405 [("Allow", allow)]) s c
  | NotFound => answer (unrouted 404 []) s c
  end.
End Serve.

(** ** The routing table *)

(** What the service does with a method and the segments of a clean path. *)
Inductive routed := To (e : endpoint) (id : option (list Z)) | Refused (allow : string) | Unknown.
Definition table (method : string) (segs : list (list Z)) : routed :=
  match segs with
  | [t] =>
      if bool_decide (t = bytes "tasks") then
        if String.eqb method "POST" then To ECreate None
        else if String.eqb method "GET" || String.eqb method "HEAD" then To EList None
        else Refused "GET, HEAD, POST"
      else Unknown
  | [t; id] =>
      if bool_decide (t = bytes "tasks") && negb (bool_decide (id = [47])) then
        if String.eqb method "GET" || String.eqb method "HEAD" then To EGet (Some id)
        else if String.eqb method "PATCH" then To EUpdate (Some id)
        else if String.eqb method "DELETE" then To EDelete (Some id)
        else Refused "DELETE, GET, HEAD, PATCH"
      else Unknown
  | _ => Unknown
  end.
Lemma matchPath_nil (segs : list (list Z)) (m : list (list Z)) : matchPath [] segs m = None.
Proof. revert m. induction segs as [|x segs IH]; intros m; cbn; [done|]. rewrite IH. destruct (bool_decide _); [done|apply IH]. Qed.

(** The nodes below each method. *)
Lemma node_of (m : string) :
  method_node tasks_mux m =
  if String.eqb m "POST" then [([Lit (bytes "tasks")], parsePattern "POST /tasks")]
  else if String.eqb m "GET" then [([Lit (bytes "tasks")], parsePattern "GET /tasks"); ([Lit (bytes "tasks"); Wild (bytes "id")], parsePattern "GET /tasks/{id}")]
  else if String.eqb m "PATCH" then [([Lit (bytes "tasks"); Wild (bytes "id")], parsePattern "PATCH /tasks/{id}")]
  else if String.eqb m "DELETE" then [([Lit (bytes "tasks"); Wild (bytes "id")], parsePattern "DELETE /tasks/{id}")]
  else [].
Proof.
  unfold method_node, tasks_mux, tasks_routes. cbn [fmap list_fmap fst]. rewrite !filter_cons.
  destruct (String.eqb_spec m "POST") as [->|H1]; [vm_compute; reflexivity|]. destruct (String.eqb_spec m "GET") as [->|H2]; [vm_compute; reflexivity|].
  destruct (String.eqb_spec m "PATCH") as [->|H3]; [vm_compute; reflexivity|]. destruct (String.eqb_spec m "DELETE") as [->|H4]; [vm_compute; reflexivity|].
  rewrite !decide_False; [done|vm_compute; congruence..].
Qed.

(** One text segment, and one with an id below it. *)
Lemma match_one (p : pattern) (segs : list (list Z)) :
  matchPath [([Lit (bytes "tasks")], p)] segs [] = match segs with [t] => if bool_decide (t = bytes "tasks") then Some (p, []) else None | _ => None end.
Proof.
  destruct segs as [|t segs]; [done|]. cbn [matchPath lit_child wild_child omap list_omap]. rewrite matchPath_nil.
  destruct (bool_decide_reflect (bytes "tasks" = t)) as [<-|Hne].
  - destruct segs as [|u segs]; cbn [matchPath lit_child wild_child omap list_omap]; [by rewrite (bool_decide_eq_true_2 (bytes "tasks" = bytes "tasks"))|].
    rewrite !matchPath_nil. by destruct (bool_decide (u = [47])), (bool_decide (bytes "tasks" = [47])).
  - rewrite matchPath_nil. destruct segs; [|by destruct (bool_decide _)]. rewrite (bool_decide_eq_false_2 (t = bytes "tasks")) by congruence. by destruct (bool_decide _).
Qed.

Lemma match_id (p : pattern) (segs : list (list Z)) :
  matchPath [([Lit (bytes "tasks"); Wild (bytes "id")], p)] segs [] =
  match segs with [t; id] => if bool_decide (t = bytes "tasks") && negb (bool_decide (id = [47])) then Some (p, [id]) else None | _ => None end.
Proof.
  destruct segs as [|t segs]; [done|]. cbn [matchPath lit_child wild_child omap list_omap]. rewrite matchPath_nil.
  destruct (bool_decide_reflect (bytes "tasks" = t)) as [<-|Hne].
  - destruct segs as [|u segs]; cbn [matchPath lit_child wild_child omap list_omap]; [by destruct (bool_decide (bytes "tasks" = [47]))|].
    rewrite matchPath_nil. destruct segs as [|v segs]; cbn [matchPath lit_child wild_child omap list_omap].
    + rewrite (bool_decide_eq_true_2 (bytes "tasks" = bytes "tasks")) by done. cbn [andb]. by destruct (bool_decide (u = [47])), (bool_decide (bytes "tasks" = [47])).
    + rewrite !matchPath_nil. by destruct (bool_decide (u = [47])), (bool_decide (v = [47])), (bool_decide (bytes "tasks" = [47])).
  - rewrite matchPath_nil. destruct segs as [|u [|? ?]]; try (by destruct (bool_decide _)).
    rewrite (bool_decide_eq_false_2 (t = bytes "tasks")) by congruence. by destruct (bool_decide _).
Qed.

Lemma match_get (p q : pattern) (segs : list (list Z)) :
  matchPath [([Lit (bytes "tasks")], p); ([Lit (bytes "tasks"); Wild (bytes "id")], q)] segs [] =
  match matchPath [([Lit (bytes "tasks")], p)] segs [] with Some x => Some x | None => matchPath [([Lit (bytes "tasks"); Wild (bytes "id")], q)] segs [] end.
Proof.
  rewrite match_one, match_id. destruct segs as [|t segs]; [done|]. cbn [matchPath lit_child wild_child omap list_omap]. rewrite matchPath_nil.
  destruct (bool_decide_reflect (bytes "tasks" = t)) as [<-|Hne].
  - destruct segs as [|u segs]; cbn [matchPath lit_child wild_child omap list_omap]; [by rewrite (bool_decide_eq_true_2 (bytes "tasks" = bytes "tasks"))|].
    rewrite matchPath_nil. destruct segs as [|v segs]; cbn [matchPath lit_child wild_child omap list_omap].
    + rewrite (bool_decide_eq_true_2 (bytes "tasks" = bytes "tasks")) by done. cbn [andb]. by destruct (bool_decide (u = [47])), (bool_decide (bytes "tasks" = [47])).
    + rewrite !matchPath_nil. by destruct (bool_decide (u = [47])), (bool_decide (v = [47])), (bool_decide (bytes "tasks" = [47])).
  - rewrite matchPath_nil. destruct segs as [|u [|? ?]]; try (by destruct (bool_decide _)).
    all: rewrite (bool_decide_eq_false_2 (t = bytes "tasks")) by congruence; by destruct (bool_decide _).
Qed.
(** The shapes of paths the service knows. *)
Inductive shape := Tasks_ | Task_ (id : list Z) | Other_.
Definition shape_of (segs : list (list Z)) : shape :=
  match segs with
  | [t] => if bool_decide (t = bytes "tasks") then Tasks_ else Other_
  | [t; id] => if bool_decide (t = bytes "tasks") && negb (bool_decide (id = [47])) then Task_ id else Other_
  | _ => Other_
  end.

Lemma node_matches (m : string) (segs : list (list Z)) :
  matchPath (method_node tasks_mux m) segs [] =
  match shape_of segs with
  | Tasks_ => if String.eqb m "POST" then Some (parsePattern "POST /tasks", []) else if String.eqb m "GET" then Some (parsePattern "GET /tasks", []) else None
  | Task_ id => if String.eqb m "GET" then Some (parsePattern "GET /tasks/{id}", [id])
                else if String.eqb m "PATCH" then Some (parsePattern "PATCH /tasks/{id}", [id])
                else if String.eqb m "DELETE" then Some (parsePattern "DELETE /tasks/{id}", [id]) else None
  | Other_ => None
  end.
Proof.
  rewrite node_of. unfold shape_of.
  destruct (String.eqb_spec m "POST") as [->|]; [rewrite match_one; destruct segs as [|t [|u [|v l]]]; try done; [by destruct (bool_decide _)|by destruct (_ && _)]|].
  destruct (String.eqb_spec m "GET") as [->|]; [rewrite match_get, match_one, match_id; destruct segs as [|t [|u [|v l]]]; try done; [by destruct (bool_decide _)|by destruct (_ && _)]|].
  destruct (String.eqb_spec m "PATCH") as [->|]; [rewrite match_id; destruct segs as [|t [|u [|v l]]]; try done; [by destruct (bool_decide _)|by destruct (_ && _)]|].
  destruct (String.eqb_spec m "DELETE") as [->|]; [rewrite match_id; destruct segs as [|t [|u [|v l]]]; try done; [by destruct (bool_decide _)|by destruct (_ && _)]|].
  rewrite matchPath_nil. destruct segs as [|t [|u [|v l]]]; try done; [by destruct (bool_decide _)|by destruct (_ && _)].
Qed.

Lemma methods_of (path : list Z) :
  matchingMethods tasks_mux path =
  match shape_of (segments path) with Tasks_ => ["GET"; "HEAD"; "POST"] | Task_ _ => ["DELETE"; "GET"; "HEAD"; "PATCH"] | Other_ => [] end.
Proof.
  unfold matchingMethods. replace (remove_dups (p_method <$> tasks_mux)) with ["POST"; "GET"; "PATCH"; "DELETE"] by (vm_compute; reflexivity).
  assert (Hf : filter (fun m => is_Some (matchPath (method_node tasks_mux m) (segments path) [])) ["POST"; "GET"; "PATCH"; "DELETE"] =
    match shape_of (segments path) with Tasks_ => ["POST"; "GET"] | Task_ _ => ["GET"; "PATCH"; "DELETE"] | Other_ => [] end).
  { rewrite !filter_cons, filter_nil, !node_matches. cbn [String.eqb Ascii.eqb Bool.eqb]. by destruct (shape_of (segments path)). }
  rewrite Hf. destruct (shape_of (segments path)); vm_compute; reflexivity.
Qed.

(** Every request reaches the handler its method and path name, with the id in the path
    unescaped; another method on a known path is told the allowed ones, HEAD among them where
    GET is; anything else is not found. *)
Theorem tasks_routing (method : string) (path : list Z) :
  (if String.eqb method "CONNECT" then path else cleanPath path) = path ->
  match table method (segments path) with
  | To e id => exists p, findHandler tasks_mux method path = Handler_ p (option_list id) /\ endpoint_of p = Some e
  | Refused allow => findHandler tasks_mux method path = MethodNotAllowed allow
  | Unknown => findHandler tasks_mux method path = NotFound
  end.
Proof.
  intros Hclean. unfold findHandler. rewrite Hclean, bool_decide_eq_true_2 by done. cbn [negb]. unfold match_. rewrite methods_of, !node_matches.
  assert (Ht : table method (segments path) = match shape_of (segments path) with
    | Tasks_ => if String.eqb method "POST" then To ECreate None else if String.eqb method "GET" || String.eqb method "HEAD" then To EList None else Refused "GET, HEAD, POST"
    | Task_ id => if String.eqb method "GET" || String.eqb method "HEAD" then To EGet (Some id) else if String.eqb method "PATCH" then To EUpdate (Some id)
                  else if String.eqb method "DELETE" then To EDelete (Some id) else Refused "DELETE, GET, HEAD, PATCH"
    | Other_ => Unknown end).
  { unfold table, shape_of. destruct (segments path) as [|t [|u [|v l]]]; try done; [by destruct (bool_decide _)|by destruct (_ && _)]. }
  rewrite Ht. clear Ht.
  destruct (shape_of (segments path)) as [|id|]; [| |by destruct (String.eqb method "HEAD")].
  - destruct (String.eqb_spec method "POST") as [->|]; [eexists; split; [reflexivity|vm_compute; reflexivity]|].
    destruct (String.eqb_spec method "GET") as [->|]; [eexists; split; [reflexivity|vm_compute; reflexivity]|].
    destruct (String.eqb_spec method "HEAD") as [->|]; [eexists; split; [reflexivity|vm_compute; reflexivity]|done].
  - destruct (String.eqb_spec method "GET") as [->|]; [eexists; split; [reflexivity|vm_compute; reflexivity]|].
    destruct (String.eqb_spec method "HEAD") as [->|]; [eexists; split; [reflexivity|vm_compute; reflexivity]|].
    destruct (String.eqb_spec method "PATCH") as [->|]; [eexists; split; [reflexivity|vm_compute; reflexivity]|].
    destruct (String.eqb_spec method "DELETE") as [->|]; [eexists; split; [reflexivity|vm_compute; reflexivity]|done].
Qed.

Lemma tasks_routing_witness :
  exists p, findHandler tasks_mux "PATCH" (bytes "/tasks/a%20b") = Handler_ p [bytes "a b"] /\ endpoint_of p = Some EUpdate.
Proof. apply (tasks_routing "PATCH" (bytes "/tasks/a%20b")). vm_compute. reflexivity. Defined.

(** ** Requests on the service *)

Section Served.
Context {S C : Type} `{TaskStore S} `{TaskCache C} (deadline : serror -> bool) (sha256hex : string -> string)
        (decode : string -> Cursor + derror) (encode : Cursor -> string).
Notation serve := (serve deadline sha256hex decode encode).

Lemma found_matches (method : string) (path : list Z) (p : pattern) (values : list (list Z)) :
  findHandler tasks_mux method path = Handler_ p values -> match_ tasks_mux method path = Some (p, values).
Proof.
  unfold findHandler. destruct (bool_decide_reflect ((if String.eqb method "CONNECT" then path else cleanPath path) = path)) as [->|]; [|done]. cbn [negb].
  destruct (match_ _ _ _) as [[q vs]|]; [by intros [= -> ->]|]. by destruct (matchingMethods _ _).
Qed.

(** Only POST, PATCH and DELETE can change anything: every other request, whatever its path,
    headers and body, leaves the store and the cache as they are and wakes no relay. *)
Theorem safe_methods_change_nothing (r : request) (s : S) (c : C) :
  r_method r ∉ ["POST"; "PATCH"; "DELETE"] ->
  sto (serve r s c) = s /\ cac (serve r s c) = c /\ committed (serve r s c) = 0%nat.
Proof.
  intros Hm. unfold Routes.serve. destruct (findHandler _ _ _) as [p values|loc [q|]|allow|] eqn:Hf; try done.
  apply found_matches in Hf. unfold match_ in Hf. rewrite !node_matches in Hf.
  assert (Hne : String.eqb (r_method r) "POST" = false /\ String.eqb (r_method r) "PATCH" = false /\ String.eqb (r_method r) "DELETE" = false)
    by (split_and!; apply String.eqb_neq; set_solver). destruct Hne as (H1 & H2 & H3). rewrite H1, H2, H3 in Hf.
  assert (Hp : endpoint_of p = Some EList \/ endpoint_of p = Some EGet).
  { destruct (shape_of _) as [|id|], (String.eqb (r_method r) "GET"), (String.eqb (r_method r) "HEAD"); cbn in Hf; try done; injection Hf as <- <-; vm_compute; auto. }
  destruct Hp as [-> | ->]; cbn [call]; [done|]. unfold get. destruct (ca_Get _ _ _) as [[task hit]|e]; [done|]. by destruct (domain_error e) as [[]|].
Qed.
End Served.
(** ** The mux under the server's chain *)

(** What the chain of [Middleware] sees of the mux; a redirect writes its own response. *)
Definition muxed_of (program : pattern -> list (list Z) -> Middleware.context -> list Middleware.action * Middleware.outcome) (f : found) : Middleware.muxed :=
  match f with
  | Handler_ p values => Middleware.Matched (p_text p) (program p values)
  | Redirect location (Some p) =>
      Middleware.Matched (p_text p) (fun _ => ([Middleware.ASetHeader "Location" (of_bytes location); Middleware.AWriteHeader 301], Middleware.Returned))
  | Redirect location None => Middleware.Uncleaned (of_bytes location)
  | MethodNotAllowed allow => Middleware.NotAllowed allow
  | NotFound => Middleware.NoPath
  end.

(** However requests are made, their route has one of two templates: metrics and logs of the
    service have a bounded number of series. *)
Theorem tasks_route_templates program (method : string) (path : list Z) (text : string) run :
  muxed_of program (findHandler tasks_mux method path) = Middleware.Matched text run -> Middleware.routeOf text ∈ ["/tasks"; "/tasks/{id}"].
Proof.
  assert (Hm : forall m q p vs, match_ tasks_mux m q = Some (p, vs) -> Middleware.routeOf (p_text p) ∈ ["/tasks"; "/tasks/{id}"]).
  { intros m q p vs. unfold match_. rewrite !node_matches. destruct (shape_of (segments q)) as [|id|]; cbn [String.eqb Ascii.eqb Bool.eqb];
      repeat case_match; intros Hx; simplify_eq; apply list_elem_of_In; vm_compute; auto. }
  destruct (findHandler tasks_mux method path) as [p values|loc [q|]|allow|] eqn:Hf; cbn [muxed_of]; intros Hx; try done; injection Hx as <- _.
  - eapply Hm. by apply found_matches.
  - unfold findHandler in Hf. destruct (match_ tasks_mux method _) as [[p vs]|] eqn:Hp; cbn in Hf.
    + destruct (negb _); [|done]. injection Hf as _ <-. by eapply Hm.
    + destruct (negb _); [done|]. by destruct (matchingMethods _ _).
Qed.
End Routes.
