(* ===== verification/Bodies.v ===== *)
(** The JSON bodies of the HTTP API (libs/contracts, httpx's DecodeJSON, the tasks handlers):
    the contract's types as [json.Marshal] writes them, and what the handlers read of a
    request's bytes. *)
From S2P Require Import Prelude GoStr GoTime GoJSON Domain Database Worker Wire Store Cache Api Middleware Dsn Routes.

Module Bodies.
Import GoStr GoJSON Domain Wire Api.

(** ** The contract's types *)

Definition optional {A} (k : string) (f : A -> json) (x : option A) : list (list Z * json) :=
  match x with Some x => [(bytes k, f x)] | None => [] end.

Definition CreateTaskRequest_json (Title : string) : json := JObj [(bytes "title", str Title)].
Definition UpdateTaskRequest_json (Done : option bool) (Title : option string) : json := JObj (optional "done" JBool Done ++ optional "title" str Title).

(** [toWire] of a task, and the body of a page. *)
Definition Task_json (t : Task) : json :=
  JObj [(bytes "created_at", str (GoTime.rfc3339 (CreatedAt t))); (bytes "done", JBool (Done t)); (bytes "id", str (ID t));
        (bytes "title", str (Title t)); (bytes "version", int (Version t))].
Definition TaskList_json (NextCursor : option string) (ts : list Task) : json :=
  JObj (optional "next_cursor" str NextCursor ++ [(bytes "tasks", JArr (Task_json <$> ts))]).

(** ** Reading a body *)

(** [DecodeJSON]: the bytes hold one value and nothing after it; [tooBig]: the limit cut the
    body before the value ended. *)
Definition decode_body {A} (read : json -> option A) (tooBig : bool) (b : list Z) : A + Z :=
  if tooBig then inr 413
  else match Parse b with
       | Some v => match read v with Some x => inl x | None => inr 400 end
       | None => inr 400
       end.

(** Into [CreateTaskRequest]: other members are ignored, null leaves the title empty. *)
Definition title_member (acc : string * bool) (kv : list Z * json) : string * bool :=
  let '(t, ok) := acc in
  if is_field "title" kv.1 then let '(t, fine) := set_string kv.2 t in (t, ok && fine) else acc.
Definition read_create (v : json) : option string :=
  match v with
  | JNull => Some ""
  | JObj l => match foldl title_member ("", true) l with (t, true) => Some t | (_, false) => None end
  | _ => None
  end.

(** Into [map[string]json.RawMessage]: the last value of a name; null is the empty map. *)
Definition raw_of (v : json) : raw :=
  match v with JNull => RNull | JStr s => RString (of_bytes s) | JBool b => RBool b | _ => ROther end.
Definition set_member (acc : list (string * raw)) (kv : list Z * json) : list (string * raw) :=
  filter (fun x => x.1 <> of_bytes kv.1) acc ++ [(of_bytes kv.1, raw_of kv.2)].
Definition read_patch (v : json) : option (list (string * raw)) :=
  match v with JNull => Some [] | JObj l => Some (foldl set_member [] l) | _ => None end.

Definition title_of_body (tooBig : bool) (b : list Z) : string + Z := decode_body read_create tooBig b.
Definition patch_of_body (tooBig : bool) (b : list Z) : list (string * raw) + Z := decode_body read_patch tooBig b.

(** The request the routes serve, from the bytes of its body. *)
Definition request_of (method : string) (path : list Z) (header : gmap string (list string)) (query : list (string * list string))
    (tooBig : bool) (b : list Z) (id : string) : Routes.request :=
  {| Routes.r_method := method; Routes.r_path := path; Routes.r_header := header; Routes.r_query := query;
     Routes.r_title := title_of_body tooBig b; Routes.r_patch := patch_of_body tooBig b; Routes.r_id := id |}.

(** Other members, another case, a repeated member: the last title counts. *)
Definition quoted (s : string) : list Z := 34 :: bytes s ++ [34].
Example create_body_liberal :
  title_of_body false (bytes "  {" ++ quoted "TITLE" ++ bytes ": null, " ++ quoted "x" ++ bytes ": [1e3], " ++ quoted "title" ++ bytes " :" ++ quoted "a\u0021" ++ bytes "} ") = inl "a!".
Proof. vm_compute. reflexivity. Qed.
Example trailing_data : title_of_body false (bytes "{} x") = inr 400 /\ patch_of_body false (bytes "[]") = inr 400.
Proof. vm_compute. done. Qed.

(** ** What a client writes, the handlers read *)

Lemma good_str (s : string) : Valid (bytes s) = true -> good (str s).
Proof. intros H. split; [apply bytes_range|done]. Qed.

Lemma create_body (title : string) : Valid (bytes title) = true -> title_of_body false (Marshal (CreateTaskRequest_json title)) = inl title.
Proof.
  intros Hv. unfold title_of_body, decode_body. rewrite parse_marshal; [|cbn -[bytes good_string]; split_and!; try done; by apply good_str|done].
  cbn [read_create foldl CreateTaskRequest_json title_member fst snd].
  change (is_field "title" (bytes "title")) with true. cbn. by rewrite of_bytes_bytes.
Qed.

(** A patch a client encodes is the patch the handler applies, whichever fields it sets. *)
Theorem patch_body_roundtrip (done_ : option bool) (title : option string) :
  (forall t, title = Some t -> Valid (bytes t) = true) ->
  exists ms, patch_of_body false (Marshal (UpdateTaskRequest_json done_ title)) = inl ms /\
    decodePatch ms {| PTitle := None; PDone := None |} = inl {| PTitle := title; PDone := done_ |}.
Proof.
  intros Hv. unfold patch_of_body, decode_body. rewrite parse_marshal.
  - destruct done_ as [d|], title as [t|]; eexists; (split; [reflexivity|]); cbn; rewrite ?of_bytes_bytes; done.
  - assert (Hs : forall t, title = Some t -> good (str t)) by (intros t H; by apply good_str, Hv).
    destruct done_ as [d|], title as [t|]; cbn -[bytes good_string str]; repeat split; try apply bytes_range; try done; by apply Hs.
  - by destruct done_, title.
Qed.
End Bodies.
